(* ===== verification/_CoqProject ===== *)
-Q . S2P
Prelude.v
Words.v
Text.v
Json.v
Scheduler.v
Auth.v
Stores.v
AuthHandshake.v
Enrolment.v
Session.v
PeerShare.v
Checksum.v
Transport.v
WgTransport.v
Packet.v
Routing.v
WgServer.v
WgPeers.v
WgTasks.v
TcpForwarder.v
PollWake.v
Bootstrap.v
Pcap.v
NetAddr.v
NetworkRuntime.v
Client.v
Tunnel.v
Android.v
PeerRuntime.v
UdpIcmp.v
UdpTasks.v
Status.v
TcpFlows.v
Startup.v
Dial.v
Admission.v
Acme.v
EndToEnd.v
Accept.v
Native.v
Pairing.v
