(* ===== verification/Prelude.v ===== *)
(** * Verification of bonded

    Bonded carries the IP packets of a device over several network paths at once.  A client reads
    packets from a TUN device, numbers them as session frames and sends them over one of its paths
    (TCP, WebSocket, QUIC or WireGuard, directly or relayed through a peer); the server authenticates
    each connection and forwards the packets, through a TUN device or through a TCP/IP stack of its own;
    the Linux client puts the frames that come back in order.  The sources are Rust, under [src/crates]:

    - [bonded-core]: the data both ends share (frames, transports, identities, peer sharing, configuration);
    - [bonded-server]: listeners, handshakes, stores, forwarder, TUN bridge, WireGuard endpoint,
      bootstrap HTTP endpoint, status page, start-up;
    - [bonded-client]: dialling, the packet loop, certificate trust, peer discovery and relaying;
    - [bonded-ffi]: the session of the Android application and its entry points.

    ** Conventions

    Machine integers are [Z] with their width written out ([wrapping_add 64], [saturating_add 64],
    [in_u 64]); bytes are [list Z], texts [string] (the UTF-8 bytes of a Rust string).  Fallible code
    returns [outcome E A]: [Ok], [Err e], or [Panic] where the source can panic (indexing, [unwrap],
    [expect], poisoned locks), so that the absence of a panic is a theorem.  State is passed explicitly;
    files are a map in which reads and writes may fail; concurrent tasks are steps of a relation over
    their shared state, and theorems hold of every reachable state.  A queue of the source is a list, and
    what the outside does (the outcome of a send, the branch of a [select!], the order of a hash map,
    the clock, random bytes) is an argument.

    Third-party code is a class of operations (base64, ed25519, SHA-256, X25519, serde_json's and toml's
    text, boringtun's [Tunn], smoltcp's interface, rustls' acceptor and quinn's endpoint, the mDNS daemon, the Java
    service of the application, the network in Dial.v), and what is relied on is a class of laws or a
    named hypothesis of the theorem; each property that has one comes with a witness in which
    a concrete function takes its place (the [Sample] module at the end of each file).

    ** Files

    - Prelude.v: this text, [outcome] and its monad, machine arithmetic, files, hints, general lemmas.
    - Words.v, Text.v, NetAddr.v: integers as bytes; UTF-8 and Rust's string operations; addresses and
      their texts as the standard library parses and prints them.
    - Json.v: JSON values and the reading of [derive(Deserialize)] structs.
    - Scheduler.v: [bonded-core/src/scheduler.rs]; the trait is a class with two instances.
    - Session.v: [bonded-core/src/session.rs]: [SessionFrame], [encode], [decode], [SessionState] with
      [create_outbound_frame] and [ingest_inbound], and the specification they refine.
    - Auth.v: [bonded-core/src/auth.rs]: key pairs, challenges, invite tokens.
    - Stores.v: [invite_tokens.rs] and [authorized_keys.rs] of the server, with the watcher.
    - AuthHandshake.v: [auth_handshake.rs] and the client's handshakes in [bonded-client/src/lib.rs], as
      programs that send and receive; [run] against any peer, [link] of both ends.
    - Enrolment.v: the same authorization, split at its file accesses, for two devices at once.
    - PeerShare.v, PeerRuntime.v: [peer_share.rs], [peer_relay.rs], [peer_listener.rs],
      [peer_discovery.rs], [peer_runtime.rs]: introductions, registrations, discovery, the two tasks.
    - Checksum.v, Packet.v, TcpForwarder.v, PollWake.v, UdpIcmp.v: [smoltcp_forwarder.rs]: checksums,
      parsers and builders; the poll thread with its pending and active connections; how the thread is
      woken and ended; UDP flows and ICMP probes.
    - Listeners.v: the forwarder's listening sockets over a stack that listens as smoltcp documents.
    - UdpTasks.v: the forwarder's UDP tasks and the tracker they share, interleaved.
    - TcpFlows.v: the bridge tasks of its TCP connections and the statistics they share with the thread.
    - Transport.v, WgTransport.v: [bonded-core/src/transport.rs]: framing over byte streams, WebSocket
      messages, replayed bytes; session frames inside WireGuard.
    - Routing.v: [session_registry.rs], [tun_bridge.rs] and the connection tasks of [main.rs],
      [bootstrap.rs] and [quic.rs] as one state machine.
    - WgServer.v, WgPeers.v, WgTasks.v: [wireguard.rs]: peer registry and leases; the receiving loop and
      the tunnels, with the server's own copy of the IPv4 header; the tasks that return frames.
    - Bootstrap.v: [bootstrap.rs] with the client's requests and [cert_proof.rs]: reading, routing and
      answering HTTP requests, certificate proof.
    - Pcap.v, Status.v: [tunnel_pcap.rs] and the TCP dump; [status.rs] with the snapshots it shows, [health.rs].
    - NetworkRuntime.v: [network_runtime.rs]: address arithmetic and the changes to the host.
    - Startup.v: [config.rs] and [main] of the server: the order of start-up, its files and failures.
    - Admission.v: handshakes, stores, registrations and bindings as one gateway over time, with the
      operator's edits, reloads and restarts between its connections.
    - Acme.v: [acme.rs] and the reload in [main]: the renewal loop against any certificate authority.
    - Client.v: path establishment and the packet loop of [bonded-client/src/lib.rs].
    - Tunnel.v: that loop, the task of its connection and the TUN bridge as one system.
    - Android.v: [bonded-ffi/src/lib.rs]: session slot, worker, heartbeat, snapshot and its JSON.
    - Dial.v: how each kind of path is dialled and trusted ([establish_*] and [request_bootstrap_json] of
      [bonded-client/src/lib.rs], the verifiers of [cert_proof.rs]), as a free monad over network operations.
    - EndToEnd.v: the HTTP/3 side of [quic.rs], [pairing_qr.rs], and client and server together.
    - Accept.v: the accept loops of [main.rs], [bootstrap.rs] and [quic.rs] with the certificate slot they
      share, each accepted connection a step of the gateway of Admission.v.
    - Native.v: the entry points of [bonded-ffi/src/lib.rs] over its global state, the calls back into Java
      that protect sockets, the redemption of an invite.
    - Pairing.v: the pairing code, its redemption on Android and the bootstrap listener together.

    ** What the theorems show

    - Tunnel: from the client's device to the server's and back, with other clients around, packets come
      out once and in order, and whatever is on its way can go on (Tunnel.v).
    - Sessions: frames delivered in any order, lost or repeated, come out once, in order, without gaps
      (Session.v); framing survives every way of cutting the stream and every cancellation (Transport.v,
      WgTransport.v); the server's tasks deliver return packets to the session that owns the address
      (Routing.v); bytes of a forwarded TCP connection are neither lost nor repeated under every interleaving
      (TcpFlows.v), and connections stay distinguishable (TcpForwarder.v); no command for the poll thread waits while it sleeps
      (PollWake.v); the tracker shows the UDP flows and answers go to the port that asked (UdpTasks.v).
    - Trust: a server that accepts a key has seen a signature under it, and the key was authorized or
      paid for with an invite (AuthHandshake.v, Stores.v); relayed connections are bound to a consumer
      only under a registration the server signed (PeerShare.v, PeerRuntime.v); over the whole life of a
      gateway, every open session is justified by a grant, a proof and, if relayed, an introduction, and a
      revoked device stays out (Admission.v); the listeners move the server only by steps of that gateway,
      and a connection that fails changes nothing (Accept.v); the certificate proof is accepted exactly for the server's
      certificate (Bootstrap.v); against every network, nothing of the handshake is sent to an unverified
      peer and no unprotected socket connects (Dial.v); the sockets of an Android session connect only after a
      registered service agreed to protect them (Native.v).
    - Renewal and pairing: an order serves the right challenge certificate and leaves files and slot as
      stated for every failure, and certificates are renewed in time (Acme.v); the pairing code of a
      started server lets a new device in (EndToEnd.v).
    - State: leases, captures, stores and the start-up files survive a restart (WgServer.v, Pcap.v,
      Startup.v); the host is restored when a start fails (NetworkRuntime.v, Startup.v); the status the
      applications show is the worker's (Android.v).
    - Errors: which inputs make a task panic, which exchanges are refused, and defects of the code:
      the QUIC handshake that cannot complete, the WireGuard endpoint that processes its first datagram
      twice, the return task that tears its peer down, the pin that needs no key, the bootstrap that
      falls back to plain HTTP, the certificate proof that goes stale with a renewal, the poll thread
      that outlives its session, the QUIC endpoint that keeps the old certificate (Accept.v), the invite
      redeemed in clear text (Native.v), the pairing code that Android cannot redeem (Pairing.v), the
      failed write that ends the TUN bridge (Routing.v), the repeated SYN
      that joins two connections (Listeners.v), the end of a remote that never reaches the client
      (TcpFlows.v), and two devices that pair at the same time.

    ** Fuel and bounds

    Recursion that is not structural has a fuel that provably suffices: draining the reorder buffer
    takes its size plus one; folding a 32-bit checksum three rounds; the search for a free address all
    254 octets; reading a capture and splitting or trimming a text its length; [link] of two handshakes
    nine exchanges, more than either end has messages; a service round of the forwarder the bytes it can
    move.  Draining a WireGuard tunnel ends as soon as the tunnel says it is done, and the theorem says
    so for every fuel from there on.  A time limit in Dial.v cuts the program after any number of operations.

    ** Not modelled

    What happens inside rustls, quinn and the operating system when a TLS or QUIC configuration is built or
    a socket is bound (the outcome is an argument), the queue smoltcp's interface reads packets from, the
    rendering of the pairing QR code, the fixed HTML of the status page, argument parsing, logging and the
    panic hook, the closing of transports and sockets, the integration tests, and the applications in Dart
    and Kotlin.  A conversion of a JNI argument is an argument that may be a failure.  A cycle of a
    connection task (drain, then one branch) is one step, with the number of frames the drain found as an
    argument; in Accept.v the whole task of an accepted connection is one step.  Handshakes are one step of
    the server, except in Enrolment.v; a read or a write of a file is one step everywhere. *)

From stdpp Require Import base tactics list gmap strings.
From Stdlib Require Import ZArith Lia.

Open Scope Z_scope.

(** * Outcomes of Rust functions *)

(** [Ok] and [Err] are Rust's [Result]; [Panic] is a thread that unwinds: an index or a slice out
    of range, an [expect] on an error, an arithmetic overflow. *)
Inductive outcome (E A : Type) : Type :=
  | Ok (a : A)
  | Err (e : E)
  | Panic.
Arguments Ok {E A} _.
Arguments Err {E A} _.
Arguments Panic {E A}.

#[global] Instance outcome_ret E : MRet (outcome E) := @Ok E.

#[global] Instance outcome_bind E : MBind (outcome E) := fun A B k m =>
  match m with
  | Ok a => k a
  | Err e => Err e
  | Panic => Panic
  end.

#[global] Instance outcome_fmap E : FMap (outcome E) := fun A B f m =>
  match m with
  | Ok a => Ok (f a)
  | Err e => Err e
  | Panic => Panic
  end.

#[global] Instance outcome_eq_dec E A `{EqDecision E, EqDecision A} : EqDecision (outcome E A).
Proof. solve_decision. Defined.

(** Rust's [Result::map_err]. *)
Definition map_err {E F A} (f : E -> F) (m : outcome E A) : outcome F A :=
  match m with
  | Ok a => Ok a
  | Err e => Err (f e)
  | Panic => Panic
  end.

(** Rust's [Option::ok_or]. *)
Definition ok_or {E A} (e : E) (o : option A) : outcome E A :=
  match o with
  | Some a => Ok a
  | None => Err e
  end.

(** Rust's [Option::expect]: no value is a panic. *)
Definition expect_some {E A} (o : option A) : outcome E A :=
  match o with
  | Some a => Ok a
  | None => Panic
  end.

(** Rust's [Result::expect]: an error is a panic. *)
Definition expect_ok {E F A} (m : outcome E A) : outcome F A :=
  match m with
  | Ok a => Ok a
  | Err _ => Panic
  | Panic => Panic
  end.

(** Rust's [Result::ok]. *)
Definition ok_option {E A} (m : outcome E A) : option A :=
  match m with
  | Ok a => Some a
  | _ => None
  end.

(** Rust's [Result::is_ok]. *)
Definition is_ok {E A} (m : outcome E A) : bool :=
  match m with
  | Ok _ => true
  | _ => false
  end.

Definition no_panic {E A} (m : outcome E A) : Prop := m <> Panic.

(** * Notations of the development *)

Declare Scope bonded_scope.
Delimit Scope bonded_scope with bonded.

(** A Rust [if cond { return e }] before the rest of the body. *)
Notation "'return_if' c 'with' e ';;' k" := (if c then e else k)
  (at level 100, c at level 99, e at level 99, k at level 200, right associativity,
   format "'return_if'  c  'with'  e  ';;' '//' k") : bonded_scope.

(** Lengths as Rust's [usize], read as integers. *)
Notation "'len' l" := (Z.of_nat (length l)) (at level 10, l at level 9) : bonded_scope.

Open Scope bonded_scope.

(** * Machine integers *)

(** An unsigned [w]-bit integer is a [Z] in [0, 2^w). *)
Definition in_u (w z : Z) : Prop := 0 <= z < 2 ^ w.
#[global] Instance in_u_dec w z : Decision (in_u w z).
Proof. unfold in_u. apply _. Defined.

Definition wrapping_add (w a b : Z) : Z := (a + b) mod 2 ^ w.
Definition saturating_add (w a b : Z) : Z := Z.min (a + b) (2 ^ w - 1).
Definition saturating_sub (a b : Z) : Z := Z.max 0 (a - b).
Definition checked_add (w a b : Z) : option Z :=
  if decide (a + b < 2 ^ w) then Some (a + b) else None.
Definition checked_mul (w a b : Z) : option Z :=
  if decide (a * b < 2 ^ w) then Some (a * b) else None.
(** A checked [+] of a debug build: overflow is a panic. *)
Definition add_or_panic {E} (w a b : Z) : outcome E Z := expect_some (checked_add w a b).
(** [z as uW]: truncation. *)
Definition cast_u (w z : Z) : Z := z mod 2 ^ w.

Definition u64_MAX : Z := 2 ^ 64 - 1.

(** * Bytes and slices *)

Definition is_byte (z : Z) : Prop := 0 <= z < 256.
#[global] Instance is_byte_dec z : Decision (is_byte z).
Proof. unfold is_byte. apply _. Defined.

Abbreviation bytes := (list Z) (only parsing).
Abbreviation bytes_ok l := (Forall is_byte l).

(** [s[i]] *)
Definition index {E A} (s : list A) (i : nat) : outcome E A := expect_some (s !! i).

(** [s[a..b]]: panics unless [a <= b <= s.len()]. *)
Definition slice {E A} (s : list A) (a b : nat) : outcome E (list A) :=
  if decide (a <= b /\ b <= length s)%nat then Ok (take (b - a) (drop a s)) else Panic.

(** [s[a..]]: panics unless [a <= s.len()]. *)
Definition slice_from {E A} (s : list A) (a : nat) : outcome E (list A) :=
  if decide (a <= length s)%nat then Ok (drop a s) else Panic.

(** [s[a..a + src.len()].copy_from_slice(src)] *)
Definition copy_at {E A} (s : list A) (a : nat) (src : list A) : outcome E (list A) :=
  if decide (a + length src <= length s)%nat
  then Ok (take a s ++ src ++ drop (a + length src) s)
  else Panic.

(** [s[i] = x] *)
Definition store {E A} (s : list A) (i : nat) (x : A) : outcome E (list A) := copy_at s i [x].

Arguments slice : simpl never.
Arguments slice_from : simpl never.
Arguments copy_at : simpl never.
Arguments store : simpl never.

(** * Automation *)

Create HintDb bonded discriminated.
Create Rewrite HintDb bonded.

(** Unfolds the outcome monad and simplifies equations between outcomes. *)
Ltac simplify_outcome :=
  repeat (progress (unfold mbind, outcome_bind, mret, outcome_ret, fmap, outcome_fmap in *;
                    simpl in *; simplify_eq)).

(** Case analysis on every test of the goal, keeping the arithmetic facts. *)
Ltac case_tests :=
  repeat match goal with
    | |- context [decide ?P] => destruct (decide P)
    | |- context [bool_decide ?P] => destruct (bool_decide_reflect P)
    | |- context [if ?b then _ else _] => destruct b eqn:?
    end.

(** The value a successful branch returned: cases on the matches of a hypothesis. *)
Ltac split_outcome H :=
  repeat match type of H with
    | context [match ?x with _ => _ end] => destruct x eqn:?; simplify_outcome; try done
    end.

(** ** Outcomes *)

Lemma Ok_inj {E A} (x y : A) : @Ok E A x = Ok y -> x = y.
Proof. congruence. Qed.

(** ** Machine integers *)

Lemma wrapping_add_small w a b : in_u w (a + b) -> wrapping_add w a b = a + b.
Proof. intros H. by apply Z.mod_small. Qed.

Lemma wrapping_add_in_u w a b : 0 <= w -> in_u w (wrapping_add w a b).
Proof. intros Hw. apply Z.mod_pos_bound. by apply Z.pow_pos_nonneg. Qed.

Lemma cast_u_small w z : in_u w z -> cast_u w z = z.
Proof. intros H. by apply Z.mod_small. Qed.

Lemma cast_u_in_u w z : 0 <= w -> in_u w (cast_u w z).
Proof. intros Hw. apply Z.mod_pos_bound. by apply Z.pow_pos_nonneg. Qed.

Lemma saturating_add_le w a b : saturating_add w a b <= a + b.
Proof. unfold saturating_add. lia. Qed.

Lemma saturating_add_exact w a b : in_u w (a + b) -> saturating_add w a b = a + b.
Proof. unfold in_u, saturating_add. lia. Qed.

#[export] Hint Resolve wrapping_add_in_u cast_u_in_u saturating_add_le : bonded.

(** ** Slices *)

Lemma index_lt {E A} `{!Inhabited A} (s : list A) (i : nat) :
  (i < length s)%nat -> @index E A s i = Ok (s !!! i).
Proof.
  intros Hi. unfold index, expect_some.
  by rewrite (list_lookup_lookup_total_lt s i Hi).
Qed.

Lemma index_Ok_inv {E A} (s : list A) (i : nat) x : @index E A s i = Ok x -> s !! i = Some x.
Proof. unfold index, expect_some. destruct (s !! i); congruence. Qed.

Lemma slice_ok {E A} (s : list A) (a b : nat) :
  (a <= b)%nat -> (b <= length s)%nat -> @slice E A s a b = Ok (take (b - a) (drop a s)).
Proof. intros. unfold slice. rewrite decide_True; [done | lia]. Qed.

Lemma slice_from_ok {E A} (s : list A) (a : nat) :
  (a <= length s)%nat -> @slice_from E A s a = Ok (drop a s).
Proof. intros. unfold slice_from. by rewrite decide_True. Qed.

Lemma copy_at_ok {E A} (s : list A) (a : nat) src :
  (a + length src <= length s)%nat ->
  @copy_at E A s a src = Ok (take a s ++ src ++ drop (a + length src) s).
Proof. intros. unfold copy_at. by rewrite decide_True. Qed.

Lemma copy_at_length {E A} (s : list A) (a : nat) src s' :
  @copy_at E A s a src = Ok s' -> length s' = length s.
Proof.
  unfold copy_at. case_decide; intros [=<-].
  rewrite !length_app, length_take, length_drop. lia.
Qed.

(** Writing over a middle part of known length. *)
Lemma copy_at_app {E A} (l m r src : list A) (a : nat) :
  a = length l -> length src = length m ->
  @copy_at E A (l ++ m ++ r) a src = Ok (l ++ src ++ r).
Proof.
  intros -> Hlen. rewrite copy_at_ok by (rewrite !length_app; lia).
  rewrite take_app_length, Hlen, <- (length_app l m).
  by rewrite (app_assoc l m r) at 1; rewrite drop_app_length.
Qed.

Lemma slice_app {E A} (l m r : list A) (a b : nat) :
  a = length l -> b = (length l + length m)%nat -> @slice E A (l ++ m ++ r) a b = Ok m.
Proof.
  intros -> ->. rewrite slice_ok; [| lia | rewrite !length_app; lia].
  rewrite drop_app_length. f_equal.
  replace (length l + length m - length l)%nat with (length m) by lia.
  apply take_app_length.
Qed.

#[export] Hint Rewrite @length_app @length_take @length_drop @length_replicate : bonded.

(** ** Lists and finite maps *)

(** A left fold with an accumulating list as part of the state. *)
Lemma foldl_snoc {A B} (f : A -> B -> A) (l : list B) b a :
  foldl f a (l ++ [b]) = f (foldl f a l) b.
Proof. by rewrite foldl_app. Qed.

Lemma bytes_ok_app (l k : list Z) : bytes_ok (l ++ k) <-> bytes_ok l /\ bytes_ok k.
Proof. apply Forall_app. Qed.

(** Induction two elements at a time, for loops that read words. *)
Lemma list_pair_ind {A} (P : list A -> Prop) :
  P [] -> (forall a, P [a]) -> (forall a b l, P l -> P (a :: b :: l)) -> forall l, P l.
Proof.
  intros H0 H1 H2 l. enough (P l /\ forall a, P (a :: l)) by tauto.
  induction l as [|x l [IH1 IH2]]; split; auto.
Qed.

Lemma store_insert {E A} (s : list A) (i : nat) x :
  (i < length s)%nat -> @store E A s i x = Ok (<[i := x]> s).
Proof.
  intros Hi. unfold store. rewrite copy_at_ok by (simpl; lia). f_equal. simpl.
  rewrite insert_take_drop by done. by rewrite Nat.add_1_r.
Qed.
