(* ===== verification/Words.v ===== *)
(** Integers as bytes: the big-endian and little-endian conversions the sources use
    ([put_u32], [get_u64], [to_be_bytes], [from_be_bytes], [to_le_bytes]) and their round trips. *)

From stdpp Require Import base tactics list.
From Stdlib Require Import ZArith Lia.
From S2P Require Import Prelude.
Open Scope Z_scope.

(** * Definitions *)

Fixpoint le_bytes (n : nat) (z : Z) : list Z :=
  match n with
  | O => []
  | S n => z mod 256 :: le_bytes n (z / 256)
  end.

Fixpoint le_val (l : list Z) : Z :=
  match l with
  | [] => 0
  | b :: l => b + 256 * le_val l
  end.

Definition be_bytes (n : nat) (z : Z) : list Z := rev (le_bytes n z).
Definition be_val (l : list Z) : Z := le_val (rev l).

(** [u16::from_be_bytes([s[i], s[i + 1]])] *)
Definition be16_at {E} (s : list Z) (i : nat) : outcome E Z :=
  a ← index s i; b ← index s (S i); Ok (be_val [a; b]).

(** * Lemmas *)

Lemma length_le_bytes n z : length (le_bytes n z) = n.
Proof. revert z; induction n as [|n IH]; intros z; simpl; [done | by rewrite IH]. Qed.

Lemma length_be_bytes n z : length (be_bytes n z) = n.
Proof. unfold be_bytes. by rewrite length_rev, length_le_bytes. Qed.

Lemma le_bytes_ok n z : bytes_ok (le_bytes n z).
Proof.
  revert z; induction n as [|n IH]; intros z; simpl; constructor; [|done].
  unfold is_byte. pose proof (Z.mod_pos_bound z 256). lia.
Qed.

Lemma be_bytes_ok n z : bytes_ok (be_bytes n z).
Proof. apply Forall_rev, le_bytes_ok. Qed.

Lemma le_val_bytes n z : le_val (le_bytes n z) = z mod 256 ^ Z.of_nat n.
Proof.
  revert z; induction n as [|n IH]; intros z; [by rewrite Z.mod_1_r|].
  cbn [le_bytes le_val]. rewrite IH, Nat2Z.inj_succ, Z.pow_succ_r by lia.
  rewrite Z.rem_mul_r by lia. lia.
Qed.

Lemma le_bytes_val l : bytes_ok l -> le_bytes (length l) (le_val l) = l.
Proof.
  induction 1 as [|b l Hb _ IH]; [done|]. cbn [length le_bytes le_val]. unfold is_byte in Hb.
  f_equal.
  - rewrite Z.mul_comm, Z.mod_add by lia. by apply Z.mod_small.
  - rewrite Z.mul_comm, Z.div_add, Z.div_small by lia. by rewrite Z.add_0_l.
Qed.

Lemma be_val_bytes n z : be_val (be_bytes n z) = z mod 256 ^ Z.of_nat n.
Proof. unfold be_val, be_bytes. by rewrite rev_involutive, le_val_bytes. Qed.

Lemma be_val_bytes_small n z :
  in_u (8 * Z.of_nat n) z -> be_val (be_bytes n z) = z.
Proof.
  intros H. rewrite be_val_bytes. apply Z.mod_small. revert H. unfold in_u.
  by rewrite Z.pow_mul_r by lia.
Qed.

Lemma be_bytes_val l : bytes_ok l -> be_bytes (length l) (be_val l) = l.
Proof.
  intros H. unfold be_bytes, be_val. rewrite <- length_rev, le_bytes_val.
  - apply rev_involutive.
  - by apply Forall_rev.
Qed.

Lemma le_val_bound l : bytes_ok l -> 0 <= le_val l < 256 ^ Z.of_nat (length l).
Proof.
  induction 1 as [|b l Hb _ IH]; [done|]. cbn [length le_val]. unfold is_byte in Hb.
  rewrite Nat2Z.inj_succ, Z.pow_succ_r by lia. lia.
Qed.

Lemma be_val_in_u n l : bytes_ok l -> length l = n -> in_u (8 * Z.of_nat n) (be_val l).
Proof.
  intros H <-. unfold be_val, in_u. rewrite Z.pow_mul_r by lia.
  rewrite <- (length_rev l). by apply le_val_bound, Forall_rev.
Qed.

Lemma be_bytes_cast n z : be_bytes n (cast_u (8 * Z.of_nat n) z) = be_bytes n z.
Proof.
  rewrite <- (be_bytes_val (be_bytes n z)) by apply be_bytes_ok.
  rewrite length_be_bytes, be_val_bytes. unfold cast_u. by rewrite Z.pow_mul_r by lia.
Qed.

(** The explicit bytes of a 16-bit integer. *)
Lemma be_bytes_2 z : be_bytes 2 z = [(z / 256) mod 256; z mod 256].
Proof. done. Qed.

Lemma be_val_2 a b : be_val [a; b] = 256 * a + b.
Proof. unfold be_val; simpl. lia. Qed.

Lemma be16_at_ok {E} (s : list Z) i :
  (S i < length s)%nat -> @be16_at E s i = Ok (be_val [s !!! i; s !!! S i]).
Proof. intros. unfold be16_at. rewrite !index_lt by lia. done. Qed.

#[export] Hint Rewrite length_le_bytes length_be_bytes : bonded.
#[export] Hint Resolve le_bytes_ok be_bytes_ok : bonded.
