(* ===== verification/Text.v ===== *)
(** Text: UTF-8 validity of byte sequences and the string operations of Rust's standard library the
    sources use ([trim], [lines], [split], [split_once], [strip_prefix], [eq_ignore_ascii_case],
    [to_ascii_lowercase], decimal and hexadecimal numbers).  A Rust string is the sequence of its
    UTF-8 bytes, here a Rocq [string]. *)

From stdpp Require Import base tactics list strings countable pretty.
From Stdlib Require Import ZArith Lia Ascii Wf_nat.
From S2P Require Import Prelude.
Open Scope Z_scope.

(** * Definitions *)

(** ** UTF-8 *)

Definition in_range (lo hi b : Z) : bool := (lo <=? b) && (b <=? hi).
Definition cont (b : Z) : bool := in_range 0x80 0xBF b.

(** The well-formed byte sequences of [core::str::from_utf8]. *)
Fixpoint utf8_valid (l : list Z) : bool :=
  match l with
  | [] => true
  | a :: l1 =>
      if in_range 0 0x7F a then utf8_valid l1
      else match l1 with
        | b :: l2 =>
            if in_range 0xC2 0xDF a then cont b && utf8_valid l2
            else match l2 with
              | c :: l3 =>
                  if in_range 0xE0 0xEF a then
                    (if a =? 0xE0 then in_range 0xA0 0xBF b
                     else if a =? 0xED then in_range 0x80 0x9F b else cont b)
                    && cont c && utf8_valid l3
                  else match l3 with
                    | d :: l4 =>
                        in_range 0xF0 0xF4 a &&
                        (if a =? 0xF0 then in_range 0x90 0xBF b
                         else if a =? 0xF4 then in_range 0x80 0x8F b else cont b)
                        && cont c && cont d && utf8_valid l4
                    | [] => false
                    end
              | [] => false
              end
        | [] => false
        end
  end.

(** ** Strings as lists of bytes *)

Fixpoint string_bytes (s : string) : list Z :=
  match s with
  | EmptyString => []
  | String a s => Z.of_N (N_of_ascii a) :: string_bytes s
  end.

Fixpoint bytes_string (l : list Z) : string :=
  match l with
  | [] => EmptyString
  | b :: l => String (ascii_of_N (Z.to_N b)) (bytes_string l)
  end.

(** ** Whitespace *)

(** The UTF-8 encodings of the characters with the Unicode property [White_Space]. *)
Definition white_space : list (list Z) :=
  [[9]; [10]; [11]; [12]; [13]; [32]; [0xC2; 0x85]; [0xC2; 0xA0]; [0xE1; 0x9A; 0x80]] ++
  ((fun b => [0xE2; 0x80; b]) <$> [0x80; 0x81; 0x82; 0x83; 0x84; 0x85; 0x86; 0x87; 0x88; 0x89; 0x8A;
                                   0xA8; 0xA9; 0xAF]) ++
  [[0xE2; 0x81; 0x9F]; [0xE3; 0x80; 0x80]].

(** [l] without the prefix [p]. *)
Fixpoint strip_list (p l : list Z) : option (list Z) :=
  match p, l with
  | [], _ => Some l
  | a :: p, b :: l => if a =? b then strip_list p l else None
  | _ :: _, [] => None
  end.

(** The first of the patterns that is a prefix is taken off. *)
Fixpoint strip_any (ps : list (list Z)) (l : list Z) : option (list Z) :=
  match ps with
  | [] => None
  | p :: ps => match strip_list p l with Some l' => Some l' | None => strip_any ps l end
  end.

(** White space is taken off one character at a time; each step shortens the text. *)
Fixpoint strip_all (fuel : nat) (ps : list (list Z)) (l : list Z) : list Z :=
  match fuel with
  | O => l
  | S fuel => match strip_any ps l with Some l' => strip_all fuel ps l' | None => l end
  end.

Definition trim_start_bytes (l : list Z) : list Z := strip_all (length l) white_space l.
Definition trim_end_bytes (l : list Z) : list Z :=
  rev (strip_all (length l) (@rev Z <$> white_space) (rev l)).

(** [str::trim_end] and [str::trim] *)
Definition trim_end (s : string) : string := bytes_string (trim_end_bytes (string_bytes s)).
Definition trim (s : string) : string :=
  bytes_string (trim_start_bytes (trim_end_bytes (string_bytes s))).

Definition newline : string := String "010"%char EmptyString.

Definition is_empty (s : string) : bool := match s with EmptyString => true | _ => false end.

(** ** Lower case *)

Definition lower_ascii (a : ascii) : ascii :=
  let n := N_of_ascii a in
  if (65 <=? n)%N && (n <=? 90)%N then ascii_of_N (n + 32) else a.

(** [str::to_ascii_lowercase] *)
Fixpoint to_ascii_lowercase (s : string) : string :=
  match s with
  | EmptyString => EmptyString
  | String a s => String (lower_ascii a) (to_ascii_lowercase s)
  end.

(** [str::eq_ignore_ascii_case] *)
Definition eq_ignore_ascii_case (a b : string) : bool :=
  bool_decide (to_ascii_lowercase a = to_ascii_lowercase b).

(** ** Searching *)

(** [str::strip_prefix] *)
Fixpoint strip_prefix (p s : string) : option string :=
  match p, s with
  | EmptyString, _ => Some s
  | String a p, String b s => if decide (a = b) then strip_prefix p s else None
  | String _ _, EmptyString => None
  end.

(** [str::split_once]: at the first occurrence of the pattern. *)
Fixpoint split_once (p s : string) : option (string * string) :=
  match strip_prefix p s with
  | Some rest => Some (EmptyString, rest)
  | None =>
      match s with
      | EmptyString => None
      | String a s => (fun '(l, r) => (String a l, r)) <$> split_once p s
      end
  end.

(** [str::split] on a one-character pattern: always at least one piece. *)
Fixpoint split_char (c : ascii) (s : string) : list string :=
  match s with
  | EmptyString => [EmptyString]
  | String a s =>
      if decide (a = c) then EmptyString :: split_char c s
      else match split_char c s with
        | [] => [String a EmptyString]
        | w :: ws => String a w :: ws
        end
  end.

(** [str::starts_with] and [str::contains] *)
Definition starts_with (p s : string) : bool := if strip_prefix p s then true else false.
Definition contains (p s : string) : bool := if split_once p s then true else false.

(** A carriage return at the end is taken off. *)
Fixpoint strip_cr (s : string) : string :=
  match s with
  | EmptyString => EmptyString
  | String a EmptyString => if decide (a = "013"%char) then EmptyString else s
  | String a s => String a (strip_cr s)
  end.

(** [str::lines]: lines end with a line feed, with or without a carriage return before it; a last line
    without one counts unless it is empty. *)
Fixpoint lines_from (line s : string) : list string :=
  match s with
  | EmptyString => if is_empty line then [] else [line]
  | String a s =>
      if decide (a = "010"%char) then strip_cr line :: lines_from EmptyString s
      else lines_from (line +:+ String a EmptyString) s
  end.
Definition lines (s : string) : list string := lines_from EmptyString s.

(** [Iterator::find_map] *)
Fixpoint find_map {A B} (f : A -> option B) (l : list A) : option B :=
  match l with
  | [] => None
  | a :: l => match f a with Some b => Some b | None => find_map f l end
  end.

(** [str::replace] of one character *)
Fixpoint replace_char (c : ascii) (by_ : string) (s : string) : string :=
  match s with
  | EmptyString => EmptyString
  | String a s => if decide (a = c) then by_ +:+ replace_char c by_ s else String a (replace_char c by_ s)
  end.

(** [str::split_whitespace]: [word] is the word being read. *)
Fixpoint words_from (fuel : nat) (word l : list Z) : list (list Z) :=
  let flush := match word with [] => [] | _ => [word] end in
  match fuel, l with
  | S fuel, b :: l' =>
      match strip_any white_space l with
      | Some rest => flush ++ words_from fuel [] rest
      | None => words_from fuel (word ++ [b]) l'
      end
  | _, _ => flush
  end.
Definition split_whitespace (s : string) : list string :=
  let l := string_bytes s in bytes_string <$> words_from (length l) [] l.

(** ** Numbers *)

Definition digit_value (a : ascii) : option Z :=
  let n := Z.of_N (N_of_ascii a) in
  if in_range 48 57 n then Some (n - 48) else None.

Fixpoint parse_digits (acc : Z) (s : string) : option Z :=
  match s with
  | EmptyString => Some acc
  | String a s => d ← digit_value a; parse_digits (10 * acc + d) s
  end.

(** [str::parse::<uW>]: an optional plus sign, then decimal digits; out of range is an error. *)
Definition parse_unsigned (w : Z) (s : string) : option Z :=
  let digits := default s (strip_prefix "+" s) in
  match digits with
  | EmptyString => None
  | _ => z ← parse_digits 0 digits; if decide (z < 2 ^ w) then Some z else None
  end.

(** * Lemmas *)

Lemma string_bytes_ok s : bytes_ok (string_bytes s).
Proof.
  induction s as [|a s IH]; simpl; constructor; [|done].
  unfold is_byte. pose proof (N_ascii_bounded a). lia.
Qed.

Lemma bytes_string_bytes s : bytes_string (string_bytes s) = s.
Proof.
  induction s as [|a s IH]; simpl; [done|]. by rewrite N2Z.id, ascii_N_embedding, IH.
Qed.

Lemma string_bytes_string l : bytes_ok l -> string_bytes (bytes_string l) = l.
Proof.
  induction 1 as [|b l Hb _ IH]; simpl; [done|]. unfold is_byte in Hb.
  rewrite N_ascii_embedding by lia. rewrite IH. f_equal. lia.
Qed.

Lemma string_bytes_app s t : string_bytes (s +:+ t) = string_bytes s ++ string_bytes t.
Proof. induction s as [|a s IH]; simpl; [done|]. by rewrite IH. Qed.

Lemma strip_prefix_app p s : strip_prefix p (p +:+ s) = Some s.
Proof. induction p as [|a p IH]; simpl; [done|]. by rewrite decide_True. Qed.

(** ** Splitting *)

(** The character does not occur in the string. *)
Fixpoint no_char (c : ascii) (s : string) : bool :=
  match s with
  | EmptyString => true
  | String a s => negb (bool_decide (a = c)) && no_char c s
  end.

Lemma split_char_none c s : no_char c s = true -> split_char c s = [s].
Proof.
  induction s as [|a s IH]; [done|]. simpl. case_bool_decide; [done|]. intros Hn.
  rewrite decide_False by done. by rewrite IH.
Qed.

Lemma split_char_app c s t :
  no_char c s = true -> split_char c (s +:+ String c t) = s :: split_char c t.
Proof.
  induction s as [|a s IH]; simpl.
  - intros _. by rewrite decide_True.
  - case_bool_decide; [done|]. intros Hn. rewrite decide_False by done. by rewrite IH.
Qed.

Lemma string_app_cons a (s t : string) : String a s +:+ t = String a (s +:+ t).
Proof. reflexivity. Qed.

Lemma string_app_empty_l (s : string) : EmptyString +:+ s = s.
Proof. reflexivity. Qed.

Lemma string_app_empty_r (s : string) : s +:+ EmptyString = s.
Proof. induction s as [|a s IH]; [done|]. by rewrite string_app_cons, IH. Qed.

Lemma no_char_app c s t : no_char c (s +:+ t) = no_char c s && no_char c t.
Proof.
  induction s as [|a s IH]; [done|]. rewrite string_app_cons. cbn [no_char]. by rewrite IH, andb_assoc.
Qed.

Lemma string_app_assoc (s t u : string) : (s +:+ t) +:+ u = s +:+ (t +:+ u).
Proof. induction s as [|a s IH]; [done|]. by rewrite !string_app_cons, IH. Qed.

Lemma replace_char_app c b s t :
  replace_char c b (s +:+ t) = replace_char c b s +:+ replace_char c b t.
Proof.
  induction s as [|a s IH]; [done|]. rewrite string_app_cons. cbn [replace_char]. rewrite IH.
  destruct (decide (a = c)); [by rewrite string_app_assoc|done].
Qed.

Lemma strip_cr_snoc s : strip_cr (s +:+ String "013" EmptyString) = s.
Proof.
  induction s as [|a s IH]; [done|]. rewrite string_app_cons. cbn [strip_cr].
  destruct (s +:+ String "013" EmptyString) eqn:E; [by destruct s|]. rewrite <- E in *. by rewrite IH.
Qed.

(** A line of the text in front of the others. *)
Lemma lines_crlf s t :
  no_char "010" s = true -> lines (s +:+ String "013" (String "010" t)) = s :: lines t.
Proof.
  unfold lines. intros Hs. enough (Hl : forall l, lines_from l (s +:+ String "013" (String "010" t)) =
    (l +:+ s) :: lines_from EmptyString t) by apply Hl.
  induction s as [|a s IH]; intros l; cbn [no_char] in Hs.
  - rewrite string_app_empty_l, string_app_empty_r. cbn [lines_from].
    rewrite decide_False, decide_True by done. by rewrite strip_cr_snoc.
  - case_bool_decide; [done|]. rewrite string_app_cons. cbn [lines_from].
    rewrite decide_False by done. rewrite IH by done. by rewrite string_app_assoc.
Qed.

Lemma split_once_none_char c s : no_char c s = true -> split_once (String c EmptyString) s = None.
Proof.
  induction s as [|a s IH]; [done|]. simpl. case_bool_decide; [done|]. intros Hs.
  rewrite decide_False by done. by rewrite IH.
Qed.

(** The first occurrence of a character. *)
Lemma split_once_char c s t :
  no_char c s = true -> split_once (String c EmptyString) (s +:+ String c t) = Some (s, t).
Proof.
  induction s as [|a s IH]; cbn [no_char].
  - intros _. rewrite string_app_empty_l. simpl. by rewrite decide_True.
  - case_bool_decide; [done|]. intros Hs. rewrite string_app_cons. simpl. rewrite decide_False by done.
    by rewrite IH.
Qed.

(** ** UTF-8 *)

Lemma utf8_valid_app l l' : utf8_valid l = true -> utf8_valid l' = true -> utf8_valid (l ++ l') = true.
Proof.
  intros Hl Hl'. revert Hl. induction l as [l IH] using (induction_ltof1 _ length). unfold ltof in IH.
  destruct l as [|a l]; [done|]. cbn [utf8_valid app].
  destruct (in_range 0 0x7F a); [apply IH; simpl; lia|]. destruct l as [|b l]; [done|]. cbn [app].
  destruct (in_range 0xC2 0xDF a).
  { rewrite !andb_true_iff. intros [? ?]. split; [done|]. apply IH; [simpl; lia|done]. }
  destruct l as [|c l]; [done|]. cbn [app]. destruct (in_range 0xE0 0xEF a).
  { rewrite !andb_true_iff. intros [? ?]. split; [done|]. apply IH; [simpl; lia|done]. }
  destruct l as [|d l]; [done|]. cbn [app]. rewrite !andb_true_iff. intros [? ?]. split; [done|].
  apply IH; [simpl; lia|done].
Qed.

(** ** Decimal numbers read back *)

Lemma digit_value_pretty d : (d < 10)%N -> digit_value (pretty_N_char d) = Some (Z.of_N d).
Proof.
  intros Hd. assert (d = 0 \/ d = 1 \/ d = 2 \/ d = 3 \/ d = 4 \/ d = 5 \/ d = 6 \/ d = 7 \/ d = 8 \/
    d = 9)%N as H by lia. by destruct_or! H; subst d.
Qed.

Lemma parse_pretty_go x s : parse_digits 0 (pretty_N_go x s) = parse_digits (Z.of_N x) s.
Proof.
  revert s. induction (N.lt_wf_0 x) as [x _ IH]. intros s.
  assert (x = 0 \/ 0 < x)%N as [->|Hx] by lia; [done|].
  rewrite pretty_N_go_step, IH by first [done | by apply N.div_lt]. cbn [parse_digits].
  rewrite digit_value_pretty by (by apply N.mod_lt). cbn [mbind option_bind]. f_equal.
  pose proof (N.div_mod x 10). lia.
Qed.

Lemma pretty_go_head x s :
  (0 < x)%N -> exists d s', pretty_N_go x s = String (pretty_N_char d) s'.
Proof.
  revert s. induction (N.lt_wf_0 x) as [x _ IH]. intros s Hx.
  rewrite pretty_N_go_step by done.
  assert (x `div` 10 = 0 \/ 0 < x `div` 10)%N as [->|Hd] by (destruct (x `div` 10)%N; [by left | by right]); [by eexists _, _|].
  apply IH; [by apply N.div_lt | done].
Qed.

Lemma parse_pretty w z : in_u w z -> parse_unsigned w (pretty z) = Some z.
Proof.
  intros [Hz Hw]. destruct z as [|p|p]; [|clear Hz|lia].
  { change (parse_unsigned w (pretty 0)) with (if decide (0 < 2 ^ w) then Some 0 else None).
    by rewrite decide_True. }
  change (pretty (Zpos p)) with (pretty_N_go (Npos p) "").
  destruct (pretty_go_head (Npos p) "") as (d & s & Hs); [done|].
  pose proof (parse_pretty_go (Npos p) "") as Hp. rewrite Hs in *. unfold parse_unsigned.
  assert (Hplus : strip_prefix "+" (String (pretty_N_char d) s) = None)
    by (unfold pretty_N_char; by repeat case_match).
  rewrite Hplus. cbn [default]. rewrite Hp. cbn [mbind option_bind parse_digits Z.of_N].
  by rewrite decide_True.
Qed.

Lemma parse_digits_nonneg acc s z : 0 <= acc -> parse_digits acc s = Some z -> 0 <= z.
Proof.
  revert acc. induction s as [|a s IH]; intros acc Ha; cbn [parse_digits]; [by intros [= <-]|].
  unfold digit_value, in_range. destruct ((_ <=? _) && _) eqn:Hd; [|done]. cbn [mbind option_bind].
  apply IH. lia.
Qed.

Lemma parse_unsigned_in_u w s z : parse_unsigned w s = Some z -> in_u w z.
Proof.
  unfold parse_unsigned. destruct (default s _) as [|a t] eqn:Hs; [done|].
  destruct (parse_digits 0 (String a t)) as [d|] eqn:Hd; [|done]. cbn [mbind option_bind].
  apply parse_digits_nonneg in Hd; [|done]. case_decide; [|done]. by intros [= <-].
Qed.

(** ** A concrete text format for any countable type

    A printer with a parser that reads it back, to instantiate the external text formats (TOML, JSON)
    at concrete inputs. *)

Fixpoint bits_of_pos (p : positive) : string :=
  match p with
  | xH => EmptyString
  | xO p => String "0" (bits_of_pos p)
  | xI p => String "1" (bits_of_pos p)
  end.

Fixpoint pos_of_bits (s : string) : positive :=
  match s with
  | EmptyString => xH
  | String a s => if decide (a = "0"%char) then xO (pos_of_bits s) else xI (pos_of_bits s)
  end.

Definition bits_print {A} `{Countable A} (a : A) : string := bits_of_pos (encode a).
Definition bits_parse {A} `{Countable A} (s : string) : option A := decode (pos_of_bits s).

Lemma pos_of_bits_of_pos p : pos_of_bits (bits_of_pos p) = p.
Proof. induction p as [p IH|p IH|]; simpl; [by rewrite IH..|done]. Qed.

Lemma bits_round {A} `{Countable A} (a : A) : bits_parse (bits_print a) = Some a.
Proof. unfold bits_parse, bits_print. by rewrite pos_of_bits_of_pos, decode_encode. Qed.
