(* ===== verification/Json.v ===== *)
(** JSON values as the sources use them, and the messages read from and written to them.  Parsing and
    printing text is serde_json's, an external component; reading a struct out of a value is what
    [#[derive(Deserialize)]] generates from the struct's declaration: fields by name, or by position
    from an array; unknown fields are ignored; a repeated field is an error; a missing field is an
    error unless it has a default. *)

From stdpp Require Import base tactics list strings countable.
From Stdlib Require Import ZArith Lia Ascii.
From S2P Require Import Prelude Text.
Open Scope Z_scope.

(** * Definitions *)

Inductive json :=
  | JNull
  | JBool (b : bool)
  | JNum (z : Z)
  | JStr (s : string)
  | JArr (l : list json)
  | JObj (fields : list (string * json)).

(** [serde_json::from_str] into a [Value] and [to_string] *)
Class JsonText := {
  json_parse : string -> option json;
  json_print : json -> string
}.

(** An object whose members are all strings: every message of the handshakes is one. *)
Definition flat (l : list (string * string)) : json := JObj ((fun kv => (kv.1, JStr kv.2)) <$> l).

(** The values serde_json prints so that they read back as they are: the names of an object's members
    are distinct and integers fit its number type. *)
Fixpoint json_wf (j : json) : Prop :=
  match j with
  | JNum z => - 2 ^ 63 <= z < 2 ^ 64
  | JArr l => fold_right (fun x P => json_wf x /\ P) True l
  | JObj fields => NoDup fields.*1 /\ fold_right (fun kv P => json_wf kv.2 /\ P) True fields
  | _ => True
  end.

(** Documented behaviour: what was printed parses back, also with a newline after it; compact output has no white space around it
    and is one line, control characters of strings being escaped. *)
Class JsonLaws `{JsonText} := {
  json_round : forall j, json_wf j -> json_parse (json_print j) = Some j;
  json_round_line : forall j, json_wf j -> json_parse (json_print j +:+ newline) = Some j;
  json_no_trailing : forall j, trim_end (json_print j) = json_print j;
  json_trim_line : forall j, trim_end (json_print j +:+ newline) = json_print j;
  json_trim : forall j, trim (json_print j) = json_print j;
  json_one_line : forall j, no_char "010"%char (json_print j) = true /\ no_char "013"%char (json_print j) = true
}.

(** The values of a field. *)
Definition members (key : string) (fields : list (string * json)) : list json :=
  (List.filter (fun kv => bool_decide (kv.1 = key)) fields).*2.

Definition as_str (j : json) : option string := match j with JStr s => Some s | _ => None end.

(** A required field. *)
Definition field {A} (conv : json -> option A) (key : string) (fields : list (string * json))
  : option A :=
  match members key fields with
  | [j] => conv j
  | _ => None
  end.

Definition field_str : string -> list (string * json) -> option string := field as_str.

(** An unsigned integer of [w] bits. *)
Definition as_uint (w : Z) (j : json) : option Z :=
  match j with
  | JNum z => if decide (in_u w z) then Some z else None
  | _ => None
  end.

(** A string field with [#[serde(default)]]. *)
Definition field_str_default (key : string) (fields : list (string * json)) : option string :=
  match members key fields with
  | [] => Some EmptyString
  | [j] => as_str j
  | _ => None
  end.

(** [Value::get(key)] on an object: the last of repeated members. *)
Definition json_get (key : string) (j : json) : option json :=
  match j with
  | JObj fields => head (rev (members key fields))
  | _ => None
  end.

(** * Lemmas *)

Lemma members_flat key l :
  members key ((fun kv : string * string => (kv.1, JStr kv.2)) <$> l) =
  JStr <$> (List.filter (fun kv : string * string => bool_decide (kv.1 = key)) l).*2.
Proof.
  unfold members. induction l as [|[k v] l IH]; [done|]. simpl.
  case_bool_decide; simpl; [by f_equal | done].
Qed.

Lemma flat_wf l : NoDup l.*1 -> json_wf (flat l).
Proof.
  intros Hl. unfold flat. cbn [json_wf]. rewrite <- list_fmap_compose.
  split; [done|]. clear Hl. induction l as [|[k v] l IH]; [done|]. by split.
Qed.

(** ** Decidable equality, through trees that are countable *)

Lemma json_ind' (P : json -> Prop) :
  P JNull -> (forall b, P (JBool b)) -> (forall z, P (JNum z)) -> (forall s, P (JStr s)) ->
  (forall l, Forall P l -> P (JArr l)) -> (forall fs, Forall (fun kv => P kv.2) fs -> P (JObj fs)) ->
  forall j, P j.
Proof.
  intros Hn Hb Hz Hs Ha Ho. fix IH 1. intros [ |b|z|s|l|fs].
  - exact Hn.
  - apply Hb.
  - apply Hz.
  - apply Hs.
  - apply Ha. induction l as [|j l IHl]; constructor; [apply IH | exact IHl].
  - apply Ho. induction fs as [|[k v] fs IHl]; constructor; [apply IH | exact IHl].
Qed.

Fixpoint json_tree (j : json) : gen_tree (bool + Z + string) :=
  match j with
  | JNull => GenNode 0 []
  | JBool b => GenLeaf (inl (inl b))
  | JNum z => GenLeaf (inl (inr z))
  | JStr s => GenLeaf (inr s)
  | JArr l => GenNode 1 (map json_tree l)
  | JObj fs => GenNode 2 (map (fun kv => GenNode 3 [GenLeaf (inr kv.1); json_tree kv.2]) fs)
  end.

Fixpoint tree_json (t : gen_tree (bool + Z + string)) : json :=
  match t with
  | GenLeaf (inl (inl b)) => JBool b
  | GenLeaf (inl (inr z)) => JNum z
  | GenLeaf (inr s) => JStr s
  | GenNode 1 ts => JArr (map tree_json ts)
  | GenNode 2 ts =>
      JObj (map (fun t => match t with
                          | GenNode 3 [GenLeaf (inr k); v] => (k, tree_json v)
                          | _ => (EmptyString, JNull)
                          end) ts)
  | _ => JNull
  end.

Lemma tree_json_tree j : tree_json (json_tree j) = j.
Proof.
  induction j as [| | | |l IH|fs IH] using json_ind'; simpl; try done; f_equal; rewrite map_map.
  - induction IH as [|j l Hj _ IHl]; simpl; congruence.
  - induction IH as [|[k v] l Hj _ IHl]; simpl in *; congruence.
Qed.

#[global] Instance json_eq_dec : EqDecision json.
Proof.
  refine (fun a b => cast_if (decide (json_tree a = json_tree b))); [|congruence].
  rewrite <- (tree_json_tree a), <- (tree_json_tree b). congruence.
Defined.

Module Sample.
(** A concrete text format to instantiate the class with: one character for each constructor, strings
    between quotes with everything but visible ASCII escaped by its bits.  It is one line of visible
    ASCII, and its length is that of the strings it carries. *)

Definition quotation : ascii := "034".
Definition escape : ascii := "092".

Definition plain (c : ascii) : bool :=
  let n := Z.of_N (N_of_ascii c) in
  (33 <=? n) && (n <=? 126) && negb (Ascii.eqb c quotation) && negb (Ascii.eqb c escape).

Definition put_bit (b : bool) (rest : string) : string := String (if b then "1"%char else "0"%char) rest.

Definition put_char (c : ascii) (rest : string) : string :=
  if plain c then String c rest
  else let 'Ascii b0 b1 b2 b3 b4 b5 b6 b7 := c in
    String escape (put_bit b0 (put_bit b1 (put_bit b2 (put_bit b3
      (put_bit b4 (put_bit b5 (put_bit b6 (put_bit b7 rest)))))))).

Fixpoint put_str (s rest : string) : string :=
  match s with
  | EmptyString => String quotation rest
  | String c s => put_char c (put_str s rest)
  end.

Fixpoint put_pos (p : positive) (rest : string) : string :=
  match p with
  | xH => String ";" rest
  | xO p => put_bit false (put_pos p rest)
  | xI p => put_bit true (put_pos p rest)
  end.

Fixpoint put (j : json) (rest : string) : string :=
  match j with
  | JNull => String "n" rest
  | JBool b => String (if b then "t"%char else "f"%char) rest
  | JNum z => match z with
              | 0 => String "z" rest
              | Zpos p => String "+" (put_pos p rest)
              | Zneg p => String "-" (put_pos p rest)
              end
  | JStr s => String quotation (put_str s rest)
  | JArr l => String "[" (fold_right put (String "]" rest) l)
  | JObj fs => String "{" (fold_right (fun kv r => String quotation (put_str kv.1 (put kv.2 r))) (String "}" rest) fs)
  end.

Definition get_bit (c : ascii) : bool := Ascii.eqb c "1".

Fixpoint get_str (s : string) : option (string * string) :=
  match s with
  | EmptyString => None
  | String c s =>
      if Ascii.eqb c quotation then Some (EmptyString, s)
      else if Ascii.eqb c escape then
        match s with
        | String a0 (String a1 (String a2 (String a3 (String a4 (String a5 (String a6 (String a7 s))))))) =>
            prod_map (String (Ascii (get_bit a0) (get_bit a1) (get_bit a2) (get_bit a3)
                                    (get_bit a4) (get_bit a5) (get_bit a6) (get_bit a7))) id <$> get_str s
        | _ => None
        end
      else prod_map (String c) id <$> get_str s
  end.

Fixpoint get_pos (s : string) : option (positive * string) :=
  match s with
  | EmptyString => None
  | String c s =>
      if Ascii.eqb c ";" then Some (xH, s)
      else prod_map (if get_bit c then xI else xO) id <$> get_pos s
  end.

Fixpoint get_items {A} (close : ascii) (p : string -> option (A * string)) (n : nat) (s : string)
  : option (list A * string) :=
  match n, s with
  | S n, String c r =>
      if Ascii.eqb c close then Some ([], r)
      else '(x, r) ← p s; prod_map (cons x) id <$> get_items close p n r
  | _, _ => None
  end.

Fixpoint get (n : nat) (s : string) : option (json * string) :=
  match n, s with
  | S n, String c s =>
      if Ascii.eqb c quotation then prod_map JStr id <$> get_str s
      else if Ascii.eqb c "{" then
        prod_map JObj id <$>
          get_items "}" (fun s => '(k, r) ← get_str (match s with String _ s => s | _ => s end);
                                  prod_map (pair k) id <$> get n r) n s
      else if Ascii.eqb c "[" then prod_map JArr id <$> get_items "]" (get n) n s
      else if Ascii.eqb c "n" then Some (JNull, s)
      else if Ascii.eqb c "t" then Some (JBool true, s)
      else if Ascii.eqb c "f" then Some (JBool false, s)
      else if Ascii.eqb c "z" then Some (JNum 0, s)
      else if Ascii.eqb c "+" then prod_map (JNum ∘ Zpos) id <$> get_pos s
      else if Ascii.eqb c "-" then prod_map (JNum ∘ Zneg) id <$> get_pos s
      else None
  | _, _ => None
  end.

Definition print_text (j : json) : string := put j EmptyString.
Definition parse_text (s : string) : option json :=
  let s := trim_end s in
  match get (String.length s) s with Some (j, EmptyString) => Some j | _ => None end.

#[local] Instance json_text : JsonText := {| json_parse := parse_text; json_print := print_text |}.

Lemma get_bit_put (b : bool) : get_bit (if b then "1"%char else "0"%char) = b.
Proof. by destruct b. Qed.

Lemma get_put_str s rest : get_str (put_str s rest) = Some (s, rest).
Proof.
  induction s as [|c s IH]; [done|]. cbn [put_str]. unfold put_char. destruct (plain c) eqn:Hp.
  - unfold plain in Hp. apply andb_prop in Hp as [[_ Hq]%andb_prop He]. cbn [get_str].
    apply negb_true_iff in Hq, He. by rewrite Hq, He, IH.
  - destruct c. cbn. rewrite !get_bit_put. by rewrite IH.
Qed.

Lemma get_put_pos p rest : get_pos (put_pos p rest) = Some (p, rest).
Proof. induction p as [p IH|p IH|]; cbn [put_pos put_bit get_pos]; [..|done]; cbn; by rewrite IH. Qed.

(** Enough fuel to read a value back. *)
Fixpoint weight (j : json) : nat :=
  match j with
  | JArr l => S (fold_right (fun x n => weight x + n)%nat 1%nat l)
  | JObj fs => S (fold_right (fun kv n => weight kv.2 + n)%nat 1%nat fs)
  | _ => 1
  end.

Lemma weight_pos j : (0 < weight j)%nat.
Proof. destruct j; simpl; lia. Qed.

(** Items that their reader reads back, none beginning with the closing character. *)
Lemma get_put_items {A} close (p : string -> option (A * string)) (w : A -> string -> string) l n rest :
  Forall (fun x => forall r, p (w x r) = Some (x, r) /\
            exists c r', w x r = String c r' /\ Ascii.eqb c close = false) l ->
  (length l < n)%nat ->
  get_items close p n (fold_right w (String close rest) l) = Some (l, rest).
Proof.
  intros Hl. revert n. induction Hl as [|x l Hx Hl IH]; intros [|n] Hn; [lia| |simpl in Hn; lia|].
  - cbn. by rewrite Ascii.eqb_refl.
  - cbn [fold_right get_items]. destruct (Hx (fold_right w (String close rest) l)) as (Hp & c & r' & Heq & Hc).
    rewrite Heq, Hc, <- Heq, Hp. cbn [mbind option_bind]. rewrite IH by (simpl in Hn; lia). done.
Qed.

Lemma put_starts j rest :
  exists c r, put j rest = String c r /\ Ascii.eqb c "]" = false /\ Ascii.eqb c "}" = false.
Proof. destruct j as [|[]|[]| | |]; cbn [put]; eauto. Qed.

Lemma weights_in {A} (f : A -> nat) l :
  (forall x, 0 < f x)%nat ->
  (length l < fold_right (fun x n => f x + n) 1 l /\
   Forall (fun x => f x <= fold_right (fun x n => f x + n) 1 l) l)%nat.
Proof.
  intros Hf. induction l as [|x l [IH1 IH2]]; cbn [length fold_right]; [split; [lia|done]|].
  specialize (Hf x). split; [lia|]. constructor; [lia|]. refine (Forall_impl _ _ IH2). cbn. lia.
Qed.

Lemma get_put j n rest : (weight j <= n)%nat -> get n (put j rest) = Some (j, rest).
Proof.
  revert n rest. induction j as [|[]|[|p|p]|s|l IH|fs IH] using json_ind'; intros [|n] rest Hn;
    try (cbn [weight] in Hn; lia); try done.
  - cbn [put get]. cbn. by rewrite get_put_pos.
  - cbn [put get]. cbn. by rewrite get_put_pos.
  - cbn [put get]. cbn. by rewrite get_put_str.
  - cbn [weight] in Hn. destruct (weights_in weight l weight_pos) as [Hlen Hall]. cbn [put get]. cbn.
    rewrite get_put_items; [done| |lia]. apply Forall_forall. intros x Hx r.
    rewrite Forall_forall in IH, Hall. split; [apply IH; [done|]; specialize (Hall x Hx); lia|].
    destruct (put_starts x r) as (c & r' & ? & ? & ?). eauto.
  - cbn [weight] in Hn. destruct (weights_in (fun kv : string * json => weight kv.2) fs (fun kv => weight_pos _)) as [Hlen Hall].
    cbn [put get]. cbn.
    rewrite get_put_items; [done| |lia]. apply Forall_forall. intros [k v] Hx r.
    rewrite Forall_forall in IH, Hall. split; [|by eauto]. cbn [fst snd]. rewrite get_put_str. cbn [mbind option_bind].
    rewrite (IH _ Hx) by (specialize (Hall _ Hx); cbn in Hall |- *; lia). done.
Qed.

Lemma put_str_length s rest : (S (String.length rest) <= String.length (put_str s rest))%nat.
Proof.
  induction s as [|c s IH]; [done|]. cbn [put_str]. unfold put_char. destruct (plain c); [simpl; lia|].
  destruct c. simpl. lia.
Qed.

Lemma put_pos_length p rest : (String.length rest <= String.length (put_pos p rest))%nat.
Proof. induction p; simpl; lia. Qed.

Lemma put_length j rest : (weight j + String.length rest <= String.length (put j rest))%nat.
Proof.
  revert rest. induction j as [|[]|[|p|p]|s|l IH|fs IH] using json_ind'; intros rest; cbn [put weight String.length]; try lia.
  - pose proof (put_pos_length p rest). lia.
  - pose proof (put_pos_length p rest). lia.
  - pose proof (put_str_length s rest). lia.
  - rewrite Nat.add_succ_l. apply le_n_S. induction IH as [|x l Hx _ IHl]; cbn [fold_right String.length]; [lia|].
    specialize (Hx (fold_right put (String "]" rest) l)). lia.
  - rewrite Nat.add_succ_l. apply le_n_S. induction IH as [|[k v] l Hx _ IHl]; cbn [fold_right String.length fst snd] in *; [lia|].
    etransitivity; [|apply le_S, (Nat.le_trans _ _ _ (Nat.le_succ_diag_r _) (put_str_length _ _))].
    etransitivity; [|apply Hx]. lia.
Qed.

(** ** The text is visible ASCII *)

Definition visible (b : Z) : Prop := 33 <= b <= 126.
Notation shown s := (Forall visible (string_bytes s)).

Lemma shown_put_bit b s : shown s -> shown (put_bit b s).
Proof. destruct b; constructor; [split; cbn; lia | done..]. Qed.

Lemma shown_put_str s rest : shown rest -> shown (put_str s rest).
Proof.
  intros Hr. induction s as [|c s IH]; cbn [put_str]; [constructor; [split; cbn; lia|done]|].
  unfold put_char. destruct (plain c) eqn:Hp.
  - constructor; [|done]. unfold plain in Hp. rewrite !andb_true_iff, !Z.leb_le in Hp. unfold visible. lia.
  - destruct c. constructor; [split; cbn; lia|]. by repeat apply shown_put_bit.
Qed.

Lemma shown_put_pos p rest : shown rest -> shown (put_pos p rest).
Proof.
  intros Hr. induction p; cbn [put_pos]; [by apply shown_put_bit..|]. constructor; [split; cbn; lia|done].
Qed.

Lemma shown_cons c s : visible (Z.of_N (N_of_ascii c)) -> shown s -> shown (String c s).
Proof. by constructor. Qed.

Lemma shown_put j rest : shown rest -> shown (put j rest).
Proof.
  revert rest. induction j as [|[]|[|p|p]|s|l IH|fs IH] using json_ind'; intros rest Hr; cbn [put];
    apply shown_cons; try (split; cbn; lia); auto using shown_put_str, shown_put_pos.
  - induction IH as [|x l Hx _ IHl]; cbn [fold_right]; [apply shown_cons; [split; cbn; lia|done]|auto].
  - induction IH as [|kv l Hx _ IHl]; cbn [fold_right]; (apply shown_cons; [split; cbn; lia|]);
      auto using shown_put_str.
Qed.

Lemma shown_text j : shown (print_text j).
Proof. by apply shown_put. Qed.

(** No pattern of white space begins or ends with a visible character. *)
Lemma strip_list_other a b p l : a <> b -> strip_list (a :: p) (b :: l) = None.
Proof. intros Hab. cbn [strip_list]. by rewrite (proj2 (Z.eqb_neq a b)). Qed.

Lemma visible_not_white b l ps :
  visible b -> Forall (fun p => match p with a :: _ => ~ visible a | [] => False end) ps ->
  strip_any ps (b :: l) = None.
Proof.
  intros Hb Hps. induction Hps as [|[|a p] ps Hp _ IH]; [done|done|]. cbn [strip_any].
  rewrite strip_list_other; [done|]. by intros ->.
Qed.

Lemma white_edges :
  Forall (fun p => match p with a :: _ => ~ visible a | [] => False end) white_space /\
  Forall (fun p => match p with a :: _ => ~ visible a | [] => False end) (@rev Z <$> white_space).
Proof. split; cbn [white_space fmap list_fmap rev app]; repeat (apply List.Forall_cons || apply List.Forall_nil); unfold visible; lia. Qed.

Lemma strip_visible n ps l :
  Forall visible l -> Forall (fun p => match p with a :: _ => ~ visible a | [] => False end) ps -> strip_all n ps l = l.
Proof.
  intros [|b l' Hb _] Hps; destruct n as [|n]; try done; cbn [strip_all].
  - assert (Hn : strip_any ps [] = None) by (induction Hps as [|[|a p] ps Hp _ IH]; done). by rewrite Hn.
  - by rewrite visible_not_white.
Qed.

Lemma trim_end_visible l : Forall visible l -> trim_end_bytes l = l /\ trim_end_bytes (l ++ [10]) = l.
Proof.
  intros Hl%Forall_rev. unfold trim_end_bytes. rewrite rev_app_distr, length_app.
  rewrite strip_visible by (done || apply white_edges). rewrite rev_involutive. split; [done|].
  rewrite Nat.add_1_r. cbn [strip_all rev app]. change (strip_any _ (10 :: rev l)) with (Some (rev l)). cbn iota.
  rewrite strip_visible by (done || apply white_edges). by rewrite rev_involutive.
Qed.

Lemma trim_end_print j :
  trim_end (print_text j) = print_text j /\ trim_end (print_text j +:+ newline) = print_text j.
Proof.
  unfold trim_end. rewrite string_bytes_app. change (string_bytes newline) with [10].
  destruct (trim_end_visible _ (shown_text j)) as [-> ->]. split; apply bytes_string_bytes.
Qed.

Lemma parse_print j s : trim_end s = print_text j -> parse_text s = Some j.
Proof.
  intros Hs. unfold parse_text. rewrite Hs. unfold print_text. pose proof (put_length j EmptyString) as Hw.
  rewrite get_put by lia. done.
Qed.

Lemma shown_no_char c s : shown s -> ~ visible (Z.of_N (N_of_ascii c)) -> no_char c s = true.
Proof.
  intros Hs Hc. induction s as [|a s IH]; [done|]. inversion Hs as [|? ? Ha Hs']. cbn [no_char].
  rewrite bool_decide_eq_false_2 by (intros ->; done). by rewrite IH.
Qed.

#[local] Instance json_laws : JsonLaws.
Proof.
  split; intros j; cbn [json_parse json_print json_text].
  - intros _. apply parse_print, trim_end_print.
  - intros _. apply parse_print, trim_end_print.
  - apply trim_end_print.
  - apply trim_end_print.
  - pose proof (shown_text j) as Hj. unfold trim. rewrite (proj1 (trim_end_visible _ Hj)).
    unfold trim_start_bytes. rewrite strip_visible by (done || apply white_edges). apply bytes_string_bytes.
  - split; apply shown_no_char; [apply shown_text| |apply shown_text|]; unfold visible; cbn; lia.
Qed.
End Sample.
