(* ===== verification/Scheduler.v ===== *)
(** Path schedulers: [src/crates/bonded-core/src/scheduler.rs].  The trait [Scheduler] is a type
    class; its two implementations are instances.  The theorems show that both only choose available
    paths and that the round-robin scheduler visits every path once per round. *)

From stdpp Require Import base tactics list.
From Stdlib Require Import ZArith Lia.
From S2P Require Import Prelude.
Open Scope Z_scope.

(** * Definitions *)

(** [PathId(pub u32)] *)
Record PathId := { path_id : Z }.

#[global] Instance PathId_eq_dec : EqDecision PathId.
Proof. solve_decision. Defined.

(** The trait: [choose_path] takes the scheduler by mutable reference. *)
Class Scheduler (S : Type) := choose_path : S -> list PathId -> option PathId * S.

(** What every caller relies on: a path is chosen exactly when there is one, and it is available. *)
Class SchedulerLaws (S : Type) `{Scheduler S} := {
  choose_none : forall (s : S) paths, (choose_path s paths).1 = None <-> paths = [];
  choose_member : forall (s : S) paths p, (choose_path s paths).1 = Some p -> p ∈ paths
}.

Record RoundRobinScheduler := { next_index : Z }.
Definition RoundRobinScheduler_default : RoundRobinScheduler := {| next_index := 0 |}.

#[export] Instance RoundRobin_choose_path : Scheduler RoundRobinScheduler := fun self available_paths =>
  match available_paths with
  | [] => (None, self)
  | _ =>
      let idx := next_index self mod len available_paths in
      (available_paths !! Z.to_nat idx, {| next_index := wrapping_add 64 (next_index self) 1 |})
  end.

Inductive ActiveStandbyScheduler := ActiveStandby.

#[export] Instance ActiveStandby_choose_path : Scheduler ActiveStandbyScheduler :=
  fun self available_paths => (head available_paths, self).

(** [n] successive choices over the same available paths. *)
Fixpoint choices {S} `{Scheduler S} (n : nat) (s : S) (paths : list PathId) : list (option PathId) :=
  match n with
  | O => []
  | Datatypes.S n => let (p, s') := choose_path s paths in p :: choices n s' paths
  end.

(** * Lemmas *)

Lemma mod_index_lt {A} (l : list A) z : l <> [] -> (Z.to_nat (z mod len l) < length l)%nat.
Proof.
  intros Hl. assert (0 < len l) by (destruct l; simpl; [done | lia]).
  pose proof (Z.mod_pos_bound z (len l)). lia.
Qed.

(** The indexed access of the source is in range. *)
Lemma round_robin_in_range (s : RoundRobinScheduler) (p : PathId) l :
  exists q : PathId, (p :: l) !! Z.to_nat (next_index s mod len (p :: l)) = Some q.
Proof. apply lookup_lt_is_Some, mod_index_lt. done. Qed.

#[export] Instance RoundRobin_laws : SchedulerLaws RoundRobinScheduler.
Proof.
  split.
  - intros s [|p l]; [done|]. destruct (round_robin_in_range s p l) as [q Hq].
    unfold choose_path, RoundRobin_choose_path. cbn [fst]. rewrite Hq. done.
  - intros s [|p l] q; [done|]. apply list_elem_of_lookup_2.
Qed.

#[export] Instance ActiveStandby_laws : SchedulerLaws ActiveStandbyScheduler.
Proof.
  split; intros s [|p l]; try done. intros q. simpl. intros [=->]. constructor.
Qed.

(** Without wrap-around the [i]-th of [n] choices has index [next_index + i] modulo the length. *)
Lemma round_robin_choices n s p l :
  0 <= next_index s -> next_index s + Z.of_nat n <= 2 ^ 64 ->
  choices n s (p :: l) =
  (fun i => (p :: l) !! Z.to_nat ((next_index s + Z.of_nat i) mod len (p :: l))) <$> seq 0 n.
Proof.
  revert s. induction n as [|n IH]; intros s H0 Hn; [done|].
  rewrite <- cons_seq, <- fmap_S_seq, fmap_cons, <- list_fmap_compose.
  cbn [choices choose_path RoundRobin_choose_path]. f_equal; [by rewrite Z.add_0_r|].
  destruct n as [|n]; [done|].
  assert (Hw : wrapping_add 64 (next_index s) 1 = next_index s + 1).
  { apply wrapping_add_small. unfold in_u. lia. }
  rewrite IH by (cbn; lia). cbn [next_index]. rewrite Hw.
  apply list_fmap_ext. intros i x _. simpl. do 3 f_equal. lia.
Qed.

(** The residues of consecutive integers below [n] are a rotation of [0 .. n-1]. *)
Lemma seq_rotation (n : nat) k : 0 <= k -> (0 < n)%nat ->
  ((fun i => Z.to_nat ((k + Z.of_nat i) mod Z.of_nat n)) <$> seq 0 n) ≡ₚ seq 0 n.
Proof.
  intros Hk Hn. apply NoDup_Permutation_bis; [| by rewrite length_fmap |].
  - apply NoDup_ListNoDup, NoDup_fmap_2_strong; [| apply NoDup_seq].
    intros i j Hi Hj. rewrite !elem_of_seq in *. intros Heq.
    assert (Hmod : (k + Z.of_nat i) mod Z.of_nat n = (k + Z.of_nat j) mod Z.of_nat n).
    { pose proof (Z.mod_pos_bound (k + Z.of_nat i) (Z.of_nat n)).
      pose proof (Z.mod_pos_bound (k + Z.of_nat j) (Z.of_nat n)). lia. }
    apply (f_equal (fun z => (z - k) mod Z.of_nat n)) in Hmod.
    rewrite !Zminus_mod_idemp_l in Hmod.
    replace (k + Z.of_nat i - k) with (Z.of_nat i) in Hmod by lia.
    replace (k + Z.of_nat j - k) with (Z.of_nat j) in Hmod by lia.
    rewrite !Z.mod_small in Hmod by lia. lia.
  - intros x. rewrite <- !list_elem_of_In, list_elem_of_fmap. intros (i & -> & _). rewrite elem_of_seq.
    pose proof (Z.mod_pos_bound (k + Z.of_nat i) (Z.of_nat n)). lia.
Qed.

Lemma fmap_lookup_seq {A} (l : list A) : (fun i => l !! i) <$> seq 0 (length l) = Some <$> l.
Proof.
  induction l as [|x l IH]; [done|]. simpl. f_equal.
  rewrite <- fmap_S_seq, <- list_fmap_compose. exact IH.
Qed.

Lemma round_robin_round s p l :
  0 <= next_index s -> next_index s + len (p :: l) <= 2 ^ 64 ->
  choices (length (p :: l)) s (p :: l) ≡ₚ Some <$> (p :: l).
Proof.
  intros H0 Hn. rewrite round_robin_choices by done.
  rewrite <- (fmap_lookup_seq (p :: l)).
  rewrite <- (seq_rotation (length (p :: l)) (next_index s)) at 2 by (simpl; lia).
  by rewrite <- list_fmap_compose.
Qed.

(** * Properties *)

(** Over a fixed set of available paths, [length paths] successive choices of the round-robin
    scheduler use every path exactly once, whatever the scheduler did before (as long as the counter
    does not wrap inside the round). *)
Theorem round_robin_fair (s : RoundRobinScheduler) (paths : list PathId) :
  0 <= next_index s -> next_index s + len paths <= 2 ^ 64 ->
  choices (length paths) s paths ≡ₚ Some <$> paths.
Proof. destruct paths as [|p l]; [done | apply round_robin_round]. Qed.

Lemma round_robin_fair_witness :
  choices 3 {| next_index := 5 |} [Build_PathId 1; Build_PathId 2; Build_PathId 3]
  ≡ₚ Some <$> [Build_PathId 1; Build_PathId 2; Build_PathId 3].
Proof. apply (round_robin_fair {| next_index := 5 |} [_; _; _]); vm_compute; discriminate. Defined.
