(* ===== verification/Auth.v ===== *)
(** Identities, challenges and invite tokens: [src/crates/bonded-core/src/auth.rs].  Base64, ed25519
    and the random generator are external: a class of operations, with the laws the program relies
    on. *)

From stdpp Require Import base tactics list gmap strings.
From Stdlib Require Import ZArith Lia.
From S2P Require Import Prelude Text.
Open Scope Z_scope.

(** * Definitions *)

(** ** External cryptography *)

Class Crypto := {
  (** [STANDARD] and [URL_SAFE_NO_PAD] of the base64 crate *)
  b64_encode : list Z -> string;
  b64_decode : string -> option (list Z);
  b64url_encode : list Z -> string;
  b64url_decode : string -> option (list Z);
  (** [SigningKey::verifying_key], on 32-byte keys *)
  public_of : list Z -> list Z;
  (** [VerifyingKey::from_bytes] accepts *)
  valid_public : list Z -> bool;
  ed_sign : list Z -> list Z -> list Z;
  ed_verify : list Z -> list Z -> list Z -> bool
}.

Class CryptoLaws `{Crypto} := {
  b64_round : forall l, bytes_ok l -> b64_decode (b64_encode l) = Some l;
  b64url_round : forall l, bytes_ok l -> b64url_decode (b64url_encode l) = Some l;
  public_ok : forall sk, bytes_ok sk -> length sk = 32%nat ->
    bytes_ok (public_of sk) /\ length (public_of sk) = 32%nat /\ valid_public (public_of sk) = true;
  sign_ok : forall sk m, bytes_ok sk -> length sk = 32%nat ->
    bytes_ok (ed_sign sk m) /\ length (ed_sign sk m) = 64%nat /\
    ed_verify (public_of sk) m (ed_sign sk m) = true;
  b64_empty : b64_decode EmptyString = Some [] /\ b64url_decode EmptyString = Some []
}.

Inductive AuthError :=
  | InvalidBase64
  | InvalidPrivateKeyLength (n : nat)
  | InvalidPublicKeyLength (n : nat)
  | InvalidSignatureLength (n : nat)
  | SignatureVerificationFailed.

Record DeviceKeypair := { private_key_b64 : string; public_key_b64 : string }.

Section auth.
Context `{Crypto}.

(** [from_signing_key] *)
Definition from_signing_key (sk : list Z) : DeviceKeypair :=
  {| private_key_b64 := b64_encode sk; public_key_b64 := b64_encode (public_of sk) |}.

(** A base64 string of exactly [n] bytes. *)
Definition decode_exact (n : nat) (e : nat -> AuthError) (s : string) : outcome AuthError (list Z) :=
  raw ← ok_or InvalidBase64 (b64_decode s);
  if decide (length raw = n) then Ok raw else Err (e (length raw)).

Definition from_private_key_b64 (s : string) : outcome AuthError DeviceKeypair :=
  private_bytes ← decode_exact 32 InvalidPrivateKeyLength s;
  Ok (from_signing_key private_bytes).

Definition signing_key (k : DeviceKeypair) : outcome AuthError (list Z) :=
  decode_exact 32 InvalidPrivateKeyLength (private_key_b64 k).

Definition verifying_key (k : DeviceKeypair) : outcome AuthError (list Z) :=
  sk ← signing_key k; Ok (public_of sk).

(** [create_auth_challenge], from 32 random bytes. *)
Definition create_auth_challenge (random : list Z) : string := b64url_encode random.

Definition sign_auth_challenge (k : DeviceKeypair) (challenge_b64 : string)
  : outcome AuthError string :=
  sk ← signing_key k;
  challenge ← ok_or InvalidBase64 (b64url_decode challenge_b64);
  Ok (b64_encode (ed_sign sk challenge)).

Definition sign_bytes (k : DeviceKeypair) (message : list Z) : outcome AuthError string :=
  sk ← signing_key k; Ok (b64_encode (ed_sign sk message)).

(** The public key, decoded and accepted. *)
Definition decode_public (s : string) : outcome AuthError (list Z) :=
  pk ← decode_exact 32 InvalidPublicKeyLength s;
  if valid_public pk then Ok pk else Err (InvalidPublicKeyLength (length pk)).

Definition verify_signature (public_key_b64 : string) (message : list Z) (signature_b64 : string)
  : outcome AuthError unit :=
  pk ← decode_public public_key_b64;
  sg ← decode_exact 64 InvalidSignatureLength signature_b64;
  if ed_verify pk message sg then Ok tt else Err SignatureVerificationFailed.

Definition verify_auth_challenge (public_key_b64 challenge_b64 signature_b64 : string)
  : outcome AuthError unit :=
  pk ← decode_public public_key_b64;
  challenge ← ok_or InvalidBase64 (b64url_decode challenge_b64);
  sg ← decode_exact 64 InvalidSignatureLength signature_b64;
  if ed_verify pk challenge sg then Ok tt else Err SignatureVerificationFailed.
End auth.

(** ** Invite tokens *)

Record InviteToken := { token : string; expires_at : string; uses_remaining : Z }.

#[global] Instance InviteToken_eq_dec : EqDecision InviteToken.
Proof. solve_decision. Defined.

Inductive InviteTokenError := NotFound | Exhausted.

Definition is_usable (t : InviteToken) : bool := 0 <? uses_remaining t.

(** [InviteTokenManager { tokens: HashMap<String, InviteToken> }] *)
Abbreviation InviteTokenManager := (gmap string InviteToken).

(** [collect] into a hash map: of tokens with the same value the last one stays. *)
Definition from_tokens (ts : list InviteToken) : InviteTokenManager :=
  foldl (fun m t => <[token t := t]> m) ∅ ts.

(** [issue_token] with the random token value it generates. *)
Definition issue_token (value expires : string) (uses : Z) (m : InviteTokenManager)
  : InviteToken * InviteTokenManager :=
  let t := {| token := value; expires_at := expires; uses_remaining := uses |} in
  (t, <[token t := t]> m).

Definition redeem (value : string) (m : InviteTokenManager)
  : outcome InviteTokenError InviteToken * InviteTokenManager :=
  match m !! value with
  | None => (Err NotFound, m)
  | Some t =>
      if uses_remaining t =? 0 then (Err Exhausted, m)
      else
        let t := {| token := token t; expires_at := expires_at t;
                    uses_remaining := uses_remaining t - 1 |} in
        (Ok t, <[value := t]> m)
  end.

(** The order in which a hash map gives its entries: not specified, and drawn anew for every map *)
Class HashOrder := {
  map_entries : InviteTokenManager -> list (string * InviteToken);
  map_entries_perm m : map_entries m ≡ₚ map_to_list m
}.

Definition all_tokens {HO : HashOrder} (m : InviteTokenManager) : list InviteToken := (map_entries m).*2.

(** The well-formedness of a manager: tokens are filed under their own value, in machine range. *)
Definition manager_ok (m : InviteTokenManager) : Prop :=
  forall k t, m !! k = Some t -> token t = k /\ in_u 32 (uses_remaining t).

(** * Lemmas *)

Section auth_lemmas.
Context `{CryptoLaws}.

Lemma decode_exact_encode n e l :
  bytes_ok l -> length l = n -> decode_exact n e (b64_encode l) = Ok l.
Proof. intros Hl <-. unfold decode_exact. rewrite b64_round by done. simpl. by rewrite decide_True. Qed.

Lemma signing_key_of sk :
  bytes_ok sk -> length sk = 32%nat -> signing_key (from_signing_key sk) = Ok sk.
Proof. intros. by apply decode_exact_encode. Qed.

Lemma decode_public_of sk :
  bytes_ok sk -> length sk = 32%nat ->
  decode_public (public_key_b64 (from_signing_key sk)) = Ok (public_of sk).
Proof.
  intros Hsk Hl. destruct (public_ok sk Hsk Hl) as (Hp & Hpl & Hv).
  unfold decode_public. simpl. rewrite decode_exact_encode by done. simpl. by rewrite Hv.
Qed.

(** What the holder of a key signs verifies under its public key. *)
Lemma challenge_response sk random :
  bytes_ok sk -> length sk = 32%nat -> bytes_ok random ->
  exists sig, sign_auth_challenge (from_signing_key sk) (create_auth_challenge random) = Ok sig /\
    verify_auth_challenge (public_key_b64 (from_signing_key sk)) (create_auth_challenge random) sig
    = Ok tt.
Proof.
  intros Hsk Hl Hr. unfold sign_auth_challenge, verify_auth_challenge, create_auth_challenge.
  rewrite signing_key_of, decode_public_of by done. rewrite b64url_round by done. simpl.
  eexists. split; [done|]. destruct (sign_ok sk random Hsk Hl) as (Hs & Hsl & Hv).
  rewrite decode_exact_encode by done. simpl. by rewrite Hv.
Qed.

Lemma decode_exact_nonempty n e s l : decode_exact (S n) e s = Ok l -> is_empty s = false.
Proof. destruct s; [|done]. unfold decode_exact. by rewrite (proj1 b64_empty). Qed.

(** A signature that verifies is not empty, nor is the key. *)
Lemma verify_signature_nonempty k m s :
  verify_signature k m s = Ok tt -> is_empty k = false /\ is_empty s = false.
Proof.
  unfold verify_signature, decode_public. destruct (decode_exact 32 _ k) eqn:Hk; simpl; [|done..].
  destruct (valid_public _); simpl; [|done]. destruct (decode_exact 64 _ s) eqn:Hs; simpl; [|done..].
  intros _. split; by eapply decode_exact_nonempty.
Qed.

Lemma public_key_nonempty sk :
  bytes_ok sk -> length sk = 32%nat -> is_empty (public_key_b64 (from_signing_key sk)) = false.
Proof.
  intros Hsk Hl. destruct (public_ok sk Hsk Hl) as (Hp & Hpl & _).
  eapply (decode_exact_nonempty 31 InvalidPublicKeyLength). by apply decode_exact_encode.
Qed.

Lemma challenge_nonempty random :
  bytes_ok random -> random <> [] -> is_empty (create_auth_challenge random) = false.
Proof.
  intros Hr Hne. unfold create_auth_challenge. destruct (b64url_encode random) eqn:He; [|done].
  pose proof (b64url_round random Hr) as Hround. rewrite He, (proj2 b64_empty) in Hround. congruence.
Qed.

Lemma signed_bytes_verify sk message :
  bytes_ok sk -> length sk = 32%nat ->
  exists sig, sign_bytes (from_signing_key sk) message = Ok sig /\
    verify_signature (public_key_b64 (from_signing_key sk)) message sig = Ok tt.
Proof.
  intros Hsk Hl. unfold sign_bytes, verify_signature.
  rewrite signing_key_of, decode_public_of by done. simpl. eexists. split; [done|].
  destruct (sign_ok sk message Hsk Hl) as (Hs & Hsl & Hv).
  rewrite decode_exact_encode by done. simpl. by rewrite Hv.
Qed.
End auth_lemmas.

(** What a successful verification says about the signature. *)
Lemma verify_auth_challenge_Ok `{Crypto} pk c sig :
  verify_auth_challenge pk c sig = Ok tt ->
  exists pkb cb sb, b64_decode pk = Some pkb /\ b64url_decode c = Some cb /\ b64_decode sig = Some sb /\
    length pkb = 32%nat /\ length sb = 64%nat /\ ed_verify pkb cb sb = true.
Proof.
  unfold verify_auth_challenge, decode_public, decode_exact.
  destruct (b64_decode pk) as [pkb|]; simpl; [|done]. case_decide; simpl; [|done].
  destruct (valid_public pkb); simpl; [|done].
  destruct (b64url_decode c) as [cb|]; simpl; [|done].
  destruct (b64_decode sig) as [sb|]; simpl; [|done]. case_decide; simpl; [|done].
  destruct (ed_verify pkb cb sb) eqn:Hv; [|done]. intros _. by exists pkb, cb, sb.
Qed.

Lemma verify_signature_Ok `{Crypto} pk m sig :
  verify_signature pk m sig = Ok tt ->
  exists pkb sb, b64_decode pk = Some pkb /\ b64_decode sig = Some sb /\ ed_verify pkb m sb = true.
Proof.
  unfold verify_signature, decode_public, decode_exact.
  destruct (b64_decode pk) as [pkb|]; simpl; [|done]. case_decide; simpl; [|done].
  destruct (valid_public pkb); simpl; [|done].
  destruct (b64_decode sig) as [sb|]; simpl; [|done]. case_decide; simpl; [|done].
  destruct (ed_verify pkb m sb) eqn:Hv; [|done]. intros _. by exists pkb, sb.
Qed.

(** ** Tokens *)

Lemma from_tokens_snoc ts t : from_tokens (ts ++ [t]) = <[token t := t]> (from_tokens ts).
Proof. unfold from_tokens. by rewrite foldl_app. Qed.

Lemma from_tokens_lookup ts k t :
  NoDup (token <$> ts) -> from_tokens ts !! k = Some t <-> t ∈ ts /\ token t = k.
Proof.
  induction ts as [|u ts IH] using rev_ind; intros Hnd.
  - split; [done | intros [Hin _]; by apply not_elem_of_nil in Hin].
  - rewrite fmap_app in Hnd. apply NoDup_app in Hnd as (Hnd & Hdis & _).
    rewrite from_tokens_snoc, lookup_insert_Some, IH by done. rewrite elem_of_app, list_elem_of_singleton.
    assert (Hu : forall t', t' ∈ ts -> token t' <> token u).
    { intros t' Ht' Heq. apply (Hdis (token t')); [by apply list_elem_of_fmap_2|].
      simpl. rewrite Heq. constructor. }
    split; [naive_solver|]. intros [[Hin| ->] Hk]; [right|left; done].
    split; [|done]. intros Heq. apply (Hu t Hin). congruence.
Qed.

Lemma all_tokens_perm {HO : HashOrder} m : all_tokens m ≡ₚ (map_to_list m).*2.
Proof. unfold all_tokens. by rewrite map_entries_perm. Qed.

Lemma all_tokens_NoDup {HO : HashOrder} m : manager_ok m -> NoDup (token <$> all_tokens m).
Proof.
  intros Hm. rewrite all_tokens_perm. rewrite <- list_fmap_compose.
  assert (Heq : (token ∘ snd) <$> map_to_list m = (map_to_list m).*1).
  { apply list_fmap_ext. intros i [k t] Hi. simpl.
    apply list_elem_of_lookup_2, elem_of_map_to_list in Hi. by apply Hm. }
  rewrite Heq. apply NoDup_fst_map_to_list.
Qed.

Lemma elem_of_all_tokens {HO : HashOrder} m t : t ∈ all_tokens m <-> exists k, m !! k = Some t.
Proof.
  rewrite all_tokens_perm. rewrite list_elem_of_fmap. split.
  - intros [[k t'] [-> Hin]]. apply elem_of_map_to_list in Hin. eauto.
  - intros [k Hk]. exists (k, t). split; [done | by apply elem_of_map_to_list].
Qed.

(** Writing the tokens out and reading them back gives the same manager, in any order. *)
Lemma from_all_tokens {HO : HashOrder} m : manager_ok m -> from_tokens (all_tokens m) = m.
Proof.
  intros Hm. apply map_eq. intros k. apply option_eq. intros t.
  rewrite from_tokens_lookup by by apply all_tokens_NoDup. rewrite elem_of_all_tokens. split.
  - intros [[k' Hk'] <-]. by destruct (Hm _ _ Hk') as [-> _].
  - intros Hk. destruct (Hm _ _ Hk) as [<- _]. eauto.
Qed.

Lemma redeem_ok v m : manager_ok m -> manager_ok (redeem v m).2.
Proof.
  intros Hm. unfold redeem. destruct (m !! v) as [t|] eqn:Hv; [|done].
  destruct (Hm _ _ Hv) as [Ht Hu]. destruct (Z.eqb_spec (uses_remaining t) 0); [done|]. simpl.
  intros k t' [[<- <-]|[_ Hk]]%lookup_insert_Some; [|by apply Hm]. simpl.
  unfold in_u in *. split; [done|lia].
Qed.

Lemma issue_ok v e u m : manager_ok m -> in_u 32 u -> manager_ok (issue_token v e u m).2.
Proof.
  intros Hm Hu k t. simpl. intros [[<- <-]|[_ Hk]]%lookup_insert_Some; [done | by apply Hm].
Qed.
