(* ===== verification/Stores.v ===== *)
(** The server's two persistent stores: invite tokens
    ([src/crates/bonded-server/src/invite_tokens.rs]) and authorized device keys
    ([src/crates/bonded-server/src/authorized_keys.rs], with its file watcher).  Files are a map from
    paths to text, on which reads and writes can fail; TOML is an external component, a class with
    its round-trip law. *)

From stdpp Require Import base tactics list gmap strings pretty.
From Stdlib Require Import ZArith Lia.
From S2P Require Import Prelude Text Auth.
Open Scope Z_scope.

(** * Definitions *)

Inductive StoreError := StoreIo | StoreToml | StoreClock.

(** ** Files *)

Record FS := { files : gmap string string; read_fails : gset string; write_fails : gset string }.

Definition exists_file (path : string) (fs : FS) : bool := bool_decide (is_Some (files fs !! path)).

Definition read_to_string (path : string) (fs : FS) : outcome StoreError string :=
  if decide (path ∈ read_fails fs) then Err StoreIo else ok_or StoreIo (files fs !! path).

Definition write_file (path data : string) (fs : FS) : outcome StoreError unit * FS :=
  if decide (path ∈ write_fails fs) then (Err StoreIo, fs)
  else (Ok tt, {| files := <[path := data]> (files fs); read_fails := read_fails fs;
                  write_fails := write_fails fs |}).

(** [toml::from_str] and [toml::to_string_pretty] for a document type *)
Class Toml (A : Type) := {
  toml_parse : string -> option A;
  toml_print : A -> option string
}.

Class TomlLaws (A : Type) `{Toml A} :=
  toml_round : forall a, exists s, toml_print a = Some s /\ toml_parse s = Some a.

(** ** Invite tokens *)

(** [InviteTokensFile { tokens }] *)
Record InviteTokensFile := { file_tokens : list InviteToken }.

Section invites.
Context `{Toml InviteTokensFile} {HO : HashOrder}.

Definition load_manager (path : string) (fs : FS) : outcome StoreError InviteTokenManager :=
  return_if negb (exists_file path fs) with Ok ∅ ;;
  raw ← read_to_string path fs;
  parsed ← ok_or StoreToml (toml_parse raw);
  Ok (from_tokens (file_tokens parsed)).

Definition persist_manager (path : string) (m : InviteTokenManager) (fs : FS)
  : outcome StoreError unit * FS :=
  match toml_print {| file_tokens := all_tokens m |} with
  | None => (Err StoreToml, fs)
  | Some data => write_file path data fs
  end.

(** [unix_timestamp_after]; [now] is [None] when the clock is before the epoch. *)
Definition unix_timestamp_after (now : option Z) (offset : Z) : outcome StoreError Z :=
  n ← ok_or StoreClock now; Ok (saturating_add 64 n offset).

Definition ensure_startup_invite (path value : string) (now : option Z) (fs : FS)
  : outcome StoreError InviteToken * FS :=
  match load_manager path fs with
  | Ok manager =>
      match List.find is_usable (all_tokens manager) with
      | Some existing => (Ok existing, fs)
      | None =>
          match unix_timestamp_after now (24 * 60 * 60) with
          | Ok stamp =>
              let (created, manager) := issue_token value ("unix:" +:+ pretty stamp) 1 manager in
              match persist_manager path manager fs with
              | (Ok _, fs) => (Ok created, fs)
              | (Err e, fs) => (Err e, fs)
              | (Panic, fs) => (Panic, fs)
              end
          | Err e => (Err e, fs)
          | Panic => (Panic, fs)
          end
      end
  | Err e => (Err e, fs)
  | Panic => (Panic, fs)
  end.

Definition redeem_invite_token (path value : string) (fs : FS) : outcome StoreError bool * FS :=
  match load_manager path fs with
  | Ok manager =>
      let (r, manager) := redeem value manager in
      let redeemed := is_ok r in
      if redeemed then
        match persist_manager path manager fs with
        | (Ok _, fs) => (Ok redeemed, fs)
        | (Err e, fs) => (Err e, fs)
        | (Panic, fs) => (Panic, fs)
        end
      else (Ok redeemed, fs)
  | Err e => (Err e, fs)
  | Panic => (Panic, fs)
  end.

(** [k] redemptions of the same value, one after the other. *)
Fixpoint redeem_times (k : nat) (path value : string) (fs : FS)
  : list (outcome StoreError bool) * FS :=
  match k with
  | O => ([], fs)
  | S k =>
      let (r, fs) := redeem_invite_token path value fs in
      let (rs, fs) := redeem_times k path value fs in (r :: rs, fs)
  end.
End invites.

(** ** Authorized keys *)

Record AuthorizedDevice := { device_id : string; public_key : string; added_at : option string }.

#[global] Instance AuthorizedDevice_eq_dec : EqDecision AuthorizedDevice.
Proof. solve_decision. Defined.

(** [AuthorizedKeysFile { devices }] *)
Record AuthorizedKeysFile := { file_devices : list AuthorizedDevice }.

(** [AuthorizedKeysStore]: the in-memory map behind its lock. *)
Record AuthorizedKeysStore := {
  store_path : string;
  devices : gmap string AuthorizedDevice
}.

(** [chars().take(n)] on the bytes of a string: a character is a leading byte and its continuation
    bytes. *)
Fixpoint take_chars (n : nat) (l : list Z) : list Z :=
  match l with
  | [] => []
  | b :: l =>
      if cont b then b :: take_chars n l
      else match n with O => [] | S n => b :: take_chars n l end
  end.

Section keys.
Context `{Toml AuthorizedKeysFile}.

Definition load_devices_file (path : string) (fs : FS) : outcome StoreError AuthorizedKeysFile :=
  return_if negb (exists_file path fs) with Ok {| file_devices := [] |} ;;
  raw ← read_to_string path fs;
  ok_or StoreToml (toml_parse raw).

Definition devices_map (ds : list AuthorizedDevice) : gmap string AuthorizedDevice :=
  foldl (fun m d => <[public_key d := d]> m) ∅ ds.

Definition load_devices_map (path : string) (fs : FS)
  : outcome StoreError (gmap string AuthorizedDevice) :=
  parsed ← load_devices_file path fs; Ok (devices_map (file_devices parsed)).

Definition persist_devices_file (path : string) (doc : AuthorizedKeysFile) (fs : FS)
  : outcome StoreError unit * FS :=
  match toml_print doc with
  | None => (Err StoreToml, fs)
  | Some raw => write_file path raw fs
  end.

Definition keys_load (path : string) (fs : FS) : outcome StoreError AuthorizedKeysStore :=
  ds ← load_devices_map path fs; Ok {| store_path := path; devices := ds |}.

Definition keys_reload (s : AuthorizedKeysStore) (fs : FS)
  : outcome StoreError unit * AuthorizedKeysStore :=
  match load_devices_map (store_path s) fs with
  | Ok ds => (Ok tt, {| store_path := store_path s; devices := ds |})
  | Err e => (Err e, s)
  | Panic => (Panic, s)
  end.

Definition is_authorized (key : string) (s : AuthorizedKeysStore) : bool :=
  bool_decide (is_Some (devices s !! key)).

Definition device_count (s : AuthorizedKeysStore) : nat := size (devices s).

Definition new_device (key : string) : AuthorizedDevice :=
  {| device_id := "device-" +:+ bytes_string (take_chars 8 (string_bytes key));
     public_key := key; added_at := None |}.

Definition authorize_device_key (path key : string) (fs : FS) : outcome StoreError bool * FS :=
  match load_devices_file path fs with
  | Ok doc =>
      if existsb (fun d => bool_decide (public_key d = key)) (file_devices doc) then (Ok false, fs)
      else
        match persist_devices_file path {| file_devices := file_devices doc ++ [new_device key] |} fs with
        | (Ok _, fs) => (Ok true, fs)
        | (Err e, fs) => (Err e, fs)
        | (Panic, fs) => (Panic, fs)
        end
  | Err e => (Err e, fs)
  | Panic => (Panic, fs)
  end.
End keys.

(** ** The file watcher *)

Inductive ModifyKind := ModifyAny | ModifyData | ModifyMetadata | ModifyName | ModifyOther.
Inductive AccessKind := AccessAny | AccessRead | AccessOpen | AccessCloseWrite | AccessCloseOther
  | AccessOther.
Inductive EventKind :=
  | EventAny
  | EventAccess (k : AccessKind)
  | EventCreate
  | EventModify (k : ModifyKind)
  | EventRemove
  | EventOther.

Definition should_reload_for_event_kind (k : EventKind) : bool :=
  match k with
  | EventCreate | EventRemove => true
  | EventModify (ModifyAny | ModifyData | ModifyName) => true
  | EventAccess AccessCloseWrite => true
  | _ => false
  end.

Definition DEBOUNCE_MS : Z := 200.

(** The watcher's callback for an event at [now]: the time of the last reload and the store. *)
Definition watcher_event `{Toml AuthorizedKeysFile} (now : Z) (kind : EventKind) (fs : FS)
    (last : option Z) (s : AuthorizedKeysStore) : option Z * AuthorizedKeysStore :=
  if negb (should_reload_for_event_kind kind) then (last, s)
  else
    let should_skip :=
      match last with
      | Some t => bool_decide (now - t < DEBOUNCE_MS)
      | None => false
      end in
    if should_skip then (last, s) else (Some now, (keys_reload s fs).2).

(** The events of a run, each with the time it is handled at and the files as they are then. *)
Definition watcher_run `{Toml AuthorizedKeysFile} (evs : list (Z * EventKind * FS))
    (st : option Z * AuthorizedKeysStore) : option Z * AuthorizedKeysStore :=
  foldl (fun '(last, s) '(now, kind, fs) => watcher_event now kind fs last s) st evs.

(** * Lemmas *)

(** The path can be read and written. *)
Definition path_ok (path : string) (fs : FS) : Prop := path ∉ read_fails fs /\ path ∉ write_fails fs.

Lemma write_file_ok path data fs :
  path_ok path fs ->
  exists fs', write_file path data fs = (Ok tt, fs') /\ files fs' = <[path := data]> (files fs) /\
    path_ok path fs'.
Proof.
  intros [Hr Hw]. unfold write_file. rewrite decide_False by done. eexists. by split.
Qed.

Lemma read_written path data fs :
  path ∉ read_fails fs -> files fs !! path = Some data ->
  exists_file path fs = true /\ read_to_string path fs = Ok data.
Proof.
  intros Hr Hf. unfold exists_file, read_to_string. rewrite decide_False by done. rewrite Hf.
  by rewrite bool_decide_eq_true_2.
Qed.

Section invite_lemmas.
Context `{TomlLaws InviteTokensFile} {HO : HashOrder}.

(** A persisted manager is what the next load reads. *)
Lemma persist_load path m fs :
  path_ok path fs -> manager_ok m ->
  exists fs', persist_manager path m fs = (Ok tt, fs') /\ path_ok path fs' /\
    load_manager path fs' = Ok m.
Proof.
  intros Hp Hm. unfold persist_manager.
  destruct (toml_round {| file_tokens := all_tokens m |}) as (s & -> & Hs).
  destruct (write_file_ok path s fs Hp) as (fs' & -> & Hf & Hp'). exists fs'. split_and!; [done..|].
  unfold load_manager. destruct (read_written path s fs') as [He Hr]; [apply Hp' | |].
  - by rewrite Hf, lookup_insert_eq.
  - rewrite He, Hr. simpl. rewrite Hs. simpl. by rewrite from_all_tokens.
Qed.

(** Redeeming through the file is redeeming in the manager. *)
Lemma redeem_invite_spec path v m fs :
  path_ok path fs -> manager_ok m -> load_manager path fs = Ok m ->
  exists fs', redeem_invite_token path v fs = (Ok (is_ok (redeem v m).1), fs') /\
    path_ok path fs' /\ load_manager path fs' = Ok (redeem v m).2.
Proof.
  intros Hp Hm Hl. unfold redeem_invite_token. rewrite Hl.
  pose proof (redeem_ok v m Hm) as Hok. destruct (redeem v m) as [r m'] eqn:Hr. simpl in *.
  destruct (is_ok r) eqn:Hir.
  - destruct (persist_load path m' fs Hp Hok) as (fs' & -> & Hp' & Hl'). exists fs'. done.
  - exists fs. split_and!; [done..|]. unfold redeem in Hr.
    destruct (m !! v) as [t|]; [|by injection Hr as <- <-].
    destruct (uses_remaining t =? 0); [by injection Hr as <- <-|].
    injection Hr as <- <-. done.
Qed.

Lemma redeem_usable v m t :
  m !! v = Some t -> 0 < uses_remaining t ->
  exists t', redeem v m = (Ok t', <[v := t']> m) /\ uses_remaining t' = uses_remaining t - 1.
Proof.
  intros Hv Hu. unfold redeem. rewrite Hv.
  destruct (Z.eqb_spec (uses_remaining t) 0); [lia|]. by eexists.
Qed.

Lemma redeem_times_spec k path v m t fs :
  path_ok path fs -> manager_ok m -> load_manager path fs = Ok m -> m !! v = Some t ->
  (redeem_times k path v fs).1 =
  replicate (Nat.min k (Z.to_nat (uses_remaining t))) (Ok true) ++
  replicate (k - Z.to_nat (uses_remaining t)) (Ok false).
Proof.
  revert m t fs. induction k as [|k IH]; intros m t fs Hp Hm Hl Hv; [done|].
  destruct (Hm _ _ Hv) as [_ Hu]. unfold in_u in Hu. cbn [redeem_times].
  destruct (redeem_invite_spec path v m fs Hp Hm Hl) as (fs' & -> & Hp' & Hl').
  pose proof (redeem_ok v m Hm) as Hm'.
  destruct (Z_le_gt_dec (uses_remaining t) 0) as [Hz|Hz].
  - assert (Hr : redeem v m = (Err Exhausted, m)).
    { unfold redeem. rewrite Hv. destruct (Z.eqb_spec (uses_remaining t) 0); [done|lia]. }
    rewrite Hr in *. simpl in Hl', Hm'. pose proof (IH m t fs' Hp' Hm Hl' Hv) as IH'.
    destruct (redeem_times k path v fs') as [rs fs'']. simpl in *. rewrite IH'.
    replace (Z.to_nat (uses_remaining t)) with 0%nat by lia.
    rewrite !Nat.min_0_r, !Nat.sub_0_r. done.
  - destruct (redeem_usable v m t Hv) as (t' & Hr & Hut); [lia|].
    rewrite Hr in *. simpl in Hl', Hm'.
    pose proof (IH (<[v := t']> m) t' fs' Hp' Hm' Hl' (lookup_insert_eq _ _ _)) as IH'.
    destruct (redeem_times k path v fs') as [rs fs'']. simpl in *. rewrite IH', Hut.
    replace (Z.to_nat (uses_remaining t)) with (S (Z.to_nat (uses_remaining t - 1))) by lia.
    done.
Qed.
End invite_lemmas.

(** A token that is not in the file cannot be redeemed, and nothing is written. *)
Lemma redeem_unknown `{Toml InviteTokensFile} {HO : HashOrder} path v m fs :
  load_manager path fs = Ok m -> m !! v = None -> redeem_invite_token path v fs = (Ok false, fs).
Proof. intros Hl Hv. unfold redeem_invite_token, redeem. by rewrite Hl, Hv. Qed.

Lemma find_usable {HO : HashOrder} m t : List.find is_usable (all_tokens m) = Some t ->
  0 < uses_remaining t /\ exists k, m !! k = Some t.
Proof.
  intros Hf. apply List.find_some in Hf as [Hin Hu]. unfold is_usable in Hu.
  split; [lia|]. apply elem_of_all_tokens. by apply list_elem_of_In.
Qed.

Lemma from_tokens_ok ts : Forall (fun t => in_u 32 (uses_remaining t)) ts -> manager_ok (from_tokens ts).
Proof.
  induction ts as [|t ts IH] using rev_ind; intros Hall; [done|].
  apply Forall_app in Hall as [Hall Ht]. rewrite Forall_singleton in Ht.
  rewrite from_tokens_snoc. intros k t' [[<- <-]|[_ Hk]]%lookup_insert_Some; [done|].
  by apply (IH Hall).
Qed.

(** ** Devices *)

Lemma devices_map_snoc ds d : devices_map (ds ++ [d]) = <[public_key d := d]> (devices_map ds).
Proof. unfold devices_map. by rewrite foldl_app. Qed.

Lemma devices_map_is_Some ds key :
  is_Some (devices_map ds !! key) <-> exists d, d ∈ ds /\ public_key d = key.
Proof.
  induction ds as [|d ds IH] using rev_ind.
  - split; [by intros [? ?] | intros (d & Hd & _); by apply not_elem_of_nil in Hd].
  - rewrite devices_map_snoc, lookup_insert_is_Some', IH. setoid_rewrite elem_of_app.
    setoid_rewrite list_elem_of_singleton. naive_solver.
Qed.

Lemma has_key_spec ds key :
  existsb (fun d => bool_decide (public_key d = key)) ds = true <-> is_Some (devices_map ds !! key).
Proof.
  rewrite devices_map_is_Some, existsb_exists. setoid_rewrite list_elem_of_In.
  by setoid_rewrite bool_decide_eq_true.
Qed.

Section key_lemmas.
Context `{TomlLaws AuthorizedKeysFile}.

(** After authorizing a key the file holds its devices and, if it was new, one more. *)
Lemma authorize_spec path key doc fs :
  path_ok path fs -> load_devices_file path fs = Ok doc ->
  exists b fs', authorize_device_key path key fs = (Ok b, fs') /\ path_ok path fs' /\
    load_devices_file path fs' =
      Ok (if b then {| file_devices := file_devices doc ++ [new_device key] |} else doc) /\
    (b = false <-> is_Some (devices_map (file_devices doc) !! key)) /\
    (b = false -> fs' = fs).
Proof.
  intros Hp Hl. unfold authorize_device_key. rewrite Hl.
  destruct (existsb _ (file_devices doc)) eqn:Hex.
  - exists false, fs. split_and!; try done. split; [|done]. intros _. by apply has_key_spec.
  - unfold persist_devices_file.
    destruct (toml_round {| file_devices := file_devices doc ++ [new_device key] |})
      as (s & -> & Hs).
    destruct (write_file_ok path s fs Hp) as (fs' & -> & Hf & Hp'). exists true, fs'.
    destruct (read_written path s fs') as [He Hr]; [apply Hp' | by rewrite Hf, lookup_insert_eq |].
    split_and!; try done.
    + unfold load_devices_file. rewrite He, Hr. simpl. by rewrite Hs.
    + split; [done|]. intros Hk. apply has_key_spec in Hk. congruence.
Qed.

Lemma reload_spec s doc fs :
  load_devices_file (store_path s) fs = Ok doc ->
  keys_reload s fs =
  (Ok tt, {| store_path := store_path s; devices := devices_map (file_devices doc) |}).
Proof. intros Hl. unfold keys_reload, load_devices_map. by rewrite Hl. Qed.
End key_lemmas.

(** ** The watcher *)

Section watcher_lemmas.
Context `{Toml AuthorizedKeysFile}.

Lemma keys_reload_path s fs : store_path (keys_reload s fs).2 = store_path s.
Proof. unfold keys_reload. by destruct (load_devices_map _ fs). Qed.

Lemma keys_reload_devices s fs ds :
  load_devices_map (store_path s) fs = Ok ds -> devices (keys_reload s fs).2 = ds.
Proof. intros Hl. unfold keys_reload. by rewrite Hl. Qed.

Lemma watcher_event_path now k fs l s :
  store_path (watcher_event now k fs l s).2 = store_path s.
Proof.
  unfold watcher_event. destruct (should_reload_for_event_kind k); [|done]. cbn [negb].
  destruct l as [t|]; [case_bool_decide; [done|]|]; apply keys_reload_path.
Qed.

Lemma watcher_run_snoc evs e st :
  watcher_run (evs ++ [e]) st =
  watcher_event e.1.1 e.1.2 e.2 (watcher_run evs st).1 (watcher_run evs st).2.
Proof.
  unfold watcher_run. rewrite foldl_app. simpl.
  destruct (foldl _ st evs) as [l s]. by destruct e as [[now k] fs].
Qed.

Lemma watcher_run_path evs st : store_path (watcher_run evs st).2 = store_path st.2.
Proof.
  induction evs as [|e evs IH] using rev_ind; [done|].
  by rewrite watcher_run_snoc, watcher_event_path.
Qed.

(** The event of the last reload: it was relevant, its time is remembered, the store holds what the
    file held then, and every relevant event after it was less than 200 ms away. *)
Definition last_reload (path : string) (evs : list (Z * EventKind * FS))
    (st : option Z * AuthorizedKeysStore) (now : Z) (fs : FS) : Prop :=
  exists before kind after, evs = before ++ (now, kind, fs) :: after /\
    should_reload_for_event_kind kind = true /\ st.1 = Some now /\
    (forall ds, load_devices_map path fs = Ok ds -> devices st.2 = ds) /\
    Forall (fun e => should_reload_for_event_kind e.1.2 = true -> e.1.1 - now < DEBOUNCE_MS) after.

Lemma last_reload_now path evs now kind fs st :
  should_reload_for_event_kind kind = true -> st.1 = Some now ->
  (forall ds, load_devices_map path fs = Ok ds -> devices st.2 = ds) ->
  last_reload path (evs ++ [(now, kind, fs)]) st now fs.
Proof. intros. by exists evs, kind, []. Qed.

Lemma last_reload_skip path evs e st now fs :
  last_reload path evs st now fs ->
  (should_reload_for_event_kind e.1.2 = true -> e.1.1 - now < DEBOUNCE_MS) ->
  last_reload path (evs ++ [e]) st now fs.
Proof.
  intros (b & k & a & -> & ? & ? & ? & Ha) He. exists b, k, (a ++ [e]).
  split_and!; [by rewrite <- app_assoc | done..|]. apply Forall_app. by rewrite Forall_singleton.
Qed.
End watcher_lemmas.

(** * Properties *)

(** C17: A token stored with [n] uses left is redeemed exactly [n] times through the file: the first [n]
    of any number of attempts succeed and the later ones are refused, each attempt reading the file
    the one before wrote. *)
Theorem invite_uses_exact `{TomlLaws InviteTokensFile} {HO : HashOrder} (k : nat) (path v : string)
    (m : InviteTokenManager) (t : InviteToken) (fs : FS) :
  path_ok path fs -> manager_ok m -> load_manager path fs = Ok m -> m !! v = Some t ->
  (redeem_times k path v fs).1 =
  replicate (Nat.min k (Z.to_nat (uses_remaining t))) (Ok true) ++
  replicate (k - Z.to_nat (uses_remaining t)) (Ok false).
Proof. apply redeem_times_spec. Qed.

(** The invite made ready at start-up can be used: with a readable, writable and well-formed token
    file, [ensure_startup_invite] returns a token with uses left that the file then holds under its
    own value, and redeeming it succeeds; a usable token already there is returned without writing. *)
Theorem startup_invite_redeems `{TomlLaws InviteTokensFile} {HO : HashOrder} (path value : string) (now : Z)
    (m : InviteTokenManager) (fs : FS) :
  path_ok path fs -> manager_ok m -> load_manager path fs = Ok m ->
  exists t fs', ensure_startup_invite path value (Some now) fs = (Ok t, fs') /\
    0 < uses_remaining t /\
    (exists m', manager_ok m' /\ load_manager path fs' = Ok m' /\ m' !! token t = Some t) /\
    (redeem_invite_token path (token t) fs').1 = Ok true /\
    ((exists k u, m !! k = Some u /\ 0 < uses_remaining u) -> fs' = fs).
Proof.
  intros Hp Hm Hl. unfold ensure_startup_invite. rewrite Hl.
  assert (Hred : forall t m' fs', path_ok path fs' -> manager_ok m' -> load_manager path fs' = Ok m' ->
    m' !! token t = Some t -> 0 < uses_remaining t ->
    (redeem_invite_token path (token t) fs').1 = Ok true).
  { intros t m' fs' Hp' Hm' Hl' Ht Hu.
    destruct (redeem_invite_spec path (token t) m' fs' Hp' Hm' Hl') as (fs2 & -> & _).
    by destruct (redeem_usable (token t) m' t Ht Hu) as (t' & -> & _). }
  destruct (List.find is_usable (all_tokens m)) as [t|] eqn:Hf.
  - apply find_usable in Hf as [Hu [k Hk]]. destruct (Hm _ _ Hk) as [<- _].
    exists t, fs. split_and!; [done..|eauto|by eapply Hred|done].
  - cbn [unix_timestamp_after ok_or mbind outcome_bind]. unfold issue_token. cbn zeta iota beta.
    set (t := {| token := value; expires_at := _; uses_remaining := 1 |}).
    assert (Hm' : manager_ok (<[token t := t]> m)) by (by apply (issue_ok value _ 1)).
    destruct (persist_load path _ fs Hp Hm') as (fs' & -> & Hp' & Hl').
    exists t, fs'. assert (Ht : <[token t := t]> m !! token t = Some t) by apply lookup_insert_eq.
    split_and!; [done..|eauto|by eapply Hred|].
    intros (k & u & Hk & Hu). exfalso.
    assert (Hin : In u (all_tokens m)) by (apply list_elem_of_In, elem_of_all_tokens; eauto).
    apply (List.find_none _ _ Hf) in Hin. unfold is_usable in Hin. lia.
Qed.

(** Authorizing a key takes effect at the next reload and is idempotent: after it the reloaded store
    authorizes the key and exactly the keys the file authorized before, and a second call changes
    nothing. *)
Theorem authorize_then_reload `{TomlLaws AuthorizedKeysFile} (s : AuthorizedKeysStore) (key : string)
    (doc : AuthorizedKeysFile) (fs : FS) :
  path_ok (store_path s) fs -> load_devices_file (store_path s) fs = Ok doc ->
  exists b fs' s', authorize_device_key (store_path s) key fs = (Ok b, fs') /\
    keys_reload s fs' = (Ok tt, s') /\
    (forall k, is_authorized k s' = true <->
       k = key \/ exists d, d ∈ file_devices doc /\ public_key d = k) /\
    authorize_device_key (store_path s) key fs' = (Ok false, fs').
Proof.
  intros Hp Hl. destruct (authorize_spec _ key doc fs Hp Hl) as (b & fs' & Ha & Hp' & Hl' & Hb & Hsame).
  exists b, fs'. rewrite (reload_spec s _ fs' Hl'). eexists. split_and!; [done|done| |].
  - intros k. unfold is_authorized. rewrite bool_decide_eq_true. simpl.
    rewrite <- devices_map_is_Some. destruct b; simpl.
    + rewrite devices_map_snoc, lookup_insert_is_Some'. simpl. naive_solver.
    + split; [by right|]. intros [->|Hk]; [by apply Hb | done].
  - destruct (authorize_spec _ key _ fs' Hp' Hl') as (b' & fs'' & -> & _ & _ & Hb' & Hsame').
    assert (b' = false) as ->; [|by rewrite Hsame']. apply Hb'. destruct b; simpl; [|by apply Hb].
    rewrite devices_map_snoc. simpl. rewrite lookup_insert_eq. eauto.
Qed.

(** What the watched store holds: after any sequence of file events it either never saw a relevant
    one and is as it was, or holds what the file held at the last reload, and every relevant event
    after that reload came within the 200 ms debounce window. *)
Theorem watcher_holds_last_reload `{Toml AuthorizedKeysFile} (evs : list (Z * EventKind * FS))
    (s : AuthorizedKeysStore) :
  let st := watcher_run evs (None, s) in
  (st = (None, s) /\ Forall (fun e => should_reload_for_event_kind e.1.2 = false) evs) \/
  exists now fs, last_reload (store_path s) evs st now fs.
Proof.
  induction evs as [|[[now k] fs] evs IH] using rev_ind; [by left|].
  rewrite watcher_run_snoc. cbn [fst snd].
  pose proof (watcher_run_path evs (None, s)) as Hpath. cbn zeta in *.
  destruct (watcher_run evs (None, s)) as [l s1]. cbn [fst snd] in *.
  assert (Hnew : should_reload_for_event_kind k = true ->
    last_reload (store_path s) (evs ++ [(now, k, fs)]) (Some now, (keys_reload s1 fs).2) now fs).
  { intros Hk. apply last_reload_now; [done..|]. intros ds. rewrite <- Hpath.
    apply keys_reload_devices. }
  unfold watcher_event. destruct (should_reload_for_event_kind k) eqn:Hk; cbn [negb].
  - right. destruct l as [t|]; [case_bool_decide|]; eauto.
    destruct IH as [[[=] _]|(now' & fs' & Hr)]. exists now', fs'. apply last_reload_skip; [done|].
    intros _. destruct Hr as (? & ? & ? & _ & _ & [= ->] & _). done.
  - destruct IH as [[-> Hall]|(now' & fs' & Hr)].
    + left. split; [done|]. apply Forall_app. by rewrite Forall_singleton.
    + right. exists now', fs'. apply last_reload_skip; [done|]. simpl. congruence.
Qed.

(** ** Witnesses *)

#[global] Instance InviteToken_countable : Countable InviteToken.
Proof.
  refine (inj_countable' (fun t => (token t, expires_at t, uses_remaining t))
    (fun '(a, b, c) => {| token := a; expires_at := b; uses_remaining := c |}) _).
  by intros [].
Defined.

#[global] Instance AuthorizedDevice_countable : Countable AuthorizedDevice.
Proof.
  refine (inj_countable' (fun d => (device_id d, public_key d, added_at d))
    (fun '(a, b, c) => {| device_id := a; public_key := b; added_at := c |}) _).
  by intros [].
Defined.

Module Sample.
(** A concrete text format in the place of TOML. *)
#[local] Instance toml_invites : Toml InviteTokensFile := {|
  toml_parse s := (fun l => {| file_tokens := l |}) <$> bits_parse s;
  toml_print f := Some (bits_print (file_tokens f))
|}.

#[local] Instance toml_invites_laws : TomlLaws InviteTokensFile.
Proof. intros [l]. eexists. split; [done|]. cbn. by rewrite bits_round. Qed.

#[local] Instance toml_keys : Toml AuthorizedKeysFile := {|
  toml_parse s := (fun l => {| file_devices := l |}) <$> bits_parse s;
  toml_print f := Some (bits_print (file_devices f))
|}.

#[local] Instance toml_keys_laws : TomlLaws AuthorizedKeysFile.
Proof. intros [l]. eexists. split; [done|]. cbn. by rewrite bits_round. Qed.

(** Two orders a hash map may have *)
#[local] Instance listing : HashOrder.
Proof. refine {| map_entries m := map_to_list m |}. done. Defined.

Definition listing_back : HashOrder.
Proof. refine {| map_entries m := rev (map_to_list m) |}. intros m. symmetry. apply Permutation_rev. Defined.

Definition sample_token : InviteToken :=
  {| token := "abc"; expires_at := "unix:9"; uses_remaining := 2 |}.
Definition sample_tokens_fs : FS :=
  {| files := {[ "t" := bits_print [sample_token] ]}; read_fails := ∅; write_fails := ∅ |}.
Definition sample_device : AuthorizedDevice :=
  {| device_id := "d"; public_key := "k1"; added_at := None |}.
Definition sample_keys_fs : FS :=
  {| files := {[ "k" := bits_print [sample_device] ]}; read_fails := ∅; write_fails := ∅ |}.

Lemma sample_manager_ok : manager_ok {[ "abc" := sample_token ]}.
Proof. intros k t [<- <-]%lookup_singleton_Some. done. Qed.

(** Two of three attempts at a token with two uses succeed. *)
Lemma invite_uses_exact_witness :
  (redeem_times 3 "t" "abc" sample_tokens_fs).1 = [Ok true; Ok true; Ok false].
Proof.
  apply (invite_uses_exact 3 "t" "abc" {[ "abc" := sample_token ]} sample_token sample_tokens_fs).
  - split; apply not_elem_of_empty.
  - apply sample_manager_ok.
  - vm_compute. reflexivity.
  - reflexivity.
Defined.

Lemma startup_invite_redeems_witness :
  exists t fs', ensure_startup_invite "t" "new" (Some 0) sample_tokens_fs = (Ok t, fs') /\
    0 < uses_remaining t /\ fs' = sample_tokens_fs.
Proof.
  destruct (startup_invite_redeems "t" "new" 0 {[ "abc" := sample_token ]} sample_tokens_fs)
    as (t & fs' & He & Hu & _ & _ & Hs).
  - split; apply not_elem_of_empty.
  - apply sample_manager_ok.
  - vm_compute. reflexivity.
  - exists t, fs'. split; [exact He|]. split; [exact Hu|]. apply Hs. exists "abc", sample_token.
    split; reflexivity.
Defined.

Lemma authorize_then_reload_witness :
  exists b fs' s', authorize_device_key "k" "k2" sample_keys_fs = (Ok b, fs') /\
    keys_reload {| store_path := "k"; devices := ∅ |} fs' = (Ok tt, s') /\
    is_authorized "k2" s' = true /\ is_authorized "k1" s' = true.
Proof.
  destruct (authorize_then_reload {| store_path := "k"; devices := ∅ |} "k2"
    {| file_devices := [sample_device] |} sample_keys_fs) as (b & fs' & s' & Ha & Hr & Hk & _).
  - split; apply not_elem_of_empty.
  - vm_compute. reflexivity.
  - exists b, fs', s'. split; [exact Ha|]. split; [exact Hr|]. split; apply Hk.
    + by left.
    + right. exists sample_device. split; [|reflexivity]. apply list_elem_of_singleton. reflexivity.
Defined.
End Sample.
