(* ===== verification/AuthHandshake.v ===== *)
(** The challenge-response handshake, both ends: the server's three variants
    ([src/crates/bonded-server/src/auth_handshake.rs]) and the client's three
    ([src/crates/bonded-client/src/lib.rs]).  An end is a program that sends and receives texts over a
    state of its own; [run] drives it with any sequence of received texts and failures, [link] joins
    two ends through their queues. *)

From stdpp Require Import base tactics list gmap strings.
From Stdlib Require Import ZArith Lia.
From S2P Require Import Prelude Text Json Auth Stores.
Open Scope Z_scope.

(** * Definitions *)

(** ** Programs that exchange texts *)

Inductive HsError :=
  | HsIo
  | HsClosed
  | HsTooLong
  | HsJson
  | HsAuth (e : AuthError)
  | HsStore (e : StoreError)
  | HsUnauthorized
  | HsRejected (status : string).

(** [Send] and [Recv] carry the state the program is left in if the operation fails. *)
Inductive proc (S A : Type) : Type :=
  | Done (r : outcome HsError A) (s : S)
  | Send (m : string) (s : S) (k : proc S A)
  | Recv (s : S) (k : string -> proc S A).
Arguments Done {S A} _ _.
Arguments Send {S A} _ _ _.
Arguments Recv {S A} _ _.

(** A run against any peer: what is received ([None]: the read fails), how many sends succeed; the
    texts sent, the result and the final state. *)
Fixpoint run {S A} (ins : list (option string)) (sends : nat) (p : proc S A)
  : list string * outcome HsError A * S :=
  match p with
  | Done r s => ([], r, s)
  | Send m s k =>
      match sends with
      | O => ([], Err HsIo, s)
      | S n => let '(out, r, s) := run ins n k in (m :: out, r, s)
      end
  | Recv s k =>
      match ins with
      | Some m :: ins => run ins sends (k m)
      | _ => ([], Err HsIo, s)
      end
  end.

(** Two ends joined: [qc] and [qs] hold the texts on their way to the client and to the server; an end
    that waits when the other has finished sees the connection closed. *)
Fixpoint link {C D A B} (fuel : nat) (qc qs : list string)
    (c : proc C A) (s : proc D B) : option (outcome HsError A * outcome HsError B * D) :=
  match fuel with
  | O => None
  | S fuel =>
      let server (c : proc C A) :=
        match s with
        | Done rs ds =>
            match c with
            | Done rc _ => Some (rc, rs, ds)
            | _ => Some (Err HsIo, rs, ds)
            end
        | Send m _ k => link fuel (qc ++ [m]) qs c k
        | Recv ds k =>
            match qs with
            | m :: qs => link fuel qc qs c (k m)
            | [] => match c with Done rc _ => Some (rc, Err HsIo, ds) | _ => None end
            end
        end in
      match c with
      | Done _ _ => server c
      | Send m _ k => link fuel qc (qs ++ [m]) k s
      | Recv _ k =>
          match qc with
          | m :: qc => link fuel qc qs (k m) s
          | [] => server c
          end
      end
  end.

(** ** Messages *)

Record ClientHello := { hello_key : string; hello_invite : string }.

(** [#[derive(Deserialize)]] of [ClientHello] *)
Definition hello_of_json (j : json) : option ClientHello :=
  match j with
  | JObj fields =>
      k ← field_str "public_key_b64" fields;
      t ← field_str_default "invite_token" fields;
      Some {| hello_key := k; hello_invite := t |}
  | JArr [JStr k] => Some {| hello_key := k; hello_invite := EmptyString |}
  | JArr [JStr k; JStr t] => Some {| hello_key := k; hello_invite := t |}
  | _ => None
  end.

(** The same for a struct with one required string field. *)
Definition single_of_json (field : string) (j : json) : option string :=
  match j with
  | JObj fields => field_str field fields
  | JArr [JStr s] => Some s
  | _ => None
  end.

Definition ClientProof : json -> option string := single_of_json "signature_b64".
Definition ServerAuthResult : json -> option string := single_of_json "status".

(** [serde_json::from_value::<ServerChallenge>]: in a [Value] the last of repeated members stays. *)
Definition challenge_of_value (j : json) : option string :=
  match j with
  | JObj _ => json_get "challenge_b64" j ≫= as_str
  | JArr [JStr s] => Some s
  | _ => None
  end.

(** What each end prints. *)
Definition challenge_msg (challenge : string) : json := flat [("challenge_b64", challenge)].
Definition status_msg (status : string) : json := flat [("status", status)].
Definition hello_msg (key invite : string) : json :=
  flat [("invite_token", invite); ("public_key_b64", key)].
Definition proof_msg (signature : string) : json := flat [("signature_b64", signature)].
Definition quic_hello_msg (key invite : string) : json :=
  flat [("invite_token", invite); ("public_key", key); ("type", "hello")].
Definition quic_proof_msg (signature : string) : json :=
  flat [("signature_b64", signature); ("type", "auth_response")].

Definition from_str {J : JsonText} {A} (read : json -> option A) (s : string) : option A :=
  json_parse s ≫= read.

(** ** The server's end *)

Abbreviation ServerState := (FS * AuthorizedKeysStore)%type.

Section server.
Context `{Crypto} `{JsonText} `{Toml InviteTokensFile} {HO : HashOrder} `{Toml AuthorizedKeysFile}.

(** Whether the key may go on: it is authorized, or its invite is redeemed, which authorizes it. *)
Definition authorize_hello (invites : string) (hello : ClientHello) (st : ServerState)
  : outcome HsError bool * ServerState :=
  let '(fs, keys) := st in
  if is_authorized (hello_key hello) keys then (Ok true, st)
  else if is_empty (trim (hello_invite hello)) then (Ok false, st)
  else
    match redeem_invite_token invites (hello_invite hello) fs with
    | (Ok true, fs) =>
        match authorize_device_key (store_path keys) (hello_key hello) fs with
        | (Ok _, fs) =>
            match keys_reload keys fs with
            | (Ok _, keys) => (Ok true, (fs, keys))
            | (Err e, keys) => (Err (HsStore e), (fs, keys))
            | (Panic, keys) => (Panic, (fs, keys))
            end
        | (Err e, fs) => (Err (HsStore e), (fs, keys))
        | (Panic, fs) => (Panic, (fs, keys))
        end
    | (Ok false, fs) => (Ok false, (fs, keys))
    | (Err e, fs) => (Err (HsStore e), (fs, keys))
    | (Panic, fs) => (Panic, (fs, keys))
    end.

(** The exchange, over the way the transport sends a message and reads a text: [send] is the text put
    on the wire and [read] refuses a text or passes it on. *)
Section exchange.
Variable send : json -> string.
Variable read : string -> outcome HsError string.

Definition read_json {A} (parse : json -> option A) (line : string) : outcome HsError A :=
  line ← read line; ok_or HsJson (from_str parse (trim_end line)).

Definition server_proof (hello : ClientHello) (challenge : string) (st : ServerState) (line : string)
  : proc ServerState string :=
  match proof ← read_json ClientProof line;
        map_err HsAuth (verify_auth_challenge (hello_key hello) challenge proof) with
  | Ok _ => Send (send (status_msg "ok")) st (Done (Ok (hello_key hello)) st)
  | Err e => Done (Err e) st
  | Panic => Done Panic st
  end.

Definition server_hello (invites : string) (random : list Z) (st : ServerState) (line : string)
  : proc ServerState string :=
  match read_json hello_of_json line with
  | Ok hello =>
      let (go, st) := authorize_hello invites hello st in
      match go with
      | Ok true =>
          let challenge := create_auth_challenge random in
          Send (send (challenge_msg challenge)) st (Recv st (server_proof hello challenge st))
      | Ok false =>
          Send (send (status_msg "unauthorized")) st (Done (Err HsUnauthorized) st)
      | Err e => Done (Err e) st
      | Panic => Done Panic st
      end
  | Err e => Done (Err e) st
  | Panic => Done Panic st
  end.

Definition server_exchange (invites : string) (random : list Z) (st : ServerState)
  : proc ServerState string :=
  Recv st (server_hello invites random st).
End exchange.

(** [send_json_line]: the message and a newline. *)
Definition send_json_line (j : json) : string := json_print j +:+ newline.

(** [read_json_line]: [read_line] returns nothing at the end of the stream. *)
Definition read_json_line (line : string) : outcome HsError string :=
  if is_empty line then Err HsClosed else Ok line.

(** The server over TCP. *)
Definition server_perform_auth_handshake := server_exchange send_json_line read_json_line.
(** Over a WebSocket: one text message each. *)
Definition server_perform_websocket_auth_handshake := server_exchange json_print Ok.
(** Over QUIC: [send_text] adds the newline, [recv_text] refuses the end of the stream. *)
Definition server_perform_quic_auth_handshake := server_exchange send_json_line read_json_line.
End server.

(** ** The client's end *)

Definition MAX_AUTH_LINE_BYTES : nat := 16 * 1024.

Inductive stream_read := ReadByte (b : Z) | ReadEof | ReadError.

(** [read_line_from_stream], byte by byte over the events of the stream. *)
Fixpoint read_line_from_stream (buf : list Z) (evs : list stream_read)
  : outcome HsError string * list stream_read :=
  match evs with
  | ReadByte b :: evs =>
      let buf := buf ++ [b] in
      if b =? 10 then
        (if utf8_valid buf then Ok (bytes_string buf) else Err HsIo, evs)
      else if (MAX_AUTH_LINE_BYTES <=? length buf)%nat then (Err HsTooLong, evs)
      else read_line_from_stream buf evs
  | ReadEof :: evs => (match buf with [] => Err HsClosed | _ => Err HsIo end, evs)
  | ReadError :: evs => (Err HsIo, evs)
  | [] => (Err HsIo, [])
  end.

(** What it makes of one line that arrives whole. *)
Definition tcp_line (line : string) : outcome HsError string :=
  (read_line_from_stream [] (ReadByte <$> string_bytes line)).1.

Section client.
Context `{Crypto} `{JsonText}.

Section exchange.
Variable send : json -> string.
Variable read : string -> outcome HsError string.

Definition client_result (line : string) : proc unit unit :=
  match line ← read line;
        status ← ok_or HsJson (from_str ServerAuthResult (trim_end line));
        if bool_decide (status = "ok") then Ok tt else Err (HsRejected status) with
  | Ok _ => Done (Ok tt) tt
  | Err e => Done (Err e) tt
  | Panic => Done Panic tt
  end.

(** The signature for the challenge in a line from the server. *)
Definition answer_challenge (keypair : DeviceKeypair) (line : string) : outcome HsError string :=
  line ← read line;
  challenge_value ← ok_or HsJson (json_parse (trim_end line));
  match json_get "status" challenge_value ≫= as_str with
  | Some status => Err (HsRejected status)
  | None =>
      challenge ← ok_or HsJson (challenge_of_value challenge_value);
      map_err HsAuth (sign_auth_challenge keypair challenge)
  end.

Definition client_challenge (keypair : DeviceKeypair) (line : string) : proc unit unit :=
  match answer_challenge keypair line with
  | Ok signature => Send (send (proof_msg signature)) tt (Recv tt client_result)
  | Err e => Done (Err e) tt
  | Panic => Done Panic tt
  end.

Definition client_exchange (keypair : DeviceKeypair) (invite_token : string) : proc unit unit :=
  Send (send (hello_msg (public_key_b64 keypair) invite_token)) tt
    (Recv tt (client_challenge keypair)).
End exchange.

Definition client_perform_auth_handshake :=
  client_exchange (fun j => json_print j +:+ newline) tcp_line.
Definition client_perform_websocket_auth_handshake := client_exchange json_print Ok.

(** The QUIC client reads [Value]s and names its fields differently. *)
Definition quic_client_result (line : string) : proc unit unit :=
  match line ← read_json_line line;
        result ← ok_or HsJson (json_parse (trim line));
        if bool_decide (json_get "status" result ≫= as_str = Some "ok") then Ok tt
        else Err (HsRejected (default "unknown error" (json_get "message" result ≫= as_str))) with
  | Ok _ => Done (Ok tt) tt
  | Err e => Done (Err e) tt
  | Panic => Done Panic tt
  end.

Definition quic_client_challenge (keypair : DeviceKeypair) (line : string) : proc unit unit :=
  match line ← read_json_line line;
        challenge ← ok_or HsJson (json_parse (trim line));
        if bool_decide (json_get "type" challenge ≫= as_str = Some "error") then
          Err (HsRejected (default "unknown error" (json_get "message" challenge ≫= as_str)))
        else
          challenge_b64 ← ok_or HsJson (json_get "challenge_b64" challenge ≫= as_str);
          map_err HsAuth (sign_auth_challenge keypair challenge_b64) with
  | Ok signature => Send (send_json_line (quic_proof_msg signature)) tt (Recv tt quic_client_result)
  | Err e => Done (Err e) tt
  | Panic => Done Panic tt
  end.

Definition client_perform_quic_auth_handshake (keypair : DeviceKeypair) (invite_token : string)
  : proc unit unit :=
  Send (send_json_line (quic_hello_msg (public_key_b64 keypair) invite_token)) tt
    (Recv tt (quic_client_challenge keypair)).
End client.

(** ** Key files *)

Inductive DeviceKeyError := DeviceKeyIo (e : StoreError) | DeviceKeyAuth (e : AuthError).

Section key_files.
Context `{Crypto}.

Definition read_keypair (path : string) (fs : FS) : outcome DeviceKeyError DeviceKeypair :=
  raw ← map_err DeviceKeyIo (read_to_string path fs);
  map_err DeviceKeyAuth (from_private_key_b64 (trim raw)).

Definition write_line (path text : string) (fs : FS) : outcome DeviceKeyError unit * FS :=
  let (r, fs) := write_file path (text +:+ newline) fs in (map_err DeviceKeyIo r, fs).

(** [load_or_create_keypair] of the core; [random] is the secret [generate] draws. *)
Definition load_or_create_keypair (path : string) (random : list Z) (fs : FS)
  : outcome DeviceKeyError DeviceKeypair * FS :=
  if exists_file path fs then (read_keypair path fs, fs)
  else
    let keypair := from_signing_key random in
    let (r, fs) := write_line path (private_key_b64 keypair) fs in
    (_ ← r; Ok keypair, fs).

(** [load_or_create_device_keypair] of the client, which keeps the public key in a file of its own. *)
Definition load_or_create_device_keypair (private_key_path public_key_path : string)
    (random : list Z) (fs : FS) : outcome DeviceKeyError DeviceKeypair * FS :=
  if exists_file private_key_path fs then
    match read_keypair private_key_path fs with
    | Ok keypair =>
        let (r, fs) := write_line public_key_path (public_key_b64 keypair) fs in
        (_ ← r; Ok keypair, fs)
    | e => (e, fs)
    end
  else
    let keypair := from_signing_key random in
    match write_line private_key_path (private_key_b64 keypair) fs with
    | (Ok _, fs) =>
        let (r, fs) := write_line public_key_path (public_key_b64 keypair) fs in
        (_ ← r; Ok keypair, fs)
    | (Err e, fs) => (Err e, fs)
    | (Panic, fs) => (Panic, fs)
    end.
End key_files.

(** * Lemmas *)

(** ** Messages *)

Section json_lemmas.
Context `{JsonLaws}.

Lemma from_str_flat {A} (parse : json -> option A) l :
  NoDup l.*1 -> from_str parse (json_print (flat l)) = parse (flat l).
Proof. intros Hl. unfold from_str. rewrite json_round; [done | by apply flat_wf]. Qed.

Lemma NoDup_1 (a : string) : NoDup [a].
Proof. apply NoDup_singleton. Qed.

Lemma read_hello key invite :
  from_str hello_of_json (json_print (hello_msg key invite)) =
  Some {| hello_key := key; hello_invite := invite |}.
Proof. unfold hello_msg. rewrite from_str_flat; [done|]. by apply (bool_decide_unpack (NoDup _)). Qed.

(** The QUIC client's hello lacks the member the server requires. *)
Lemma read_quic_hello key invite :
  from_str hello_of_json (json_print (quic_hello_msg key invite)) = None.
Proof.
  unfold quic_hello_msg. rewrite from_str_flat; [done|]. by apply (bool_decide_unpack (NoDup _)).
Qed.

Lemma read_proof sig : from_str ClientProof (json_print (proof_msg sig)) = Some sig.
Proof. unfold proof_msg. rewrite from_str_flat; [done | apply NoDup_1]. Qed.

Lemma read_status status : from_str ServerAuthResult (json_print (status_msg status)) = Some status.
Proof. unfold status_msg. rewrite from_str_flat; [done | apply NoDup_1]. Qed.
End json_lemmas.

(** ** Lines *)

(** A text the client's line reader takes: no newline in it, valid UTF-8, below the limit. *)
Definition line_fits (s : string) : Prop :=
  10 ∉ string_bytes s /\ utf8_valid (string_bytes s ++ [10]) = true /\
  (length (string_bytes s) < MAX_AUTH_LINE_BYTES)%nat.

Lemma read_line_bytes buf l evs :
  10 ∉ l -> (length buf + length l < MAX_AUTH_LINE_BYTES)%nat ->
  read_line_from_stream buf ((ReadByte <$> l) ++ ReadByte 10 :: evs) =
  (if utf8_valid (buf ++ l ++ [10]) then Ok (bytes_string (buf ++ l ++ [10])) else Err HsIo, evs).
Proof.
  revert buf. induction l as [|b l IH]; intros buf Hn Hlen.
  - done.
  - apply not_elem_of_cons in Hn as [Hb Hn]. rewrite fmap_cons. cbn [app read_line_from_stream].
    rewrite (proj2 (Z.eqb_neq b 10)) by congruence.
    rewrite (proj2 (Nat.leb_gt MAX_AUTH_LINE_BYTES (length (buf ++ [b]))))
      by (rewrite length_app; simpl in *; lia).
    rewrite IH; [by rewrite <- !app_assoc | done | rewrite length_app; simpl in *; lia].
Qed.

Lemma tcp_line_fits s : line_fits s -> tcp_line (s +:+ newline) = Ok (s +:+ newline).
Proof.
  intros (Hn & Hu & Hlen). unfold tcp_line. rewrite string_bytes_app, fmap_app.
  change (ReadByte <$> string_bytes newline) with [ReadByte 10].
  rewrite read_line_bytes by done. cbn [app]. rewrite Hu. cbn [fst]. f_equal.
  change [10] with (string_bytes newline). by rewrite <- string_bytes_app, bytes_string_bytes.
Qed.

(** ** The server *)

Lemma load_manager_no_panic `{Toml InviteTokensFile} path fs : load_manager path fs <> Panic.
Proof.
  unfold load_manager, read_to_string, exists_file. case_bool_decide; [|done]. cbn [negb].
  case_decide; [done|]. destruct (files fs !! path) as [raw|]; [|done]. cbn.
  by destruct (toml_parse raw).
Qed.

(** A redemption that does not succeed writes nothing and does not panic. *)
Lemma redeem_refused `{Toml InviteTokensFile} {HO : HashOrder} path v fs r fs' :
  redeem_invite_token path v fs = (r, fs') -> r <> Ok true -> fs' = fs /\ r <> Panic.
Proof.
  unfold redeem_invite_token. pose proof (load_manager_no_panic path fs) as Hnp.
  destruct (load_manager path fs) as [m|e|]; [|by intros [= <- <-]|done].
  destruct (redeem v m) as [r0 m']. destruct (is_ok r0); [|by intros [= <- <-]].
  unfold persist_manager. destruct (toml_print _) as [data|]; [|by intros [= <- <-]].
  unfold write_file. case_decide; [by intros [= <- <-]|]. intros [= <- <-] Hr. by destruct Hr.
Qed.

Section server_lemmas.
Context `{Crypto} `{JsonText} `{Toml InviteTokensFile} {HO : HashOrder} `{TomlLaws AuthorizedKeysFile}.

Lemma authorize_hello_authorized invites hello fs keys :
  is_authorized (hello_key hello) keys = true ->
  authorize_hello invites hello (fs, keys) = (Ok true, (fs, keys)).
Proof. intros Ha. unfold authorize_hello. by rewrite Ha. Qed.

(** Whoever is let through is authorized in the store from then on. *)
Lemma authorize_reload_authorizes key keys fs b fs' keys' :
  authorize_device_key (store_path keys) key fs = (Ok b, fs') ->
  keys_reload keys fs' = (Ok tt, keys') -> is_authorized key keys' = true.
Proof.
  unfold authorize_device_key, keys_reload, load_devices_map, is_authorized.
  destruct (load_devices_file (store_path keys) fs) as [doc| |] eqn:Hl; [|done..].
  destruct (existsb _ _) eqn:Hex.
  - intros [= <- <-]. rewrite Hl. intros [= <-]. apply bool_decide_eq_true. simpl.
    by apply has_key_spec.
  - unfold persist_devices_file.
    destruct (toml_round {| file_devices := file_devices doc ++ [new_device key] |})
      as (s & -> & Hs).
    unfold write_file. case_decide; [done|]. intros [= <- <-].
    unfold load_devices_file, exists_file, read_to_string. simpl. rewrite lookup_insert_eq.
    rewrite bool_decide_eq_true_2 by done. simpl. case_decide; [done|]. simpl. rewrite Hs. simpl.
    intros [= <-]. apply bool_decide_eq_true. simpl. rewrite devices_map_snoc.
    apply lookup_insert_is_Some'. by left.
Qed.

Lemma authorize_hello_true invites hello fs keys fs' keys' :
  authorize_hello invites hello (fs, keys) = (Ok true, (fs', keys')) ->
  is_authorized (hello_key hello) keys' = true /\
  ((is_authorized (hello_key hello) keys = true /\ fs' = fs /\ keys' = keys) \/
   (redeem_invite_token invites (hello_invite hello) fs).1 = Ok true).
Proof.
  unfold authorize_hello. destruct (is_authorized (hello_key hello) keys) eqn:Ha.
  { intros [= <- <-]. split; [done|by left]. }
  destruct (is_empty _); [done|].
  destruct (redeem_invite_token _ _ _) as [[[]| |] fs1]; try done.
  destruct (authorize_device_key _ _ _) as [[b| |] fs2] eqn:Hd; try done.
  destruct (keys_reload keys fs2) as [[[]| |] keys2] eqn:Hr; try done.
  intros [= <- <-]. split; [by eapply authorize_reload_authorizes | by right].
Qed.

(** Whoever is not let through leaves no trace. *)
Lemma authorize_hello_refused invites hello fs keys :
  is_authorized (hello_key hello) keys = false ->
  is_empty (trim (hello_invite hello)) = true \/
    (redeem_invite_token invites (hello_invite hello) fs).1 <> Ok true ->
  exists r, authorize_hello invites hello (fs, keys) = (r, (fs, keys)) /\ r <> Ok true /\ r <> Panic.
Proof.
  intros Ha Hr. unfold authorize_hello. rewrite Ha.
  destruct (is_empty _); [by eexists|]. destruct Hr as [|Hr]; [done|].
  destruct (redeem_invite_token _ _ _) as [r fs1] eqn:Hred.
  destruct (redeem_refused _ _ _ _ _ Hred Hr) as [-> Hnp].
  destruct r as [[]| |]; [done|by eexists..|done].
Qed.

(** A server program past its first read: what a successful run went through. *)
Lemma server_hello_Ok send read invites random st line ins n out pk st' :
  run ins n (server_hello send read invites random st line) = (out, Ok pk, st') ->
  exists hello l2 sig rest st1,
    read_json read hello_of_json line = Ok hello /\ ins = Some l2 :: rest /\
    read_json read ClientProof l2 = Ok sig /\ pk = hello_key hello /\
    verify_auth_challenge pk (create_auth_challenge random) sig = Ok tt /\
    authorize_hello invites hello st = (Ok true, st1) /\ st' = st1 /\
    out = [send (challenge_msg (create_auth_challenge random)); send (status_msg "ok")].
Proof.
  unfold server_hello. destruct (read_json read hello_of_json line) as [hello| |]; [|done..].
  destruct (authorize_hello invites hello st) as [[[]| |] st1] eqn:Ha; [| |done..].
  2: { simpl. by destruct n. }
  simpl. destruct n as [|n]; [done|]. destruct ins as [|[l2|] ins]; [done| |done].
  unfold server_proof. destruct (read_json read ClientProof l2) as [sig| |] eqn:Hp;
    cbn [mbind outcome_bind]; [|done..].
  destruct (verify_auth_challenge _ _ sig) as [[]| |] eqn:Hv; [|done..].
  simpl. destruct n as [|n]; [done|]. intros [= <- <- <-].
  exists hello, l2, sig, ins, st1. by split_and!.
Qed.
End server_lemmas.

(** ** Both ends *)

(** The message sent arrives as a text whose end-trimmed form is the message. *)
Definition carries `{JsonText} (send : json -> string) (read : string -> outcome HsError string)
    (j : json) : Prop :=
  exists line, read (send j) = Ok line /\ trim_end line = json_print j.

Section both_lemmas.
Context `{CryptoLaws} `{JsonLaws} `{TomlLaws InviteTokensFile} {HO : HashOrder} `{TomlLaws AuthorizedKeysFile}.

Lemma read_json_carries {A} send read (parse : json -> option A) j :
  carries send read j -> read_json read parse (send j) = ok_or HsJson (from_str parse (json_print j)).
Proof. intros (line & Hr & Ht). unfold read_json. rewrite Hr. cbn. by rewrite Ht. Qed.

Lemma answer_carries send read sk challenge :
  carries send read (challenge_msg challenge) ->
  answer_challenge read (from_signing_key sk) (send (challenge_msg challenge)) =
  map_err HsAuth (sign_auth_challenge (from_signing_key sk) challenge).
Proof.
  intros (line & Hr & Ht). unfold answer_challenge. rewrite Hr. cbn [mbind outcome_bind].
  rewrite Ht. unfold challenge_msg. rewrite json_round; [done|]. apply flat_wf, NoDup_1.
Qed.

Lemma client_result_ok send read :
  carries send read (status_msg "ok") ->
  client_result read (send (status_msg "ok")) = Done (Ok tt) tt.
Proof.
  intros (line & Hr & Ht). unfold client_result. rewrite Hr. cbn [mbind outcome_bind].
  by rewrite Ht, read_status.
Qed.

(** A client that holds the key and a server that lets it through both succeed. *)
Lemma exchange_completes csend cread ssend sread invites invite sk random st st' :
  bytes_ok sk -> length sk = 32%nat -> bytes_ok random ->
  let key := public_key_b64 (from_signing_key sk) in
  let challenge := create_auth_challenge random in
  authorize_hello invites {| hello_key := key; hello_invite := invite |} st = (Ok true, st') ->
  carries csend sread (hello_msg key invite) -> (forall sig, carries csend sread (proof_msg sig)) ->
  carries ssend cread (challenge_msg challenge) -> carries ssend cread (status_msg "ok") ->
  link 9 [] [] (client_exchange csend cread (from_signing_key sk) invite)
    (server_exchange ssend sread invites random st) = Some (Ok tt, Ok key, st').
Proof.
  intros Hsk Hlen Hrand key challenge Hauth Hh Hp Hc Hok.
  destruct (challenge_response sk random Hsk Hlen Hrand) as (sig & Hsign & Hver).
  unfold client_exchange, server_exchange. cbn [link app].
  unfold server_hello. rewrite (read_json_carries _ _ _ _ Hh), read_hello. cbn [ok_or].
  rewrite Hauth. cbn [app]. unfold client_challenge.
  fold challenge. rewrite (answer_carries _ _ _ _ Hc). unfold challenge at 1. rewrite Hsign.
  cbn [map_err app]. unfold server_proof. rewrite (read_json_carries _ _ _ _ (Hp sig)), read_proof.
  cbn [ok_or mbind outcome_bind hello_key]. unfold challenge, key. rewrite Hver. cbn [map_err app].
  by rewrite (client_result_ok _ _ Hok).
Qed.

Lemma tcp_carries j l : j = flat l -> carries (fun j => json_print j +:+ newline) read_json_line j.
Proof.
  intros ->. exists (json_print (flat l) +:+ newline). split; [|apply json_trim_line].
  unfold read_json_line. by destruct (json_print (flat l)).
Qed.

Lemma tcp_line_carries l :
  line_fits (json_print (flat l)) -> carries send_json_line tcp_line (flat l).
Proof.
  intros Hf. exists (json_print (flat l) +:+ newline).
  split; [by apply tcp_line_fits | apply json_trim_line].
Qed.

Lemma ws_carries l : carries json_print Ok (flat l).
Proof. exists (json_print (flat l)). split; [done | apply json_no_trailing]. Qed.
End both_lemmas.

(** Why a client's key is accepted: it is already authorized, or it comes with an invite that the
    token file holds with uses left, and both files can be read and written. *)
Definition admissible `{Toml InviteTokensFile} {HO : HashOrder} `{Toml AuthorizedKeysFile} (invites key invite : string)
    (st : ServerState) : Prop :=
  is_authorized key st.2 = true \/
  (is_empty (trim invite) = false /\ invites <> store_path st.2 /\
   path_ok invites st.1 /\ path_ok (store_path st.2) st.1 /\
   (exists doc, load_devices_file (store_path st.2) st.1 = Ok doc) /\
   exists m t, manager_ok m /\ load_manager invites st.1 = Ok m /\ m !! invite = Some t /\
     0 < uses_remaining t).

Section admissible_lemmas.
Context `{TomlLaws InviteTokensFile} {HO : HashOrder} `{TomlLaws AuthorizedKeysFile}.

(** Redeeming touches the token file only. *)
Lemma redeem_other path v fs r fs' other :
  redeem_invite_token path v fs = (r, fs') -> other <> path ->
  files fs' !! other = files fs !! other /\ read_fails fs' = read_fails fs /\
  write_fails fs' = write_fails fs.
Proof.
  intros Hr Ho. unfold redeem_invite_token in Hr.
  destruct (load_manager path fs) as [m| |]; [|by injection Hr as <- <-..].
  destruct (redeem v m) as [r0 m']. destruct (is_ok r0); [|by injection Hr as <- <-].
  unfold persist_manager in Hr. destruct (toml_print _); [|by injection Hr as <- <-].
  unfold write_file in Hr. case_decide; [by injection Hr as <- <-|]. injection Hr as <- <-. simpl.
  by rewrite lookup_insert_ne.
Qed.

Lemma load_devices_file_ext path fs fs' :
  files fs' !! path = files fs !! path -> read_fails fs' = read_fails fs ->
  load_devices_file path fs' = load_devices_file path fs.
Proof.
  intros Hf Hr. unfold load_devices_file, exists_file, read_to_string. by rewrite Hf, Hr.
Qed.

Lemma admissible_authorizes invites key invite st :
  admissible invites key invite st ->
  exists st', authorize_hello invites {| hello_key := key; hello_invite := invite |} st
    = (Ok true, st') /\ is_authorized key st'.2 = true.
Proof.
  destruct st as [fs keys]. unfold admissible. cbn [fst snd].
  intros [Ha|(Ht & Hne & Hpi & Hpk & [doc Hdoc] & m & t & Hm & Hl & Hv & Hu)].
  { exists (fs, keys). split; [by apply authorize_hello_authorized | done]. }
  unfold authorize_hello. cbn [hello_key hello_invite].
  destruct (is_authorized key keys) eqn:Ha; [by exists (fs, keys)|]. rewrite Ht.
  destruct (redeem_invite_spec invites invite m fs Hpi Hm Hl) as (fs1 & Hred & _ & _).
  destruct (redeem_usable invite m t Hv Hu) as (t' & Hrd & _). rewrite Hrd in Hred.
  destruct (redeem_other _ _ _ _ _ (store_path keys) Hred) as (Hf & Hrf & Hwf); [done|].
  rewrite Hred. cbn [fst is_ok].
  assert (Hpk1 : path_ok (store_path keys) fs1).
  { unfold path_ok. by rewrite Hrf, Hwf. }
  rewrite <- (load_devices_file_ext _ _ fs1 Hf Hrf) in Hdoc.
  destruct (authorize_spec _ key doc fs1 Hpk1 Hdoc) as (b & fs2 & Hd & _ & Hl2 & _).
  rewrite Hd, (reload_spec keys _ fs2 Hl2). eexists. split; [done|].
  by eapply authorize_reload_authorizes, reload_spec.
Qed.
End admissible_lemmas.

(** * Properties *)

(** C4: No client gets past the handshake without the key it names.  Over any transport and whatever is
    received, when the server accepts [pk], the second text received carries a signature of this
    run's challenge that verifies under [pk], the store authorizes [pk] from then on, and [pk] was
    authorized before or its hello carried an invite that was redeemed; the texts sent are the
    challenge and [ok], in this order. *)
Theorem handshake_sound `{CryptoLaws} `{JsonText} `{Toml InviteTokensFile} {HO : HashOrder} `{TomlLaws AuthorizedKeysFile}
    (send : json -> string) (read : string -> outcome HsError string) (invites : string)
    (random : list Z) (fs : FS) (keys : AuthorizedKeysStore) (ins : list (option string)) (n : nat)
    (out : list string) (pk : string) (fs' : FS) (keys' : AuthorizedKeysStore) :
  bytes_ok random ->
  run ins n (server_exchange send read invites random (fs, keys)) = (out, Ok pk, (fs', keys')) ->
  exists l1 l2 rest hello sig pkb sb,
    ins = Some l1 :: Some l2 :: rest /\
    read_json read hello_of_json l1 = Ok hello /\ pk = hello_key hello /\
    read_json read ClientProof l2 = Ok sig /\
    b64_decode pk = Some pkb /\ b64_decode sig = Some sb /\ ed_verify pkb random sb = true /\
    is_authorized pk keys' = true /\
    ((is_authorized pk keys = true /\ fs' = fs /\ keys' = keys) \/
     (redeem_invite_token invites (hello_invite hello) fs).1 = Ok true) /\
    out = [send (challenge_msg (create_auth_challenge random)); send (status_msg "ok")].
Proof.
  intros Hb. unfold server_exchange. simpl. destruct ins as [|[l1|] ins]; [done| |done].
  intros (hello & l2 & sig & rest & st1 & Hh & -> & Hp & -> & Hv & Ha & <- & ->)%server_hello_Ok.
  apply authorize_hello_true in Ha as [Ha Hwhy].
  apply verify_auth_challenge_Ok in Hv as (pkb & cb & sb & Hpk & Hc & Hs & _ & _ & Hv).
  unfold create_auth_challenge in Hc. rewrite b64url_round in Hc by done. injection Hc as <-.
  exists l1, l2, rest, hello, sig, pkb, sb. by split_and!.
Qed.

(** A client the server does not know is turned away without a trace: if its key is not authorized
    and its invite is blank or cannot be redeemed, then whatever it sends afterwards the server ends
    with an error, no challenge is issued, at most the [unauthorized] status is sent, and neither the
    files nor the key store have changed. *)
Theorem handshake_refuses `{Crypto} `{JsonText} `{Toml InviteTokensFile} {HO : HashOrder} `{TomlLaws AuthorizedKeysFile}
    (send : json -> string) (read : string -> outcome HsError string) (invites : string)
    (random : list Z) (fs : FS) (keys : AuthorizedKeysStore) (l1 : string) (hello : ClientHello)
    (ins : list (option string)) (n : nat) :
  read_json read hello_of_json l1 = Ok hello -> is_authorized (hello_key hello) keys = false ->
  is_empty (trim (hello_invite hello)) = true \/
    (redeem_invite_token invites (hello_invite hello) fs).1 <> Ok true ->
  exists out e,
    run (Some l1 :: ins) n (server_exchange send read invites random (fs, keys)) =
      (out, Err e, (fs, keys)) /\
    (out = [] \/ out = [send (status_msg "unauthorized")]).
Proof.
  intros Hh Ha Hr.
  destruct (authorize_hello_refused invites hello fs keys Ha Hr) as (r & Hg & Hn & Hp).
  unfold server_exchange. cbn [run]. unfold server_hello. rewrite Hh, Hg.
  destruct r as [[]|e|]; [done| | |done]; cbn [run].
  - destruct n as [|n]; cbn [run]; eexists _, _; split; [done|by left|done|by right].
  - eexists _, _. split; [done|by left].
Qed.

(** C14: The handshake completes: over TCP and over a WebSocket, a client that holds the secret of an
    admissible key and the server run to the end, the client succeeds, the server accepts exactly the
    client's key, and the key is authorized afterwards.  Over TCP the server's lines must fit the
    client's line reader. *)
Theorem handshake_completes `{CryptoLaws} `{JsonLaws} `{TomlLaws InviteTokensFile} {HO : HashOrder}
    `{TomlLaws AuthorizedKeysFile} (invites invite : string) (sk random : list Z) (st : ServerState) :
  bytes_ok sk -> length sk = 32%nat -> bytes_ok random ->
  let k := from_signing_key sk in
  admissible invites (public_key_b64 k) invite st ->
  line_fits (json_print (challenge_msg (create_auth_challenge random))) ->
  line_fits (json_print (status_msg "ok")) ->
  exists st', is_authorized (public_key_b64 k) st'.2 = true /\
    link 9 [] [] (client_perform_auth_handshake k invite)
      (server_perform_auth_handshake invites random st) = Some (Ok tt, Ok (public_key_b64 k), st') /\
    link 9 [] [] (client_perform_websocket_auth_handshake k invite)
      (server_perform_websocket_auth_handshake invites random st) =
      Some (Ok tt, Ok (public_key_b64 k), st').
Proof.
  intros Hsk Hlen Hr k Hadm Hc Hok.
  destruct (admissible_authorizes _ _ _ _ Hadm) as (st' & Ha & Hk). exists st'. split; [done|].
  split; apply exchange_completes; try done; intros; try apply ws_carries.
  - by eapply tcp_carries.
  - by eapply tcp_carries.
  - by apply tcp_line_carries.
  - by apply tcp_line_carries.
Qed.

(** C32: Over QUIC the two ends never agree: the client's hello names its key [public_key], the server
    requires [public_key_b64], so the server ends with a JSON error before it sends anything or looks
    at its stores, whatever the key, the invite and the state. *)
Theorem quic_handshake_never_completes `{Crypto} `{JsonLaws} `{Toml InviteTokensFile} {HO : HashOrder}
    `{Toml AuthorizedKeysFile} (k : DeviceKeypair) (invites invite : string) (random : list Z)
    (st : ServerState) :
  link 9 [] [] (client_perform_quic_auth_handshake k invite)
    (server_perform_quic_auth_handshake invites random st) = Some (Err HsIo, Err HsJson, st).
Proof.
  unfold client_perform_quic_auth_handshake, server_perform_quic_auth_handshake, server_exchange.
  cbn [link app]. unfold server_hello.
  rewrite (read_json_carries _ _ _ (quic_hello_msg _ _)) by (by eapply tcp_carries).
  by rewrite read_quic_hello.
Qed.

(** ** Witnesses *)

Module Sample.
#[local] Existing Instances Stores.Sample.listing Stores.Sample.toml_invites Stores.Sample.toml_keys
  Stores.Sample.toml_invites_laws Stores.Sample.toml_keys_laws Json.Sample.json_text
  Json.Sample.json_laws.

(** Concrete functions in the place of the cryptographic libraries: base64 is the identity and a
    signature the key written twice. *)
#[local] Instance crypto : Crypto := {|
  b64_encode := bytes_string; b64_decode s := Some (string_bytes s);
  b64url_encode := bytes_string; b64url_decode s := Some (string_bytes s);
  public_of sk := sk; valid_public _ := true;
  ed_sign sk _ := sk ++ sk; ed_verify pk _ s := bool_decide (s = pk ++ pk)
|}.

#[local] Instance crypto_laws : CryptoLaws.
Proof.
  split; cbn; intros.
  - by rewrite string_bytes_string.
  - by rewrite string_bytes_string.
  - done.
  - split_and!; [by apply bytes_ok_app | rewrite length_app; lia | by apply bool_decide_eq_true].
  - done.
Qed.

Definition sk : list Z := replicate 32 65.
Definition pk : string := public_key_b64 (from_signing_key sk).
Definition random : list Z := [1; 2; 3].
Definition keys : AuthorizedKeysStore :=
  {| store_path := "k";
     devices := {[ pk := {| device_id := "d"; public_key := pk; added_at := None |} ]} |}.
Definition stranger : AuthorizedKeysStore := {| store_path := "k"; devices := ∅ |}.
Definition fs : FS := Stores.Sample.sample_tokens_fs.

Lemma handshake_sound_witness :
  exists l1 l2 hello,
    read_json Ok hello_of_json l1 = Ok hello /\
    (run [Some l1; Some l2] 2 (server_exchange json_print Ok "t" random (fs, keys))).1.2 = Ok pk /\
    is_authorized pk keys = true /\ hello_key hello = pk.
Proof.
  destruct (handshake_sound json_print Ok "t" random fs keys
    [Some (json_print (hello_msg pk "")); Some (json_print (proof_msg (bytes_string (sk ++ sk))))] 2
    [json_print (challenge_msg (create_auth_challenge random)); json_print (status_msg "ok")]
    pk fs keys) as (l1 & l2 & rest & hello & sig & pkb & sb & [= <- <- <-] & Hh & Hpk & _ & _ & _ & _ & Ha & _).
  - repeat constructor; done.
  - vm_compute. reflexivity.
  - exists (json_print (hello_msg pk "")), (json_print (proof_msg (bytes_string (sk ++ sk)))), hello.
    split; [exact Hh|]. split; [vm_compute; reflexivity|]. split; [exact Ha | symmetry; exact Hpk].
Defined.

(** A stranger with a token the file does not hold. *)
Lemma handshake_refuses_witness :
  exists out e,
    run [Some (json_print (hello_msg pk "zzz"))] 5
      (server_exchange json_print Ok "t" random (fs, stranger)) = (out, Err e, (fs, stranger)) /\
    (out = [] \/ out = [json_print (status_msg "unauthorized")]).
Proof.
  apply (handshake_refuses json_print Ok "t" random fs stranger (json_print (hello_msg pk "zzz"))
    {| hello_key := pk; hello_invite := "zzz" |} [] 5).
  - vm_compute. reflexivity.
  - vm_compute. reflexivity.
  - right. vm_compute. discriminate.
Defined.

(** A stranger with an invite that has two uses left. *)
Lemma handshake_completes_witness :
  exists st', is_authorized pk st'.2 = true /\
    link 9 [] [] (client_perform_auth_handshake (from_signing_key sk) "abc")
      (server_perform_auth_handshake "t" random (fs, stranger)) = Some (Ok tt, Ok pk, st').
Proof.
  destruct (handshake_completes "t" "abc" sk random (fs, stranger)) as (st' & Ha & Ht & _).
  - repeat constructor; done.
  - reflexivity.
  - repeat constructor; done.
  - right. split; [reflexivity|]. split; [discriminate|].
    split; [split; apply not_elem_of_empty|]. split; [split; apply not_elem_of_empty|].
    split; [eexists; vm_compute; reflexivity|].
    exists {[ "abc" := Stores.Sample.sample_token ]}, Stores.Sample.sample_token.
    split; [apply Stores.Sample.sample_manager_ok|]. split; [vm_compute; reflexivity|].
    split; reflexivity.
  - split; [apply (bool_decide_unpack _); vm_compute; exact I|].
    split; [vm_compute; reflexivity|]. apply Nat.ltb_lt. vm_compute. reflexivity.
  - split; [apply (bool_decide_unpack _); vm_compute; exact I|].
    split; [vm_compute; reflexivity|]. apply Nat.ltb_lt. vm_compute. reflexivity.
  - exists st'. split; [exact Ha | exact Ht].
Defined.
Lemma quic_handshake_never_completes_witness :
  link 9 [] [] (client_perform_quic_auth_handshake (from_signing_key sk) "abc")
    (server_perform_quic_auth_handshake "t" random (fs, keys)) =
  Some (Err HsIo, Err HsJson, (fs, keys)).
Proof. apply (quic_handshake_never_completes (from_signing_key sk) "t" "abc" random (fs, keys)). Defined.
End Sample.
