(* ===== verification/Enrolment.v ===== *)
(** Enrolling a device with an invite, step by step: the middle part of the server's handshakes
    ([perform_auth_handshake] and its two variants in [src/crates/bonded-server/src/auth_handshake.rs]),
    with [redeem_invite_token] of [invite_tokens.rs] and [authorize_device_key] of [authorized_keys.rs]
    cut into their reads and writes of the two files.  The handshakes run on the threads of the runtime
    without a common lock, so the steps of two devices interleave. *)

From stdpp Require Import base tactics list gmap strings.
From Stdlib Require Import ZArith Lia.
From S2P Require Import Prelude Words Text Json Auth Stores AuthHandshake.
Open Scope Z_scope.

(** * Definitions *)

(** What a handshake does next: look the key up, read the tokens, write them back with one use less, read
    the devices, write them back with one more, reload the store; or it is settled. *)
Inductive enrol_pc :=
  | ToCheck
  | ToReadTokens
  | ToWriteTokens (manager : InviteTokenManager)
  | ToReadDevices
  | ToWriteDevices (doc : AuthorizedKeysFile)
  | ToReload
  | Settled (r : outcome HsError bool).

Record Enrolment := { en_hello : ClientHello; en_pc : enrol_pc }.

Definition enrol_start (hello : ClientHello) : Enrolment := {| en_hello := hello; en_pc := ToCheck |}.
Definition at_pc (e : Enrolment) (pc : enrol_pc) : Enrolment := {| en_hello := en_hello e; en_pc := pc |}.

(** Go on if the step succeeded. *)
Definition and_then {A} (r : outcome StoreError A) (k : A -> enrol_pc) : enrol_pc :=
  match r with Ok a => k a | Err e => Settled (Err (HsStore e)) | Panic => Settled Panic end.

Section steps.
Context `{Toml InviteTokensFile} {HO : HashOrder} `{Toml AuthorizedKeysFile}.

Definition enrol_step (invites : string) (e : Enrolment) (st : ServerState) : Enrolment * ServerState :=
  let '(fs, keys) := st in
  let key := hello_key (en_hello e) in
  match en_pc e with
  | ToCheck =>
      (at_pc e (if is_authorized key keys then Settled (Ok true)
                else if is_empty (trim (hello_invite (en_hello e))) then Settled (Ok false)
                else ToReadTokens), st)
  | ToReadTokens =>
      (at_pc e (and_then (load_manager invites fs) (fun manager =>
         let (r, manager) := redeem (hello_invite (en_hello e)) manager in
         if is_ok r then ToWriteTokens manager else Settled (Ok false))), st)
  | ToWriteTokens manager =>
      let (r, fs) := persist_manager invites manager fs in
      (at_pc e (and_then r (fun _ => ToReadDevices)), (fs, keys))
  | ToReadDevices =>
      (at_pc e (and_then (load_devices_file (store_path keys) fs) (fun doc =>
         if existsb (fun d => bool_decide (public_key d = key)) (file_devices doc) then ToReload
         else ToWriteDevices doc)), st)
  | ToWriteDevices doc =>
      let (r, fs) := persist_devices_file (store_path keys) {| file_devices := file_devices doc ++ [new_device key] |} fs in
      (at_pc e (and_then r (fun _ => ToReload)), (fs, keys))
  | ToReload =>
      let (r, keys) := keys_reload keys fs in
      (at_pc e (and_then r (fun _ => Settled (Ok true))), (fs, keys))
  | Settled _ => (e, st)
  end.

(** [n] steps of one handshake without interruption *)
Fixpoint enrol_alone (n : nat) (invites : string) (e : Enrolment) (st : ServerState) : Enrolment * ServerState :=
  match n with
  | O => (e, st)
  | S n => let (e, st) := enrol_step invites e st in enrol_alone n invites e st
  end.

(** Two handshakes interleaved: who takes each step *)
Inductive turn := First | Second.

Fixpoint enrol_both (turns : list turn) (invites : string) (a b : Enrolment) (st : ServerState)
  : Enrolment * Enrolment * ServerState :=
  match turns with
  | [] => (a, b, st)
  | First :: turns => let (a, st) := enrol_step invites a st in enrol_both turns invites a b st
  | Second :: turns => let (b, st) := enrol_step invites b st in enrol_both turns invites a b st
  end.
End steps.

(** * Lemmas *)

(** Six steps without interruption are [authorize_hello]. *)
Lemma enrol_alone_authorizes `{Toml InviteTokensFile} {HO : HashOrder} `{Toml AuthorizedKeysFile} invites hello st :
  let '(r, st') := authorize_hello invites hello st in
  enrol_alone 6 invites (enrol_start hello) st = (at_pc (enrol_start hello) (Settled r), st').
Proof.
  destruct st as [fs keys]. unfold authorize_hello, redeem_invite_token, authorize_device_key.
  cbn [enrol_alone enrol_step enrol_start en_pc en_hello at_pc].
  destruct (is_authorized (hello_key hello) keys); [done|].
  destruct (is_empty (trim (hello_invite hello))); [done|].
  cbn [enrol_step en_pc en_hello at_pc]. destruct (load_manager invites fs) as [m|e|]; [|done..].
  cbn [and_then]. destruct (redeem (hello_invite hello) m) as [r m']. destruct (is_ok r); [|done].
  cbn [enrol_step en_pc en_hello at_pc]. destruct (persist_manager invites m' fs) as [[[]|e|] fs1]; [|done..].
  cbn [enrol_step en_pc en_hello at_pc and_then].
  destruct (load_devices_file (store_path keys) fs1) as [doc|e|]; [|done..]. cbn [and_then].
  destruct (existsb _ (file_devices doc)); cbn [enrol_step en_pc en_hello at_pc].
  - by destruct (keys_reload keys fs1) as [[[]|e|] keys'].
  - destruct (persist_devices_file _ _ fs1) as [[[]|e|] fs2]; [|done..]. cbn [and_then enrol_step en_pc en_hello at_pc].
    by destruct (keys_reload keys fs2) as [[[]|e|] keys'].
Qed.

(** A file with new contents *)
Definition written (path data : string) (fs : FS) : FS :=
  {| files := <[path := data]> (files fs); read_fails := read_fails fs; write_fails := write_fails fs |}.

Lemma path_ok_written path q data fs : path_ok path fs -> path_ok path (written q data fs).
Proof. done. Qed.

Lemma write_written path data fs : path_ok path fs -> write_file path data fs = (Ok tt, written path data fs).
Proof. intros [_ Hw]. unfold write_file. by rewrite decide_False. Qed.

Lemma load_devices_other `{Toml AuthorizedKeysFile} path q data fs :
  q <> path -> load_devices_file path (written q data fs) = load_devices_file path fs.
Proof.
  intros Hne. unfold load_devices_file, exists_file, read_to_string. cbn [files read_fails written].
  by rewrite lookup_insert_ne.
Qed.

Lemma load_devices_written `{Toml AuthorizedKeysFile} path data doc fs :
  path_ok path fs -> toml_parse data = Some doc -> load_devices_file path (written path data fs) = Ok doc.
Proof.
  intros [Hr _] Hp. unfold load_devices_file, exists_file, read_to_string. cbn [files read_fails written].
  rewrite lookup_insert_eq, bool_decide_eq_true_2 by eauto. cbn [negb]. rewrite decide_False by done.
  cbn [ok_or mbind outcome_bind]. by rewrite Hp.
Qed.

Lemma load_manager_written `{Toml InviteTokensFile} path data doc fs :
  path_ok path fs -> toml_parse data = Some doc ->
  load_manager path (written path data fs) = Ok (from_tokens (file_tokens doc)).
Proof.
  intros [Hr _] Hp. unfold load_manager, exists_file, read_to_string. cbn [files read_fails written].
  rewrite lookup_insert_eq, bool_decide_eq_true_2 by eauto. cbn [negb]. rewrite decide_False by done.
  cbn [ok_or mbind outcome_bind]. by rewrite Hp.
Qed.

Lemma load_manager_other `{Toml InviteTokensFile} path q data fs :
  q <> path -> load_manager path (written q data fs) = load_manager path fs.
Proof.
  intros Hne. unfold load_manager, exists_file, read_to_string. cbn [files read_fails written].
  by rewrite lookup_insert_ne.
Qed.

(** The schedule in which the handshakes take turns *)
Definition in_turn : list turn := mjoin (replicate 6 [First; Second]).

Section race.
Context `{TomlLaws InviteTokensFile} {HO : HashOrder} `{TomlLaws AuthorizedKeysFile}.
Variables (invites keys_file v ka kb : string) (fs : FS) (m : InviteTokenManager) (t : InviteToken)
  (doc : AuthorizedKeysFile) (keys : AuthorizedKeysStore).
Hypothesis (Hpath : store_path keys = keys_file) (Hne : invites <> keys_file).
Hypothesis (Hpi : path_ok invites fs) (Hpk : path_ok keys_file fs).
Hypothesis (Hm : manager_ok m) (Hload : load_manager invites fs = Ok m) (Ht : m !! v = Some t).
Hypothesis (Hu : 0 < uses_remaining t).
Hypothesis (Hdoc : load_devices_file keys_file fs = Ok doc).
Hypothesis (Hka : devices_map (file_devices doc) !! ka = None) (Hkb : devices_map (file_devices doc) !! kb = None).
Hypothesis (Hna : is_authorized ka keys = false) (Hnb : is_authorized kb keys = false).
Hypothesis (Hv : is_empty (trim v) = false) (Hab : ka <> kb).

Let hello k := {| hello_key := k; hello_invite := v |}.

Lemma not_in_doc k : devices_map (file_devices doc) !! k = None ->
  existsb (fun d => bool_decide (public_key d = k)) (file_devices doc) = false.
Proof.
  intros Hk. destruct (existsb _ _) eqn:He; [|done]. apply has_key_spec in He. rewrite Hk in He. by destruct He.
Qed.

(** One step each, from the state it needs *)
Let at_k k pc : Enrolment := {| en_hello := hello k; en_pc := pc |}.

Lemma step_check k st : is_authorized k st.2 = false ->
  enrol_step invites (at_k k ToCheck) st = (at_k k ToReadTokens, st).
Proof.
  destruct st as [f ks]. unfold enrol_step, at_k. cbn [snd en_pc en_hello hello hello_key hello_invite].
  intros Hk. by rewrite Hk, Hv.
Qed.

Lemma step_read_tokens k f ks m0 m' t' :
  load_manager invites f = Ok m0 -> redeem v m0 = (Ok t', m') ->
  enrol_step invites (at_k k ToReadTokens) (f, ks) = (at_k k (ToWriteTokens m'), (f, ks)).
Proof.
  intros Hl Hr. unfold enrol_step, at_k. cbn [en_pc en_hello hello hello_invite].
  rewrite Hl. cbn [and_then]. by rewrite Hr.
Qed.

Lemma step_write_tokens k f f' ks m' :
  persist_manager invites m' f = (Ok tt, f') ->
  enrol_step invites (at_k k (ToWriteTokens m')) (f, ks) = (at_k k ToReadDevices, (f', ks)).
Proof. intros Hw. unfold enrol_step, at_k. cbn [en_pc en_hello hello hello_key]. by rewrite Hw. Qed.

Lemma step_read_devices k f ks d :
  load_devices_file (store_path ks) f = Ok d ->
  existsb (fun x => bool_decide (public_key x = k)) (file_devices d) = false ->
  enrol_step invites (at_k k ToReadDevices) (f, ks) = (at_k k (ToWriteDevices d), (f, ks)).
Proof.
  intros Hl He. unfold enrol_step, at_k. cbn [en_pc en_hello hello hello_key].
  rewrite Hl. cbn [and_then]. by rewrite He.
Qed.

Lemma step_write_devices k f f' ks d :
  persist_devices_file (store_path ks) {| file_devices := file_devices d ++ [new_device k] |} f = (Ok tt, f') ->
  enrol_step invites (at_k k (ToWriteDevices d)) (f, ks) = (at_k k ToReload, (f', ks)).
Proof. intros Hw. unfold enrol_step, at_k. cbn [en_pc en_hello hello hello_key]. by rewrite Hw. Qed.

Lemma step_reload k f ks ks' :
  keys_reload ks f = (Ok tt, ks') ->
  enrol_step invites (at_k k ToReload) (f, ks) = (at_k k (Settled (Ok true)), (f, ks')).
Proof. intros Hw. unfold enrol_step, at_k. cbn [en_pc en_hello hello hello_key]. by rewrite Hw. Qed.

Lemma race_result :
  exists m' fs', enrol_both in_turn invites (enrol_start (hello ka)) (enrol_start (hello kb)) (fs, keys) =
      (at_k ka (Settled (Ok true)), at_k kb (Settled (Ok true)),
       (fs', {| store_path := keys_file;
                devices := <[kb := new_device kb]> (devices_map (file_devices doc)) |})) /\
    load_manager invites fs' = Ok m' /\ (exists t', m' !! v = Some t' /\ uses_remaining t' = uses_remaining t - 1) /\
    load_devices_file keys_file fs' = Ok {| file_devices := file_devices doc ++ [new_device kb] |}.
Proof.
  destruct (redeem_usable v m t Ht Hu) as (t' & Hredeem & Hu').
  pose proof (redeem_ok v m Hm) as Hm'. rewrite Hredeem in Hm'. cbn [snd] in Hm'. set (m' := <[v := t']> m) in *.
  destruct (toml_round {| file_tokens := all_tokens m' |}) as (s1 & Hp1 & Hs1).
  destruct (toml_round {| file_devices := file_devices doc ++ [new_device ka] |}) as (sa & Hpa & Hsa).
  destruct (toml_round {| file_devices := file_devices doc ++ [new_device kb] |}) as (sb & Hpb & Hsb).
  set (fs2 := written invites s1 (written invites s1 fs)).
  set (fs4 := written keys_file sb (written keys_file sa fs2)).
  assert (Hdoc2 : load_devices_file (store_path keys) fs2 = Ok doc)
    by (rewrite Hpath; unfold fs2; by rewrite !load_devices_other by done).
  assert (Hdoc4 : load_devices_file keys_file fs4 = Ok {| file_devices := file_devices doc ++ [new_device kb] |})
    by (by apply load_devices_written).
  assert (Hwt : forall f, path_ok invites f -> persist_manager invites m' f = (Ok tt, written invites s1 f))
    by (intros f Hf; unfold persist_manager; rewrite Hp1; by apply write_written).
  assert (Hwd : forall k s f, toml_print {| file_devices := file_devices doc ++ [new_device k] |} = Some s ->
    path_ok keys_file f ->
    persist_devices_file (store_path keys) {| file_devices := file_devices doc ++ [new_device k] |} f =
      (Ok tt, written keys_file s f))
    by (intros k s f Hs Hf; unfold persist_devices_file; rewrite Hs, Hpath; by apply write_written).
  exists m', fs4. split_and!; [| |by exists t'; unfold m'; rewrite lookup_insert_eq|done].
  2:{ unfold fs4, fs2. rewrite !load_manager_other by done.
      rewrite (load_manager_written _ _ _ _ (path_ok_written _ _ _ _ Hpi) Hs1). cbn [file_tokens].
      by rewrite from_all_tokens. }
  change (enrol_start (hello ka)) with (at_k ka ToCheck). change (enrol_start (hello kb)) with (at_k kb ToCheck).
  unfold in_turn. cbn [replicate mjoin list_join app enrol_both].
  rewrite !step_check by done.
  rewrite !(step_read_tokens _ _ _ m m' t') by done.
  rewrite (step_write_tokens _ _ _ _ _ (Hwt fs Hpi)), (step_write_tokens _ _ _ _ _ (Hwt (written invites s1 fs) Hpi)).
  fold fs2. rewrite !(step_read_devices _ _ _ doc Hdoc2) by (by apply not_in_doc).
  rewrite (step_write_devices _ _ _ _ _ (Hwd ka sa fs2 Hpa Hpk)).
  rewrite (step_write_devices _ _ _ _ _ (Hwd kb sb (written keys_file sa fs2) Hpb Hpk)). fold fs4.
  rewrite (step_reload _ _ _ _ (reload_spec keys _ _ (eq_rect_r (fun p => load_devices_file p fs4 = _) Hdoc4 Hpath))).
  rewrite Hpath. rewrite (step_reload _ _ _ _ (reload_spec (Build_AuthorizedKeysStore keys_file _) _ _ Hdoc4)).
  cbn [store_path file_devices]. by rewrite devices_map_snoc.
Qed.
End race.

(** * Properties *)

(** C37: devices that pair at the same time.  Two unknown devices whose handshakes take turns with the same
    invite are both let in, although only one use is taken from it; and the second write of the keys
    file drops the first device: it is told that it may go on, but neither the file nor the store knows
    it afterwards. *)
Theorem enrolment_race `{TomlLaws InviteTokensFile} {HO : HashOrder} `{TomlLaws AuthorizedKeysFile} (invites v ka kb : string)
    (fs : FS) (keys : AuthorizedKeysStore) (m : InviteTokenManager) (t : InviteToken) (doc : AuthorizedKeysFile) :
  invites <> store_path keys -> path_ok invites fs -> path_ok (store_path keys) fs ->
  manager_ok m -> load_manager invites fs = Ok m -> m !! v = Some t -> 0 < uses_remaining t ->
  load_devices_file (store_path keys) fs = Ok doc ->
  devices_map (file_devices doc) !! ka = None -> devices_map (file_devices doc) !! kb = None ->
  is_authorized ka keys = false -> is_authorized kb keys = false -> is_empty (trim v) = false -> ka <> kb ->
  let hello k := {| hello_key := k; hello_invite := v |} in
  let '(a, b, (fs', keys')) :=
    enrol_both in_turn invites (enrol_start (hello ka)) (enrol_start (hello kb)) (fs, keys) in
  en_pc a = Settled (Ok true) /\ en_pc b = Settled (Ok true) /\
  (exists m' t', load_manager invites fs' = Ok m' /\ m' !! v = Some t' /\ uses_remaining t' = uses_remaining t - 1) /\
  load_devices_file (store_path keys) fs' = Ok {| file_devices := file_devices doc ++ [new_device kb] |} /\
  is_authorized ka keys' = false /\ is_authorized kb keys' = true.
Proof.
  intros Hne Hpi Hpk Hm Hl Ht Hu Hdoc Hka Hkb Hna Hnb Hv Hab hello.
  destruct (race_result invites (store_path keys) v ka kb fs m t doc keys) as (m' & fs' & Hrun & Hl' & (t' & Ht' & Hu') & Hd);
    [done..|].
  subst hello. cbv beta zeta in Hrun |- *. rewrite Hrun.
  split_and!; [done..|by exists m', t'|done| |]; unfold is_authorized; cbn [devices].
  - rewrite lookup_insert_ne by done. rewrite Hka. apply bool_decide_eq_false. by intros [].
  - rewrite lookup_insert_eq. apply bool_decide_eq_true. eauto.
Qed.

(** ** Witnesses *)

Module Sample.
#[local] Existing Instances Stores.Sample.listing Stores.Sample.toml_invites Stores.Sample.toml_keys Stores.Sample.toml_invites_laws
  Stores.Sample.toml_keys_laws.

Lemma enrolment_race_witness :
  let hello k := {| hello_key := k; hello_invite := "abc" |} in
  let '(a, b, (_, keys')) := enrol_both in_turn "t" (enrol_start (hello "ka")) (enrol_start (hello "kb"))
    (AuthHandshake.Sample.fs, AuthHandshake.Sample.stranger) in
  en_pc a = Settled (Ok true) /\ en_pc b = Settled (Ok true) /\
  is_authorized "ka" keys' = false /\ is_authorized "kb" keys' = true.
Proof.
  pose proof (enrolment_race "t" "abc" "ka" "kb" AuthHandshake.Sample.fs AuthHandshake.Sample.stranger
    {[ "abc" := Stores.Sample.sample_token ]} Stores.Sample.sample_token {| file_devices := [] |}) as Hr.
  cbv beta zeta in Hr |- *. destruct (enrol_both _ _ _ _ _) as [[a b] [fs' keys']].
  destruct Hr as (Ha & Hb & _ & _ & Hka & Hkb).
  - discriminate.
  - split; apply not_elem_of_empty.
  - split; apply not_elem_of_empty.
  - apply Stores.Sample.sample_manager_ok.
  - vm_compute. reflexivity.
  - reflexivity.
  - reflexivity.
  - vm_compute. reflexivity.
  - reflexivity.
  - reflexivity.
  - reflexivity.
  - reflexivity.
  - reflexivity.
  - discriminate.
  - split; [exact Ha|]. split; [exact Hb|]. split; [exact Hka | exact Hkb].
Defined.
End Sample.
