(* ===== verification/Session.v ===== *)
(** Session frames and the reassembly of a bonded session:
    [src/crates/bonded-core/src/session.rs].  Frames travel over several paths and arrive in any
    order; [SessionState] numbers the outbound ones and puts the inbound ones back in order. *)

From stdpp Require Import base tactics list gmap.
From Stdlib Require Import ZArith Lia.
From S2P Require Import Prelude Words.
Open Scope Z_scope.

(** * Definitions *)

Definition HEADER_LEN : nat := 16.
Definition FLAG_PING : Z := 0x0001.
Definition FLAG_PONG : Z := 0x0002.
Definition FLAG_PEER_RELAY_REGISTRATION : Z := 0x0004.

Record SessionHeader := { connection_id : Z; sequence : Z; flags : Z }.
Record SessionFrame := { header : SessionHeader; payload : list Z }.

#[global] Instance SessionHeader_eq_dec : EqDecision SessionHeader.
Proof. solve_decision. Defined.
#[global] Instance SessionFrame_eq_dec : EqDecision SessionFrame.
Proof. solve_decision. Defined.

Inductive FrameError := BufferTooSmall (found minimum : nat).

Inductive SessionStateError :=
  | ConnectionMismatch (expected found : Z)
  | StaleSequence (expected found : Z).

Record SessionState := {
  st_connection_id : Z;
  next_tx_sequence : Z;
  next_rx_sequence : Z;
  reorder_buffer : gmap Z SessionFrame
}.

(** [SessionState::new] *)
Definition SessionState_new (c : Z) : SessionState :=
  {| st_connection_id := c; next_tx_sequence := 0; next_rx_sequence := 0; reorder_buffer := ∅ |}.

Definition expected_rx_sequence (s : SessionState) : Z := next_rx_sequence s.

Definition create_outbound_frame (s : SessionState) (p : list Z) (fl : Z)
  : SessionFrame * SessionState :=
  ({| header := {| connection_id := st_connection_id s; sequence := next_tx_sequence s; flags := fl |};
      payload := p |},
   {| st_connection_id := st_connection_id s;
      next_tx_sequence := wrapping_add 64 (next_tx_sequence s) 1;
      next_rx_sequence := next_rx_sequence s;
      reorder_buffer := reorder_buffer s |}).

(** [entry(k).or_insert(v)] *)
Definition or_insert (m : gmap Z SessionFrame) (k : Z) (v : SessionFrame) : gmap Z SessionFrame :=
  match m !! k with
  | Some _ => m
  | None => <[k := v]> m
  end.

(** The [while let] of [ingest_inbound]: [None] when [fuel] iterations were not enough. *)
Fixpoint drain (fuel : nat) (rx : Z) (buf : gmap Z SessionFrame) (ready : list SessionFrame)
  : option (Z * gmap Z SessionFrame * list SessionFrame) :=
  match fuel with
  | O => None
  | S fuel =>
      match buf !! rx with
      | Some next => drain fuel (wrapping_add 64 rx 1) (delete rx buf) (ready ++ [next])
      | None => Some (rx, buf, ready)
      end
  end.

(** Every iteration removes an entry, so one more iteration than there are entries is enough. *)
Definition ingest_inbound (s : SessionState) (f : SessionFrame)
  : outcome SessionStateError (list SessionFrame) * SessionState :=
  if negb (connection_id (header f) =? st_connection_id s) then
    (Err (ConnectionMismatch (st_connection_id s) (connection_id (header f))), s)
  else if sequence (header f) <? next_rx_sequence s then
    (Err (StaleSequence (next_rx_sequence s) (sequence (header f))), s)
  else
    let buf := or_insert (reorder_buffer s) (sequence (header f)) f in
    match drain (S (size buf)) (next_rx_sequence s) buf [] with
    | None => (Panic, s)
    | Some (rx, buf', ready) =>
        (Ok ready,
         {| st_connection_id := st_connection_id s; next_tx_sequence := next_tx_sequence s;
            next_rx_sequence := rx; reorder_buffer := buf' |})
    end.

Definition encode (f : SessionFrame) : list Z :=
  be_bytes 4 (connection_id (header f)) ++ be_bytes 8 (sequence (header f)) ++
  be_bytes 4 (flags (header f)) ++ payload f.

(** [Buf::get_u32] and [Buf::get_u64] read from the front and advance. *)
Definition get_be (n : nat) (raw : list Z) : Z * list Z := (be_val (take n raw), drop n raw).

Definition decode (raw : list Z) : outcome FrameError SessionFrame :=
  return_if bool_decide (length raw < HEADER_LEN)%nat
    with Err (BufferTooSmall (length raw) HEADER_LEN) ;;
  let (c, raw) := get_be 4 raw in
  let (q, raw) := get_be 8 raw in
  let (fl, raw) := get_be 4 raw in
  Ok {| header := {| connection_id := c; sequence := q; flags := fl |}; payload := raw |}.

Arguments encode : simpl never.
Arguments decode : simpl never.

(** A frame the Rust types can hold. *)
Definition frame_ok (f : SessionFrame) : Prop :=
  in_u 32 (connection_id (header f)) /\ in_u 64 (sequence (header f)) /\
  in_u 32 (flags (header f)) /\ bytes_ok (payload f).

(** ** The two ends of a session *)

(** A sender numbers a list of payloads. *)
Fixpoint send_all (s : SessionState) (ps : list (list Z * Z)) : list SessionFrame * SessionState :=
  match ps with
  | [] => ([], s)
  | (p, fl) :: ps =>
      let (f, s1) := create_outbound_frame s p fl in
      let (fs, s2) := send_all s1 ps in (f :: fs, s2)
  end.

(** A receiver that skips rejected frames and keeps going, and what it hands over. *)
Definition receive_step (acc : SessionState * list SessionFrame) (f : SessionFrame)
  : SessionState * list SessionFrame :=
  let (s, out) := acc in
  let (r, s') := ingest_inbound s f in
  (s', out ++ default [] (ok_option r)).

Definition receive_all (s : SessionState) (fs : list SessionFrame)
  : SessionState * list SessionFrame := foldl receive_step (s, []) fs.

(** ** Abstract specification of reassembly *)

(** The frames of connection [c] seen so far, the first arrival of each sequence number. *)
Definition arrivals (c : Z) (fs : list SessionFrame) : gmap Z SessionFrame :=
  foldl (fun m f => if connection_id (header f) =? c
                    then or_insert m (sequence (header f)) f else m) ∅ fs.

(** [out] is the longest run of arrivals that starts at sequence 0 and has no gap. *)
Definition reassembled (arrived : gmap Z SessionFrame) (out : list SessionFrame) : Prop :=
  (forall i, (i < length out)%nat -> out !! i = arrived !! Z.of_nat i) /\
  arrived !! (len out) = None.

(** The refinement relation between a session state and the specification. *)
Record refines (c : Z) (s : SessionState) (arrived : gmap Z SessionFrame) (out : list SessionFrame)
  : Prop := {
  ref_conn : st_connection_id s = c;
  ref_rx : next_rx_sequence s = len out;
  ref_out : reassembled arrived out;
  ref_buf : forall k, len out <= k -> reorder_buffer s !! k = arrived !! k;
  ref_low : forall k, k < len out -> reorder_buffer s !! k = None
}.

(** ** The invariant of a session state, wrap-around included *)

Record state_ok (s : SessionState) : Prop := {
  ok_conn : in_u 32 (st_connection_id s);
  ok_tx : in_u 64 (next_tx_sequence s);
  ok_rx : in_u 64 (next_rx_sequence s);
  ok_frames : forall k f, reorder_buffer s !! k = Some f ->
    sequence (header f) = k /\ connection_id (header f) = st_connection_id s /\ frame_ok f;
  ok_ahead : forall k, is_Some (reorder_buffer s !! k) -> next_rx_sequence s < k < 2 ^ 64
}.

(** * Lemmas *)

(** ** The wire format *)

Lemma get_be_app n a raw :
  in_u (8 * Z.of_nat n) a -> get_be n (be_bytes n a ++ raw) = (a, raw).
Proof.
  intros Ha. unfold get_be.
  rewrite take_app_length', drop_app_length' by by rewrite length_be_bytes.
  by rewrite be_val_bytes_small.
Qed.

Lemma length_encode f : length (encode f) = (HEADER_LEN + length (payload f))%nat.
Proof. unfold encode. rewrite !length_app, !length_be_bytes. unfold HEADER_LEN. lia. Qed.

Lemma encode_bytes_ok f : bytes_ok (payload f) -> bytes_ok (encode f).
Proof. intros H. unfold encode. rewrite !Forall_app. auto with bonded. Qed.

Lemma be_bytes_take n raw :
  bytes_ok raw -> (n <= length raw)%nat -> be_bytes n (be_val (take n raw)) = take n raw.
Proof.
  intros H Hn. rewrite <- (be_bytes_val (take n raw)) at 2 by by apply Forall_take.
  by rewrite length_take, Nat.min_l.
Qed.

Lemma decode_encode f : frame_ok f -> decode (encode f) = Ok f.
Proof.
  intros (Hc & Hq & Hf & _). unfold decode.
  rewrite bool_decide_eq_false_2 by (rewrite length_encode; lia).
  unfold encode. rewrite !get_be_app by done. by destruct f as [[] ?].
Qed.

(** ** The drain loop *)

Lemma drain_app fuel rx buf ready :
  drain fuel rx buf ready =
  (fun '(rx', buf', out) => (rx', buf', ready ++ out)) <$> drain fuel rx buf [].
Proof.
  revert rx buf ready. induction fuel as [|fuel IH]; intros rx buf ready; [done|]. simpl.
  destruct (buf !! rx); simpl; [| by rewrite app_nil_r].
  rewrite IH, (IH _ _ [_]). destruct (drain fuel _ _ []) as [[[? ?] ?]|]; simpl; [|done].
  by rewrite <- app_assoc.
Qed.

(** Enough fuel: the loop always finishes. *)
Lemma drain_total fuel rx buf ready : (size buf < fuel)%nat -> is_Some (drain fuel rx buf ready).
Proof.
  revert rx buf ready. induction fuel as [|fuel IH]; intros rx buf ready Hs; [lia|]. simpl.
  destruct (buf !! rx) eqn:Hl; [|eauto]. apply IH.
  pose proof (map_size_delete_Some rx buf (mk_is_Some _ _ Hl)).
  assert (size buf <> 0)%nat by (rewrite map_size_non_empty_iff; set_solver). lia.
Qed.

(** No buffered frame has the last sequence number, so the counter cannot wrap. *)
Definition below_last (buf : gmap Z SessionFrame) : Prop :=
  forall k, is_Some (buf !! k) -> k < 2 ^ 64 - 1.

Lemma below_last_delete k buf : below_last buf -> below_last (delete k buf).
Proof.
  intros H k' [f Hk]. apply H. apply lookup_delete_Some in Hk as [_ Hk]. eauto.
Qed.

(** What the loop computes when no sequence number wraps. *)
Lemma drain_spec fuel rx buf rx' buf' out :
  drain fuel rx buf [] = Some (rx', buf', out) -> 0 <= rx -> below_last buf ->
  rx' = rx + len out /\
  (forall i, (i < length out)%nat -> out !! i = buf !! (rx + Z.of_nat i)) /\
  buf' !! rx' = None /\
  (forall k, buf' !! k = if bool_decide (rx <= k < rx') then None else buf !! k).
Proof.
  revert rx buf rx' buf' out.
  induction fuel as [|fuel IH]; intros rx buf rx' buf' out; [done|]. simpl.
  destruct (buf !! rx) as [f|] eqn:Hl; intros Hd Hrx Hs.
  - assert (rx < 2 ^ 64 - 1) by eauto.
    rewrite wrapping_add_small in Hd by (unfold in_u; lia).
    rewrite drain_app in Hd.
    destruct (drain fuel (rx + 1) (delete rx buf) []) as [[[rx1 buf1] out1]|] eqn:Hd1; [|done].
    simpl in Hd. injection Hd as <- <- <-.
    destruct (IH _ _ _ _ _ Hd1) as (-> & Ho & Hn & Hb); [lia | by apply below_last_delete |].
    split_and!; [simpl; lia | | done |].
    + intros [|i] Hi; simpl in *; [by rewrite Z.add_0_r|].
      rewrite Ho by lia. rewrite lookup_delete_ne by lia. f_equal. lia.
    + intros k. rewrite Hb. repeat case_bool_decide; try lia; try done.
      * destruct (decide (k = rx)) as [->|]; [by rewrite lookup_delete_eq|lia].
      * rewrite lookup_delete_ne by lia. done.
  - injection Hd as <- <- <-. simpl. split_and!; [lia | lia | done |].
    intros k. rewrite bool_decide_eq_false_2 by lia. done.
Qed.

(** What the loop keeps, wrap-around included: what is left is ahead of the counter. *)
Lemma drain_ahead fuel rx buf rx' buf' out :
  drain fuel rx buf [] = Some (rx', buf', out) -> in_u 64 rx ->
  (forall k, is_Some (buf !! k) -> rx <= k < 2 ^ 64) ->
  in_u 64 rx' /\ buf' ⊆ buf /\ (forall k, is_Some (buf' !! k) -> rx' < k < 2 ^ 64).
Proof.
  revert rx buf rx' buf' out.
  induction fuel as [|fuel IH]; intros rx buf rx' buf' out; [done|]. simpl.
  destruct (buf !! rx) as [f|] eqn:Hl; intros Hd Hrx Hk.
  - rewrite drain_app in Hd.
    destruct (drain fuel _ (delete rx buf) []) as [[[rx1 buf1] out1]|] eqn:Hd1; [|done].
    simpl in Hd. injection Hd as <- <- <-.
    destruct (IH _ _ _ _ _ Hd1) as (Hu & Hb & Hlt); [by apply wrapping_add_in_u | |].
    + intros k [g Hg]. apply lookup_delete_Some in Hg as [Hne Hg].
      assert (rx <= k < 2 ^ 64) by eauto. rewrite wrapping_add_small by (unfold in_u in *; lia). lia.
    + split_and!; [done | | done]. etrans; [exact Hb | apply delete_subseteq].
  - injection Hd as <- <- <-. split_and!; [done | done |].
    intros k Hs. assert (k <> rx) by (intros ->; rewrite Hl in Hs; by destruct Hs).
    specialize (Hk k Hs). lia.
Qed.

(** ** First-arrival maps *)

Lemma lookup_or_insert m k v k' :
  or_insert m k v !! k' =
  match m !! k' with Some w => Some w | None => if decide (k = k') then Some v else None end.
Proof.
  unfold or_insert. destruct (m !! k) eqn:Hk.
  - destruct (m !! k') eqn:Hk'; [done|]. case_decide; congruence.
  - destruct (decide (k = k')) as [->|].
    + by rewrite lookup_insert_eq, Hk.
    + rewrite lookup_insert_ne by done. by destruct (m !! k').
Qed.

Lemma arrivals_snoc c fs f :
  arrivals c (fs ++ [f]) =
  if connection_id (header f) =? c then or_insert (arrivals c fs) (sequence (header f)) f
  else arrivals c fs.
Proof. unfold arrivals. by rewrite foldl_app. Qed.

Lemma arrivals_Some c fs k f :
  arrivals c fs !! k = Some f -> f ∈ fs /\ connection_id (header f) = c /\ sequence (header f) = k.
Proof.
  induction fs as [|g fs IH] using rev_ind; [done|].
  rewrite arrivals_snoc. destruct (Z.eqb_spec (connection_id (header g)) c) as [Hc|].
  - rewrite lookup_or_insert. destruct (arrivals c fs !! k) eqn:Hk.
    + intros [=->]. destruct IH as (? & ? & ?); [done|]. set_solver.
    + case_decide; intros [=<-]. set_solver.
  - intros H. destruct (IH H) as (? & ? & ?). set_solver.
Qed.

Lemma arrivals_complete c fs f :
  f ∈ fs -> connection_id (header f) = c -> is_Some (arrivals c fs !! sequence (header f)).
Proof.
  induction fs as [|g fs IH] using rev_ind; [set_solver|].
  intros Hin Hc. rewrite arrivals_snoc.
  destruct (decide (f ∈ fs)) as [Hf|Hf].
  - destruct (IH Hf Hc) as [h Hh]. destruct (_ =? c); [|eauto].
    rewrite lookup_or_insert, Hh. eauto.
  - assert (f = g) as -> by set_solver. rewrite Hc, Z.eqb_refl, lookup_or_insert.
    destruct (arrivals c fs !! _); [eauto|]. rewrite decide_True by done. eauto.
Qed.

Lemma reassembled_unique m out1 out2 : reassembled m out1 -> reassembled m out2 -> out1 = out2.
Proof.
  intros [H1 N1] [H2 N2].
  assert (Hlen : length out1 = length out2).
  { destruct (Nat.lt_trichotomy (length out1) (length out2)) as [H|[H|H]]; [|done|].
    - specialize (H2 _ H). rewrite N1 in H2. apply lookup_ge_None in H2. lia.
    - specialize (H1 _ H). rewrite N2 in H1. apply lookup_ge_None in H1. lia. }
  apply list_eq. intros i. destruct (decide (i < length out1)%nat).
  - rewrite H1, H2 by lia. done.
  - rewrite !lookup_ge_None_2 by lia. done.
Qed.

(** ** The whole of [ingest_inbound] *)

(** The accepting branch. *)
Lemma ingest_accept s f :
  connection_id (header f) = st_connection_id s -> next_rx_sequence s <= sequence (header f) ->
  exists rx buf' ready,
    drain (S (size (or_insert (reorder_buffer s) (sequence (header f)) f))) (next_rx_sequence s)
      (or_insert (reorder_buffer s) (sequence (header f)) f) [] = Some (rx, buf', ready) /\
    ingest_inbound s f =
      (Ok ready, {| st_connection_id := st_connection_id s; next_tx_sequence := next_tx_sequence s;
                    next_rx_sequence := rx; reorder_buffer := buf' |}).
Proof.
  intros Hc Hq. unfold ingest_inbound.
  rewrite (proj2 (Z.eqb_eq _ _) Hc), (proj2 (Z.ltb_ge _ _) Hq). simpl negb. cbv iota zeta.
  destruct (drain_total (S (size (or_insert (reorder_buffer s) (sequence (header f)) f)))
    (next_rx_sequence s) (or_insert (reorder_buffer s) (sequence (header f)) f) [])
    as [[[rx buf'] ready] Hd]; [lia|].
  exists rx, buf', ready. by rewrite Hd.
Qed.

(** The rejecting branches leave the state alone. *)
Lemma ingest_reject s f :
  connection_id (header f) <> st_connection_id s \/ sequence (header f) < next_rx_sequence s ->
  exists e, ingest_inbound s f = (Err e, s).
Proof.
  unfold ingest_inbound. destruct (Z.eqb_spec (connection_id (header f)) (st_connection_id s));
    simpl; [|eauto]. destruct (Z.ltb_spec (sequence (header f)) (next_rx_sequence s)); [eauto|lia].
Qed.

Lemma ingest_cases s f :
  (connection_id (header f) = st_connection_id s /\ next_rx_sequence s <= sequence (header f)) \/
  (connection_id (header f) <> st_connection_id s \/ sequence (header f) < next_rx_sequence s).
Proof. lia. Qed.

Lemma ingest_state_ok s f : state_ok s -> frame_ok f -> state_ok (ingest_inbound s f).2.
Proof.
  intros Hs Hf. destruct (ingest_cases s f) as [[Hc Hq]|Hr].
  2: { by destruct (ingest_reject s f Hr) as [e ->]. }
  destruct (ingest_accept s f Hc Hq) as (rx & buf' & ready & Hd & ->). simpl.
  destruct Hf as (Hfc & Hfq & Hff & Hfp). destruct Hs as [Sc St Sr Sf Sa].
  assert (Hall : forall k g, or_insert (reorder_buffer s) (sequence (header f)) f !! k = Some g ->
    sequence (header g) = k /\ connection_id (header g) = st_connection_id s /\ frame_ok g).
  { intros k g. rewrite lookup_or_insert. destruct (reorder_buffer s !! k) eqn:Hk.
    - intros [=->]. eauto.
    - case_decide; intros [=<-]. split_and!; done. }
  destruct (drain_ahead _ _ _ _ _ _ Hd) as (Hu & Hsub & Hlt); [done| |].
  - intros k [g Hg]. specialize (Hall k g Hg) as (Hk & _ & _ & Hin & _). unfold in_u in *.
    rewrite lookup_or_insert in Hg. destruct (reorder_buffer s !! k) eqn:Hb.
    + assert (next_rx_sequence s < k < 2 ^ 64) by eauto. lia.
    + case_decide; [|done]. lia.
  - split; simpl; try done. intros k g Hg. apply Hall. by eapply lookup_weaken.
Qed.

(** ** The refinement *)

Lemma refines_new c : refines c (SessionState_new c) ∅ [].
Proof. by split. Qed.

Lemma refines_reject c s arrived out f :
  refines c s arrived out ->
  (connection_id (header f) = c -> 0 <= sequence (header f) < len out) ->
  refines c s (if connection_id (header f) =? c
               then or_insert arrived (sequence (header f)) f else arrived) out.
Proof.
  intros R Hr. destruct (Z.eqb_spec (connection_id (header f)) c) as [Hc|]; [|done].
  specialize (Hr Hc). destruct R as [? ? [Ho Hn] ? ?].
  assert (is_Some (arrived !! sequence (header f))) as [g Hg].
  { specialize (Ho (Z.to_nat (sequence (header f)))). rewrite Z2Nat.id in Ho by lia.
    rewrite <- Ho by lia. apply lookup_lt_is_Some. lia. }
  unfold or_insert. rewrite Hg. done.
Qed.

Lemma refines_accept c s arrived out f :
  refines c s arrived out -> connection_id (header f) = c -> len out <= sequence (header f) ->
  sequence (header f) < 2 ^ 64 - 1 -> below_last arrived ->
  exists ready, (ingest_inbound s f).1 = Ok ready /\
    refines c (ingest_inbound s f).2 (or_insert arrived (sequence (header f)) f) (out ++ ready).
Proof.
  intros [Rc Rx [Ro Rn] Rb Rl] Hc Hq Hlast Hbl.
  destruct (ingest_accept s f) as (rx & buf' & ready & Hd & ->); [congruence | lia |].
  exists ready. split; [done|]. set (q := sequence (header f)) in *.
  assert (Hins : forall k, len out <= k ->
    or_insert (reorder_buffer s) q f !! k = or_insert arrived q f !! k).
  { intros k Hk. rewrite !lookup_or_insert. by rewrite Rb. }
  assert (Hlow : forall k, k < len out -> or_insert (reorder_buffer s) q f !! k = None).
  { intros k Hk. rewrite lookup_or_insert, Rl by done. rewrite decide_False by lia. done. }
  apply drain_spec in Hd as (-> & Ho & Hn & Hb); [| lia |].
  2: { intros k [g Hg]. destruct (Z_lt_le_dec k (len out)) as [Hk|Hk]; [by rewrite Hlow in Hg|].
       rewrite Hins, lookup_or_insert in Hg by done.
       destruct (arrived !! k) eqn:Hka; [eauto|]. case_decide; [lia|done]. }
  rewrite Rx in *.
  assert (Hlen : len (out ++ ready) = len out + len ready) by (rewrite length_app; lia).
  split; simpl; rewrite ?Hlen; try done.
  - split.
    + intros i Hi. rewrite length_app in Hi. destruct (decide (i < length out)%nat) as [Hlt|Hge].
      * rewrite lookup_app_l by done. rewrite Ro, lookup_or_insert by done.
        destruct (arrived !! Z.of_nat i) eqn:Hia; [done|].
        rewrite <- Ro in Hia by done. apply lookup_ge_None in Hia. lia.
      * rewrite lookup_app_r, Ho, Hins by lia. f_equal. lia.
    + rewrite Hlen, <- Hins by lia. rewrite <- Hn, Hb.
      rewrite bool_decide_eq_false_2 by lia. done.
  - intros k Hk. rewrite Hb, bool_decide_eq_false_2 by lia. apply Hins. lia.
  - intros k Hk. rewrite Hb. case_bool_decide; [done|]. apply Hlow. lia.
Qed.

Lemma receive_all_snoc s fs f :
  receive_all s (fs ++ [f]) = receive_step (receive_all s fs) f.
Proof. unfold receive_all. by rewrite foldl_app. Qed.

Definition seq_in_range (f : SessionFrame) : Prop := 0 <= sequence (header f) < 2 ^ 64 - 1.

Lemma arrivals_below_last c fs : Forall seq_in_range fs -> below_last (arrivals c fs).
Proof.
  intros H k [f Hf]. apply arrivals_Some in Hf as (Hin & _ & <-).
  by apply (proj1 (Forall_forall _ _) H f Hin).
Qed.

Lemma receive_all_refines c fs :
  Forall seq_in_range fs ->
  refines c (receive_all (SessionState_new c) fs).1 (arrivals c fs)
    (receive_all (SessionState_new c) fs).2.
Proof.
  induction fs as [|f fs IH] using rev_ind; intros Hfs; [apply refines_new|].
  apply Forall_app in Hfs as [Hfs [Hf _]%Forall_cons]. specialize (IH Hfs).
  rewrite receive_all_snoc, arrivals_snoc.
  destruct (receive_all (SessionState_new c) fs) as [s out]. simpl in *.
  pose proof (ref_conn _ _ _ _ IH) as Hc. pose proof (ref_rx _ _ _ _ IH) as Hr.
  destruct (ingest_cases s f) as [[Hfc Hq]|Hrej].
  - rewrite Hc in Hfc. rewrite Hfc, Z.eqb_refl. unfold seq_in_range in Hf.
    destruct (refines_accept c s (arrivals c fs) out f) as (ready & Hok & Href); auto; try lia.
    { by apply arrivals_below_last. }
    destruct (ingest_inbound s f) as [r s']. simpl in *. by subst r.
  - destruct (ingest_reject s f Hrej) as [e ->]. simpl. rewrite app_nil_r.
    apply refines_reject; [done|]. intros. unfold seq_in_range in Hf. destruct Hrej; [congruence|lia].
Qed.

(** ** The sender *)

Lemma send_all_lookup s ps :
  0 <= next_tx_sequence s -> next_tx_sequence s + len ps < 2 ^ 64 ->
  forall i, (send_all s ps).1 !! i =
    (fun '(p, fl) => {| header := {| connection_id := st_connection_id s;
                                     sequence := next_tx_sequence s + Z.of_nat i; flags := fl |};
                        payload := p |}) <$> ps !! i.
Proof.
  revert s. induction ps as [|[p fl] ps IH]; intros s H0 Hn i; [done|]. simpl in *.
  set (s1 := {| st_connection_id := st_connection_id s |}).
  specialize (IH s1). destruct (send_all s1 ps) as [fs s2] eqn:Hs. simpl in *.
  assert (Hw : wrapping_add 64 (next_tx_sequence s) 1 = next_tx_sequence s + 1).
  { apply wrapping_add_small. unfold in_u. lia. }
  rewrite Hw in IH. destruct i as [|i]; simpl; [by rewrite Z.add_0_r|].
  rewrite IH by lia. destruct (ps !! i) as [[p' fl']|]; [|done]. simpl. do 3 f_equal. lia.
Qed.

Lemma length_send_all s ps : length (send_all s ps).1 = length ps.
Proof.
  revert s. induction ps as [|[p fl] ps IH]; intros s; [done|]. simpl.
  match goal with |- context [send_all ?s1 ps] => specialize (IH s1); destruct (send_all s1 ps) end.
  simpl in *. by rewrite IH.
Qed.

(** Frame [i] of a fresh sender has sequence number [i]. *)
Lemma send_all_new c ps i f :
  len ps < 2 ^ 64 -> (send_all (SessionState_new c) ps).1 !! i = Some f ->
  sequence (header f) = Z.of_nat i /\ connection_id (header f) = c.
Proof.
  intros Hn. rewrite send_all_lookup by (simpl; lia).
  destruct (ps !! i) as [[p fl]|]; simpl; [|done]. intros [=<-]. simpl. lia.
Qed.

(** The frames a receiver has seen of a fresh sender, by sequence number. *)
Lemma arrivals_sent c ps fs i :
  len ps < 2 ^ 64 -> (forall f, f ∈ fs -> f ∈ (send_all (SessionState_new c) ps).1) ->
  forall f, arrivals c fs !! Z.of_nat i = Some f -> (send_all (SessionState_new c) ps).1 !! i = Some f.
Proof.
  intros Hn Hsub f Hf. apply arrivals_Some in Hf as (Hin & _ & Hq).
  apply Hsub, list_elem_of_lookup in Hin as [j Hj].
  destruct (send_all_new c ps j f Hn Hj) as [Hseq _]. by assert (i = j) as -> by lia.
Qed.

Lemma sent_in_range c ps fs :
  len ps < 2 ^ 64 -> (forall f, f ∈ fs -> f ∈ (send_all (SessionState_new c) ps).1) ->
  Forall seq_in_range fs.
Proof.
  intros Hn Hsub. apply Forall_forall. intros f Hin. apply Hsub, list_elem_of_lookup in Hin as [j Hj].
  destruct (send_all_new c ps j f Hn Hj) as [Hseq _]. apply lookup_lt_Some in Hj.
  rewrite length_send_all in Hj. unfold seq_in_range. lia.
Qed.

(** What was sent and has all arrived is what reassembly yields. *)
Lemma reassembled_prefix c ps fs out :
  len ps < 2 ^ 64 -> (forall f, f ∈ fs -> f ∈ (send_all (SessionState_new c) ps).1) ->
  reassembled (arrivals c fs) out -> out `prefix_of` (send_all (SessionState_new c) ps).1.
Proof.
  intros Hn Hsub [Ho _]. set (sent := (send_all _ ps).1) in *.
  exists (drop (length out) sent). rewrite <- (take_drop (length out) sent) at 1. f_equal.
  apply list_eq. intros i. destruct (decide (i < length out)%nat) as [Hi|Hi].
  - rewrite lookup_take_lt by done. destruct (lookup_lt_is_Some_2 _ _ Hi) as [f Hf]. rewrite Hf.
    rewrite Ho in Hf by done. by eapply arrivals_sent.
  - rewrite lookup_take_ge, lookup_ge_None_2 by lia. done.
Qed.

Lemma reassembled_all c ps fs :
  len ps < 2 ^ 64 -> (forall f, f ∈ fs <-> f ∈ (send_all (SessionState_new c) ps).1) ->
  reassembled (arrivals c fs) (send_all (SessionState_new c) ps).1.
Proof.
  intros Hn Hall. set (sent := (send_all _ ps).1) in *. split.
  - intros i Hi. destruct (lookup_lt_is_Some_2 _ _ Hi) as [f Hf]. rewrite Hf. symmetry.
    destruct (send_all_new c ps i f Hn Hf) as [Hseq Hc].
    destruct (arrivals_complete c fs f) as [g Hg]; [| done |].
    { apply Hall. by eapply list_elem_of_lookup_2. }
    rewrite <- Hseq. rewrite Hg. rewrite Hseq in Hg. apply (arrivals_sent c ps) in Hg; [| done |].
    + unfold sent in Hf. congruence.
    + intros h. apply Hall.
  - destruct (arrivals c fs !! _) as [f|] eqn:Hf; [|done].
    apply (arrivals_sent c ps) in Hf; [| done |].
    + apply lookup_lt_Some in Hf. fold sent in Hf. lia.
    + intros h. apply Hall.
Qed.

Lemma encode_decode raw f :
  bytes_ok raw -> decode raw = Ok f -> frame_ok f /\ encode f = raw.
Proof.
  intros Hraw. unfold decode. case_bool_decide as Hlen; [done|]. unfold HEADER_LEN in Hlen.
  unfold get_be. intros [=<-].
  assert (Hin : forall n k, (n + k <= length raw)%nat ->
    in_u (8 * Z.of_nat n) (be_val (take n (drop k raw)))).
  { intros n k Hk. apply be_val_in_u; [by apply Forall_take, Forall_drop|].
    rewrite length_take, length_drop. lia. }
  split.
  - split_and!; cbn [header connection_id sequence flags payload].
    + apply (Hin 4%nat 0%nat). lia.
    + apply (Hin 8%nat 4%nat). lia.
    + rewrite drop_drop. apply (Hin 4%nat 12%nat). lia.
    + by repeat apply Forall_drop.
  - unfold encode. cbn [header connection_id sequence flags payload].
    rewrite !be_bytes_take
      by (first [by repeat apply Forall_drop | rewrite ?length_drop; lia]).
    by rewrite !take_drop.
Qed.

Lemma state_ok_new c : in_u 32 c -> state_ok (SessionState_new c).
Proof.
  intros Hc. split; simpl; try done. intros k. by intros [? [=]].
Qed.

Lemma create_state_ok s p fl :
  state_ok s -> in_u 32 fl -> bytes_ok p ->
  state_ok (create_outbound_frame s p fl).2 /\ frame_ok (create_outbound_frame s p fl).1.
Proof.
  intros [? ? ? ? ?] Hfl Hp. split; [|done]. split; simpl; try done. by apply wrapping_add_in_u.
Qed.

(** * Properties *)

(** C1: reassembly.  Whatever frames arrive, in whatever order, with sequence numbers below 2^64 - 1 (the
    wire allows that one too; after it the counter wraps), a fresh session has handed over
    exactly the longest gap-free run of first arrivals of its connection (from sequence 0), and its
    reorder buffer holds exactly the arrivals ahead of that run. *)
Theorem reassembly_refines (c : Z) (fs : list SessionFrame) :
  Forall seq_in_range fs ->
  let (s, out) := receive_all (SessionState_new c) fs in
  next_rx_sequence s = len out /\
  reassembled (arrivals c fs) out /\
  (forall k, reorder_buffer s !! k = if bool_decide (len out <= k) then arrivals c fs !! k else None).
Proof.
  intros H. pose proof (receive_all_refines c fs H) as R.
  destruct (receive_all _ fs) as [s out]. simpl in R. destruct R as [_ Rx Ro Rb Rl].
  split_and!; [done..|]. intros k. case_bool_decide; [by apply Rb | apply Rl; lia].
Qed.

(** A frame of connection 7 for the witnesses. *)
Definition sample_frame (q b : Z) : SessionFrame :=
  {| header := {| connection_id := 7; sequence := q; flags := 0 |}; payload := [b] |}.

Definition sample_arrivals : list SessionFrame :=
  [sample_frame 1 11; sample_frame 0 10; sample_frame 5 15].

Lemma reassembly_refines_witness :
  reassembled (arrivals 7 sample_arrivals) (receive_all (SessionState_new 7) sample_arrivals).2.
Proof.
  pose proof (reassembly_refines 7 sample_arrivals) as H.
  destruct (receive_all _ _) as [s out]. apply H.
  repeat constructor; vm_compute; discriminate.
Defined.

(** C3: bonded delivery.  Number a list of payloads on a fresh session, deliver the frames in any
    order and with any repetitions: the receiver hands over exactly the frames sent, once each, in
    the order they were sent, and keeps nothing back. *)
Theorem bonded_delivery (c : Z) (ps : list (list Z * Z)) (fs : list SessionFrame) :
  len ps < 2 ^ 64 ->
  (forall f, f ∈ fs <-> f ∈ (send_all (SessionState_new c) ps).1) ->
  (receive_all (SessionState_new c) fs).2 = (send_all (SessionState_new c) ps).1 /\
  reorder_buffer (receive_all (SessionState_new c) fs).1 = ∅.
Proof.
  intros Hn Hall. assert (Hsub : forall f, f ∈ fs -> f ∈ (send_all (SessionState_new c) ps).1).
  { intros f. apply Hall. }
  pose proof (receive_all_refines c fs (sent_in_range c ps fs Hn Hsub)) as [_ _ Ro Rb Rl].
  pose proof (reassembled_unique _ _ _ Ro (reassembled_all c ps fs Hn Hall)) as Heq.
  split; [done|]. rewrite Heq in *. apply map_empty. intros k.
  destruct (Z_lt_le_dec k (len (send_all (SessionState_new c) ps).1)) as [Hk|Hk]; [by apply Rl|].
  rewrite Rb by done. destruct (arrivals c fs !! k) as [f|] eqn:Hf; [|done].
  rewrite <- (Z2Nat.id k) in Hf by lia. apply (arrivals_sent c ps) in Hf; [|done..].
  apply lookup_lt_Some in Hf. lia.
Qed.

Lemma bonded_delivery_witness :
  (receive_all (SessionState_new 7)
     [sample_frame 2 12; sample_frame 0 10; sample_frame 2 12; sample_frame 1 11]).2 =
  [sample_frame 0 10; sample_frame 1 11; sample_frame 2 12].
Proof.
  apply (bonded_delivery 7 [([10], 0); ([11], 0); ([12], 0)]).
  - reflexivity.
  - intros f. cbn. change (wrapping_add 64 (wrapping_add 64 0 1) 1) with 2.
    change (wrapping_add 64 0 1) with 1. unfold sample_frame. set_solver.
Defined.

(** C38: with loss, what the receiver has handed over is always a prefix of what was sent: frames are
    never reordered, duplicated or skipped. *)
Theorem lossy_delivery_prefix (c : Z) (ps : list (list Z * Z)) (fs : list SessionFrame) :
  len ps < 2 ^ 64 ->
  (forall f, f ∈ fs -> f ∈ (send_all (SessionState_new c) ps).1) ->
  (receive_all (SessionState_new c) fs).2 `prefix_of` (send_all (SessionState_new c) ps).1.
Proof.
  intros Hn Hsub. apply (reassembled_prefix c ps fs); [done..|].
  apply (ref_out _ _ _ _ (receive_all_refines c fs (sent_in_range c ps fs Hn Hsub))).
Qed.

Lemma lossy_delivery_prefix_witness :
  (receive_all (SessionState_new 7) [sample_frame 2 12; sample_frame 0 10]).2
  `prefix_of` [sample_frame 0 10; sample_frame 1 11; sample_frame 2 12].
Proof.
  apply (lossy_delivery_prefix 7 [([10], 0); ([11], 0); ([12], 0)]).
  - reflexivity.
  - intros f. cbn. change (wrapping_add 64 (wrapping_add 64 0 1) 1) with 2.
    change (wrapping_add 64 0 1) with 1. unfold sample_frame. set_solver.
Defined.

(** C15: the state invariant (every number in its machine range, every buffered frame filed under its
    own sequence number, of this connection, and strictly ahead of the counter) is kept by both
    operations, also when the 64-bit counters wrap; ingesting never panics, and an error leaves the
    state as it was. *)
Theorem session_invariant (s : SessionState) (f : SessionFrame) (p : list Z) (fl : Z) :
  state_ok s -> frame_ok f -> in_u 32 fl -> bytes_ok p ->
  state_ok (create_outbound_frame s p fl).2 /\ frame_ok (create_outbound_frame s p fl).1 /\
  state_ok (ingest_inbound s f).2 /\ no_panic (ingest_inbound s f).1 /\
  (forall e, (ingest_inbound s f).1 = Err e -> (ingest_inbound s f).2 = s).
Proof.
  intros Hs Hf Hfl Hp. destruct (create_state_ok s p fl) as [? ?]; [done..|].
  split_and!; [done..| by apply ingest_state_ok | |];
    destruct (ingest_cases s f) as [[Hc Hq]|Hr].
  - by destruct (ingest_accept s f Hc Hq) as (? & ? & ? & _ & ->).
  - by destruct (ingest_reject s f Hr) as [? ->].
  - by destruct (ingest_accept s f Hc Hq) as (? & ? & ? & _ & ->).
  - by destruct (ingest_reject s f Hr) as [? ->].
Qed.

Lemma session_invariant_witness :
  state_ok (ingest_inbound (SessionState_new 7) (sample_frame (2 ^ 64 - 1) 1)).2.
Proof.
  apply (session_invariant (SessionState_new 7) (sample_frame (2 ^ 64 - 1) 1) [] 0).
  - apply state_ok_new. split; vm_compute; congruence.
  - repeat split; try (vm_compute; congruence). repeat constructor; vm_compute; congruence.
  - split; vm_compute; congruence.
  - constructor.
Defined.

(** C16: the wire format loses nothing, in both directions: a frame decodes from its encoding, and a
    buffer that decodes is the encoding of the decoded frame; only buffers shorter than the header
    are refused. *)
Theorem frame_roundtrip (f : SessionFrame) (raw : list Z) :
  frame_ok f -> bytes_ok raw ->
  decode (encode f) = Ok f /\
  (forall g, decode raw = Ok g -> encode g = raw) /\
  (forall e, decode raw = Err e <-> ((length raw < HEADER_LEN)%nat /\ e = BufferTooSmall (length raw) HEADER_LEN)).
Proof.
  intros Hf Hraw. split_and!.
  - by apply decode_encode.
  - intros g Hg. by apply encode_decode.
  - intros e. unfold decode. case_bool_decide; unfold get_be; split; try naive_solver.
Qed.

Lemma frame_roundtrip_witness : decode (encode (sample_frame 3 255)) = Ok (sample_frame 3 255).
Proof.
  apply (frame_roundtrip (sample_frame 3 255) [1; 2; 3]).
  - repeat split; try (vm_compute; congruence). repeat constructor; vm_compute; congruence.
  - repeat constructor; vm_compute; congruence.
Defined.
