(* ===== verification/PeerShare.v ===== *)
(** Peer sharing: advertisements, introductions and relay registrations
    ([src/crates/bonded-core/src/peer_share.rs]), the server's side of an introduction
    ([peer_share_introduction_response] in [src/crates/bonded-server/src/bootstrap.rs] and
    [src/crates/bonded-server/src/peer_relay.rs]) and the two clients' sides
    ([src/crates/bonded-client/src/peer_listener.rs]). *)

From stdpp Require Import base tactics list gmap strings pretty.
From Stdlib Require Import ZArith Lia Ascii.
From S2P Require Import Prelude Text Json Auth Stores AuthHandshake Session.
Open Scope Z_scope.

(** * Definitions *)

(** ** Introductions *)

Record PeerShareIntroductionRequest := {
  rq_consumer : string;
  rq_provider : string;
  rq_nonce : string;
  rq_endpoint : string;
  rq_transport : string;
  rq_fingerprint : string;
  rq_signature : string
}.

Record PeerShareIntroductionClaims := {
  cl_consumer : string;
  cl_provider : string;
  cl_nonce : string;
  cl_endpoint : string;
  cl_transport : string;
  cl_fingerprint : string;
  cl_expires_at : Z
}.

Record SignedPeerShareIntroduction := {
  introduction : PeerShareIntroductionClaims;
  server_signature : string
}.

(** [PeerRelayRegistration { introduction }] *)
Record PeerRelayRegistration := { registration : SignedPeerShareIntroduction }.

(** What serde derives: members in the order of the declaration when printed, by name or by position
    when read. *)
Definition claims_json (c : PeerShareIntroductionClaims) : json :=
  JObj [("consumer_device_public_key", JStr (cl_consumer c));
        ("provider_device_public_key", JStr (cl_provider c));
        ("provider_instance_nonce", JStr (cl_nonce c));
        ("provider_endpoint", JStr (cl_endpoint c));
        ("listener_transport", JStr (cl_transport c));
        ("listener_cert_fingerprint", JStr (cl_fingerprint c));
        ("expires_at", JNum (cl_expires_at c))].

Definition claims_of_json (j : json) : option PeerShareIntroductionClaims :=
  match j with
  | JObj fs =>
      a ← field_str "consumer_device_public_key" fs;
      b ← field_str "provider_device_public_key" fs;
      c ← field_str "provider_instance_nonce" fs;
      d ← field_str "provider_endpoint" fs;
      e ← field_str "listener_transport" fs;
      f ← field_str "listener_cert_fingerprint" fs;
      x ← field (as_uint 64) "expires_at" fs;
      Some {| cl_consumer := a; cl_provider := b; cl_nonce := c; cl_endpoint := d; cl_transport := e;
              cl_fingerprint := f; cl_expires_at := x |}
  | JArr [JStr a; JStr b; JStr c; JStr d; JStr e; JStr f; n] =>
      x ← as_uint 64 n;
      Some {| cl_consumer := a; cl_provider := b; cl_nonce := c; cl_endpoint := d; cl_transport := e;
              cl_fingerprint := f; cl_expires_at := x |}
  | _ => None
  end.

Definition signed_json (i : SignedPeerShareIntroduction) : json :=
  JObj [("introduction", claims_json (introduction i));
        ("server_signature", JStr (server_signature i))].

Definition signed_of_json (j : json) : option SignedPeerShareIntroduction :=
  match j with
  | JObj fs =>
      c ← field claims_of_json "introduction" fs;
      s ← field_str "server_signature" fs;
      Some {| introduction := c; server_signature := s |}
  | JArr [c; JStr s] =>
      c ← claims_of_json c; Some {| introduction := c; server_signature := s |}
  | _ => None
  end.

Definition registration_json (r : PeerRelayRegistration) : json :=
  JObj [("introduction", signed_json (registration r))].

Definition registration_of_json (j : json) : option PeerRelayRegistration :=
  match j with
  | JObj fs => i ← field signed_of_json "introduction" fs; Some {| registration := i |}
  | JArr [i] => i ← signed_of_json i; Some {| registration := i |}
  | _ => None
  end.

Definition request_of_json (j : json) : option PeerShareIntroductionRequest :=
  match j with
  | JObj fs =>
      a ← field_str "consumer_device_public_key" fs;
      b ← field_str "provider_device_public_key" fs;
      c ← field_str "provider_instance_nonce" fs;
      d ← field_str "provider_endpoint" fs;
      e ← field_str "listener_transport" fs;
      f ← field_str "listener_cert_fingerprint" fs;
      s ← field_str "consumer_signature" fs;
      Some {| rq_consumer := a; rq_provider := b; rq_nonce := c; rq_endpoint := d;
              rq_transport := e; rq_fingerprint := f; rq_signature := s |}
  | JArr [JStr a; JStr b; JStr c; JStr d; JStr e; JStr f; JStr s] =>
      Some {| rq_consumer := a; rq_provider := b; rq_nonce := c; rq_endpoint := d;
              rq_transport := e; rq_fingerprint := f; rq_signature := s |}
  | _ => None
  end.

Section payloads.
Context `{JsonText}.

(** [signed_payload]: a [Value], whose members are in the order of their names. *)
Definition signed_payload (r : PeerShareIntroductionRequest) : list Z :=
  string_bytes (json_print
    (JObj [("consumer_device_public_key", JStr (rq_consumer r));
           ("listener_cert_fingerprint", JStr (rq_fingerprint r));
           ("listener_transport", JStr (rq_transport r));
           ("provider_device_public_key", JStr (rq_provider r));
           ("provider_endpoint", JStr (rq_endpoint r));
           ("provider_instance_nonce", JStr (rq_nonce r))])).

Definition signing_payload (c : PeerShareIntroductionClaims) : list Z :=
  string_bytes (json_print (claims_json c)).

(** ** Control frames *)

Definition into_control_frame (r : PeerRelayRegistration) : SessionFrame :=
  {| header := {| connection_id := 0; sequence := 0; flags := FLAG_PEER_RELAY_REGISTRATION |};
     payload := string_bytes (json_print (registration_json r)) |}.

Definition is_registration (f : SessionFrame) : bool :=
  negb (Z.land (flags (header f)) FLAG_PEER_RELAY_REGISTRATION =? 0).

Inductive PeerError :=
  | NotRegistration
  | BadJson
  | BadSignature (e : AuthError)
  | ProviderMismatch
  | NonceMismatch
  | TransportMismatch
  | FingerprintMismatch
  | ClockError
  | Expired
  | RecvFailed.

Definition from_control_frame (f : SessionFrame) : outcome PeerError PeerRelayRegistration :=
  if negb (is_registration f) then Err NotRegistration
  else ok_or BadJson (from_str registration_of_json (bytes_string (payload f))).
End payloads.

(** ** Verification *)

(** [SessionBinding] of peer_relay.rs *)
Record SessionBinding := {
  client_public_key : string;
  initial_frame : option SessionFrame;
  relayed_via_provider : bool
}.

Record PeerListenerIdentity := {
  li_provider : string;
  li_nonce : string;
  li_transport : string;
  li_fingerprint : string
}.

Section verification.
Context `{Crypto} `{JsonText}.

(** [now] is [None] when the clock is before the epoch. *)
Definition ensure_not_expired (now : option Z) (expires_at : Z) : outcome PeerError unit :=
  now ← ok_or ClockError now;
  if expires_at <=? now then Err Expired else Ok tt.

Definition verify_server_signature (server_public_key : string) (i : SignedPeerShareIntroduction)
  : outcome PeerError unit :=
  map_err BadSignature
    (verify_signature server_public_key (signing_payload (introduction i)) (server_signature i)).

Definition verify_consumer_introduction (now : option Z) (server_public_key expected_provider : string)
    (i : SignedPeerShareIntroduction) : outcome PeerError unit :=
  _ ← verify_server_signature server_public_key i;
  let claims := introduction i in
  return_if negb (bool_decide (cl_provider claims = expected_provider)) with Err ProviderMismatch ;;
  _ ← ensure_not_expired now (cl_expires_at claims);
  Ok tt.

Definition verify_provider_introduction (now : option Z) (server_public_key : string)
    (listener : PeerListenerIdentity) (i : SignedPeerShareIntroduction) : outcome PeerError unit :=
  _ ← verify_server_signature server_public_key i;
  let claims := introduction i in
  return_if negb (bool_decide (cl_provider claims = li_provider listener))
    with Err ProviderMismatch ;;
  return_if negb (bool_decide (cl_nonce claims = li_nonce listener)) with Err NonceMismatch ;;
  return_if negb (bool_decide (cl_transport claims = li_transport listener))
    with Err TransportMismatch ;;
  return_if negb (bool_decide (cl_fingerprint claims = li_fingerprint listener))
    with Err FingerprintMismatch ;;
  _ ← ensure_not_expired now (cl_expires_at claims);
  Ok tt.

Definition verify_relay_registration (now : option Z) (i : SignedPeerShareIntroduction)
    (authenticated_provider_key : string) (server_identity : DeviceKeypair)
  : outcome PeerError unit :=
  let claims := introduction i in
  _ ← map_err BadSignature (verify_signature (public_key_b64 server_identity) (signing_payload claims)
        (server_signature i));
  return_if negb (bool_decide (cl_provider claims = authenticated_provider_key))
    with Err ProviderMismatch ;;
  now ← ok_or ClockError now;
  return_if cl_expires_at claims <=? now with Err Expired ;;
  Ok tt.

(** [first] is what [recv] returned. *)
Definition resolve_session_binding (now : option Z) (first : option SessionFrame)
    (authenticated_public_key : string) (server_identity : DeviceKeypair)
  : outcome PeerError SessionBinding :=
  first_frame ← ok_or RecvFailed first;
  return_if negb (is_registration first_frame)
    with Ok {| client_public_key := authenticated_public_key; initial_frame := Some first_frame;
               relayed_via_provider := false |} ;;
  r ← from_control_frame first_frame;
  _ ← verify_relay_registration now (registration r) authenticated_public_key server_identity;
  Ok {| client_public_key := cl_consumer (introduction (registration r)); initial_frame := None;
        relayed_via_provider := true |}.

(** ** Issuing *)

Definition error_body (message : string) : string := json_print (flat [("error", message)]).

Definition any_empty (r : PeerShareIntroductionRequest) : bool :=
  is_empty (rq_consumer r) || is_empty (rq_provider r) || is_empty (rq_nonce r)
  || is_empty (rq_endpoint r) || is_empty (rq_transport r) || is_empty (rq_fingerprint r)
  || is_empty (rq_signature r).

Definition claims_of_request (r : PeerShareIntroductionRequest) (expires_at : Z)
  : PeerShareIntroductionClaims :=
  {| cl_consumer := rq_consumer r; cl_provider := rq_provider r; cl_nonce := rq_nonce r;
     cl_endpoint := rq_endpoint r; cl_transport := rq_transport r;
     cl_fingerprint := rq_fingerprint r; cl_expires_at := expires_at |}.

(** [unix_timestamp_after(300 s)] with its [unwrap_or(0)] *)
Definition introduction_expiry (now : option Z) : Z :=
  match now with
  | Some n => saturating_add 64 n 300
  | None => 0
  end.

(** The status code and the response's body. *)
Definition peer_share_introduction_response (server_identity : DeviceKeypair)
    (keys : AuthorizedKeysStore) (now : option Z) (body : string) : Z * string :=
  match from_str request_of_json (trim body) with
  | None => (400, error_body "invalid JSON body")
  | Some request =>
      return_if any_empty request with (400, error_body
        "consumer_device_public_key, provider_device_public_key, provider_instance_nonce, provider_endpoint, listener_transport, listener_cert_fingerprint, and consumer_signature are required") ;;
      return_if negb (is_authorized (rq_consumer request) keys)
                || negb (is_authorized (rq_provider request) keys)
        with (403, error_body "peer introduction requires both devices to be authorized") ;;
      match verify_signature (rq_consumer request) (signed_payload request) (rq_signature request) with
      | Ok _ =>
          let claims := claims_of_request request (introduction_expiry now) in
          match sign_bytes server_identity (signing_payload claims) with
          | Ok signature =>
              (200, json_print (signed_json {| introduction := claims;
                                               server_signature := signature |}))
          | _ => (500, error_body "failed to sign peer introduction")
          end
      | _ => (401, error_body "invalid consumer signature")
      end
  end.

(** ** The relay connection between two clients *)

(** [accept_peer_relay]: the provider's end. *)
Definition accept_peer_relay (now : option Z) (server_public_key : string)
    (listener : PeerListenerIdentity) : proc unit SignedPeerShareIntroduction :=
  Recv tt (fun line =>
    match from_str signed_of_json line with
    | None => Done (Err HsJson) tt
    | Some i =>
        match verify_provider_introduction now server_public_key listener i with
        | Ok _ => Send (json_print (status_msg "ok") +:+ newline) tt (Done (Ok i) tt)
        | Err _ => Done (Err HsUnauthorized) tt
        | Panic => Done Panic tt
        end
    end).

(** [register_peer_relay_upstream] *)
Definition register_peer_relay_upstream (i : SignedPeerShareIntroduction) : SessionFrame :=
  into_control_frame {| registration := i |}.
End verification.

(** [relay_peer_frames] as a run of its [select!]: the frames each side got, and whether the loop is
    still running. *)
Inductive relay_event :=
  | FromPeer (r : option SessionFrame) (sent : bool)
  | FromUpstream (r : option SessionFrame) (sent : bool).

Fixpoint relay_peer_frames (evs : list relay_event) (to_peer to_upstream : list SessionFrame)
  : list SessionFrame * list SessionFrame * bool :=
  match evs with
  | [] => (to_peer, to_upstream, true)
  | FromPeer (Some f) true :: evs => relay_peer_frames evs to_peer (to_upstream ++ [f])
  | FromUpstream (Some f) true :: evs => relay_peer_frames evs (to_peer ++ [f]) to_upstream
  | _ => (to_peer, to_upstream, false)
  end.

(** ** Advertisements *)

Record PeerShareAdvertisement := {
  version : Z;
  device_public_key : string;
  server_public_key : string;
  instance_nonce : string;
  endpoint : string;
  listener_cert_fingerprint : string;
  capabilities : list string
}.

(** [join(",")] *)
Fixpoint join_comma (l : list string) : string :=
  match l with
  | [] => EmptyString
  | [x] => x
  | x :: l => x +:+ "," +:+ join_comma l
  end.

Definition txt_records (a : PeerShareAdvertisement) : list (string * string) :=
  [("version", pretty (version a)); ("device_key", device_public_key a);
   ("server_key", server_public_key a); ("instance_nonce", instance_nonce a);
   ("endpoint", endpoint a); ("cert_fingerprint", listener_cert_fingerprint a);
   ("capabilities", join_comma (capabilities a))].

Inductive TxtError := MissingRecord (key : string) | BadVersion.

Definition required_txt_record (records : gmap string string) (key : string)
  : outcome TxtError string := ok_or (MissingRecord key) (records !! key).

Definition from_txt_record_map (records : gmap string string)
  : outcome TxtError PeerShareAdvertisement :=
  v ← required_txt_record records "version";
  version ← ok_or BadVersion (parse_unsigned 16 v);
  device ← required_txt_record records "device_key";
  server ← required_txt_record records "server_key";
  nonce ← required_txt_record records "instance_nonce";
  ep ← required_txt_record records "endpoint";
  fingerprint ← required_txt_record records "cert_fingerprint";
  caps ← required_txt_record records "capabilities";
  Ok {| version := version; device_public_key := device; server_public_key := server;
        instance_nonce := nonce; endpoint := ep; listener_cert_fingerprint := fingerprint;
        capabilities := List.filter (fun v => negb (is_empty v)) (split_char ","%char caps) |}.

(** * Lemmas *)

Lemma claims_round c : in_u 64 (cl_expires_at c) -> claims_of_json (claims_json c) = Some c.
Proof.
  intros Hx. unfold claims_of_json, claims_json, field_str, field, members. simpl.
  rewrite decide_True by done. simpl. by destruct c.
Qed.

Lemma signed_round i : in_u 64 (cl_expires_at (introduction i)) -> signed_of_json (signed_json i) = Some i.
Proof.
  intros Hx. unfold signed_of_json, signed_json.
  match goal with |- context [field claims_of_json ?k ?fs] =>
    assert (Hf : field claims_of_json k fs = Some (introduction i)) by (by apply claims_round) end.
  rewrite Hf. simpl. by destruct i.
Qed.

Lemma registration_round r :
  in_u 64 (cl_expires_at (introduction (registration r))) ->
  registration_of_json (registration_json r) = Some r.
Proof.
  intros Hx. unfold registration_of_json, registration_json.
  assert (Hf : field signed_of_json "introduction" [("introduction", signed_json (registration r))]
    = Some (registration r)) by (by apply signed_round).
  rewrite Hf. simpl. by destruct r.
Qed.

Lemma claims_wf c : in_u 64 (cl_expires_at c) -> json_wf (claims_json c).
Proof.
  intros Hx. split; [by apply (bool_decide_unpack (NoDup _))|]. simpl. unfold in_u in Hx.
  split_and!; try done; lia.
Qed.

Lemma signed_wf i : in_u 64 (cl_expires_at (introduction i)) -> json_wf (signed_json i).
Proof.
  intros Hx. split; [by apply (bool_decide_unpack (NoDup _))|].
  split; [by apply claims_wf | by split].
Qed.

Lemma registration_wf r :
  in_u 64 (cl_expires_at (introduction (registration r))) -> json_wf (registration_json r).
Proof.
  intros Hx. split; [by apply (bool_decide_unpack (NoDup _))|]. split; [by apply signed_wf | done].
Qed.

Section verify_lemmas.
Context `{CryptoLaws} `{JsonLaws}.

(** An introduction the server signed, in the three places that check it: only the expiry decides. *)
Lemma consumer_accepts sk i sig now :
  verify_signature (public_key_b64 (from_signing_key sk)) (signing_payload i) sig = Ok tt ->
  verify_consumer_introduction (Some now) (public_key_b64 (from_signing_key sk)) (cl_provider i)
    {| introduction := i; server_signature := sig |} =
  if cl_expires_at i <=? now then Err Expired else Ok tt.
Proof.
  intros Hv. unfold verify_consumer_introduction, verify_server_signature. cbn [introduction server_signature].
  rewrite Hv. cbn. rewrite bool_decide_eq_true_2 by done. cbn. by destruct (_ <=? _).
Qed.

Lemma provider_accepts sk i sig now listener :
  verify_signature (public_key_b64 (from_signing_key sk)) (signing_payload i) sig = Ok tt ->
  listener = {| li_provider := cl_provider i; li_nonce := cl_nonce i; li_transport := cl_transport i;
                li_fingerprint := cl_fingerprint i |} ->
  verify_provider_introduction (Some now) (public_key_b64 (from_signing_key sk)) listener
    {| introduction := i; server_signature := sig |} =
  if cl_expires_at i <=? now then Err Expired else Ok tt.
Proof.
  intros Hv ->. unfold verify_provider_introduction, verify_server_signature.
  cbn [introduction server_signature]. rewrite Hv. cbn.
  rewrite !bool_decide_eq_true_2 by done. cbn. by destruct (_ <=? _).
Qed.

Lemma from_control_frame_round r :
  in_u 64 (cl_expires_at (introduction (registration r))) ->
  from_control_frame (into_control_frame r) = Ok r.
Proof.
  intros Hx. unfold from_control_frame. change (is_registration (into_control_frame r)) with true.
  cbn [negb]. unfold into_control_frame. cbn [payload]. rewrite bytes_string_bytes.
  unfold from_str. rewrite json_round by by apply registration_wf. cbn [mbind option_bind].
  by rewrite registration_round.
Qed.

Lemma server_rebinds sk i sig now :
  in_u 64 (cl_expires_at i) ->
  verify_signature (public_key_b64 (from_signing_key sk)) (signing_payload i) sig = Ok tt ->
  resolve_session_binding (Some now)
    (Some (register_peer_relay_upstream {| introduction := i; server_signature := sig |}))
    (cl_provider i) (from_signing_key sk) =
  if cl_expires_at i <=? now then Err Expired
  else Ok {| client_public_key := cl_consumer i; initial_frame := None; relayed_via_provider := true |}.
Proof.
  intros Hx Hv. unfold resolve_session_binding, register_peer_relay_upstream. cbn [ok_or mbind outcome_bind].
  set (r := {| registration := _ |}). change (is_registration (into_control_frame r)) with true.
  cbn [negb]. rewrite (from_control_frame_round r) by done. cbn [mbind outcome_bind].
  unfold verify_relay_registration. cbn [registration introduction server_signature r]. rewrite Hv.
  cbn. rewrite bool_decide_eq_true_2 by done. cbn. by destruct (_ <=? _).
Qed.

(** What the server issues for a good request. *)
Lemma introduction_issued (sk : list Z) (keys : AuthorizedKeysStore)
    (r : PeerShareIntroductionRequest) (body : string) (t0 : Z) :
  bytes_ok sk -> length sk = 32%nat -> 0 <= t0 -> t0 + 300 < 2 ^ 64 ->
  from_str request_of_json (trim body) = Some r -> any_empty r = false ->
  is_authorized (rq_consumer r) keys = true -> is_authorized (rq_provider r) keys = true ->
  verify_signature (rq_consumer r) (signed_payload r) (rq_signature r) = Ok tt ->
  let claims := claims_of_request r (t0 + 300) in
  exists sig,
    peer_share_introduction_response (from_signing_key sk) keys (Some t0) body =
      (200, json_print (signed_json {| introduction := claims; server_signature := sig |})) /\
    verify_signature (public_key_b64 (from_signing_key sk)) (signing_payload claims) sig = Ok tt /\
    in_u 64 (cl_expires_at claims).
Proof.
  intros Hsk Hlen Ht Hmax Hbody Hne Hc Hp Hsig claims.
  assert (Hx : introduction_expiry (Some t0) = t0 + 300)
    by (cbn; apply saturating_add_exact; unfold in_u; lia).
  destruct (signed_bytes_verify sk (signing_payload claims) Hsk Hlen) as (sig & Hs & Hv).
  exists sig. split_and!; [|done|unfold in_u; cbn; lia]. unfold peer_share_introduction_response.
  rewrite Hbody, Hne, Hc, Hp, Hsig, Hx. cbn [negb orb]. fold claims. by rewrite Hs.
Qed.

Lemma signed_reads i :
  in_u 64 (cl_expires_at (introduction i)) ->
  from_str signed_of_json (json_print (signed_json i)) = Some i /\
  from_str signed_of_json (json_print (signed_json i) +:+ newline) = Some i.
Proof.
  intros Hx. unfold from_str. rewrite json_round, json_round_line by by apply signed_wf.
  cbn [mbind option_bind]. by rewrite signed_round.
Qed.
End verify_lemmas.

(** Capabilities that survive the comma-separated record. *)
Definition capability_ok (c : string) : bool := negb (is_empty c) && no_char ","%char c.

Lemma split_join l :
  forallb capability_ok l = true ->
  List.filter (fun v => negb (is_empty v)) (split_char ","%char (join_comma l)) = l.
Proof.
  induction l as [|c l IH]; [done|]. cbn [forallb].
  intros [[Hc Hn]%andb_prop Hl]%andb_prop. specialize (IH Hl). destruct l as [|d l].
  - cbn [join_comma]. rewrite split_char_none by done. cbn [List.filter]. by rewrite Hc.
  - change (join_comma (c :: d :: l)) with (c +:+ String ","%char (join_comma (d :: l))).
    rewrite split_char_app by done. cbn [List.filter]. rewrite Hc. by rewrite IH.
Qed.

Lemma txt_records_read (a : PeerShareAdvertisement) :
  in_u 16 (version a) -> forallb capability_ok (capabilities a) = true ->
  from_txt_record_map (list_to_map (txt_records a)) = Ok a.
Proof.
  intros Hv Hc. unfold from_txt_record_map, required_txt_record.
  unfold txt_records. cbn [list_to_map foldr uncurry fst snd].
  repeat (rewrite !lookup_insert_eq || rewrite !lookup_insert_ne by done).
  cbn [ok_or mbind outcome_bind].
  rewrite parse_pretty by done. cbn [ok_or mbind outcome_bind]. rewrite split_join by done.
  by destruct a.
Qed.

(** * Properties *)

(** An introduction works for 300 seconds and no longer: when two authorized devices and a valid
    consumer signature make the server answer, the answer is 200, its body reads back as the claims
    of the request with an expiry 300 seconds ahead, and until then, and only until then, the consumer
    accepts it for that provider, the provider's listener accepts it, and the server binds the
    provider's connection to the consumer's session. *)
Theorem introduction_valid_300s `{CryptoLaws} `{JsonLaws} (sk : list Z) (keys : AuthorizedKeysStore)
    (r : PeerShareIntroductionRequest) (body : string) (t0 : Z) :
  bytes_ok sk -> length sk = 32%nat -> 0 <= t0 -> t0 + 300 < 2 ^ 64 ->
  from_str request_of_json (trim body) = Some r -> any_empty r = false ->
  is_authorized (rq_consumer r) keys = true -> is_authorized (rq_provider r) keys = true ->
  verify_signature (rq_consumer r) (signed_payload r) (rq_signature r) = Ok tt ->
  let server := from_signing_key sk in
  exists answer i,
    peer_share_introduction_response server keys (Some t0) body = (200, answer) /\
    from_str signed_of_json answer = Some i /\
    introduction i = claims_of_request r (t0 + 300) /\
    forall now,
      let ok {A} (a : A) := if t0 + 300 <=? now then Err Expired else Ok a in
      verify_consumer_introduction (Some now) (public_key_b64 server) (rq_provider r) i = ok tt /\
      verify_provider_introduction (Some now) (public_key_b64 server)
        {| li_provider := rq_provider r; li_nonce := rq_nonce r; li_transport := rq_transport r;
           li_fingerprint := rq_fingerprint r |} i = ok tt /\
      resolve_session_binding (Some now) (Some (register_peer_relay_upstream i)) (rq_provider r) server
        = ok {| client_public_key := rq_consumer r; initial_frame := None;
                relayed_via_provider := true |}.
Proof.
  intros Hsk Hlen Ht Hmax Hbody Hne Hc Hp Hsig server.
  destruct (introduction_issued sk keys r body t0) as (sig & Hr & Hv & Hu); try done.
  set (claims := claims_of_request r (t0 + 300)) in *.
  eexists _, {| introduction := claims; server_signature := sig |}. split_and!; [exact Hr| |done|].
  - by apply signed_reads.
  - intros now. cbn zeta. split_and!.
    + by apply (consumer_accepts sk claims sig now).
    + by apply (provider_accepts sk claims sig now).
    + by apply (server_rebinds sk claims sig now).
Qed.

(** A connection is bound to the key that authenticated it unless its first frame is a registration
    the server itself signed: then it is bound to the consumer named in claims that carry a signature
    valid under the server's key, name the authenticated key as the provider and have not expired.
    In the first case the frame is kept for the session. *)
Theorem session_binding_sound `{Crypto} `{JsonText} (now : Z) (first : option SessionFrame)
    (authenticated : string) (server : DeviceKeypair) (b : SessionBinding) :
  resolve_session_binding (Some now) first authenticated server = Ok b ->
  exists f, first = Some f /\
    ((is_registration f = false /\ client_public_key b = authenticated /\ initial_frame b = Some f) \/
     (is_registration f = true /\ initial_frame b = None /\
      exists i pkb sb, from_control_frame f = Ok {| registration := i |} /\
        client_public_key b = cl_consumer (introduction i) /\
        cl_provider (introduction i) = authenticated /\ now < cl_expires_at (introduction i) /\
        b64_decode (public_key_b64 server) = Some pkb /\ b64_decode (server_signature i) = Some sb /\
        ed_verify pkb (signing_payload (introduction i)) sb = true)).
Proof.
  unfold resolve_session_binding. destruct first as [f|]; [|done]. cbn [ok_or mbind outcome_bind].
  destruct (is_registration f) eqn:Hreg; cbn [negb].
  2: { intros [= <-]. exists f. split; [done|]. by left. }
  destruct (from_control_frame f) as [[i]| |] eqn:Hf; cbn [mbind outcome_bind]; [|done..].
  unfold verify_relay_registration. cbn [registration].
  destruct (verify_signature _ _ _) as [[]| |] eqn:Hv; cbn; [|done..].
  case_bool_decide as Hprov; cbn; [|done]. destruct (Z.leb_spec (cl_expires_at (introduction i)) now);
    cbn; [done|]. intros [= <-]. exists f. split; [done|]. right. split; [done|]. split; [done|].
  apply verify_signature_Ok in Hv as (pkb & sb & Hpk & Hsb & Hed). exists i, pkb, sb. by split_and!.
Qed.

(** An advertisement comes back from its TXT records whatever order they are stored in, provided its
    version fits its type and its capabilities are non-empty and contain no comma. *)
Theorem advertisement_roundtrip (a : PeerShareAdvertisement) :
  in_u 16 (version a) -> forallb capability_ok (capabilities a) = true ->
  from_txt_record_map (list_to_map (txt_records a)) = Ok a.
Proof. apply txt_records_read. Qed.

(** ** Witnesses *)

Module Sample.
#[local] Existing Instances AuthHandshake.Sample.crypto AuthHandshake.Sample.crypto_laws
  Json.Sample.json_text Json.Sample.json_laws.

Definition pk : string := AuthHandshake.Sample.pk.
Definition sk : list Z := AuthHandshake.Sample.sk.
Definition request : PeerShareIntroductionRequest :=
  {| rq_consumer := pk; rq_provider := "prov"; rq_nonce := "n"; rq_endpoint := "e";
     rq_transport := "quic"; rq_fingerprint := "f"; rq_signature := bytes_string (sk ++ sk) |}.
Definition body : string :=
  json_print (JArr (JStr <$> [pk; "prov"; "n"; "e"; "quic"; "f"; bytes_string (sk ++ sk)])).
Definition device (k : string) : AuthorizedDevice :=
  {| device_id := "d"; public_key := k; added_at := None |}.
Definition keys : AuthorizedKeysStore :=
  {| store_path := "k"; devices := <[pk := device pk]> {[ "prov" := device "prov" ]} |}.

Lemma introduction_valid_300s_witness :
  exists answer i,
    peer_share_introduction_response (from_signing_key sk) keys (Some 1000) body = (200, answer) /\
    from_str signed_of_json answer = Some i /\
    verify_consumer_introduction (Some 1299) pk "prov" i = Ok tt /\
    verify_consumer_introduction (Some 1300) pk "prov" i = Err Expired.
Proof.
  destruct (introduction_valid_300s sk keys request body 1000) as (answer & i & Hr & Hi & _ & Hall).
  - apply (bool_decide_unpack _). vm_compute. exact I.
  - reflexivity.
  - lia.
  - vm_compute. reflexivity.
  - vm_compute. reflexivity.
  - vm_compute. reflexivity.
  - vm_compute. reflexivity.
  - vm_compute. reflexivity.
  - vm_compute. reflexivity.
  - exists answer, i. split; [exact Hr|]. split; [exact Hi|].
    split; [apply (Hall 1299) | apply (Hall 1300)].
Defined.

Definition claims : PeerShareIntroductionClaims := claims_of_request request 1300.
Definition relay_frame : SessionFrame :=
  register_peer_relay_upstream
    {| introduction := claims; server_signature := bytes_string (sk ++ sk) |}.

Lemma session_binding_sound_witness :
  exists b, resolve_session_binding (Some 1000) (Some relay_frame) "prov" (from_signing_key sk) = Ok b /\
    client_public_key b = pk /\ exists i, cl_provider (introduction i) = "prov".
Proof.
  destruct (session_binding_sound 1000 (Some relay_frame) "prov" (from_signing_key sk)
    {| client_public_key := pk; initial_frame := None; relayed_via_provider := true |})
    as (f & [= <-] & [(Hr & _)|(_ & _ & i & _ & _ & _ & _ & Hp & _)]).
  - vm_compute. reflexivity.
  - exfalso. revert Hr. vm_compute. discriminate.
  - eexists. split; [vm_compute; reflexivity|]. split; [reflexivity|]. exists i. exact Hp.
Defined.

Lemma advertisement_roundtrip_witness :
  let a := {| version := 1; device_public_key := "d"; server_public_key := "s"; instance_nonce := "n";
              endpoint := "192.168.1.20:54443"; listener_cert_fingerprint := "sha256:ab";
              capabilities := ["relay"; "quic"] |} in
  from_txt_record_map (list_to_map (txt_records a)) = Ok a.
Proof. intros a. apply (advertisement_roundtrip a); vm_compute; [split; [discriminate | reflexivity] | reflexivity]. Defined.
End Sample.
