(* ===== verification/Checksum.v ===== *)
(** The internet checksum: [ones_complement_sum] of
    [src/crates/bonded-server/src/smoltcp_forwarder.rs] and the same loop inside [wrap_in_ipv4] of
    [src/crates/bonded-core/src/transport.rs].  The accumulator is a [u32]; release builds wrap. *)

From stdpp Require Import base tactics list.
From Stdlib Require Import ZArith Lia.
From S2P Require Import Prelude Words.
Open Scope Z_scope.

(** * Definitions *)

(** The summing loop from [i = 0]: big-endian words, an odd last byte is the high half of a word. *)
Fixpoint sum_words (sum : Z) (l : list Z) : Z :=
  match l with
  | a :: b :: l => sum_words (wrapping_add 32 sum (be_val [a; b])) l
  | [a] => wrapping_add 32 sum (Z.shiftl a 8)
  | [] => sum
  end.

(** [while sum >> 16 != 0 { sum = (sum & 0xffff) + (sum >> 16) }]; three rounds are enough. *)
Fixpoint fold_carry (fuel : nat) (sum : Z) : Z :=
  match fuel with
  | O => sum
  | S fuel =>
      if Z.shiftr sum 16 =? 0 then sum
      else fold_carry fuel (Z.land sum 0xffff + Z.shiftr sum 16)
  end.

Definition FOLD_FUEL : nat := 3.

(** [!(sum as u16)] *)
Definition not_u16 (z : Z) : Z := 0xffff - cast_u 16 z.

Definition ones_complement_sum (l : list Z) : Z := not_u16 (fold_carry FOLD_FUEL (sum_words 0 l)).

(** The exact sum, with no machine width. *)
Fixpoint word_sum (l : list Z) : Z :=
  match l with
  | a :: b :: l => be_val [a; b] + word_sum l
  | [a] => 256 * a
  | [] => 0
  end.

(** The receiver's check: the sum over data that includes its checksum is all ones. *)
Definition checksum_valid (l : list Z) : Prop := ones_complement_sum l = 0.

(** * Lemmas *)

Lemma fold_step s :
  Z.land s 0xffff + Z.shiftr s 16 = s mod 65536 + s / 65536.
Proof.
  change 0xffff with (Z.ones 16). rewrite Z.land_ones, Z.shiftr_div_pow2 by lia. done.
Qed.

Lemma fold_carry_congr fuel s : 0 <= s -> fold_carry fuel s mod 65535 = s mod 65535.
Proof.
  revert s. induction fuel as [|fuel IH]; intros s Hs; [done|]. simpl.
  case_match; [done|]. rewrite fold_step, IH.
  - rewrite (Z.div_mod s 65536) at 3 by lia.
    replace (65536 * (s / 65536) + s mod 65536)
      with (s mod 65536 + s / 65536 + s / 65536 * 65535) by lia.
    by rewrite Z.mod_add.
  - pose proof (Z.mod_pos_bound s 65536). pose proof (Z.div_pos s 65536). lia.
Qed.

Lemma fold_carry_pos fuel s : 0 < s -> 0 < fold_carry fuel s.
Proof.
  revert s. induction fuel as [|fuel IH]; intros s Hs; [done|]. simpl.
  case_match; [done|]. rewrite fold_step. apply IH.
  pose proof (Z.mod_pos_bound s 65536). pose proof (Z.div_pos s 65536).
  pose proof (Z.div_mod s 65536). lia.
Qed.

Lemma shiftr16_zero s : 0 <= s -> (Z.shiftr s 16 =? 0) = bool_decide (s < 65536).
Proof.
  intros Hs. rewrite Z.shiftr_div_pow2 by lia. change (2 ^ 16) with 65536.
  destruct (Z.eqb_spec (s / 65536) 0) as [H|H]; symmetry.
  - apply bool_decide_eq_true. apply Z.div_small_iff in H; lia.
  - apply bool_decide_eq_false. intros Hlt. apply H, Z.div_small. lia.
Qed.

(** The carry loop ends within its fuel: the result is a [u16]. *)
Lemma fold_carry_u16 s : in_u 32 s -> in_u 16 (fold_carry FOLD_FUEL s).
Proof.
  unfold in_u. intros Hs. assert (s < 4294967296) by lia.
  assert (Hfold : forall x, 0 <= x -> 0 <= x mod 65536 + x / 65536) by
    (intros x ?; pose proof (Z.mod_pos_bound x 65536); pose proof (Z.div_pos x 65536); lia).
  cbn [fold_carry FOLD_FUEL]. rewrite !fold_step.
  set (s1 := s mod 65536 + s / 65536). set (s2 := s1 mod 65536 + s1 / 65536).
  set (s3 := s2 mod 65536 + s2 / 65536).
  assert (0 <= s1 <= 131070).
  { unfold s1. pose proof (Z.mod_pos_bound s 65536).
    assert (s / 65536 < 65536) by (apply Z.div_lt_upper_bound; lia).
    pose proof (Z.div_pos s 65536). lia. }
  assert (0 <= s2 <= 65536).
  { unfold s2. pose proof (Z.mod_pos_bound s1 65536).
    assert (s1 / 65536 < 2) by (apply Z.div_lt_upper_bound; lia).
    pose proof (Z.div_pos s1 65536). pose proof (Z.div_mod s1 65536). lia. }
  assert (0 <= s3 < 65536).
  { unfold s3. pose proof (Z.mod_pos_bound s2 65536). pose proof (Z.div_mod s2 65536).
    assert (s2 / 65536 < 2) by (apply Z.div_lt_upper_bound; lia).
    pose proof (Z.div_pos s2 65536). lia. }
  rewrite !shiftr16_zero by lia. repeat case_bool_decide; lia.
Qed.

(** A positive sum that is a multiple of 65535 folds to all ones. *)
Lemma fold_carry_ones s :
  in_u 32 s -> 0 < s -> s mod 65535 = 0 -> fold_carry FOLD_FUEL s = 65535.
Proof.
  intros Hu Hpos Hm. pose proof (fold_carry_u16 s Hu) as Hr. unfold in_u in Hr.
  pose proof (fold_carry_pos FOLD_FUEL s Hpos).
  pose proof (fold_carry_congr FOLD_FUEL s) as Hc. rewrite Hm in Hc.
  destruct (Z.eq_dec (fold_carry FOLD_FUEL s) 65535); [done|].
  rewrite Z.mod_small in Hc by lia. lia.
Qed.

Lemma word_sum_nonneg l : bytes_ok l -> 0 <= word_sum l.
Proof.
  intros H. induction l as [| | a b l IH] using list_pair_ind; simpl; [lia| |].
  - apply Forall_cons in H as [H _]. unfold is_byte in H. lia.
  - apply Forall_cons in H as [Ha H]. apply Forall_cons in H as [Hb H].
    rewrite be_val_2. unfold is_byte in *. specialize (IH H). lia.
Qed.

Lemma word_sum_bound l : bytes_ok l -> 2 * word_sum l <= 65535 * (len l + 1).
Proof.
  intros H. induction l as [| | a b l IH] using list_pair_ind; cbn [word_sum length]; [lia| |].
  - apply Forall_cons in H as [H _]. unfold is_byte in H. lia.
  - apply Forall_cons in H as [Ha H]. apply Forall_cons in H as [Hb H].
    rewrite be_val_2. unfold is_byte in *. specialize (IH H). lia.
Qed.

Lemma word_sum_app l r : Nat.Even (length l) -> word_sum (l ++ r) = word_sum l + word_sum r.
Proof.
  induction l as [| | a b l IH] using list_pair_ind; intros [k Hk]; cbn [length] in Hk;
    [done | lia |].
  cbn [word_sum app]. rewrite IH; [lia|]. exists (k - 1)%nat. lia.
Qed.

(** Without overflow the loop computes the exact sum. *)
Lemma sum_words_exact l s :
  bytes_ok l -> 0 <= s -> s + word_sum l < 2 ^ 32 -> sum_words s l = s + word_sum l.
Proof.
  revert s. induction l as [| a | a b l IH] using list_pair_ind; intros s H Hs Hb;
    cbn [sum_words word_sum] in *; [lia| |].
  - rewrite Z.shiftl_mul_pow2 by lia. change (2 ^ 8) with 256.
    apply Forall_cons in H as [H _]. unfold is_byte in H.
    rewrite wrapping_add_small; [lia|]. unfold in_u. lia.
  - apply Forall_cons in H as [Ha H]. apply Forall_cons in H as [Hb' H].
    rewrite be_val_2 in *. unfold is_byte in *. pose proof (word_sum_nonneg l H).
    rewrite wrapping_add_small by (unfold in_u; lia). rewrite IH; [lia | done | lia | lia].
Qed.

(** Up to 131070 bytes nothing overflows. *)
Definition CHECKSUM_MAX_LEN : Z := 131070.

Lemma sum_words_no_overflow l :
  bytes_ok l -> len l <= CHECKSUM_MAX_LEN -> sum_words 0 l = word_sum l /\ in_u 32 (word_sum l).
Proof.
  unfold CHECKSUM_MAX_LEN. intros H Hl. pose proof (word_sum_bound l H).
  pose proof (word_sum_nonneg l H). unfold in_u. split; [|lia].
  rewrite sum_words_exact by (done || lia). lia.
Qed.

Lemma not_u16_range s : in_u 16 (not_u16 s).
Proof. unfold not_u16. pose proof (cast_u_in_u 16 s). unfold in_u in *. lia. Qed.

Lemma ones_complement_sum_unfold l :
  not_u16 (fold_carry FOLD_FUEL (sum_words 0 l)) = ones_complement_sum l.
Proof. reflexivity. Qed.

Lemma ones_complement_sum_range l : in_u 16 (ones_complement_sum l).
Proof. apply not_u16_range. Qed.

(** The checksum is the complement of the sum modulo 65535. *)
Lemma ones_complement_sum_congr l :
  bytes_ok l -> len l <= CHECKSUM_MAX_LEN -> (word_sum l + ones_complement_sum l) mod 65535 = 0.
Proof.
  intros Hb Hl. destruct (sum_words_no_overflow l) as [Es Hu]; [done..|].
  unfold ones_complement_sum, not_u16. rewrite Es. pose proof (fold_carry_u16 _ Hu) as Hr.
  rewrite (cast_u_small 16 _ Hr).
  pose proof (fold_carry_congr FOLD_FUEL (word_sum l)) as Hc. unfold in_u in *.
  replace (word_sum l + (65535 - fold_carry FOLD_FUEL (word_sum l)))
    with (word_sum l - fold_carry FOLD_FUEL (word_sum l) + 1 * 65535) by lia.
  rewrite Z.mod_add, Zminus_mod, Hc by lia. by rewrite Z.sub_diag.
Qed.

(** The general argument: data with a positive sum that is a multiple of 65535 verifies. *)
Lemma checksum_completes l :
  bytes_ok l -> len l <= CHECKSUM_MAX_LEN -> 0 < word_sum l -> word_sum l mod 65535 = 0 ->
  checksum_valid l.
Proof.
  intros Hb Hl Hpos Hm. unfold checksum_valid, ones_complement_sum.
  destruct (sum_words_no_overflow l) as [Es Hu]; [done..|]. rewrite Es.
  by rewrite fold_carry_ones.
Qed.

(** A two-byte field at an even offset, zero and then filled in with any number congruent to the
    checksum (zero may be sent as all ones). *)
Lemma checksum_field_congr l r c :
  Nat.Even (length l) -> bytes_ok l -> bytes_ok r -> len l + 2 + len r <= CHECKSUM_MAX_LEN ->
  0 < word_sum l + word_sum r + c -> in_u 16 c ->
  c mod 65535 = ones_complement_sum (l ++ [0; 0] ++ r) mod 65535 ->
  checksum_valid (l ++ be_bytes 2 c ++ r).
Proof.
  intros He Hl Hr Hlen Hpos Hc Hm.
  assert (H00 : bytes_ok [0; 0]) by (repeat constructor; unfold is_byte; lia).
  assert (Hw : word_sum (l ++ [0; 0] ++ r) = word_sum l + word_sum r).
  { rewrite word_sum_app by done. cbn [app word_sum]. rewrite be_val_2. lia. }
  assert (Hw' : word_sum (l ++ be_bytes 2 c ++ r) = word_sum l + word_sum r + c).
  { rewrite word_sum_app by done. rewrite be_bytes_2.
    cbn [app word_sum]. rewrite <- be_bytes_2, be_val_bytes_small by done. lia. }
  unfold in_u in Hc. apply checksum_completes.
  - rewrite !Forall_app. auto using be_bytes_ok.
  - rewrite !length_app, length_be_bytes. lia.
  - lia.
  - rewrite Hw', Zplus_mod, Hm, <- Zplus_mod, <- Hw. apply ones_complement_sum_congr.
    + by rewrite !Forall_app.
    + rewrite !length_app. cbn [length]. lia.
Qed.

(** A zero sum has checksum all ones, so a checksum field never leaves the whole sum at zero. *)
Lemma checksum_field_pos l :
  bytes_ok l -> len l <= CHECKSUM_MAX_LEN -> 0 < word_sum l + ones_complement_sum l.
Proof.
  intros Hb Hl. pose proof (word_sum_nonneg l Hb). pose proof (ones_complement_sum_range l) as Hr.
  unfold in_u in Hr. destruct (Z.eq_dec (word_sum l) 0) as [H0|]; [|lia].
  unfold ones_complement_sum. destruct (sum_words_no_overflow l) as [-> _]; [done..|].
  by rewrite H0.
Qed.

Lemma checksum_field l r :
  Nat.Even (length l) -> bytes_ok l -> bytes_ok r -> len l + 2 + len r <= CHECKSUM_MAX_LEN ->
  checksum_valid (l ++ be_bytes 2 (ones_complement_sum (l ++ [0; 0] ++ r)) ++ r).
Proof.
  intros He Hl Hr Hlen. apply checksum_field_congr; auto using ones_complement_sum_range.
  pose proof (checksum_field_pos (l ++ [0; 0] ++ r)) as Hp.
  rewrite word_sum_app in Hp by done. cbn [app word_sum] in Hp. rewrite be_val_2 in Hp.
  cbn [app]. apply Hp.
  - apply Forall_app. split; [done|]. by repeat apply Forall_cons_2.
  - rewrite length_app. cbn [length]. lia.
Qed.
