(* ===== verification/Transport.v ===== *)
(** Transports that carry session frames: [src/crates/bonded-core/src/transport.rs].  The
    length-prefixed framing of the TCP and QUIC transports over a byte stream that delivers arbitrary
    chunks, the message loop of the WebSocket transport, and the stream wrapper that replays bytes
    already read. *)

From stdpp Require Import base tactics list.
From Stdlib Require Import ZArith Lia.
From S2P Require Import Prelude Words Text Session.
Open Scope Z_scope.

(** * Definitions *)

Definition MIN_SESSION_FRAME_LEN : Z := 16.

Inductive TransportKind := NaiveTcp | WebSocketTls | Quic | WireGuard.

#[global] Instance TransportKind_eq_dec : EqDecision TransportKind.
Proof. solve_decision. Defined.

(** The errors of the transports, by the message they carry. *)
Inductive TransportError :=
  | Io
  | FrameTooLarge
  | ClosedReadingPrefix
  | ClosedReadingPayload
  | InvalidLengthPrefix (length : Z)
  | BadFrame (e : FrameError)
  | WsClosed
  | WsUnexpectedBinary
  | ClosedReadingLine
  | WgMalformed
  | WgHandshakeTimeout
  | WgUnexpected.

(** An [await] either finishes or leaves the future pending, where [select!] may drop it. *)
Inductive poll (A : Type) := Ready (r : outcome TransportError A) | Pending.
Arguments Ready {A} _.
Arguments Pending {A}.

(** ** Byte streams *)

(** What one [read] into a buffer returned. *)
Inductive read_result := ReadFailed | ReadClosed | ReadData (data : list Z).

(** A stream whose read events can be classified. *)
Class ByteSource (Ev : Type) := read_event : Ev -> read_result.

(** [TcpStream::read] returns the number of bytes read, zero at the end of the stream. *)
Inductive tcp_read := TcpErr | TcpOk (data : list Z).

#[export] Instance tcp_source : ByteSource tcp_read := fun ev =>
  match ev with
  | TcpErr => ReadFailed
  | TcpOk [] => ReadClosed
  | TcpOk d => ReadData d
  end.

(** [quinn::RecvStream::read] returns [None] at the end of the stream. *)
Inductive quic_read := QuicErr | QuicOk (data : option (list Z)).

#[export] Instance quic_source : ByteSource quic_read := fun ev =>
  match ev with
  | QuicErr => ReadFailed
  | QuicOk None | QuicOk (Some []) => ReadClosed
  | QuicOk (Some d) => ReadData d
  end.

Section framing.
Context {Ev : Type} `{ByteSource Ev}.

(** [while self.read_buf.len() < need { read; extend }]: the buffer outlives the future. *)
Fixpoint fill (closed : TransportError) (need : nat) (read_buf : list Z) (evs : list Ev)
  : poll unit * list Z * list Ev :=
  if decide (need <= length read_buf)%nat then (Ready (Ok tt), read_buf, evs)
  else match evs with
    | [] => (Pending, read_buf, [])
    | ev :: evs =>
        match read_event ev with
        | ReadFailed => (Ready (Err Io), read_buf, evs)
        | ReadClosed => (Ready (Err closed), read_buf, evs)
        | ReadData d => fill closed need (read_buf ++ d) evs
        end
    end.

(** [u32::from_be_bytes] of the first four bytes of the buffer. *)
Definition length_prefix (read_buf : list Z) : Z := be_val (take 4 read_buf).

(** [recv] of [NaiveTcpTransport] and of [QuicTransport]. *)
Definition framed_recv (read_buf : list Z) (evs : list Ev)
  : poll SessionFrame * list Z * list Ev :=
  match fill ClosedReadingPrefix 4 read_buf evs with
  | (Ready (Ok _), buf, evs) =>
      let n := length_prefix buf in
      if n <? MIN_SESSION_FRAME_LEN then (Ready (Err (InvalidLengthPrefix n)), buf, evs)
      else
        match fill ClosedReadingPayload (4 + Z.to_nat n) buf evs with
        | (Ready (Ok _), buf, evs) =>
            let buf := drop 4 buf in
            let frame_bytes := take (Z.to_nat n) buf in
            (Ready (map_err BadFrame (decode frame_bytes)), drop (Z.to_nat n) buf, evs)
        | (Ready (Err e), buf, evs) => (Ready (Err e), buf, evs)
        | (Ready Panic, buf, evs) => (Ready Panic, buf, evs)
        | (Pending, buf, evs) => (Pending, buf, evs)
        end
  | (Ready (Err e), buf, evs) => (Ready (Err e), buf, evs)
  | (Ready Panic, buf, evs) => (Ready Panic, buf, evs)
  | (Pending, buf, evs) => (Pending, buf, evs)
  end.

(** [n] receives one after the other, until one is not a frame. *)
Fixpoint recv_n (n : nat) (read_buf : list Z) (evs : list Ev)
  : list SessionFrame * list Z * list Ev :=
  match n with
  | O => ([], read_buf, evs)
  | S n =>
      match framed_recv read_buf evs with
      | (Ready (Ok f), buf, evs) =>
          let '(fs, buf, evs) := recv_n n buf evs in (f :: fs, buf, evs)
      | (_, buf, evs) => ([], buf, evs)
      end
  end.
End framing.

(** The bytes [send] of [NaiveTcpTransport] and of [QuicTransport] writes. *)
Definition framed_send (f : SessionFrame) : outcome TransportError (list Z) :=
  let encoded := encode f in
  return_if bool_decide (2 ^ 32 <= len encoded) with Err FrameTooLarge ;;
  Ok (be_bytes 4 (len encoded) ++ encoded).

(** The bytes of several sends. *)
Fixpoint framed_send_all (fs : list SessionFrame) : outcome TransportError (list Z) :=
  match fs with
  | [] => Ok []
  | f :: fs => a ← framed_send f; b ← framed_send_all fs; Ok (a ++ b)
  end.

Definition naive_tcp_recv : list Z -> list tcp_read -> poll SessionFrame * list Z * list tcp_read :=
  framed_recv.
Definition quic_recv : list Z -> list quic_read -> poll SessionFrame * list Z * list quic_read :=
  framed_recv.

(** ** Text lines over QUIC, before the frames *)

(** [QuicTransport::send_text] *)
Definition quic_send_text (text : list Z) : list Z := text ++ [10].

(** The line up to and including the newline, and what follows it. *)
Fixpoint split_line (data : list Z) : option (list Z * list Z) :=
  match data with
  | [] => None
  | b :: data =>
      if b =? 10 then Some ([10], data)
      else (fun '(l, r) => (b :: l, r)) <$> split_line data
  end.

(** [read_line] on a [BufReader] made for this call: a chunk is read into the reader's own buffer,
    which is dropped with the reader; bytes after the newline go with it. *)
Fixpoint read_line (line : list Z) (evs : list quic_read) : poll (list Z) * list quic_read :=
  match evs with
  | [] => (Pending, [])
  | ev :: evs =>
      match read_event ev with
      | ReadFailed => (Ready (Err Io), evs)
      | ReadClosed => (Ready (Ok line), evs)
      | ReadData d =>
          match split_line d with
          | Some (l, _dropped) => (Ready (Ok (line ++ l)), evs)
          | None => read_line (line ++ d) evs
          end
      end
  end.

(** [QuicTransport::recv_text]: [read_line] refuses a line that is not UTF-8. *)
Definition quic_recv_text (evs : list quic_read) : poll (list Z) * list quic_read :=
  match read_line [] evs with
  | (Ready (Ok line), evs) =>
      if negb (utf8_valid line) then (Ready (Err Io), evs)
      else if decide (length line = 0)%nat then (Ready (Err ClosedReadingLine), evs)
      else (Ready (Ok line), evs)
  | r => r
  end.

(** ** WebSocket messages *)

Inductive Message :=
  | Text (text : list Z)
  | Binary (raw : list Z)
  | Ping (data : list Z)
  | Pong (data : list Z)
  | Close.

(** What [stream.next()] yields: a message, a protocol error, or the end of the stream. *)
Inductive ws_next := WsMessage (msg : Message) | WsErr | WsEnd.

(** The two directions of a WebSocket stream. *)
Record ws_stream := { inbound : list ws_next; outbound : list Message }.

Inductive WebSocketStreamInner :=
  | WsClient (stream : ws_stream)
  | WsServer (stream : ws_stream)
  | WsServerTls (stream : ws_stream)
  | WsServerRoutedPlain (stream : ws_stream)
  | WsServerRoutedTls (stream : ws_stream).

Definition ws_inner (s : WebSocketStreamInner) : ws_stream :=
  match s with
  | WsClient s | WsServer s | WsServerTls s | WsServerRoutedPlain s | WsServerRoutedTls s => s
  end.

Definition ws_update (f : ws_stream -> ws_stream) (s : WebSocketStreamInner)
  : WebSocketStreamInner :=
  match s with
  | WsClient s => WsClient (f s)
  | WsServer s => WsServer (f s)
  | WsServerTls s => WsServerTls (f s)
  | WsServerRoutedPlain s => WsServerRoutedPlain (f s)
  | WsServerRoutedTls s => WsServerRoutedTls (f s)
  end.

Definition ws_push (m : Message) (s : ws_stream) : ws_stream :=
  {| inbound := inbound s; outbound := outbound s ++ [m] |}.

(** [WebSocketTlsTransport::send_text] and [send]. *)
Definition ws_send_text (text : list Z) (s : WebSocketStreamInner) : WebSocketStreamInner :=
  ws_update (ws_push (Text text)) s.
Definition ws_send (f : SessionFrame) (s : WebSocketStreamInner) : WebSocketStreamInner :=
  ws_update (ws_push (Binary (encode f))) s.

(** The loop of [recv]: text, ping and pong messages are skipped. *)
Fixpoint ws_recv_loop (evs : list ws_next) : poll SessionFrame * list ws_next :=
  match evs with
  | [] => (Pending, [])
  | WsMessage (Binary raw) :: evs => (Ready (map_err BadFrame (decode raw)), evs)
  | WsMessage Close :: evs => (Ready (Err WsClosed), evs)
  | WsMessage _ :: evs => ws_recv_loop evs
  | WsErr :: evs => (Ready (Err Io), evs)
  | WsEnd :: evs => (Ready (Err WsClosed), evs)
  end.

(** The loop of [recv_text]: a binary message is an error here. *)
Fixpoint ws_recv_text_loop (evs : list ws_next) : poll (list Z) * list ws_next :=
  match evs with
  | [] => (Pending, [])
  | WsMessage (Text text) :: evs => (Ready (Ok text), evs)
  | WsMessage (Binary _) :: evs => (Ready (Err WsUnexpectedBinary), evs)
  | WsMessage Close :: evs => (Ready (Err WsClosed), evs)
  | WsMessage _ :: evs => ws_recv_text_loop evs
  | WsErr :: evs => (Ready (Err Io), evs)
  | WsEnd :: evs => (Ready (Err WsClosed), evs)
  end.

Definition ws_set_inbound (evs : list ws_next) (s : ws_stream) : ws_stream :=
  {| inbound := evs; outbound := outbound s |}.

Definition ws_recv (s : WebSocketStreamInner) : poll SessionFrame * WebSocketStreamInner :=
  let (r, evs) := ws_recv_loop (inbound (ws_inner s)) in (r, ws_update (ws_set_inbound evs) s).
Definition ws_recv_text (s : WebSocketStreamInner) : poll (list Z) * WebSocketStreamInner :=
  let (r, evs) := ws_recv_text_loop (inbound (ws_inner s)) in (r, ws_update (ws_set_inbound evs) s).

(** ** Replaying bytes already read *)

(** [AsyncRead]: [poll_read] into a buffer with [remaining] free bytes yields [None] when pending. *)
Class AsyncRead (S : Type) := poll_read : S -> nat -> option (outcome TransportError (list Z)) * S.

(** A reader that hands over a byte sequence: each read takes from its front, at most what fits. *)
Class AsyncReadLaws (S : Type) `{AsyncRead S} (contents : S -> list Z) := {
  read_ready : forall s n d s', poll_read s n = (Some (Ok d), s') ->
    contents s = d ++ contents s' /\ (length d <= n)%nat;
  read_other : forall s n r s', poll_read s n = (r, s') ->
    (forall d, r <> Some (Ok d)) -> contents s' = contents s
}.

Record PrependedStream (S : Type) := { prefix : list Z; pos : nat; inner : S }.
Arguments prefix {S}.
Arguments pos {S}.
Arguments inner {S}.

Definition PrependedStream_new {S} (prefix : list Z) (inner : S) : PrependedStream S :=
  {| prefix := prefix; pos := 0; inner := inner |}.

#[export] Instance prepended_poll_read {S} `{AsyncRead S} : AsyncRead (PrependedStream S) :=
  fun this buf_remaining =>
    if decide (pos this < length (prefix this))%nat then
      match slice_from (E := TransportError) (prefix this) (pos this) with
      | Ok remaining =>
          let to_copy := Nat.min (length remaining) buf_remaining in
          (Some (slice remaining 0 to_copy),
           {| prefix := prefix this; pos := pos this + to_copy; inner := inner this |})
      | _ => (Some Panic, this)
      end
    else
      let (r, i) := poll_read (inner this) buf_remaining in
      (r, {| prefix := prefix this; pos := pos this; inner := i |}).

(** Writes go to the inner stream. *)
Class AsyncWrite (S : Type) := poll_write : S -> list Z -> option (outcome TransportError nat) * S.

#[export] Instance prepended_poll_write {S} `{AsyncWrite S} : AsyncWrite (PrependedStream S) :=
  fun this buf =>
    let (r, i) := poll_write (inner this) buf in
    (r, {| prefix := prefix this; pos := pos this; inner := i |}).

(** What a wrapped stream still has to hand over. *)
Definition prepended_contents {S} (contents : S -> list Z) (s : PrependedStream S) : list Z :=
  drop (pos s) (prefix s) ++ contents (inner s).

(** Successive reads with the given buffer sizes, until one is not data. *)
Fixpoint read_seq {S} `{AsyncRead S} (s : S) (sizes : list nat) : list Z * S :=
  match sizes with
  | [] => ([], s)
  | n :: sizes =>
      match poll_read s n with
      | (Some (Ok d), s') => let (ds, s'') := read_seq s' sizes in (d ++ ds, s'')
      | (_, s') => ([], s')
      end
  end.

(** * Lemmas *)

(** ** Framing *)

Section framing_lemmas.
Context {Ev : Type} `{ByteSource Ev}.
Implicit Types evs : list Ev.

(** The events are chunks of data. *)
Definition carries evs (ds : list (list Z)) : Prop :=
  Forall2 (fun ev d => read_event ev = ReadData d) evs ds.

Lemma fill_enough closed need buf evs :
  (need <= length buf)%nat -> fill closed need buf evs = (Ready (Ok tt), buf, evs).
Proof. intros Hn. destruct evs; simpl; by rewrite decide_True. Qed.

Lemma fill_more closed need buf evs :
  ~ (need <= length buf)%nat ->
  fill closed need buf evs =
  match evs with
  | [] => (Pending, buf, [])
  | ev :: evs =>
      match read_event ev with
      | ReadFailed => (Ready (Err Io), buf, evs)
      | ReadClosed => (Ready (Err closed), buf, evs)
      | ReadData d => fill closed need (buf ++ d) evs
      end
  end.
Proof. intros Hn. destruct evs; simpl; by rewrite decide_False. Qed.

Lemma fill_no_panic closed need buf evs buf' evs' :
  fill closed need buf evs <> (Ready Panic, buf', evs').
Proof.
  revert buf. induction evs as [|ev evs IH]; intros buf; simpl; case_decide; try done.
  destruct (read_event ev); [done..|apply IH].
Qed.

(** Reading only ever appends to the buffer. *)
Lemma fill_extends closed need buf evs r buf' evs' :
  fill closed need buf evs = (r, buf', evs') -> exists x, buf' = buf ++ x.
Proof.
  revert buf. induction evs as [|ev evs IH]; intros buf; simpl; case_decide.
  1-3: intros [= <- <- <-]; exists []; by rewrite app_nil_r.
  destruct (read_event ev) as [| |d].
  1-2: intros [= <- <- <-]; exists []; by rewrite app_nil_r.
  intros [x ->]%IH. exists (d ++ x). by rewrite app_assoc.
Qed.

Lemma fill_done closed need buf evs buf' evs' :
  fill closed need buf evs = (Ready (Ok tt), buf', evs') -> (need <= length buf')%nat.
Proof.
  revert buf. induction evs as [|ev evs IH]; intros buf; simpl; case_decide; try naive_solver.
  destruct (read_event ev); [naive_solver..|apply IH].
Qed.

Lemma fill_error closed need buf evs e buf' evs' :
  fill closed need buf evs = (Ready (Err e), buf', evs') -> e = Io \/ e = closed.
Proof.
  revert buf. induction evs as [|ev evs IH]; intros buf; simpl; case_decide; try naive_solver.
  destruct (read_event ev); [naive_solver..|apply IH].
Qed.

(** A pending fill can be dropped and started again on the buffer it left. *)
Lemma fill_cancel closed need buf e1 e2 buf' r :
  fill closed need buf e1 = (Pending, buf', r) ->
  r = [] /\ fill closed need buf (e1 ++ e2) = fill closed need buf' e2.
Proof.
  revert buf. induction e1 as [|ev e1 IH]; intros buf; simpl; case_decide as Hn; try done.
  - by intros [= <- <-].
  - destruct (read_event ev); [done..|apply IH].
Qed.

(** A finished fill is not affected by later events. *)
Lemma fill_ready closed need buf e1 e2 x buf' r :
  fill closed need buf e1 = (Ready x, buf', r) ->
  fill closed need buf (e1 ++ e2) = (Ready x, buf', r ++ e2).
Proof.
  revert buf. induction e1 as [|ev e1 IH]; intros buf.
  - simpl. case_decide; [|done]. intros [= <- <- <-]. by apply fill_enough.
  - simpl. case_decide; [naive_solver|].
    destruct (read_event ev); [naive_solver..|apply IH].
Qed.

(** Data chunks that hold enough bytes fill the buffer, and nothing is lost. *)
Lemma fill_carries closed need buf evs ds :
  carries evs ds -> (need <= length (buf ++ concat ds))%nat ->
  exists buf' evs' ds', fill closed need buf evs = (Ready (Ok tt), buf', evs') /\
    carries evs' ds' /\ buf' ++ concat ds' = buf ++ concat ds /\ (need <= length buf')%nat.
Proof.
  intros Hc. revert buf. induction Hc as [|ev d evs ds Hev Hc IH]; intros buf Hn.
  - simpl in Hn. rewrite app_nil_r in Hn. exists buf, [], []. rewrite fill_enough by done.
    split_and!; done || constructor.
  - destruct (decide (need <= length buf)%nat).
    + exists buf, (ev :: evs), (d :: ds). rewrite fill_enough by done.
      split_and!; [done | by constructor | done | done].
    + rewrite fill_more, Hev by done. simpl in Hn. rewrite app_assoc in Hn.
      destruct (IH (buf ++ d) Hn) as (buf' & evs' & ds' & Hf & Hc' & Heq & Hl).
      exists buf', evs', ds'. split_and!; try done. by rewrite Heq, <- app_assoc.
Qed.

Lemma length_prefix_app buf x : (4 <= length buf)%nat -> length_prefix (buf ++ x) = length_prefix buf.
Proof. intros Hl. unfold length_prefix. by rewrite take_app_le. Qed.

Lemma framed_send_Ok f b :
  framed_send f = Ok b -> in_u 32 (len (encode f)) /\ b = be_bytes 4 (len (encode f)) ++ encode f.
Proof. unfold framed_send, in_u. case_bool_decide; [done|]. intros [= <-]. split; [lia|done]. Qed.

(** One frame off the front of the stream. *)
Lemma framed_recv_carries f b buf evs ds rest :
  frame_ok f -> framed_send f = Ok b -> carries evs ds -> buf ++ concat ds = b ++ rest ->
  exists buf' evs' ds', framed_recv buf evs = (Ready (Ok f), buf', evs') /\
    carries evs' ds' /\ buf' ++ concat ds' = rest.
Proof.
  intros Hf [Hu ->]%framed_send_Ok Hc Heq. set (n := len (encode f)) in *.
  assert (Hlen : (4 + length (encode f) <= length (buf ++ concat ds))%nat).
  { rewrite Heq, !length_app, length_be_bytes. lia. }
  unfold framed_recv.
  destruct (fill_carries ClosedReadingPrefix 4 buf evs ds Hc) as (b1 & e1 & d1 & -> & Hc1 & Hq1 & Hl1);
    [lia|].
  assert (Hp : length_prefix b1 = n).
  { rewrite <- (length_prefix_app b1 (concat d1)), Hq1, Heq, <- app_assoc by done.
    unfold length_prefix. rewrite take_app_length' by by rewrite length_be_bytes.
    by apply be_val_bytes_small. }
  rewrite Hp. assert (Hmin : (n <? MIN_SESSION_FRAME_LEN) = false).
  { apply Z.ltb_ge. unfold n, MIN_SESSION_FRAME_LEN. rewrite length_encode. unfold HEADER_LEN. lia. }
  rewrite Hmin. unfold n at 1. rewrite Nat2Z.id.
  destruct (fill_carries ClosedReadingPayload (4 + length (encode f)) b1 e1 d1 Hc1)
    as (b2 & e2 & d2 & -> & Hc2 & Hq2 & Hl2); [rewrite Hq1; lia|].
  unfold n. rewrite !Nat2Z.id.
  assert (Hb2 : b2 = (be_bytes 4 n ++ encode f) ++ drop (4 + length (encode f)) b2).
  { assert (Ht : take (4 + length (encode f)) (b2 ++ concat d2) = be_bytes 4 n ++ encode f).
    { rewrite Hq2, Hq1, Heq. apply take_app_length'. by rewrite length_app, length_be_bytes. }
    rewrite take_app_le in Ht by done. by rewrite <- Ht, take_drop. }
  assert (Hd : drop 4 b2 = encode f ++ drop (4 + length (encode f)) b2).
  { rewrite Hb2 at 1. rewrite <- app_assoc. apply drop_app_length'. by rewrite length_be_bytes. }
  rewrite drop_drop, Hd, take_app_length' by done.
  rewrite decode_encode by done. eexists _, e2, d2. split; [done|]. split; [done|].
  apply (app_inv_head (be_bytes 4 n ++ encode f)).
  by rewrite app_assoc, <- Hb2, Hq2, Hq1, Heq.
Qed.

Lemma recv_n_carries fs : forall b buf evs ds rest,
  Forall frame_ok fs -> framed_send_all fs = Ok b -> carries evs ds ->
  buf ++ concat ds = b ++ rest ->
  exists buf' evs' ds', recv_n (length fs) buf evs = (fs, buf', evs') /\
    carries evs' ds' /\ buf' ++ concat ds' = rest.
Proof.
  induction fs as [|f fs IH]; intros b buf evs ds rest Hfs Hb Hc Heq.
  - injection Hb as <-. by exists buf, evs, ds.
  - apply Forall_cons in Hfs as [Hf Hfs]. cbn [framed_send_all] in Hb.
    unfold mbind, outcome_bind in Hb. destruct (framed_send f) as [b1| |] eqn:H1; [|done..].
    destruct (framed_send_all fs) as [b2| |] eqn:H2; [|done..]. injection Hb as <-.
    rewrite <- app_assoc in Heq.
    destruct (framed_recv_carries f b1 buf evs ds (b2 ++ rest)) as (buf1 & ev1 & ds1 & Hr & Hc1 & Hq1);
      [done..|].
    destruct (IH b2 buf1 ev1 ds1 rest) as (buf2 & ev2 & ds2 & Hr2 & Hc2 & Hq2); [done..|].
    exists buf2, ev2, ds2. cbn [length recv_n]. by rewrite Hr, Hr2.
Qed.

Lemma framed_recv_cancel buf e1 e2 buf' r :
  framed_recv buf e1 = (Pending, buf', r) ->
  framed_recv buf (e1 ++ e2) = framed_recv buf' e2.
Proof.
  unfold framed_recv at 1 2.
  destruct (fill ClosedReadingPrefix 4 buf e1) as [[[[[]|e|]|] b1] r1] eqn:H1; try done.
  - rewrite (fill_ready _ _ _ _ e2 _ _ _ H1). pose proof (fill_done _ _ _ _ _ _ H1) as Hl1.
    destruct (Z.ltb_spec (length_prefix b1) MIN_SESSION_FRAME_LEN) as [|Hmin]; [done|].
    destruct (fill ClosedReadingPayload _ b1 r1) as [[[[[]|e|]|] b2] r2] eqn:H2; try done.
    intros [= <- <-]. destruct (fill_extends _ _ _ _ _ _ _ H2) as [x ->].
    destruct (fill_cancel _ _ _ _ e2 _ _ H2) as [_ ->].
    unfold framed_recv. rewrite (fill_enough _ 4) by (rewrite length_app; lia).
    rewrite length_prefix_app by done. by rewrite (proj2 (Z.ltb_ge _ _) Hmin).
  - intros [= <- <-]. destruct (fill_cancel _ _ _ _ e2 _ _ H1) as [_ Hf].
    unfold framed_recv. by rewrite Hf.
Qed.
End framing_lemmas.

(** ** WebSocket *)

(** Messages [recv] passes over. *)
Definition ws_control (ev : ws_next) : bool :=
  match ev with
  | WsMessage (Text _) | WsMessage (Ping _) | WsMessage (Pong _) => true
  | _ => false
  end.

(** Frames as binary messages, the [i]-th after the [i]-th run of other messages. *)
Definition ws_traffic (ctl : list (list ws_next)) (fs : list SessionFrame) : list ws_next :=
  concat (zip_with (fun c f => c ++ [WsMessage (Binary (encode f))]) ctl fs).

Fixpoint ws_recv_n (n : nat) (s : WebSocketStreamInner)
  : list SessionFrame * WebSocketStreamInner :=
  match n with
  | O => ([], s)
  | S n =>
      match ws_recv s with
      | (Ready (Ok f), s') => let (fs, s'') := ws_recv_n n s' in (f :: fs, s'')
      | (_, s') => ([], s')
      end
  end.

Lemma ws_recv_loop_skip evs ctl :
  Forall (fun ev => ws_control ev = true) ctl -> ws_recv_loop (ctl ++ evs) = ws_recv_loop evs.
Proof. induction 1 as [|[[]| |] ctl Hc _ IH]; simpl; done. Qed.

Lemma ws_inbound_update f s :
  inbound (ws_inner (ws_update f s)) = inbound (f (ws_inner s)).
Proof. by destruct s. Qed.

(** ** Lines *)

Lemma split_line_app l rest : 10 ∉ l -> split_line (l ++ 10 :: rest) = Some (l ++ [10], rest).
Proof.
  induction l as [|b l IH]; intros Hn; [done|]. simpl.
  destruct (Z.eqb_spec b 10) as [->|]; [by destruct Hn; constructor|].
  rewrite IH; [done|]. intros Hin. apply Hn. by constructor.
Qed.

(** * Instances and properties *)

#[export] Instance prepended_laws {S} `{AsyncReadLaws S contents} :
  AsyncReadLaws (PrependedStream S) (prepended_contents contents).
Proof.
  split.
  - intros s n d s'. unfold poll_read at 1, prepended_poll_read, prepended_contents.
    case_decide as Hp.
    + rewrite slice_from_ok by lia. rewrite slice_ok, Nat.sub_0_r by lia. rewrite drop_0.
      set (k := Nat.min _ n). intros [= <- <-]. simpl. split.
      * rewrite app_assoc. f_equal. by rewrite <- drop_drop, take_drop.
      * rewrite length_take. lia.
    + destruct (poll_read (inner s) n) as [r i] eqn:Hr. intros [= -> <-]. simpl.
      destruct (read_ready _ _ _ _ Hr) as [-> ?]. rewrite (drop_ge (prefix s)) by lia. done.
  - intros s n r s'. unfold poll_read at 1, prepended_poll_read, prepended_contents.
    case_decide as Hp.
    + rewrite slice_from_ok by lia. rewrite slice_ok by lia. intros [= <- <-] Hnot.
      by edestruct Hnot.
    + destruct (poll_read (inner s) n) as [r' i] eqn:Hr. intros [= -> <-] Hnot. simpl.
      by rewrite (read_other (contents := contents) _ _ _ _ Hr Hnot).
Qed.

Lemma read_seq_contents {S} `{AsyncReadLaws S contents} (s : S) sizes :
  (read_seq s sizes).1 ++ contents (read_seq s sizes).2 = contents s.
Proof.
  revert s. induction sizes as [|n sizes IH]; intros s; [done|]. cbn [read_seq].
  destruct (poll_read s n) as [[[d|e|]|] s'] eqn:Hr; simpl;
    try by apply (read_other (contents := contents) _ _ _ _ Hr).
  specialize (IH s'). destruct (read_seq s' sizes) as [ds s'']. simpl in *.
  destruct (read_ready _ _ _ _ Hr) as [-> _]. by rewrite <- app_assoc, IH.
Qed.

(** A reader over a byte list that always has its bytes ready, for the witness. *)
#[export] Instance memory_read : AsyncRead (list Z) := fun s n => (Some (Ok (take n s)), drop n s).
#[export] Instance memory_laws : AsyncReadLaws (list Z) id.
Proof.
  split.
  - intros s n d s' [= <- <-]. unfold id. rewrite take_drop, length_take. split; [done | lia].
  - intros s n r s' [= <- <-] Hn. by edestruct Hn.
Qed.

(** C6: framing.  However the network cuts the bytes of successive sends into chunks (of the TCP or
    of the QUIC stream), and whatever follows them, as many receives give back exactly the frames
    sent, in order, and leave exactly the bytes that follow. *)
Theorem framing_any_chunking {Ev} `{ByteSource Ev} (fs : list SessionFrame) (b rest : list Z)
    (evs : list Ev) (ds : list (list Z)) :
  Forall frame_ok fs -> framed_send_all fs = Ok b -> carries evs ds -> concat ds = b ++ rest ->
  exists buf' evs' ds', recv_n (length fs) [] evs = (fs, buf', evs') /\
    carries evs' ds' /\ buf' ++ concat ds' = rest.
Proof. intros. by apply (recv_n_carries fs b [] evs ds rest). Qed.

Lemma framing_any_chunking_witness :
  exists buf' evs' ds',
    recv_n 2 [] [QuicOk (Some [0; 0; 0]); QuicOk (Some ([17] ++ encode (sample_frame 0 65) ++ [0; 0]));
                 QuicOk (Some ([0; 17] ++ encode (sample_frame 1 66) ++ [9]))] =
      ([sample_frame 0 65; sample_frame 1 66], buf', evs') /\
    carries evs' ds' /\ buf' ++ concat ds' = [9].
Proof.
  eapply (framing_any_chunking [sample_frame 0 65; sample_frame 1 66] _ [9] _ [_; _; _]).
  - repeat constructor; try (vm_compute; congruence).
  - reflexivity.
  - repeat constructor.
  - reflexivity.
Defined.

(** Cancel safety.  A receive that was dropped while it waited has consumed only bytes it left in
    the buffer: starting again from that buffer gives what waiting on would have given. *)
Theorem recv_cancel_safe {Ev} `{ByteSource Ev} (buf buf' : list Z) (e1 e2 r : list Ev) :
  framed_recv buf e1 = (Pending, buf', r) ->
  framed_recv buf (e1 ++ e2) = framed_recv buf' e2.
Proof. apply framed_recv_cancel. Qed.

Lemma recv_cancel_safe_witness :
  framed_recv [] ([TcpOk [0; 0; 0]] ++ [TcpOk [1]]) = framed_recv [0; 0; 0] [TcpOk [1]].
Proof. apply (recv_cancel_safe [] [0; 0; 0] [TcpOk [0; 0; 0]] [TcpOk [1]] []). reflexivity. Defined.

(** A length prefix below the header size is refused, at once and for good: nothing is consumed,
    so every later receive fails the same way; no receive ever panics. *)
Theorem recv_rejects_short_prefix {Ev} `{ByteSource Ev} (buf buf' : list Z) (evs evs' evs2 : list Ev) n :
  framed_recv buf evs = (Ready (Err (InvalidLengthPrefix n)), buf', evs') ->
  n < MIN_SESSION_FRAME_LEN /\ n = length_prefix buf' /\
  framed_recv buf' evs2 = (Ready (Err (InvalidLengthPrefix n)), buf', evs2).
Proof.
  unfold framed_recv at 1.
  destruct (fill ClosedReadingPrefix 4 buf evs) as [[[[[]|e|]|] b1] r1] eqn:H1; try done.
  - destruct (Z.ltb_spec (length_prefix b1) MIN_SESSION_FRAME_LEN) as [Hlt|Hmin].
    + intros [= <- <- <-]. split_and!; [done..|]. unfold framed_recv.
      rewrite fill_enough by by eapply fill_done.
      by rewrite (proj2 (Z.ltb_lt _ _) Hlt).
    + destruct (fill ClosedReadingPayload _ b1 r1) as [[[[[]|e|]|] b2] r2] eqn:H2; try done.
      * destruct (decode _); done.
      * intros [= -> <- <-]. by apply fill_error in H2 as [|].
  - intros [= -> <- <-]. by apply fill_error in H1 as [|].
Qed.

Lemma recv_rejects_short_prefix_witness :
  framed_recv [0; 0; 0; 15] [TcpOk [1]] =
  (Ready (Err (InvalidLengthPrefix 15)), [0; 0; 0; 15], [TcpOk [1]]).
Proof.
  apply (recv_rejects_short_prefix [] [0; 0; 0; 15] [TcpOk [0; 0; 0; 15]] [] [TcpOk [1]]).
  reflexivity.
Defined.

(** Over a WebSocket every frame sent is one binary message, and text, ping and pong messages
    between them change nothing: the frames come out in order, and what follows them is left. *)
Theorem ws_delivers_frames (fs : list SessionFrame) (ctl : list (list ws_next)) tail
    (s : WebSocketStreamInner) :
  Forall frame_ok fs -> length ctl = length fs ->
  Forall (Forall (fun ev => ws_control ev = true)) ctl ->
  inbound (ws_inner s) = ws_traffic ctl fs ++ tail ->
  (ws_recv_n (length fs) s).1 = fs /\ inbound (ws_inner (ws_recv_n (length fs) s).2) = tail.
Proof.
  intros Hfs. revert ctl s. induction Hfs as [|f fs Hf _ IH]; intros [|c ctl] s Hl Hc Hin;
    simplify_eq/=; [done|].
  apply Forall_cons in Hc as [Hc Hctl]. unfold ws_recv. rewrite Hin. unfold ws_traffic. simpl.
  rewrite <- !app_assoc, ws_recv_loop_skip by done. cbn [app ws_recv_loop].
  rewrite decode_encode by done. simpl.
  match goal with |- context [ws_recv_n (length fs) ?s] => destruct (IH ctl s) as [H1 H2] end;
    [done..|by rewrite ws_inbound_update|].
  destruct (ws_recv_n (length fs) _) as [fs' s']. simpl in *. by rewrite H1.
Qed.

Lemma ws_delivers_frames_witness :
  (ws_recv_n 2 (WsServerTls {| inbound := ws_traffic [[WsMessage (Ping [])]; []]
    [sample_frame 0 1; sample_frame 1 2] ++ [WsEnd]; outbound := [] |})).1 =
  [sample_frame 0 1; sample_frame 1 2].
Proof.
  eapply (ws_delivers_frames [sample_frame 0 1; sample_frame 1 2] [[WsMessage (Ping [])]; []] [WsEnd]).
  - repeat constructor; try (vm_compute; congruence).
  - reflexivity.
  - repeat constructor.
  - reflexivity.
Defined.

(** Replay.  Whatever buffer sizes a reader uses, it gets the prefix and then the inner stream's
    bytes, nothing lost, repeated or reordered; and no read of the prefix looks like the end of the
    stream. *)
Theorem prepended_replay {S} `{AsyncReadLaws S contents} (pre : list Z) (inn : S) (sizes : list nat) :
  (read_seq (PrependedStream_new pre inn) sizes).1 ++
    prepended_contents contents (read_seq (PrependedStream_new pre inn) sizes).2 =
  pre ++ contents inn /\
  (forall (s : PrependedStream S) n, (pos s < length (prefix s))%nat -> (0 < n)%nat ->
     exists b d, (poll_read s n).1 = Some (Ok (b :: d))).
Proof.
  split.
  - rewrite read_seq_contents. unfold prepended_contents. done.
  - intros s n Hp Hn. unfold poll_read, prepended_poll_read. rewrite decide_True by done.
    rewrite slice_from_ok by lia. rewrite slice_ok, Nat.sub_0_r, drop_0 by lia. simpl.
    destruct (drop (pos s) (prefix s)) as [|b d] eqn:Hd.
    + apply (f_equal length) in Hd. rewrite length_drop in Hd. simpl in Hd. lia.
    + destruct n as [|n]; [lia|]. simpl. eauto.
Qed.

Lemma prepended_replay_witness :
  (read_seq (PrependedStream_new [1; 2; 3] [4; 5]) [2; 7; 1]%nat).1 ++ [5] = [1; 2; 3] ++ [4; 5].
Proof. exact (proj1 (prepended_replay (contents := id) [1; 2; 3] [4; 5] [2; 7; 1]%nat)). Defined.

(** A text line over QUIC is read whole when it ends the chunk it is in, but bytes that share
    the chunk with the newline are lost: the reader that buffered them is dropped with the call. *)
Theorem quic_recv_text_drops_rest (text : list Z) (extra : list Z) (evs : list quic_read) :
  10 ∉ text -> utf8_valid (text ++ [10]) = true ->
  quic_recv_text (QuicOk (Some (quic_send_text text ++ extra)) :: evs) =
  (Ready (Ok (text ++ [10])), evs).
Proof.
  intros Hn Hu. unfold quic_recv_text, quic_send_text.
  assert (Hev : read_event (QuicOk (Some ((text ++ [10]) ++ extra))) =
    ReadData ((text ++ [10]) ++ extra)) by by destruct text.
  cbn [read_line]. rewrite Hev, <- app_assoc. simpl. rewrite split_line_app by done.
  rewrite Hu. simpl. rewrite decide_False; [done|]. rewrite length_app. simpl. lia.
Qed.

Lemma quic_recv_text_drops_rest_witness :
  quic_recv_text [QuicOk (Some (quic_send_text [123; 125] ++ [0; 0; 0; 16]))] =
  (Ready (Ok [123; 125; 10]), []).
Proof.
  apply (quic_recv_text_drops_rest [123; 125] [0; 0; 0; 16] []).
  - refine (bool_decide_unpack _ _). reflexivity.
  - reflexivity.
Defined.
