(* ===== verification/WgTransport.v ===== *)
(** The WireGuard transport: the second half of [src/crates/bonded-core/src/transport.rs].  Session
    frames are wrapped in a minimal IPv4 packet, encrypted by boringtun's [Tunn] and sent as UDP
    datagrams.  [Tunn] is an external component: a class of operations whose documented behaviour
    appears as named hypotheses of the theorems that need it. *)

From stdpp Require Import base tactics list.
From Stdlib Require Import ZArith Lia.
From S2P Require Import Prelude Words Session Checksum Transport.
Open Scope Z_scope.

(** * Definitions *)

Definition WG_MAX_DATAGRAM : nat := 1500.
Definition WG_HS_BUF : nat := 148.
Definition WG_ENCAP_OVERHEAD : nat := 60.
Definition WG_FAKE_SRC_IP : list Z := [100; 64; 0; 1].
Definition WG_FAKE_DST_IP : list Z := [100; 64; 0; 2].
Definition IPV4_HDR_LEN : nat := 20.

(** [for i in (0..IPV4_HDR_LEN).step_by(2)] *)
Definition header_offsets : list nat := [0; 2; 4; 6; 8; 10; 12; 14; 16; 18]%nat.

Fixpoint sum_at {E} (pkt : list Z) (offsets : list nat) (csum : Z) : outcome E Z :=
  match offsets with
  | [] => Ok csum
  | i :: offsets => word ← be16_at pkt i; sum_at pkt offsets (wrapping_add 32 csum word)
  end.

Definition wrap_in_ipv4 {E} (payload : list Z) : outcome E (list Z) :=
  let total_len := (IPV4_HDR_LEN + length payload)%nat in
  let pkt := replicate total_len 0 in
  pkt ← store pkt 0 0x45;
  pkt ← store pkt 1 0x00;
  let tl := be_bytes 2 (cast_u 16 (Z.of_nat total_len)) in
  tl0 ← index tl 0;
  pkt ← store pkt 2 tl0;
  tl1 ← index tl 1;
  pkt ← store pkt 3 tl1;
  pkt ← store pkt 8 64;
  pkt ← store pkt 9 253;
  pkt ← copy_at pkt 12 WG_FAKE_SRC_IP;
  pkt ← copy_at pkt 16 WG_FAKE_DST_IP;
  csum ← sum_at pkt header_offsets 0;
  let csum := fold_carry FOLD_FUEL csum in
  let csum := not_u16 csum in
  pkt ← store pkt 10 (cast_u 8 (Z.shiftr csum 8));
  pkt ← store pkt 11 (cast_u 8 (Z.land csum 0xff));
  copy_at pkt IPV4_HDR_LEN payload.

Definition unwrap_from_ipv4 (ip_pkt : list Z) : outcome TransportError (list Z) :=
  return_if bool_decide (length ip_pkt < IPV4_HDR_LEN)%nat with Err WgMalformed ;;
  b0 ← index ip_pkt 0;
  let ihl := (Z.to_nat (Z.land b0 0x0f) * 4)%nat in
  return_if bool_decide (length ip_pkt < ihl)%nat with Err WgMalformed ;;
  slice_from ip_pkt ihl.

(** ** boringtun *)

Inductive TunnResult :=
  | TunnDone
  | TunnErr
  | WriteToNetwork (pkt : list Z)
  | WriteToTunnelV4 (ip_pkt : list Z)
  | WriteToTunnelV6 (ip_pkt : list Z).

(** The operations of [boringtun::noise::Tunn] the transport calls; the [nat] is the length of the
    output buffer. *)
Class Tunn (T : Type) := {
  decapsulate : T -> option Z -> list Z -> nat -> TunnResult * T;
  encapsulate : T -> list Z -> nat -> TunnResult * T;
  update_timers : T -> nat -> TunnResult * T;
  format_handshake_initiation : T -> nat -> bool -> TunnResult * T;
  (** [time_since_last_handshake().is_some()] *)
  has_session : T -> bool
}.

(** What [socket.recv] under the handshake deadline returns. *)
Inductive udp_read := UdpErr | UdpDeadline | UdpOk (datagram : list Z).

(** The sending side of the connected socket: what was sent, and whether the coming sends fail. *)
Record udp_socket := { sent : list (list Z); send_fails : list bool }.

Definition sock_send (s : udp_socket) (pkt : list Z) : outcome TransportError unit * udp_socket :=
  match send_fails s with
  | true :: fs => (Err Io, {| sent := sent s; send_fails := fs |})
  | _ => (Ok tt, {| sent := sent s ++ [pkt]; send_fails := tail (send_fails s) |})
  end.

(** [for pkt in outbound { socket.send(&pkt).await? }] *)
Fixpoint sock_send_all (s : udp_socket) (pkts : list (list Z))
  : outcome TransportError unit * udp_socket :=
  match pkts with
  | [] => (Ok tt, s)
  | pkt :: pkts =>
      match sock_send s pkt with
      | (Ok _, s') => sock_send_all s' pkts
      | r => r
      end
  end.

Record WireGuardTransport (T : Type) := {
  tunn : T;
  socket : udp_socket;
  peer_addr : Z;
  pending_recv : list SessionFrame;
  wg_buf : nat
}.
Arguments tunn {T}. Arguments socket {T}. Arguments peer_addr {T}.
Arguments pending_recv {T}. Arguments wg_buf {T}.

Section transport.
Context {T : Type} `{Tunn T}.

(** [WireGuardTransport::new], the socket bound and connected. *)
Definition WireGuardTransport_new (t : T) (peer : Z) : WireGuardTransport T :=
  {| tunn := t; socket := {| sent := []; send_fails := [] |}; peer_addr := peer;
     pending_recv := []; wg_buf := WG_MAX_DATAGRAM + WG_ENCAP_OVERHEAD |}.

Definition set_tunn (t : T) (st : WireGuardTransport T) : WireGuardTransport T :=
  {| tunn := t; socket := socket st; peer_addr := peer_addr st;
     pending_recv := pending_recv st; wg_buf := wg_buf st |}.
Definition set_socket (s : udp_socket) (st : WireGuardTransport T) : WireGuardTransport T :=
  {| tunn := tunn st; socket := s; peer_addr := peer_addr st;
     pending_recv := pending_recv st; wg_buf := wg_buf st |}.
Definition set_pending (p : list SessionFrame) (st : WireGuardTransport T) : WireGuardTransport T :=
  {| tunn := tunn st; socket := socket st; peer_addr := peer_addr st;
     pending_recv := p; wg_buf := wg_buf st |}.
Definition set_wg_buf (n : nat) (st : WireGuardTransport T) : WireGuardTransport T :=
  {| tunn := tunn st; socket := socket st; peer_addr := peer_addr st;
     pending_recv := pending_recv st; wg_buf := n |}.

(** [unwrap_from_ipv4(ip_pkt).and_then(SessionFrame::decode)] *)
Definition frame_of_ip (ip_pkt : list Z) : outcome TransportError SessionFrame :=
  b ← unwrap_from_ipv4 ip_pkt; map_err BadFrame (decode b).

(** The match on one [decapsulate] result: what goes out, and what was decoded. *)
Definition collect (r : TunnResult) (acc : list (list Z) * list SessionFrame)
  : list (list Z) * list SessionFrame :=
  match r with
  | TunnDone | TunnErr => acc
  | WriteToNetwork pkt => (acc.1 ++ [pkt], acc.2)
  | WriteToTunnelV4 ip_pkt | WriteToTunnelV6 ip_pkt =>
      match frame_of_ip ip_pkt with
      | Ok f => (acc.1, acc.2 ++ [f])
      | _ => acc
      end
  end.

(** The follow-up loop, until [Done]; [None] when [fuel] rounds were not enough. *)
Fixpoint drain_tunn (fuel : nat) (t : T) (buf : nat) (acc : list (list Z) * list SessionFrame)
  : option (T * (list (list Z) * list SessionFrame)) :=
  match fuel with
  | O => None
  | S fuel =>
      let (r, t') := decapsulate t None [] buf in
      match r with
      | TunnDone => Some (t', acc)
      | _ => drain_tunn fuel t' buf (collect r acc)
      end
  end.

Definition process_datagram (fuel : nat) (st : WireGuardTransport T) (datagram : list Z)
  : option (outcome TransportError unit * WireGuardTransport T) :=
  let (r, t1) := decapsulate (tunn st) (Some (peer_addr st)) datagram (wg_buf st) in
  match drain_tunn fuel t1 (wg_buf st) (collect r ([], [])) with
  | None => None
  | Some (t2, (outbound, decoded_frames)) =>
      let st := set_tunn t2 st in
      let (res, sock) := sock_send_all (socket st) outbound in
      let st := set_socket sock st in
      match res with
      | Ok _ => Some (Ok tt, set_pending (pending_recv st ++ decoded_frames) st)
      | _ => Some (res, st)
      end
  end.

(** The timer service before each send and each receive. *)
Definition service_timers (st : WireGuardTransport T)
  : outcome TransportError unit * WireGuardTransport T :=
  let (r, t) := update_timers (tunn st) (wg_buf st) in
  let st := set_tunn t st in
  match r with
  | WriteToNetwork pkt =>
      let (res, sock) := sock_send (socket st) pkt in (res, set_socket sock st)
  | _ => (Ok tt, st)
  end.

(** The receiving loop of [establish_session]. *)
Fixpoint await_handshake (fuel : nat) (st : WireGuardTransport T) (evs : list udp_read)
  : option (poll unit * WireGuardTransport T * list udp_read) :=
  if has_session (tunn st) then Some (Ready (Ok tt), st, evs)
  else match evs with
    | [] => Some (Pending, st, [])
    | UdpErr :: evs => Some (Ready (Err Io), st, evs)
    | UdpDeadline :: evs => Some (Ready (Err WgHandshakeTimeout), st, evs)
    | UdpOk d :: evs =>
        match process_datagram fuel st (take WG_MAX_DATAGRAM d) with
        | None => None
        | Some (Ok _, st) => await_handshake fuel st evs
        | Some (r, st) => Some (Ready r, st, evs)
        end
    end.

Definition establish_session (fuel : nat) (st : WireGuardTransport T) (evs : list udp_read)
  : option (poll unit * WireGuardTransport T * list udp_read) :=
  if has_session (tunn st) then Some (Ready (Ok tt), st, evs)
  else
    let (r, t) := format_handshake_initiation (tunn st) (wg_buf st) false in
    let st := set_tunn t st in
    match r with
    | WriteToNetwork pkt =>
        let (res, sock) := sock_send (socket st) pkt in
        let st := set_socket sock st in
        match res with
        | Ok _ => await_handshake fuel st evs
        | _ => Some (Ready res, st, evs)
        end
    | TunnDone => await_handshake fuel st evs
    | _ => Some (Ready (Err WgUnexpected), st, evs)
    end.

(** The output buffer [send] makes sure of. *)
Definition send_dst_len (ip_pkt : list Z) : nat :=
  Nat.max (length ip_pkt + WG_ENCAP_OVERHEAD) WG_HS_BUF.

Definition wg_send (fuel : nat) (st : WireGuardTransport T) (f : SessionFrame)
    (evs : list udp_read) : option (poll unit * WireGuardTransport T * list udp_read) :=
  let (res, st) := service_timers st in
  match res with
  | Ok _ =>
      match wrap_in_ipv4 (encode f) with
      | Ok ip_pkt =>
          let st := if decide (wg_buf st < send_dst_len ip_pkt)%nat
                    then set_wg_buf (send_dst_len ip_pkt) st else st in
          let (r, t) := encapsulate (tunn st) ip_pkt (wg_buf st) in
          let st := set_tunn t st in
          match r with
          | WriteToNetwork pkt =>
              let (res, sock) := sock_send (socket st) pkt in
              Some (Ready res, set_socket sock st, evs)
          | TunnErr | TunnDone =>
              match establish_session fuel st evs with
              | Some (Ready (Ok _), st, evs) =>
                  let (r, t) := encapsulate (tunn st) ip_pkt (wg_buf st) in
                  let st := set_tunn t st in
                  match r with
                  | WriteToNetwork pkt =>
                      let (res, sock) := sock_send (socket st) pkt in
                      Some (Ready res, set_socket sock st, evs)
                  | _ => Some (Ready (Err WgUnexpected), st, evs)
                  end
              | other => other
              end
          | _ => Some (Ready (Err WgUnexpected), st, evs)
          end
      | Err e => Some (Ready (Err e), st, evs)
      | Panic => Some (Ready Panic, st, evs)
      end
  | _ => Some (Ready res, st, evs)
  end.

(** The loop of [recv], once no frame is pending. *)
Fixpoint wg_recv_loop (fuel : nat) (st : WireGuardTransport T) (evs : list udp_read)
  : option (poll SessionFrame * WireGuardTransport T * list udp_read) :=
  let (res, st) := service_timers st in
  match res with
  | Ok _ =>
      match evs with
      | [] => Some (Pending, st, [])
      | UdpOk d :: evs =>
          match process_datagram fuel st (take WG_MAX_DATAGRAM d) with
          | None => None
          | Some (Ok _, st) =>
              match pending_recv st with
              | f :: rest => Some (Ready (Ok f), set_pending rest st, evs)
              | [] => wg_recv_loop fuel st evs
              end
          | Some (Err e, st) => Some (Ready (Err e), st, evs)
          | Some (Panic, st) => Some (Ready Panic, st, evs)
          end
      | _ :: evs => Some (Ready (Err Io), st, evs)
      end
  | Err e => Some (Ready (Err e), st, evs)
  | Panic => Some (Ready Panic, st, evs)
  end.

Definition wg_recv (fuel : nat) (st : WireGuardTransport T) (evs : list udp_read)
  : option (poll SessionFrame * WireGuardTransport T * list udp_read) :=
  match pending_recv st with
  | f :: rest => Some (Ready (Ok f), set_pending rest st, evs)
  | [] => wg_recv_loop fuel st evs
  end.
End transport.

(** * Lemmas *)

(** ** The IPv4 wrapping *)

(** The header before its checksum is filled in, in its two parts. *)
Definition header_front (n : nat) : list Z :=
  [0x45; 0] ++ be_bytes 2 (cast_u 16 (Z.of_nat n)) ++ [0; 0; 0; 0; 64; 253].
Definition header_back : list Z := WG_FAKE_SRC_IP ++ WG_FAKE_DST_IP.
Definition header_csum (n : nat) : Z :=
  ones_complement_sum (header_front n ++ [0; 0] ++ header_back).

Lemma high_low_bytes z :
  in_u 16 z -> [cast_u 8 (Z.shiftr z 8); cast_u 8 (Z.land z 0xff)] = be_bytes 2 z.
Proof.
  intros Hz. rewrite be_bytes_2. change 0xff with (Z.ones 8).
  rewrite Z.land_ones, Z.shiftr_div_pow2 by lia. unfold cast_u. change (2 ^ 8) with 256.
  by rewrite Z.mod_mod.
Qed.

(** The header after its fixed fields are written, before the rest [r]. *)
Lemma header_writes {E A} z r (K : list Z -> outcome E A) :
  (pkt ← store (replicate 20 0 ++ r) 0 0x45;
   pkt ← store pkt 1 0x00;
   tl0 ← index (be_bytes 2 z) 0;
   pkt ← store pkt 2 tl0;
   tl1 ← index (be_bytes 2 z) 1;
   pkt ← store pkt 3 tl1;
   pkt ← store pkt 8 64;
   pkt ← store pkt 9 253;
   pkt ← copy_at pkt 12 WG_FAKE_SRC_IP;
   pkt ← copy_at pkt 16 WG_FAKE_DST_IP; K pkt) =
  K (([0x45; 0] ++ be_bytes 2 z ++ [0; 0; 0; 0; 64; 253]) ++ [0; 0] ++ header_back ++ r).
Proof.
  rewrite be_bytes_2. generalize ((z / 256) mod 256), (z mod 256). intros a b.
  simpl.
  by rewrite !drop_0.
Qed.

Lemma header_sum {E} f g r :
  length f = 10%nat -> length g = 8%nat ->
  @sum_at E (f ++ [0; 0] ++ g ++ r) header_offsets 0 = Ok (sum_words 0 (f ++ [0; 0] ++ g)).
Proof.
  intros Hf Hg.
  do 10 (destruct f as [|? f]; [done|]). destruct f; [|done].
  do 8 (destruct g as [|? g]; [done|]). destruct g; [|done].
  cbn [sum_at header_offsets be16_at index lookup list_lookup expect_some mbind outcome_bind app].
  cbn [sum_words]. reflexivity.
Qed.

Lemma csum_writes {E} f g r p c1 c2 :
  length f = 10%nat -> length g = 8%nat -> length r = length p ->
  (pkt ← store (f ++ [0; 0] ++ g ++ r) 10 c1; pkt ← store pkt 11 c2; copy_at pkt 20 p) =
  @Ok E _ (f ++ [c1; c2] ++ g ++ p).
Proof.
  intros Hf Hg Hr.
  assert (H1 : @store E Z (f ++ [0; 0] ++ g ++ r) 10 c1 = Ok (f ++ [c1] ++ [0] ++ g ++ r)).
  { by apply (copy_at_app f [0] ([0] ++ g ++ r) [c1]). }
  rewrite H1. cbn [mbind outcome_bind].
  assert (H2 : @store E Z (f ++ [c1] ++ [0] ++ g ++ r) 11 c2 = Ok (f ++ [c1] ++ [c2] ++ g ++ r)).
  { unfold store. rewrite (app_assoc f [c1]), (copy_at_app (f ++ [c1]) [0] (g ++ r) [c2]).
    - by rewrite <- app_assoc.
    - by rewrite length_app, Hf.
    - done. }
  rewrite H2. cbn [mbind outcome_bind].
  replace (f ++ [c1] ++ [c2] ++ g ++ r) with ((f ++ [c1; c2] ++ g) ++ r ++ [])
    by (rewrite app_nil_r, <- !app_assoc; done).
  rewrite (copy_at_app (f ++ [c1; c2] ++ g) r [] p).
  - by rewrite app_nil_r, <- !app_assoc.
  - rewrite !length_app, Hf, Hg. done.
  - done.
Qed.

Lemma header_front_length n : length (header_front n) = 10%nat.
Proof. unfold header_front. by rewrite !length_app, length_be_bytes. Qed.

Lemma checksum_writes {E} f r p :
  length f = 10%nat -> length r = length p ->
  (csum ← sum_at (f ++ [0; 0] ++ header_back ++ r) header_offsets 0;
   let csum := fold_carry FOLD_FUEL csum in
   let csum := not_u16 csum in
   pkt ← store (f ++ [0; 0] ++ header_back ++ r) 10 (cast_u 8 (Z.shiftr csum 8));
   pkt ← store pkt 11 (cast_u 8 (Z.land csum 0xff));
   copy_at pkt 20 p) =
  @Ok E _ (f ++ be_bytes 2 (ones_complement_sum (f ++ [0; 0] ++ header_back)) ++ header_back ++ p).
Proof.
  intros Hf Hr. rewrite header_sum by done. cbn [mbind outcome_bind].
  rewrite ones_complement_sum_unfold.
  generalize (ones_complement_sum_range (f ++ [0; 0] ++ header_back)).
  generalize (ones_complement_sum (f ++ [0; 0] ++ header_back)).
  intros c Hu. rewrite <- (high_low_bytes c Hu). by apply csum_writes.
Qed.

Lemma wrap_in_ipv4_ok {E} p :
  @wrap_in_ipv4 E p =
  Ok (header_front (20 + length p) ++ be_bytes 2 (header_csum (20 + length p)) ++ header_back ++ p).
Proof.
  unfold wrap_in_ipv4. change IPV4_HDR_LEN with 20%nat. rewrite replicate_add.
  etransitivity; [apply header_writes|].
  apply (checksum_writes (header_front (20 + length p))).
  - apply header_front_length.
  - apply length_replicate.
Qed.

Lemma header_front_ok n : bytes_ok (header_front n).
Proof.
  unfold header_front. rewrite !Forall_app. split_and!; [| apply be_bytes_ok |];
    repeat constructor; unfold is_byte; lia.
Qed.

Lemma header_back_ok : bytes_ok header_back.
Proof. repeat constructor; unfold is_byte; lia. Qed.

Lemma wrapped_header_valid n :
  checksum_valid (header_front n ++ be_bytes 2 (header_csum n) ++ header_back).
Proof.
  apply checksum_field.
  - rewrite header_front_length. by exists 5%nat.
  - apply header_front_ok.
  - apply header_back_ok.
  - rewrite header_front_length. vm_compute. discriminate.
Qed.

Lemma unwrap_wrap p : (ip_pkt ← wrap_in_ipv4 p; unwrap_from_ipv4 ip_pkt) = Ok p.
Proof.
  rewrite wrap_in_ipv4_ok. cbn [mbind outcome_bind]. unfold unwrap_from_ipv4.
  set (h := header_front _). set (c := be_bytes 2 _).
  assert (Hl : length (h ++ c ++ header_back ++ p) = (20 + length p)%nat).
  { unfold h, c. rewrite !length_app, header_front_length, length_be_bytes.
    change (length header_back) with 8%nat. lia. }
  rewrite bool_decide_eq_false_2 by (rewrite Hl; unfold IPV4_HDR_LEN; lia).
  change (index _ 0) with (@Ok TransportError Z 0x45). cbn [mbind outcome_bind].
  change (Z.to_nat (Z.land 0x45 0x0f) * 4)%nat with 20%nat.
  rewrite bool_decide_eq_false_2 by (rewrite Hl; lia).
  by rewrite slice_from_ok by (rewrite Hl; lia).
Qed.

(** What boringtun reads off a packet it has decrypted: the version and the IPv4 total length. *)
Definition ip_version (pkt : list Z) : Z := Z.shiftr (default 0 (pkt !! 0%nat)) 4.
Definition ip_total_length (pkt : list Z) : Z := be_val (take 2 (drop 2 pkt)).

Lemma wrap_length {E} p pkt : @wrap_in_ipv4 E p = Ok pkt -> length pkt = (20 + length p)%nat.
Proof.
  rewrite wrap_in_ipv4_ok. intros <-%Ok_inj.
  rewrite !length_app, header_front_length, length_be_bytes.
  change (length header_back) with 8%nat. lia.
Qed.

Lemma wrap_total_length {E} p pkt :
  @wrap_in_ipv4 E p = Ok pkt -> len p <= 65515 -> ip_total_length pkt = len pkt.
Proof.
  intros Hw Hp. rewrite (wrap_length _ _ Hw). rewrite wrap_in_ipv4_ok in Hw. apply Ok_inj in Hw as <-.
  unfold ip_total_length, header_front.
  change (be_val _) with (be_val (be_bytes 2 (cast_u 16 (Z.of_nat (20 + length p))))).
  rewrite be_val_bytes_small by by apply (cast_u_in_u 16).
  apply cast_u_small. unfold in_u. lia.
Qed.

(** ** The tunnel *)

(** What the tunnel gives to the follow-up calls, up to the one that says it is done *)
Inductive gives {T} `{Tunn T} (n : nat) : T -> list TunnResult -> T -> Prop :=
  | GivesDone t t' : decapsulate t None [] n = (TunnDone, t') -> gives n t [] t'
  | GivesMore t r t1 rs t' :
      decapsulate t None [] n = (r, t1) -> r <> TunnDone -> gives n t1 rs t' -> gives n t (r :: rs) t'.

(** What a result puts on the network, and the frame it carries, if it carries one *)
Definition network_of (r : TunnResult) : list (list Z) :=
  match r with WriteToNetwork pkt => [pkt] | _ => [] end.
Definition frames_of (r : TunnResult) : list SessionFrame :=
  match r with
  | WriteToTunnelV4 ip_pkt | WriteToTunnelV6 ip_pkt => option_list (ok_option (frame_of_ip ip_pkt))
  | _ => []
  end.

(** Two ends with an established session whose timers are idle: what one encrypts, the other
    decrypts, if it is an IPv4 packet of the length its header says. *)
Class TunnLink (T : Type) `{Tunn T} (linked : T -> T -> Prop) := {
  link_idle : forall a b n, linked a b ->
    update_timers a n = (TunnDone, a) /\ update_timers b n = (TunnDone, b);
  link_delivers : forall a b ip n m src, linked a b -> ip_version ip = 4 ->
    ip_total_length ip = len ip -> (Nat.max (length ip + 32) WG_HS_BUF <= n)%nat ->
    exists pkt a' b', encapsulate a ip n = (WriteToNetwork pkt, a') /\
      (length pkt <= length ip + 32)%nat /\
      decapsulate b (Some src) pkt m = (WriteToTunnelV4 ip, b') /\
      decapsulate b' None [] m = (TunnDone, b') /\ linked a' b'
}.

(** Packets are sent in order up to the first send that fails. *)
Lemma sock_send_all_spec pkts s :
  (sock_send_all s pkts = (Ok tt, {| sent := sent s ++ pkts; send_fails := drop (length pkts) (send_fails s) |}) /\
   forall k, (k < length pkts)%nat -> send_fails s !! k <> Some true) \/
  exists k, (k < length pkts)%nat /\ send_fails s !! k = Some true /\
    (forall j, (j < k)%nat -> send_fails s !! j <> Some true) /\
    sock_send_all s pkts = (Err Io, {| sent := sent s ++ take k pkts; send_fails := drop (S k) (send_fails s) |}).
Proof.
  revert s. induction pkts as [|p pkts IH]; intros [out fails]; cbn [sock_send_all sent send_fails].
  { left. split; [by rewrite app_nil_r, drop_0 | intros k Hk; cbn in Hk; lia]. }
  unfold sock_send. cbn [send_fails sent]. destruct fails as [|[] fails]; cbn [tail].
  - left. destruct (IH {| sent := out ++ [p]; send_fails := [] |}) as [[-> _]|(k & _ & Hk & _)]; [|done].
    cbn. rewrite <- app_assoc, drop_nil. by split.
  - right. exists 0%nat. cbn. rewrite app_nil_r, drop_0. split_and!; [lia|done|intros; lia|done].
  - destruct (IH {| sent := out ++ [p]; send_fails := fails |}) as [[-> Hok]|(k & Hlt & Hk & Hbefore & ->)]; cbn in *.
    + left. rewrite <- app_assoc. split; [done|]. intros [|k] Hk; [done|]. apply Hok. lia.
    + right. exists (S k). rewrite <- app_assoc. split_and!; [lia|done| |done].
      intros [|j] Hj; [done|]. apply Hbefore. lia.
Qed.

Section tunnel_lemmas.
Context {T : Type} `{Tunn T}.

Lemma collect_spec r acc : collect r acc = (acc.1 ++ network_of r, acc.2 ++ frames_of r).
Proof.
  destruct acc as [out frames]. unfold collect, network_of, frames_of.
  destruct r; cbn [fst snd]; rewrite ?app_nil_r; try done; destruct (frame_of_ip _); cbn; by rewrite ?app_nil_r.
Qed.

(** The follow-up loop collects what the tunnel gives, and ends exactly when the tunnel says it is done. *)
Lemma drain_tunn_spec fuel t n acc rs t' :
  gives n t rs t' -> (length rs < fuel)%nat ->
  drain_tunn fuel t n acc = Some (t', (acc.1 ++ concat (network_of <$> rs), acc.2 ++ concat (frames_of <$> rs))).
Proof.
  intros Hg. revert fuel acc. induction Hg as [t t' Hd|t r t1 rs t' Hd Hne _ IH]; intros [|fuel] acc Hf; cbn in Hf; try lia;
    cbn [drain_tunn]; rewrite Hd.
  - destruct acc. cbn. by rewrite !app_nil_r.
  - assert (Hgo : drain_tunn fuel t1 n (collect r acc) =
      Some (t', (acc.1 ++ concat (network_of <$> r :: rs), acc.2 ++ concat (frames_of <$> r :: rs)))).
    { rewrite IH by lia. rewrite collect_spec. cbn. by rewrite <- !app_assoc. }
    by destruct r.
Qed.

Lemma drain_tunn_gives fuel t n acc x :
  drain_tunn fuel t n acc = Some x -> exists rs t', gives n t rs t' /\ (length rs < fuel)%nat.
Proof.
  revert t acc. induction fuel as [|fuel IH]; intros t acc; [done|]. cbn [drain_tunn].
  destruct (decapsulate t None [] n) as [r t1] eqn:Hd. intros Hr.
  assert (Hdec : r = TunnDone \/ r <> TunnDone) by (destruct r; auto).
  destruct Hdec as [->|Hne]; [exists [], t1; split; [by constructor|cbn; lia]|].
  assert (Hr' : drain_tunn fuel t1 n (collect r acc) = Some x) by (by destruct r).
  apply IH in Hr' as (rs & t' & Hg & Hl). exists (r :: rs), t'. split; [by eapply GivesMore|cbn; lia].
Qed.

Lemma service_timers_idle (st : WireGuardTransport T) :
  update_timers (tunn st) (wg_buf st) = (TunnDone, tunn st) -> service_timers st = (Ok tt, st).
Proof. intros Hu. unfold service_timers. rewrite Hu. by destruct st. Qed.

(** A datagram that decrypts to one frame, with nothing queued. *)
Lemma process_one fuel st pkt ip f t1 :
  decapsulate (tunn st) (Some (peer_addr st)) pkt (wg_buf st) = (WriteToTunnelV4 ip, t1) ->
  decapsulate t1 None [] (wg_buf st) = (TunnDone, t1) -> frame_of_ip ip = Ok f ->
  process_datagram (S fuel) st pkt =
  Some (Ok tt, set_pending (pending_recv st ++ [f]) (set_tunn t1 st)).
Proof.
  intros Hd Hdone Hf. unfold process_datagram. rewrite Hd. simpl. rewrite Hdone, Hf. simpl.
  by destruct st.
Qed.

Lemma frame_of_wrapped f ip :
  frame_ok f -> @wrap_in_ipv4 TransportError (encode f) = Ok ip -> frame_of_ip ip = Ok f.
Proof.
  intros Hf Hw. unfold frame_of_ip. pose proof (unwrap_wrap (encode f)) as Hu.
  rewrite Hw in Hu. cbn [mbind outcome_bind] in *. rewrite Hu. cbn [mbind outcome_bind].
  by rewrite decode_encode.
Qed.

(** A small enough frame, wrapped. *)
Lemma wg_wrap_facts f :
  frame_ok f -> len (payload f) <= 1432 ->
  exists ip, @wrap_in_ipv4 TransportError (encode f) = Ok ip /\ ip_version ip = 4 /\
    (length ip <= 1468)%nat /\ ip_total_length ip = len ip /\ frame_of_ip ip = Ok f.
Proof.
  intros Hf Hl. pose proof (wrap_in_ipv4_ok (E := TransportError) (encode f)) as Hw.
  match type of Hw with _ = Ok ?x => assert (Hv : ip_version x = 4) by done end.
  revert Hw Hv. generalize (header_front (20 + length (encode f)) ++
    be_bytes 2 (header_csum (20 + length (encode f))) ++ header_back ++ encode f).
  intros ip Hw Hv. exists ip. split; [done|]. split; [done|].
  pose proof (wrap_length _ _ Hw) as Hlen. rewrite length_encode in Hlen. unfold HEADER_LEN in Hlen.
  split_and!; [lia | | by apply frame_of_wrapped].
  apply (wrap_total_length _ _ Hw). rewrite length_encode. unfold HEADER_LEN. lia.
Qed.
End tunnel_lemmas.

(** * Properties *)

(** Every payload comes back out of its IPv4 wrapping; the header is version 4 with a valid
    checksum, and its length field is the packet's length up to the 16-bit limit. *)
Theorem wg_wrap_roundtrip (p : list Z) :
  exists ip, @wrap_in_ipv4 TransportError p = Ok ip /\
    unwrap_from_ipv4 ip = Ok p /\ ip_version ip = 4 /\ checksum_valid (take IPV4_HDR_LEN ip) /\
    (len p <= 65515 -> ip_total_length ip = len ip).
Proof.
  exists (header_front (20 + length p) ++ be_bytes 2 (header_csum (20 + length p)) ++ header_back ++ p).
  pose proof (unwrap_wrap p) as Hu. rewrite wrap_in_ipv4_ok in *.
  split_and!; [done | done | done | |].
  - rewrite !app_assoc. rewrite take_app_length'.
    + rewrite <- app_assoc. apply wrapped_header_valid.
    + by rewrite !length_app, header_front_length, length_be_bytes.
  - apply (wrap_total_length (E := TransportError)). apply wrap_in_ipv4_ok.
Qed.

(** C31: what becomes of a datagram.  The processing of a datagram ends exactly if the tunnel, asked again and again,
    says at some point that it is done; then, with [r] the result for the datagram and [rs] those of the follow-up
    calls, every packet for the network goes out in order, and every frame among the results is appended in order to
    those that wait to be received, whatever is not a frame left out.  If a send fails, the packets before it are
    out, the error is returned, and the frames of this datagram are lost. *)
Theorem process_datagram_spec {T} `{Tunn T} (st : WireGuardTransport T) (d : list Z) (fuel : nat) (r : TunnResult) (t1 : T) :
  decapsulate (tunn st) (Some (peer_addr st)) d (wg_buf st) = (r, t1) ->
  (is_Some (process_datagram fuel st d) <-> exists rs t2, gives (wg_buf st) t1 rs t2 /\ (length rs < fuel)%nat) /\
  forall rs t2, gives (wg_buf st) t1 rs t2 -> (length rs < fuel)%nat ->
  let out := concat (network_of <$> r :: rs) in
  let frames := concat (frames_of <$> r :: rs) in
  exists res st', process_datagram fuel st d = Some (res, st') /\ tunn st' = t2 /\ peer_addr st' = peer_addr st /\
    wg_buf st' = wg_buf st /\
    ((forall k, (k < length out)%nat -> send_fails (socket st) !! k <> Some true) ->
       res = Ok tt /\ sent (socket st') = sent (socket st) ++ out /\ pending_recv st' = pending_recv st ++ frames) /\
    (forall k, (k < length out)%nat -> send_fails (socket st) !! k = Some true ->
       (forall j, (j < k)%nat -> send_fails (socket st) !! j <> Some true) ->
       res = Err Io /\ sent (socket st') = sent (socket st) ++ take k out /\ pending_recv st' = pending_recv st).
Proof.
  intros Hd. split.
  { unfold process_datagram. rewrite Hd. split.
    - intros [x Hx]. destruct (drain_tunn fuel t1 (wg_buf st) _) as [y|] eqn:Hdr; [|done]. by eapply drain_tunn_gives.
    - intros (rs & t2 & Hg & Hf). rewrite (drain_tunn_spec _ _ _ _ _ _ Hg Hf).
      destruct (sock_send_all _ _) as [[]]; eauto. }
  intros rs t2 Hg Hf out frames. unfold process_datagram. rewrite Hd, (drain_tunn_spec _ _ _ _ _ _ Hg Hf), collect_spec. cbn [fst snd app].
  change (network_of r ++ concat (network_of <$> rs)) with out. change (frames_of r ++ concat (frames_of <$> rs)) with frames.
  cbn [socket set_tunn].
  destruct (sock_send_all_spec out (socket st)) as [[-> Hok]|(k & Hk & Hfail & Hbefore & ->)]; do 2 eexists;
    (split; [reflexivity|]); do 3 (split; [done|]); split.
  - done.
  - intros k Hk Hfail. by destruct (Hok k Hk).
  - intros Hok. by destruct (Hok k Hk).
  - intros k' Hk' Hfail' Hbefore'. assert (k' = k) as ->; [|done].
    destruct (decide (k' < k)%nat) as [Hlt|]; [by destruct (Hbefore k')|].
    destruct (decide (k < k')%nat) as [Hlt|]; [by destruct (Hbefore' k)|lia].
Qed.

(** A tunnel that passes packets through, for the witnesses. *)
#[export] Instance clear_tunn : Tunn unit := {
  decapsulate _ src d _ := if decide (d = []) then (TunnDone, tt) else (WriteToTunnelV4 d, tt);
  encapsulate _ ip _ := (WriteToNetwork ip, tt);
  update_timers _ _ := (TunnDone, tt);
  format_handshake_initiation _ _ _ := (TunnDone, tt);
  has_session _ := true
}.

#[export] Instance clear_tunn_link : TunnLink unit (fun _ _ => True).
Proof.
  split; [by intros [] []|]. intros [] [] ip n m src _ Hv Hl Hn. exists ip, tt, tt. simpl.
  split_and!; try done; [lia|]. rewrite decide_False; [done|]. intros ->. done.
Qed.

(** A tunnel whose queue holds what it gives to the follow-up calls *)
Definition queue_tunn : Tunn (list TunnResult) := {|
  decapsulate q src d _ :=
    match src, q with
    | Some _, _ => (WriteToTunnelV4 d, q)
    | None, [] => (TunnDone, [])
    | None, r :: q => (r, q)
    end;
  encapsulate q ip _ := (WriteToNetwork ip, q);
  update_timers q _ := (TunnDone, q);
  format_handshake_initiation q _ _ := (TunnDone, q);
  has_session _ := true
|}.
Definition wrapped (f : SessionFrame) : list Z :=
  match @wrap_in_ipv4 Empty_set (encode f) with Ok ip => ip | _ => [] end.
Definition queued : list TunnResult :=
  [WriteToNetwork [1]; WriteToTunnelV4 [0]; WriteToTunnelV4 (wrapped (sample_frame 5 78)); WriteToNetwork [2]].

(** A datagram with a frame, and two packets, a frame and something else queued behind it *)
Lemma process_datagram_spec_witness :
  exists st', @process_datagram _ queue_tunn 5 (WireGuardTransport_new queued 9) (wrapped (sample_frame 4 77)) = Some (Ok tt, st') /\
    sent (socket st') = [[1]; [2]] /\ pending_recv st' = [sample_frame 4 77; sample_frame 5 78].
Proof.
  destruct (@process_datagram_spec _ queue_tunn (WireGuardTransport_new queued 9) (wrapped (sample_frame 4 77)) 5
    (WriteToTunnelV4 (wrapped (sample_frame 4 77))) queued eq_refl) as [_ Hspec].
  destruct (Hspec queued []) as (res & st' & Hp & _ & _ & _ & Hok & _).
  - unfold queued. repeat (eapply GivesMore; [reflexivity|discriminate|]). by apply GivesDone.
  - cbn. lia.
  - destruct Hok as (-> & Hs & Hr); [intros k _; by destruct k|].
    exists st'. split; [exact Hp|]. split; [rewrite Hs; reflexivity|]. rewrite Hr. vm_compute. reflexivity.
Defined.

(** Over an established WireGuard session a frame of up to 1432 payload bytes is sent as one
    datagram, which makes the other end's next receive return that frame; the session stays usable. *)
Theorem wg_delivers_frame {T} `{Tunn T} `{!TunnLink T linked}
    (fuel : nat) (a b : WireGuardTransport T) (f : SessionFrame) (evs evs' : list udp_read) :
  linked (tunn a) (tunn b) -> frame_ok f -> len (payload f) <= 1432 ->
  send_fails (socket a) = [] -> pending_recv b = [] ->
  exists pkt a' b',
    wg_send fuel a f evs = Some (Ready (Ok tt), a', evs) /\
    sent (socket a') = sent (socket a) ++ [pkt] /\
    wg_recv (S fuel) b (UdpOk pkt :: evs') = Some (Ready (Ok f), b', evs') /\
    pending_recv b' = [] /\ linked (tunn a') (tunn b').
Proof.
  intros Hlink Hf Hlen Hsend Hpend.
  destruct (link_idle (tunn a) (tunn b) (wg_buf a) Hlink) as [Hua _].
  destruct (link_idle (tunn a) (tunn b) (wg_buf b) Hlink) as [_ Hub].
  destruct (wg_wrap_facts f) as (ip & Hw & Hv & Hil & Htl & Hfr); [done | lia |].
  unfold wg_send. rewrite (service_timers_idle a Hua), Hw.
  set (a1 := if decide _ then _ else _).
  assert (Ha1 : tunn a1 = tunn a /\ socket a1 = socket a /\ (send_dst_len ip <= wg_buf a1)%nat).
  { unfold a1. case_decide; simpl; split_and!; try done; lia. }
  destruct Ha1 as (Hta & Hsa & Hbuf).
  destruct (link_delivers (tunn a) (tunn b) ip (wg_buf a1) (wg_buf b) (peer_addr b) Hlink Hv Htl)
    as (pkt & a' & b' & He & Hpl & Hd & Hdone & Hl').
  { unfold send_dst_len, WG_ENCAP_OVERHEAD in Hbuf. lia. }
  rewrite Hta, He. unfold sock_send. simpl. rewrite Hsa, Hsend. do 3 eexists.
  split; [done|]. split; [done|]. unfold wg_recv. rewrite Hpend. simpl.
  rewrite (service_timers_idle b Hub), take_ge by (unfold WG_MAX_DATAGRAM; lia).
  rewrite (process_one fuel b pkt ip f b') by done. rewrite Hpend. simpl.
  split; [done|]. split; done.
Qed.

Lemma wg_delivers_frame_witness :
  exists pkt a' b',
    wg_send 0 (WireGuardTransport_new tt 1) (sample_frame 4 77) [] = Some (Ready (Ok tt), a', []) /\
    sent (socket a') = [pkt] /\
    wg_recv 1 (WireGuardTransport_new tt 2) [UdpOk pkt] = Some (Ready (Ok (sample_frame 4 77)), b', []) /\
    pending_recv b' = [] /\ True.
Proof.
  apply (wg_delivers_frame (linked := fun _ _ => True) 0 (WireGuardTransport_new tt 1)
    (WireGuardTransport_new tt 2) (sample_frame 4 77) [] []); try done.
  repeat constructor; vm_compute; congruence.
Defined.
