(* ===== verification/Packet.v ===== *)
(** IPv4 packets of the forwarder: the parsers, builders, checksums and address rewriting of
    [src/crates/bonded-server/src/smoltcp_forwarder.rs].  Slicing and indexing panic out of range, as
    in Rust, so "never panics" is a theorem and not a convention. *)

From stdpp Require Import base tactics list.
From Stdlib Require Import ZArith Lia.
From S2P Require Import Prelude Words Checksum.
Open Scope Z_scope.

(** * Definitions *)

(** [Ipv4Addr], by its octets. *)
Definition Ipv4Addr : Type := Z * Z * Z * Z.
Definition octets (ip : Ipv4Addr) : list Z := let '(a, b, c, d) := ip in [a; b; c; d].

(** The address in four consecutive bytes. *)
Definition ipv4_at {E} (pkt : list Z) (i : nat) : outcome E Ipv4Addr :=
  a ← index pkt i; b ← index pkt (S i); c ← index pkt (S (S i)); d ← index pkt (S (S (S i)));
  Ok (a, b, c, d).

Definition SMOLTCP_IP_ARRAY : list Z := [10; 200; 0; 1].

(** The functions below that return no error can still panic. *)
Abbreviation panicky A := (outcome Empty_set A).

(** ** Checksums *)

Definition ipv4_checksum (header : list Z) : Z := ones_complement_sum header.

Definition pseudo_packet (src dst : Ipv4Addr) (proto : Z) (segment : list Z) : list Z :=
  octets src ++ octets dst ++ [0; proto] ++ be_bytes 2 (cast_u 16 (len segment)) ++ segment ++
  (if Nat.odd (length segment) then [0] else []).

Definition tcp_udp_checksum_ipv4 (src dst : Ipv4Addr) (proto : Z) (segment : list Z) : Z :=
  let ck := ones_complement_sum (pseudo_packet src dst proto segment) in
  if ck =? 0 then 0xffff else ck.

(** ** Address rewriting *)

(** [(pkt[0] & 0x0f) as usize] *)
Definition ihl_of (b0 : Z) : nat := Z.to_nat (Z.land b0 0x0f).

Definition rewrite_dst_ip_inbound (packet : list Z) : panicky (option (list Z)) :=
  return_if bool_decide (length packet < 20)%nat with Ok None ;;
  b0 ← index packet 0;
  return_if negb (Z.shiftr b0 4 =? 4) with Ok None ;;
  pkt ← copy_at packet 16 SMOLTCP_IP_ARRAY;
  b0 ← index pkt 0;
  let ihl := (ihl_of b0 * 4)%nat in
  pkt ← copy_at pkt 10 [0; 0];
  hdr ← slice pkt 0 ihl;
  let cksum := ipv4_checksum hdr in
  pkt ← copy_at pkt 10 (be_bytes 2 cksum);
  Ok (Some pkt).

(** The transport checksum at offset [field] of [transport]. *)
Definition fix_transport (src_ip dst_ip : Ipv4Addr) (proto : Z) (field : nat) (transport : list Z)
  : panicky (list Z) :=
  transport ← copy_at transport field [0; 0];
  let cksum := tcp_udp_checksum_ipv4 src_ip dst_ip proto transport in
  copy_at transport field (be_bytes 2 cksum).

Definition rewrite_src_ip_outbound (pkt : list Z) (original_src : Ipv4Addr) : panicky (list Z) :=
  return_if bool_decide (length pkt < 20)%nat with Ok pkt ;;
  b0 ← index pkt 0;
  let ihl := (ihl_of b0 * 4)%nat in
  pkt ← copy_at pkt 12 (octets original_src);
  pkt ← copy_at pkt 10 [0; 0];
  hdr ← slice pkt 0 ihl;
  let cksum := ipv4_checksum hdr in
  pkt ← copy_at pkt 10 (be_bytes 2 cksum);
  protocol ← index pkt 9;
  src_ip ← ipv4_at pkt 12;
  dst_ip ← ipv4_at pkt 16;
  total ← be16_at pkt 2;
  let total_len := Z.to_nat total in
  return_if bool_decide (length pkt < total_len \/ total_len < ihl)%nat with Ok pkt ;;
  transport ← slice pkt ihl total_len;
  if (protocol =? 6) && bool_decide (20 <= length transport)%nat then
    transport ← fix_transport src_ip dst_ip 6 16 transport; copy_at pkt ihl transport
  else if (protocol =? 17) && bool_decide (8 <= length transport)%nat then
    transport ← fix_transport src_ip dst_ip 17 6 transport; copy_at pkt ihl transport
  else Ok pkt.

(** ** Parsers *)

Definition parse_ipv4_tcp_tuple_flags (packet : list Z)
  : panicky (option (Ipv4Addr * Z * Ipv4Addr * Z * Z)) :=
  return_if bool_decide (length packet < 40)%nat with Ok None ;;
  b0 ← index packet 0;
  let version := Z.shiftr b0 4 in
  let ihl := ihl_of b0 in
  b9 ← index packet 9;
  return_if negb (version =? 4) || bool_decide (ihl < 5)%nat || negb (b9 =? 6) with Ok None ;;
  let ihl_bytes := (ihl * 4)%nat in
  return_if bool_decide (length packet < ihl_bytes + 20)%nat with Ok None ;;
  src_ip ← ipv4_at packet 12;
  dst_ip ← ipv4_at packet 16;
  tcp ← slice_from packet ihl_bytes;
  src_port ← be16_at tcp 0;
  dst_port ← be16_at tcp 2;
  flags ← index tcp 13;
  Ok (Some (src_ip, src_port, dst_ip, dst_port, flags)).

(** [parse_tcp_header]: the same fields, with the flags reduced to "SYN set, ACK clear". *)
Definition parse_tcp_header (packet : list Z)
  : panicky (option (Ipv4Addr * Z * Ipv4Addr * Z * bool)) :=
  return_if bool_decide (length packet < 40)%nat with Ok None ;;
  b0 ← index packet 0;
  let version := Z.shiftr b0 4 in
  let ihl := ihl_of b0 in
  b9 ← index packet 9;
  return_if negb (version =? 4) || bool_decide (ihl < 5)%nat || negb (b9 =? 6) with Ok None ;;
  let ihl_bytes := (ihl * 4)%nat in
  return_if bool_decide (length packet < ihl_bytes + 20)%nat with Ok None ;;
  src_ip ← ipv4_at packet 12;
  dst_ip ← ipv4_at packet 16;
  tcp ← slice_from packet ihl_bytes;
  src_port ← be16_at tcp 0;
  dst_port ← be16_at tcp 2;
  flags ← index tcp 13;
  let is_syn := negb (Z.land flags 0x02 =? 0) && (Z.land flags 0x10 =? 0) in
  Ok (Some (src_ip, src_port, dst_ip, dst_port, is_syn)).

Record Ipv4UdpPacket := {
  udp_src_ip : Ipv4Addr;
  udp_dst_ip : Ipv4Addr;
  udp_src_port : Z;
  udp_dst_port : Z;
  udp_payload : list Z;
  udp_identification : Z
}.

Definition parse_ipv4_udp_packet (packet : list Z) : panicky (option Ipv4UdpPacket) :=
  return_if bool_decide (length packet < 28)%nat with Ok None ;;
  b0 ← index packet 0;
  let version := Z.shiftr b0 4 in
  let ihl := ihl_of b0 in
  b9 ← index packet 9;
  return_if negb (version =? 4) || bool_decide (ihl < 5)%nat || negb (b9 =? 17) with Ok None ;;
  let hlen := (ihl * 4)%nat in
  return_if bool_decide (length packet < hlen + 8)%nat with Ok None ;;
  total ← be16_at packet 2;
  let total_len := Z.to_nat total in
  return_if bool_decide (total_len < hlen + 8 \/ length packet < total_len)%nat with Ok None ;;
  frag ← be16_at packet 6;
  return_if negb (Z.land frag 0x3fff =? 0) with Ok None ;;
  src_ip ← ipv4_at packet 12;
  dst_ip ← ipv4_at packet 16;
  identification ← be16_at packet 4;
  udp ← slice_from packet hlen;
  ulen ← be16_at udp 4;
  let udp_len := Z.to_nat ulen in
  return_if bool_decide (udp_len < 8 \/ total_len < hlen + udp_len)%nat with Ok None ;;
  src_port ← be16_at udp 0;
  dst_port ← be16_at udp 2;
  payload ← slice udp 8 udp_len;
  Ok (Some {| udp_src_ip := src_ip; udp_dst_ip := dst_ip; udp_src_port := src_port;
              udp_dst_port := dst_port; udp_payload := payload;
              udp_identification := identification |}).

Record Ipv4IcmpEchoPacket := {
  icmp_src_ip : Ipv4Addr;
  icmp_dst_ip : Ipv4Addr;
  icmp_identification : Z;
  echo_identifier : Z;
  echo_sequence : Z;
  icmp_segment : list Z
}.

Definition parse_ipv4_icmp_echo_packet (packet : list Z) : panicky (option Ipv4IcmpEchoPacket) :=
  return_if bool_decide (length packet < 28)%nat with Ok None ;;
  b0 ← index packet 0;
  let version := Z.shiftr b0 4 in
  let ihl := ihl_of b0 in
  b9 ← index packet 9;
  return_if negb (version =? 4) || bool_decide (ihl < 5)%nat || negb (b9 =? 1) with Ok None ;;
  let hlen := (ihl * 4)%nat in
  return_if bool_decide (length packet < hlen + 8)%nat with Ok None ;;
  total ← be16_at packet 2;
  let total_len := Z.to_nat total in
  return_if bool_decide (total_len < hlen + 8 \/ length packet < total_len)%nat with Ok None ;;
  frag ← be16_at packet 6;
  return_if negb (Z.land frag 0x3fff =? 0) with Ok None ;;
  icmp ← slice_from packet hlen;
  i0 ← index icmp 0;
  i1 ← index icmp 1;
  return_if negb (i0 =? 8) || negb (i1 =? 0) with Ok None ;;
  src_ip ← ipv4_at packet 12;
  dst_ip ← ipv4_at packet 16;
  identification ← be16_at packet 4;
  eid ← be16_at icmp 4;
  eseq ← be16_at icmp 6;
  seg ← slice packet hlen total_len;
  Ok (Some {| icmp_src_ip := src_ip; icmp_dst_ip := dst_ip; icmp_identification := identification;
              echo_identifier := eid; echo_sequence := eseq; icmp_segment := seg |}).

(** ** Builders *)

Inductive BuildError := ResponseTooLarge | IcmpSegmentTooShort.

Definition build_ipv4_udp_packet (src_ip dst_ip : Ipv4Addr) (src_port dst_port identification : Z)
    (payload : list Z) : outcome BuildError (list Z) :=
  let ip_hlen := 20%nat in
  let total_len := (ip_hlen + 8 + length payload)%nat in
  return_if bool_decide (65535 < Z.of_nat total_len) with Err ResponseTooLarge ;;
  let udp_len := cast_u 16 (Z.of_nat (8 + length payload)) in
  let pkt := replicate total_len 0 in
  pkt ← store pkt 0 0x45;
  pkt ← copy_at pkt 2 (be_bytes 2 (cast_u 16 (Z.of_nat total_len)));
  pkt ← copy_at pkt 4 (be_bytes 2 identification);
  pkt ← copy_at pkt 6 (be_bytes 2 0x4000);
  pkt ← store pkt 8 64;
  pkt ← store pkt 9 17;
  pkt ← copy_at pkt 12 (octets src_ip);
  pkt ← copy_at pkt 16 (octets dst_ip);
  pkt ← copy_at pkt 20 (be_bytes 2 src_port);
  pkt ← copy_at pkt 22 (be_bytes 2 dst_port);
  pkt ← copy_at pkt 24 (be_bytes 2 udp_len);
  pkt ← copy_at pkt 28 payload;
  hdr ← slice pkt 0 ip_hlen;
  let ip_cksum := ipv4_checksum hdr in
  pkt ← copy_at pkt 10 (be_bytes 2 ip_cksum);
  seg ← slice_from pkt 20;
  let udp_cksum := tcp_udp_checksum_ipv4 src_ip dst_ip 17 seg in
  copy_at pkt 26 (be_bytes 2 udp_cksum).

Definition build_ipv4_icmp_packet (src_ip dst_ip : Ipv4Addr) (identification : Z)
    (segment : list Z) : outcome BuildError (list Z) :=
  let ip_hlen := 20%nat in
  return_if bool_decide (length segment < 8)%nat with Err IcmpSegmentTooShort ;;
  let total_len := (ip_hlen + length segment)%nat in
  return_if bool_decide (65535 < Z.of_nat total_len) with Err ResponseTooLarge ;;
  let pkt := replicate total_len 0 in
  pkt ← store pkt 0 0x45;
  pkt ← copy_at pkt 2 (be_bytes 2 (cast_u 16 (Z.of_nat total_len)));
  pkt ← copy_at pkt 4 (be_bytes 2 identification);
  pkt ← copy_at pkt 6 (be_bytes 2 0x4000);
  pkt ← store pkt 8 64;
  pkt ← store pkt 9 1;
  pkt ← copy_at pkt 12 (octets src_ip);
  pkt ← copy_at pkt 16 (octets dst_ip);
  pkt ← copy_at pkt ip_hlen segment;
  pkt ← copy_at pkt (ip_hlen + 2) [0; 0];
  seg ← slice_from pkt ip_hlen;
  let ck := ones_complement_sum seg in
  pkt ← copy_at pkt (ip_hlen + 2) (be_bytes 2 ck);
  hdr ← slice pkt 0 ip_hlen;
  let ip_cksum := ipv4_checksum hdr in
  copy_at pkt 10 (be_bytes 2 ip_cksum).

(** The rewriting of an echo reply inside [forward_icmp]: the caller's identifier goes back in. *)
Definition restore_echo_reply (echo_id : Z) (reply : list Z) : panicky (option (list Z)) :=
  return_if bool_decide (length reply < 8)%nat with Ok None ;;
  b0 ← index reply 0;
  return_if negb (b0 =? 0) with Ok None ;;
  seg ← copy_at reply 4 (be_bytes 2 echo_id);
  seg ← copy_at seg 2 [0; 0];
  let ck := ones_complement_sum seg in
  seg ← copy_at seg 2 (be_bytes 2 ck);
  Ok (Some seg).

(** A well-formed address. *)
Definition ip_ok (ip : Ipv4Addr) : Prop := bytes_ok (octets ip).

(** * Lemmas *)

Arguments be16_at : simpl never.
Arguments ipv4_at : simpl never.
Arguments index : simpl never.

(** ** Reads in range *)

Lemma ipv4_at_ok {E} (s : list Z) i :
  (i + 3 < length s)%nat ->
  @ipv4_at E s i = Ok (s !!! i, s !!! S i, s !!! S (S i), s !!! S (S (S i))).
Proof. intros. unfold ipv4_at. rewrite !index_lt by lia. done. Qed.

(** Walks through a parser: every access is shown to be in range, every guard is split. *)
Ltac parse_step :=
  first [ rewrite index_lt by (rewrite ?length_drop; lia)
        | rewrite be16_at_ok by (rewrite ?length_drop; lia)
        | rewrite ipv4_at_ok by lia
        | rewrite slice_from_ok by lia
        | rewrite slice_ok by (rewrite ?length_drop; lia)
        | case_bool_decide
        | case_match ]; cbn [mbind outcome_bind orb negb].

Lemma parse_tcp_header_no_panic pkt : no_panic (parse_tcp_header pkt).
Proof. unfold no_panic, parse_tcp_header. repeat parse_step; done. Qed.

Lemma parse_ipv4_tcp_tuple_flags_no_panic pkt : no_panic (parse_ipv4_tcp_tuple_flags pkt).
Proof. unfold no_panic, parse_ipv4_tcp_tuple_flags. repeat parse_step; done. Qed.

Lemma parse_ipv4_udp_packet_no_panic pkt : no_panic (parse_ipv4_udp_packet pkt).
Proof. unfold no_panic, parse_ipv4_udp_packet. repeat parse_step; done. Qed.

Lemma parse_ipv4_icmp_echo_packet_no_panic pkt : no_panic (parse_ipv4_icmp_echo_packet pkt).
Proof. unfold no_panic, parse_ipv4_icmp_echo_packet. repeat parse_step; done. Qed.

(** The two TCP parsers agree: one is the other with its flags read as "SYN without ACK". *)
Lemma parse_tcp_header_flags pkt :
  parse_tcp_header pkt =
  match parse_ipv4_tcp_tuple_flags pkt with
  | Ok (Some (si, sp, di, dp, fl)) =>
      Ok (Some (si, sp, di, dp, negb (Z.land fl 0x02 =? 0) && (Z.land fl 0x10 =? 0)))
  | Ok None => Ok None
  | Err e => Err e
  | Panic => Panic
  end.
Proof. unfold parse_tcp_header, parse_ipv4_tcp_tuple_flags. repeat parse_step; done. Qed.

(** ** Splitting a packet at its header fields *)

Lemma split_at {A} (l : list A) n :
  (n <= length l)%nat -> exists a b, l = a ++ b /\ length a = n /\ length b = (length l - n)%nat.
Proof.
  intros Hn. exists (take n l), (drop n l).
  rewrite take_drop, length_take, length_drop. split_and!; [done | lia | done].
Qed.

Lemma split_packet (pkt : list Z) :
  (20 <= length pkt)%nat ->
  exists f c s d r, pkt = f ++ c ++ s ++ d ++ r /\ length f = 10%nat /\ length c = 2%nat /\
    length s = 4%nat /\ length d = 4%nat /\ length r = (length pkt - 20)%nat.
Proof.
  intros Hl. destruct (split_at pkt 10) as (f & p1 & -> & Hf & H1); [lia|].
  destruct (split_at p1 2) as (c & p2 & -> & Hc & H2); [lia|].
  destruct (split_at p2 4) as (s & p3 & -> & Hs & H3); [lia|].
  destruct (split_at p3 4) as (d & r & -> & Hd & H4); [lia|].
  exists f, c, s, d, r. rewrite !length_app in *. split_and!; try done. lia.
Qed.

(** The field writes of the rewriting functions, on the split packet. *)
Lemma write_dst {E} (f c s d r d' : list Z) :
  length f = 10%nat -> length c = 2%nat -> length s = 4%nat -> length d = 4%nat ->
  length d' = 4%nat -> @copy_at E Z (f ++ c ++ s ++ d ++ r) 16 d' = Ok (f ++ c ++ s ++ d' ++ r).
Proof.
  intros. replace (f ++ c ++ s ++ d ++ r) with ((f ++ c ++ s) ++ d ++ r) by by rewrite <- !app_assoc.
  rewrite copy_at_app; [by rewrite <- !app_assoc | rewrite !length_app; lia | lia].
Qed.

Lemma write_src {E} (f c s d r s' : list Z) :
  length f = 10%nat -> length c = 2%nat -> length s = 4%nat -> length s' = 4%nat ->
  @copy_at E Z (f ++ c ++ s ++ d ++ r) 12 s' = Ok (f ++ c ++ s' ++ d ++ r).
Proof.
  intros. replace (f ++ c ++ s ++ d ++ r) with ((f ++ c) ++ s ++ d ++ r) by by rewrite <- !app_assoc.
  rewrite copy_at_app; [by rewrite <- !app_assoc | rewrite !length_app; lia | lia].
Qed.

Lemma write_csum {E} (f c r c' : list Z) :
  length f = 10%nat -> length c = 2%nat -> length c' = 2%nat ->
  @copy_at E Z (f ++ c ++ r) 10 c' = Ok (f ++ c' ++ r).
Proof. intros. apply copy_at_app; lia. Qed.

Lemma take_header (f c s d r : list Z) ihl :
  length f = 10%nat -> length c = 2%nat -> length s = 4%nat -> length d = 4%nat ->
  (20 <= ihl)%nat -> take ihl (f ++ c ++ s ++ d ++ r) = f ++ c ++ s ++ d ++ take (ihl - 20) r.
Proof.
  intros Hf Hc Hs Hd H1. replace ihl with (length (f ++ c ++ s ++ d) + (ihl - 20))%nat at 1
    by (rewrite !length_app; lia).
  replace (f ++ c ++ s ++ d ++ r) with ((f ++ c ++ s ++ d) ++ r) by by rewrite <- !app_assoc.
  rewrite take_app_add. by rewrite <- !app_assoc.
Qed.

Lemma slice_header {E} (f c s d r : list Z) ihl :
  length f = 10%nat -> length c = 2%nat -> length s = 4%nat -> length d = 4%nat ->
  (20 <= ihl)%nat -> (ihl <= 20 + length r)%nat ->
  @slice E Z (f ++ c ++ s ++ d ++ r) 0 ihl = Ok (f ++ c ++ s ++ d ++ take (ihl - 20) r).
Proof.
  intros Hf Hc Hs Hd H1 H2. rewrite slice_ok by (rewrite ?length_app; lia).
  rewrite drop_0, Nat.sub_0_r. by rewrite take_header.
Qed.

(** The header checksum written over a zeroed field verifies. *)
Lemma header_checksum_valid (f g : list Z) :
  length f = 10%nat -> bytes_ok f -> bytes_ok g -> len g <= 65535 ->
  checksum_valid (f ++ be_bytes 2 (ipv4_checksum (f ++ [0; 0] ++ g)) ++ g).
Proof.
  intros Hf Hbf Hbg Hl. apply checksum_field; try done.
  - rewrite Hf. by exists 5%nat.
  - unfold CHECKSUM_MAX_LEN. lia.
Qed.

(** ** Inbound rewriting *)

Lemma rewrite_dst_split f c s d r b0 f' :
  f = b0 :: f' -> length f = 10%nat -> length c = 2%nat -> length s = 4%nat -> length d = 4%nat ->
  Z.shiftr b0 4 = 4 -> (20 <= ihl_of b0 * 4)%nat -> (ihl_of b0 * 4 <= 20 + length r)%nat ->
  rewrite_dst_ip_inbound (f ++ c ++ s ++ d ++ r) =
  Ok (Some (f ++
    be_bytes 2 (ipv4_checksum (f ++ [0; 0] ++ s ++ SMOLTCP_IP_ARRAY ++ take (ihl_of b0 * 4 - 20) r))
    ++ s ++ SMOLTCP_IP_ARRAY ++ r)).
Proof.
  intros Hf Hlf Hc Hs Hd Hv H1 H2. unfold rewrite_dst_ip_inbound.
  rewrite bool_decide_eq_false_2 by (rewrite !length_app; lia).
  assert (Hi : forall c' t, @index Empty_set Z (f ++ c' ++ t) 0 = Ok b0) by by subst f.
  rewrite Hi. cbn [mbind outcome_bind]. rewrite Hv. cbn [Z.eqb negb Pos.eqb].
  rewrite write_dst by done. cbn [mbind outcome_bind]. rewrite Hi. cbn [mbind outcome_bind].
  rewrite write_csum by done. cbn [mbind outcome_bind].
  rewrite slice_header by done. cbn [mbind outcome_bind].
  rewrite write_csum by (done || apply length_be_bytes). done.
Qed.

(** The last read of the header is the only one that can fail. *)
Lemma rewrite_dst_panic_split f c s d r b0 f' :
  f = b0 :: f' -> length f = 10%nat -> length c = 2%nat -> length s = 4%nat -> length d = 4%nat ->
  Z.shiftr b0 4 = 4 ->
  (rewrite_dst_ip_inbound (f ++ c ++ s ++ d ++ r) = Panic <-> (20 + length r < ihl_of b0 * 4)%nat).
Proof.
  intros Hf Hlf Hc Hs Hd Hv. unfold rewrite_dst_ip_inbound.
  rewrite bool_decide_eq_false_2 by (rewrite !length_app; lia).
  assert (Hi : forall c' t, @index Empty_set Z (f ++ c' ++ t) 0 = Ok b0) by by subst f.
  rewrite Hi. cbn [mbind outcome_bind]. rewrite Hv. cbn [Z.eqb negb Pos.eqb].
  rewrite write_dst by done. cbn [mbind outcome_bind]. rewrite Hi. cbn [mbind outcome_bind].
  rewrite write_csum by done. cbn [mbind outcome_bind]. unfold slice at 1.
  case_decide as Hdec; rewrite !length_app in Hdec; cbn [length SMOLTCP_IP_ARRAY] in Hdec;
    cbn [mbind outcome_bind].
  - rewrite write_csum by (done || apply length_be_bytes). split; [done | lia].
  - split; [lia | done].
Qed.

(** ** Transport checksums *)

Lemma pad_ok {A} (b : bool) (x : A) (P : A -> Prop) : P x -> Forall P (if b then [x] else []).
Proof. intros. destruct b; repeat constructor; done. Qed.

Lemma zero_byte_ok b : is_byte b -> bytes_ok [0; b].
Proof. intros. by repeat apply Forall_cons_2. Qed.

Lemma tcp_udp_checksum_range src dst proto seg : in_u 16 (tcp_udp_checksum_ipv4 src dst proto seg).
Proof.
  unfold tcp_udp_checksum_ipv4. case_match; [unfold in_u; lia | apply ones_complement_sum_range].
Qed.

(** Zero is never sent, it would mean "no checksum". *)
Lemma tcp_udp_checksum_pos src dst proto seg : 0 < tcp_udp_checksum_ipv4 src dst proto seg.
Proof.
  unfold tcp_udp_checksum_ipv4. destruct (Z.eqb_spec (ones_complement_sum
    (pseudo_packet src dst proto seg)) 0); [done|].
  pose proof (ones_complement_sum_range (pseudo_packet src dst proto seg)). unfold in_u in *. lia.
Qed.

Lemma tcp_udp_checksum_congr src dst proto seg :
  tcp_udp_checksum_ipv4 src dst proto seg mod 65535 =
  ones_complement_sum (pseudo_packet src dst proto seg) mod 65535.
Proof.
  unfold tcp_udp_checksum_ipv4. destruct (Z.eqb_spec (ones_complement_sum
    (pseudo_packet src dst proto seg)) 0) as [->|]; done.
Qed.

(** A segment whose two-byte field at an even offset is filled with the transport checksum verifies
    together with its pseudo header. *)
Lemma transport_checksum_valid src dst proto x y :
  ip_ok src -> ip_ok dst -> is_byte proto -> bytes_ok x -> bytes_ok y ->
  Nat.Even (length x) -> len x + 2 + len y <= 65535 ->
  checksum_valid (pseudo_packet src dst proto
    (x ++ be_bytes 2 (tcp_udp_checksum_ipv4 src dst proto (x ++ [0; 0] ++ y)) ++ y)).
Proof.
  intros Hs Hd Hp Hx Hy He Hlen.
  set (c := tcp_udp_checksum_ipv4 src dst proto (x ++ [0; 0] ++ y)).
  set (pre := octets src ++ octets dst ++ [0; proto] ++ be_bytes 2 (cast_u 16 (len x + 2 + len y))).
  set (pad := if Nat.odd (length x + (2 + length y)) then [0] else []).
  assert (Hform : forall m, length m = 2%nat ->
    pseudo_packet src dst proto (x ++ m ++ y) = (pre ++ x) ++ m ++ y ++ pad).
  { intros m Hm. unfold pseudo_packet, pre, pad. rewrite !length_app, Hm, <- !app_assoc.
    do 6 f_equal. lia. }
  assert (Hpre : length pre = 12%nat) by
    (unfold pre; destruct src as [[[? ?] ?] ?], dst as [[[? ?] ?] ?];
     rewrite !length_app, length_be_bytes; done).
  assert (Hpreok : bytes_ok pre).
  { unfold pre. rewrite !Forall_app. split_and!; try done; [by apply zero_byte_ok|apply be_bytes_ok]. }
  assert (Hpadok : bytes_ok (y ++ pad)) by
    (rewrite Forall_app; split; [done | by apply pad_ok]).
  assert (Hpad : (length pad <= 1)%nat) by (unfold pad; case_match; simpl; lia).
  rewrite Hform by apply length_be_bytes.
  apply checksum_field_congr.
  - rewrite length_app, Hpre. destruct He as [k ->]. exists (6 + k)%nat. lia.
  - by rewrite Forall_app.
  - done.
  - rewrite !length_app, Hpre. unfold CHECKSUM_MAX_LEN. lia.
  - pose proof (word_sum_nonneg _ Hpadok). pose proof (tcp_udp_checksum_pos src dst proto
      (x ++ [0; 0] ++ y)). assert (Hpx : bytes_ok (pre ++ x)) by by rewrite Forall_app.
    pose proof (word_sum_nonneg _ Hpx). unfold c. lia.
  - apply tcp_udp_checksum_range.
  - unfold c. by rewrite tcp_udp_checksum_congr, (Hform [0; 0]).
Qed.

(** ** Outbound rewriting *)

(** The ten bytes before the header checksum, by field. *)
Definition front (b0 tos t0 t1 i0 i1 g0 g1 ttl proto : Z) : list Z :=
  [b0; tos; t0; t1; i0; i1; g0; g1; ttl; proto].

Lemma ipv4_at_octets {E} (l r : list Z) ip i :
  i = length l -> @ipv4_at E (l ++ octets ip ++ r) i = Ok ip.
Proof.
  intros ->. destruct ip as [[[a b] c] d]. unfold ipv4_at, index.
  assert (H : forall k, (l ++ octets (a, b, c, d) ++ r) !! (k + length l)%nat =
    (octets (a, b, c, d) ++ r) !! k) by (intros k; rewrite lookup_app_r by lia; f_equal; lia).
  pose proof (H 0%nat) as H0. pose proof (H 1%nat) as H1.
  pose proof (H 2%nat) as H2. pose proof (H 3%nat) as H3. simpl in *.
  by rewrite H0, H1, H2, H3.
Qed.

Lemma fix_transport_ok src dst proto x m y :
  length m = 2%nat ->
  fix_transport src dst proto (length x) (x ++ m ++ y) =
  Ok (x ++ be_bytes 2 (tcp_udp_checksum_ipv4 src dst proto (x ++ [0; 0] ++ y)) ++ y).
Proof.
  intros Hm. unfold fix_transport. rewrite (copy_at_app x m y [0; 0]) by done.
  cbn [mbind outcome_bind]. by rewrite copy_at_app by (done || by rewrite length_be_bytes).
Qed.

Definition transport_field (proto : Z) : nat := if proto =? 6 then 16 else 6.
Definition transport_min (proto : Z) : nat := if proto =? 6 then 20 else 8.

Lemma octets_length ip : length (octets ip) = 4%nat.
Proof. by destruct ip as [[[? ?] ?] ?]. Qed.

(** The transport part of an outbound packet, once the header is done. *)
Lemma transport_rewrite (h opt x m y trail : list Z) src dst proto ihl total :
  proto = 6 \/ proto = 17 -> length x = transport_field proto -> length m = 2%nat ->
  (transport_min proto <= length (x ++ m ++ y))%nat ->
  ihl = length (h ++ opt) -> total = (ihl + length (x ++ m ++ y))%nat ->
  let pkt := h ++ opt ++ (x ++ m ++ y) ++ trail in
  (transport ← slice pkt ihl total;
   if (proto =? 6) && bool_decide (20 <= length transport)%nat then
     transport ← fix_transport src dst 6 16 transport; copy_at pkt ihl transport
   else if (proto =? 17) && bool_decide (8 <= length transport)%nat then
     transport ← fix_transport src dst 17 6 transport; copy_at pkt ihl transport
   else Ok pkt) =
  Ok (h ++ opt ++
      (x ++ be_bytes 2 (tcp_udp_checksum_ipv4 src dst proto (x ++ [0; 0] ++ y)) ++ y) ++ trail).
Proof.
  intros Hproto Hx Hm Hmin Hihl Htot pkt. unfold pkt.
  replace (h ++ opt ++ (x ++ m ++ y) ++ trail) with ((h ++ opt) ++ (x ++ m ++ y) ++ trail)
    by by rewrite <- !app_assoc.
  rewrite slice_app by (done || lia). cbn [mbind outcome_bind].
  assert (Hend : (transport ← fix_transport src dst proto (transport_field proto) (x ++ m ++ y);
                  copy_at ((h ++ opt) ++ (x ++ m ++ y) ++ trail) ihl transport) =
    Ok (h ++ opt ++
      (x ++ be_bytes 2 (tcp_udp_checksum_ipv4 src dst proto (x ++ [0; 0] ++ y)) ++ y) ++ trail)).
  { rewrite <- Hx, fix_transport_ok by done. cbn [mbind outcome_bind].
    rewrite copy_at_app; [by rewrite <- !app_assoc | done |].
    rewrite !length_app, length_be_bytes. lia. }
  destruct Hproto as [-> | ->]; cbn [Z.eqb Pos.eqb andb];
    rewrite bool_decide_eq_true_2 by exact Hmin; exact Hend.
Qed.

Lemma rewrite_src_split b0 tos t0 t1 i0 i1 g0 g1 ttl proto c s dst opt x m y trail src :
  let f := front b0 tos t0 t1 i0 i1 g0 g1 ttl proto in
  length c = 2%nat -> length s = 4%nat -> length opt = (ihl_of b0 * 4 - 20)%nat ->
  (20 <= ihl_of b0 * 4)%nat -> proto = 6 \/ proto = 17 ->
  length x = transport_field proto -> length m = 2%nat ->
  (transport_min proto <= length (x ++ m ++ y))%nat ->
  be_val [t0; t1] = Z.of_nat (ihl_of b0 * 4 + length (x ++ m ++ y)) ->
  rewrite_src_ip_outbound (f ++ c ++ s ++ octets dst ++ opt ++ (x ++ m ++ y) ++ trail) src =
  Ok (f ++ be_bytes 2 (ipv4_checksum (f ++ [0; 0] ++ octets src ++ octets dst ++ opt)) ++
      octets src ++ octets dst ++ opt ++
      (x ++ be_bytes 2 (tcp_udp_checksum_ipv4 src dst proto (x ++ [0; 0] ++ y)) ++ y) ++ trail).
Proof.
  intros f Hc Hs Ho Hihl Hproto Hx Hm Hmin Htot. unfold rewrite_src_ip_outbound.
  set (tr := x ++ m ++ y) in *.
  rewrite bool_decide_eq_false_2 by (rewrite !length_app, octets_length; simpl; lia).
  assert (Hi : forall t, @index Empty_set Z (f ++ t) 0 = Ok b0) by done.
  rewrite Hi. cbn [mbind outcome_bind]. rewrite write_src by (done || apply octets_length).
  cbn [mbind outcome_bind]. rewrite write_csum by done. cbn [mbind outcome_bind].
  rewrite slice_header by (done || apply octets_length || rewrite ?length_app; lia).
  cbn [mbind outcome_bind].
  rewrite <- Ho, take_app_length. set (ck := be_bytes 2 (ipv4_checksum _)).
  assert (Hck : length ck = 2%nat) by apply length_be_bytes.
  rewrite write_csum by done. cbn [mbind outcome_bind].
  change (index (f ++ ck ++ octets src ++ octets dst ++ opt ++ tr ++ trail) 9)
    with (@Ok Empty_set Z proto). cbn [mbind outcome_bind].
  assert (H12 : forall t, @ipv4_at Empty_set (f ++ ck ++ octets src ++ t) 12 = Ok src).
  { intros t. rewrite app_assoc. apply ipv4_at_octets. by rewrite length_app, Hck. }
  assert (H16 : forall t, @ipv4_at Empty_set (f ++ ck ++ octets src ++ octets dst ++ t) 16 = Ok dst).
  { intros t. rewrite (app_assoc ck), (app_assoc f). apply ipv4_at_octets.
    by rewrite !length_app, Hck, octets_length. }
  rewrite H12. cbn [mbind outcome_bind]. rewrite H16. cbn [mbind outcome_bind].
  change (be16_at (f ++ ck ++ octets src ++ octets dst ++ opt ++ tr ++ trail) 2)
    with (@Ok Empty_set Z (be_val [t0; t1])). cbn [mbind outcome_bind]. rewrite Htot, Nat2Z.id.
  rewrite bool_decide_eq_false_2
    by (rewrite !length_app, Hck, !octets_length; simpl length; lia).
  replace (f ++ ck ++ octets src ++ octets dst ++ opt ++ tr ++ trail)
    with ((f ++ ck ++ octets src ++ octets dst) ++ opt ++ tr ++ trail) by by rewrite <- !app_assoc.
  etransitivity; [apply transport_rewrite; try done|].
  - rewrite !length_app, Hck, !octets_length. simpl length. lia.
  - by rewrite <- !app_assoc.
Qed.

(** ** Builders *)

(** The header the builders write, before the checksum. *)
Definition built_front (total id proto : Z) : list Z :=
  [0x45; 0] ++ be_bytes 2 total ++ be_bytes 2 id ++ [0x40; 0; 64; proto].

Lemma built_front_length total id proto : length (built_front total id proto) = 10%nat.
Proof. unfold built_front. by rewrite !length_app, !length_be_bytes. Qed.

Lemma built_front_ok total id proto : is_byte proto -> bytes_ok (built_front total id proto).
Proof.
  intros Hp. unfold built_front. rewrite !Forall_app.
  split_and!; try apply be_bytes_ok; by repeat apply Forall_cons_2.
Qed.

Lemma ip_writes {E A} total id proto src dst r (K : list Z -> outcome E A) :
  (pkt ← store (replicate 20 0 ++ r) 0 0x45;
   pkt ← copy_at pkt 2 (be_bytes 2 total);
   pkt ← copy_at pkt 4 (be_bytes 2 id);
   pkt ← copy_at pkt 6 (be_bytes 2 0x4000);
   pkt ← store pkt 8 64;
   pkt ← store pkt 9 proto;
   pkt ← copy_at pkt 12 (octets src);
   pkt ← copy_at pkt 16 (octets dst); K pkt) =
  K (built_front total id proto ++ [0; 0] ++ octets src ++ octets dst ++ r).
Proof.
  unfold built_front. rewrite !be_bytes_2. change ((0x4000 / 256) mod 256) with 0x40.
  change (0x4000 mod 256) with 0. generalize ((total / 256) mod 256), (total mod 256).
  generalize ((id / 256) mod 256), (id mod 256). intros a b a' b'.
  destruct src as [[[s1 s2] s3] s4], dst as [[[d1 d2] d3] d4]. simpl.
  by rewrite !drop_0.
Qed.

Lemma udp_writes {E A} h sp dp ul z payload (K : list Z -> outcome E A) :
  length h = 20%nat -> length z = length payload ->
  (pkt ← copy_at (h ++ replicate 8 0 ++ z) 20 (be_bytes 2 sp);
   pkt ← copy_at pkt 22 (be_bytes 2 dp);
   pkt ← copy_at pkt 24 (be_bytes 2 ul);
   pkt ← copy_at pkt 28 payload; K pkt) =
  K (h ++ (be_bytes 2 sp ++ be_bytes 2 dp ++ be_bytes 2 ul) ++ [0; 0] ++ payload).
Proof.
  intros Hh Hz. change (replicate 8 0) with ([0; 0] ++ [0; 0] ++ [0; 0] ++ [0; 0]).
  assert (H2 : forall x, length (be_bytes 2 x) = 2%nat) by (intros; apply length_be_bytes).
  rewrite <- !app_assoc.
  rewrite (copy_at_app h [0; 0]) by (rewrite ?H2; done). cbn [mbind outcome_bind].
  rewrite (app_assoc h), (copy_at_app (h ++ _) [0; 0]) by (rewrite ?length_app, ?H2; simpl; lia).
  cbn [mbind outcome_bind].
  rewrite (app_assoc (h ++ _)), (copy_at_app ((h ++ _) ++ _) [0; 0])
    by (rewrite ?length_app, ?H2; simpl; lia).
  cbn [mbind outcome_bind]. rewrite <- (app_nil_r z).
  rewrite !app_assoc, <- (app_assoc _ z), copy_at_app by (rewrite ?length_app, ?H2; simpl; lia).
  cbn [mbind outcome_bind]. by rewrite app_nil_r, <- !app_assoc.
Qed.

Lemma build_udp_ok src dst sp dp id payload :
  28 + len payload <= 65535 ->
  let total := 28 + len payload in
  let seg := be_bytes 2 sp ++ be_bytes 2 dp ++ be_bytes 2 (8 + len payload) in
  build_ipv4_udp_packet src dst sp dp id payload =
  Ok (built_front total id 17 ++
      be_bytes 2 (ipv4_checksum (built_front total id 17 ++ [0; 0] ++ octets src ++ octets dst)) ++
      octets src ++ octets dst ++
      (seg ++ be_bytes 2 (tcp_udp_checksum_ipv4 src dst 17 (seg ++ [0; 0] ++ payload)) ++ payload)).
Proof.
  intros Hlen total seg. unfold build_ipv4_udp_packet.
  rewrite bool_decide_eq_false_2 by lia.
  rewrite (cast_u_small 16 (Z.of_nat (20 + 8 + length payload))) by (unfold in_u; lia).
  rewrite (cast_u_small 16 (Z.of_nat (8 + length payload))) by (unfold in_u; lia).
  replace (Z.of_nat (20 + 8 + length payload)) with total by lia.
  replace (Z.of_nat (8 + length payload)) with (8 + len payload) by lia.
  rewrite <- Nat.add_assoc, replicate_add, replicate_add.
  etransitivity; [apply ip_writes|].
  set (fr := built_front total id 17). pose proof (built_front_length total id 17 : length fr = _) as Hfr.
  replace (fr ++ [0; 0] ++ octets src ++ octets dst ++ replicate 8 0 ++ replicate (length payload) 0)
    with ((fr ++ [0; 0] ++ octets src ++ octets dst) ++ replicate 8 0 ++ replicate (length payload) 0)
    by by rewrite <- !app_assoc.
  etransitivity; [apply udp_writes; [by rewrite !length_app, Hfr, !octets_length
                                    | apply length_replicate]|].
  fold seg. rewrite <- !app_assoc.
  clearbody fr.
  rewrite (slice_header fr [0; 0] (octets src) (octets dst))
    by first [assumption | apply octets_length | reflexivity | lia].
  cbn [mbind outcome_bind]. change (20 - 20)%nat with 0%nat. rewrite take_0, app_nil_r.
  set (ck := be_bytes 2 (ipv4_checksum _)). assert (Hck : length ck = 2%nat) by apply length_be_bytes.
  rewrite write_csum by done. cbn [mbind outcome_bind].
  replace (fr ++ ck ++ octets src ++ octets dst ++ seg ++ [0; 0] ++ payload)
    with ((fr ++ ck ++ octets src ++ octets dst) ++ seg ++ [0; 0] ++ payload)
    by by rewrite <- !app_assoc.
  assert (Hh : length (fr ++ ck ++ octets src ++ octets dst) = 20%nat)
    by by rewrite !length_app, Hfr, Hck, !octets_length.
  rewrite slice_from_ok by (rewrite length_app; lia). cbn [mbind outcome_bind].
  rewrite (drop_app_length' (fr ++ ck ++ octets src ++ octets dst) _ 20) by done.
  rewrite app_assoc.
  rewrite copy_at_app; [by rewrite <- !app_assoc | | by rewrite length_be_bytes].
  rewrite length_app, Hh. unfold seg. by rewrite !length_app, !length_be_bytes.
Qed.

Lemma build_icmp_ok src dst id a m y :
  length a = 2%nat -> length m = 2%nat -> (4 <= length y)%nat -> 24 + len y <= 65535 ->
  build_ipv4_icmp_packet src dst id (a ++ m ++ y) =
  Ok (built_front (24 + len y) id 1 ++
      be_bytes 2 (ipv4_checksum (built_front (24 + len y) id 1 ++ [0; 0] ++ octets src ++ octets dst)) ++
      octets src ++ octets dst ++
      (a ++ be_bytes 2 (ones_complement_sum (a ++ [0; 0] ++ y)) ++ y)).
Proof.
  intros Ha Hm Hy Hlen. unfold build_ipv4_icmp_packet.
  assert (Hl : length (a ++ m ++ y) = (4 + length y)%nat) by (rewrite !length_app; lia).
  rewrite !bool_decide_eq_false_2 by lia.
  rewrite (cast_u_small 16) by (unfold in_u; lia).
  replace (Z.of_nat (20 + length (a ++ m ++ y))) with (24 + len y) by lia.
  rewrite replicate_add. etransitivity; [apply ip_writes|].
  set (fr := built_front (24 + len y) id 1).
  pose proof (built_front_length (24 + len y) id 1 : length fr = _) as Hfr. clearbody fr.
  set (z := replicate _ 0). assert (Hz : length z = length (a ++ m ++ y)) by apply length_replicate.
  clearbody z. set (h := fr ++ [0; 0] ++ octets src ++ octets dst).
  assert (Hh : length h = 20%nat) by (unfold h; by rewrite !length_app, Hfr, !octets_length).
  replace (fr ++ [0; 0] ++ octets src ++ octets dst ++ z) with (h ++ z ++ [])
    by (unfold h; by rewrite app_nil_r, <- !app_assoc).
  rewrite copy_at_app by done. cbn [mbind outcome_bind]. rewrite app_nil_r.
  rewrite (app_assoc h a), copy_at_app by (done || rewrite length_app; lia).
  cbn [mbind outcome_bind]. rewrite <- (app_assoc h a).
  rewrite slice_from_ok by (rewrite length_app; lia). cbn [mbind outcome_bind].
  rewrite drop_app_length' by done. set (ck := be_bytes 2 (ones_complement_sum _)).
  assert (Hck : length ck = 2%nat) by apply length_be_bytes. clearbody ck.
  rewrite (app_assoc h a), copy_at_app by (done || rewrite length_app; lia).
  cbn [mbind outcome_bind]. rewrite <- (app_assoc h a). unfold h. rewrite <- !app_assoc.
  rewrite (slice_header fr [0; 0] (octets src) (octets dst))
    by first [assumption | apply octets_length | reflexivity | lia].
  cbn [mbind outcome_bind]. change (20 - 20)%nat with 0%nat. rewrite take_0, app_nil_r.
  apply write_csum; [done | done | apply length_be_bytes].
Qed.

(** What the parsers read back from a built header. *)
Lemma built_reads {E} total id proto ck src dst r :
  in_u 16 total -> in_u 16 id -> length ck = 2%nat ->
  let pkt := built_front total id proto ++ ck ++ octets src ++ octets dst ++ r in
  @index E Z pkt 0 = Ok 0x45 /\ @index E Z pkt 9 = Ok proto /\ @be16_at E pkt 2 = Ok total /\
  @be16_at E pkt 4 = Ok id /\ @be16_at E pkt 6 = Ok 0x4000 /\ @ipv4_at E pkt 12 = Ok src /\
  @ipv4_at E pkt 16 = Ok dst /\ @slice_from E Z pkt 20 = Ok r /\ length pkt = (20 + length r)%nat.
Proof.
  intros Ht Hid Hck pkt.
  pose proof (be_val_bytes_small 2 total Ht) as Htv. pose proof (be_val_bytes_small 2 id Hid) as Hidv.
  pose proof (built_front_length total id proto) as Hf.
  assert (Hlen : length pkt = (20 + length r)%nat).
  { unfold pkt. rewrite !length_app, Hf, Hck, !octets_length. lia. }
  split_and!; try done.
  - change (be16_at pkt 2) with (@Ok E Z (be_val (be_bytes 2 total))). by rewrite Htv.
  - change (be16_at pkt 4) with (@Ok E Z (be_val (be_bytes 2 id))). by rewrite Hidv.
  - unfold pkt. rewrite app_assoc. apply ipv4_at_octets. by rewrite length_app, Hf, Hck.
  - unfold pkt. rewrite (app_assoc ck), (app_assoc (built_front _ _ _)). apply ipv4_at_octets.
    by rewrite !length_app, Hf, Hck, octets_length.
  - rewrite slice_from_ok by lia. unfold pkt.
    rewrite (app_assoc ck), (app_assoc (ck ++ _)), (app_assoc (built_front _ _ _)).
    by rewrite drop_app_length' by by rewrite !length_app, Hf, Hck, !octets_length.
Qed.

(** A well-formed UDP datagram as the parser returns it. *)
Definition udp_ok (u : Ipv4UdpPacket) : Prop :=
  ip_ok (udp_src_ip u) /\ ip_ok (udp_dst_ip u) /\ in_u 16 (udp_src_port u) /\
  in_u 16 (udp_dst_port u) /\ in_u 16 (udp_identification u) /\ bytes_ok (udp_payload u) /\
  28 + len (udp_payload u) <= 65535.

Lemma restore_echo_ok eid a m e y :
  length a = 2%nat -> length m = 2%nat -> length e = 2%nat -> (2 <= length y)%nat ->
  a !! 0%nat = Some 0 ->
  restore_echo_reply eid (a ++ m ++ e ++ y) =
  Ok (Some (a ++ be_bytes 2 (ones_complement_sum (a ++ [0; 0] ++ be_bytes 2 eid ++ y)) ++
            be_bytes 2 eid ++ y)).
Proof.
  intros Ha Hm He Hy Ha0. unfold restore_echo_reply.
  rewrite bool_decide_eq_false_2 by (rewrite !length_app; lia).
  assert (Hi : @index Empty_set Z (a ++ m ++ e ++ y) 0 = Ok 0).
  { unfold index. rewrite lookup_app_l by lia. by rewrite Ha0. }
  rewrite Hi. cbn [mbind outcome_bind Z.eqb negb].
  rewrite (app_assoc a m), copy_at_app
    by (rewrite ?length_app, ?length_be_bytes; lia). cbn [mbind outcome_bind].
  rewrite <- (app_assoc a m), copy_at_app by (rewrite ?length_be_bytes; simpl; lia).
  cbn [mbind outcome_bind]. rewrite copy_at_app by (rewrite ?length_be_bytes; simpl; lia). done.
Qed.

(** A packet whose ICMP type is not 8 is not an echo request. *)
Lemma parse_icmp_not_request total id src dst ck seg :
  in_u 16 total -> in_u 16 id -> length ck = 2%nat -> (8 <= length seg)%nat ->
  seg !! 0%nat = Some 0 ->
  parse_ipv4_icmp_echo_packet
    (built_front total id 1 ++ ck ++ octets src ++ octets dst ++ seg) = Ok None.
Proof.
  intros Ht Hid Hck Hl H0.
  destruct (built_reads (E := Empty_set) total id 1 ck src dst seg)
    as (R0 & R9 & R2 & R4 & R6 & R12 & R16 & Rs & Rl); [done..|].
  unfold parse_ipv4_icmp_echo_packet. case_bool_decide; [done|]. rewrite R0, R9.
  cbn [mbind outcome_bind]. case_match; [done|]. case_bool_decide; [done|].
  rewrite R2. cbn [mbind outcome_bind]. case_bool_decide; [done|].
  rewrite R6. cbn [mbind outcome_bind]. case_match; [done|].
  change (ihl_of 69 * 4)%nat with 20%nat. rewrite Rs. cbn [mbind outcome_bind].
  assert (Hi : @index Empty_set Z seg 0 = Ok 0) by (unfold index; by rewrite H0).
  rewrite Hi, index_lt by lia. done.
Qed.

Lemma rewrite_dst_panic_iff pkt :
  rewrite_dst_ip_inbound pkt = Panic <->
  (20 <= length pkt)%nat /\
  exists b0, pkt !! 0%nat = Some b0 /\ Z.shiftr b0 4 = 4 /\ (length pkt < ihl_of b0 * 4)%nat.
Proof.
  destruct (decide (20 <= length pkt)%nat) as [Hl|Hl].
  - destruct (split_packet pkt Hl) as (f & c & s & d & r & -> & Hf & Hc & Hs & Hd & Hr).
    destruct f as [|b0 f']; [done|]. simpl lookup.
    destruct (Z.eq_dec (Z.shiftr b0 4) 4) as [Hv|Hv].
    + rewrite (rewrite_dst_panic_split _ c s d r b0 f' eq_refl) by done.
      rewrite !length_app in *. simpl length in *. split.
      * intros. split; [lia|]. exists b0. split_and!; [done..|lia].
      * intros (_ & b & [= <-] & _ & ?). lia.
    + split; [|intros (_ & b & [= <-] & ? & _); congruence].
      unfold rewrite_dst_ip_inbound. rewrite bool_decide_eq_false_2 by lia.
      unfold index. simpl. destruct (Z.eqb_spec (Z.shiftr b0 4) 4); done.
  - unfold rewrite_dst_ip_inbound. rewrite bool_decide_eq_true_2 by lia.
    split; [done | intros (? & _); lia].
Qed.

(** * Properties *)

(** None of the packet parsers panics, on any bytes: every index and every slice they use is
    guarded by a length check. *)
Theorem parsers_never_panic (pkt : list Z) :
  no_panic (parse_tcp_header pkt) /\ no_panic (parse_ipv4_tcp_tuple_flags pkt) /\
  no_panic (parse_ipv4_udp_packet pkt) /\ no_panic (parse_ipv4_icmp_echo_packet pkt).
Proof.
  split_and!; auto using parse_tcp_header_no_panic, parse_ipv4_tcp_tuple_flags_no_panic,
    parse_ipv4_udp_packet_no_panic, parse_ipv4_icmp_echo_packet_no_panic.
Qed.

(** A client packet with a complete IPv4 header gets the internal address as its destination and
    a header checksum that verifies; no other byte changes. *)
Theorem rewrite_dst_correct (pkt : list Z) (b0 : Z) :
  bytes_ok pkt -> len pkt <= 65535 -> pkt !! 0%nat = Some b0 -> Z.shiftr b0 4 = 4 ->
  (20 <= ihl_of b0 * 4 <= length pkt)%nat ->
  exists out, rewrite_dst_ip_inbound pkt = Ok (Some out) /\ length out = length pkt /\
    checksum_valid (take (ihl_of b0 * 4) out) /\
    take 10 out = take 10 pkt /\ take 4 (drop 12 out) = take 4 (drop 12 pkt) /\
    take 4 (drop 16 out) = SMOLTCP_IP_ARRAY /\ drop 20 out = drop 20 pkt.
Proof.
  intros Hok Hmax Hb0 Hv [Hi1 Hi2].
  destruct (split_packet pkt) as (f & c & s & d & r & -> & Hf & Hc & Hs & Hd & Hr); [lia|].
  destruct f as [|b f']; [done|]. injection Hb0 as ->.
  assert (Hlen : length r = (length ((b0 :: f') ++ c ++ s ++ d ++ r) - 20)%nat) by done.
  eexists. split; [apply (rewrite_dst_split _ c s d r b0 f' eq_refl); done || lia|].
  set (f := b0 :: f') in *. set (ck := be_bytes 2 _).
  assert (Hck : length ck = 2%nat) by apply length_be_bytes.
  rewrite !Forall_app in Hok. destruct Hok as (Hof & Hoc & Hos & Hod & Hor).
  assert (Hsm : bytes_ok SMOLTCP_IP_ARRAY) by (by repeat apply Forall_cons_2).
  split_and!.
  - rewrite !length_app, Hck, Hc, Hd. done.
  - rewrite take_header by done.
    apply header_checksum_valid; try done.
    + rewrite !Forall_app. split_and!; try done. by apply Forall_take.
    + rewrite !length_app, length_take, Hs. cbn [length SMOLTCP_IP_ARRAY].
      rewrite !length_app in Hmax. lia.
  - by rewrite !take_app_length'.
  - rewrite !(app_assoc f), !drop_app_length', !take_app_length'
      by (rewrite ?length_app; lia). done.
  - rewrite (app_assoc ck), (app_assoc f), drop_app_length', take_app_length'
      by (rewrite ?length_app; cbn [length SMOLTCP_IP_ARRAY]; lia). done.
  - rewrite (app_assoc ck), (app_assoc (ck ++ s)), (app_assoc f), drop_app_length'
      by (rewrite ?length_app; cbn [length SMOLTCP_IP_ARRAY]; lia).
    rewrite (app_assoc c), (app_assoc (c ++ s)), (app_assoc f), drop_app_length'
      by (rewrite ?length_app; cbn [length SMOLTCP_IP_ARRAY]; lia). done.
Qed.

(** A 20-byte header for the witnesses. *)
Definition sample_header (proto total : Z) : list Z :=
  front 0x45 0 (total / 256) (total mod 256) 0 1 0x40 0 64 proto ++ [0; 0] ++ [10; 8; 0; 2] ++ [1; 1; 1; 1].

Lemma rewrite_dst_correct_witness :
  exists out, rewrite_dst_ip_inbound (sample_header 6 20) = Ok (Some out) /\
    checksum_valid (take 20 out).
Proof.
  destruct (rewrite_dst_correct (sample_header 6 20) 0x45) as (out & H1 & _ & H2 & _).
  - repeat constructor; vm_compute; congruence.
  - vm_compute. congruence.
  - reflexivity.
  - reflexivity.
  - vm_compute. lia.
  - exists out. exact (conj H1 H2).
Defined.

(** A TCP or UDP packet on its way to the client (header, options, segment, trailing bytes) gets
    the given source address; its header checksum and its transport checksum, taken with the pseudo
    header, both verify, and everything outside these fields is unchanged. *)
Theorem rewrite_src_correct b0 tos t0 t1 i0 i1 g0 g1 ttl proto (c s : list Z) (dst src : Ipv4Addr)
    (opt x m y trail : list Z) :
  let f := front b0 tos t0 t1 i0 i1 g0 g1 ttl proto in
  let seg := x ++ m ++ y in
  bytes_ok (f ++ c ++ s ++ octets dst ++ opt ++ seg ++ trail) -> ip_ok src ->
  length c = 2%nat -> length s = 4%nat -> length opt = (ihl_of b0 * 4 - 20)%nat ->
  (20 <= ihl_of b0 * 4)%nat -> proto = 6 \/ proto = 17 ->
  length x = transport_field proto -> length m = 2%nat ->
  (transport_min proto <= length seg)%nat ->
  be_val [t0; t1] = Z.of_nat (ihl_of b0 * 4 + length seg) ->
  exists ck tck,
    rewrite_src_ip_outbound (f ++ c ++ s ++ octets dst ++ opt ++ seg ++ trail) src =
      Ok (f ++ ck ++ octets src ++ octets dst ++ opt ++ (x ++ tck ++ y) ++ trail) /\
    checksum_valid (f ++ ck ++ octets src ++ octets dst ++ opt) /\
    checksum_valid (pseudo_packet src dst proto (x ++ tck ++ y)) /\
    length ck = 2%nat /\ length tck = 2%nat.
Proof.
  intros f seg Hok Hsrc Hc Hs Ho Hihl Hproto Hx Hm Hmin Htot.
  unfold seg in Hok. rewrite !Forall_app in Hok.
  destruct Hok as (Hof & Hoc & Hos & Hod & Hoo & (Hox & Hom & Hoy) & Hot).
  assert (Htb : be_val [t0; t1] < 65536).
  { unfold f, front in Hof. rewrite !Forall_cons in Hof. unfold is_byte in Hof. rewrite be_val_2. lia. }
  assert (Hlx : (length x + 2 + length y = length seg)%nat) by (unfold seg; rewrite !length_app; lia).
  eexists _, _. split_and!;
    [by apply rewrite_src_split | | | apply length_be_bytes | apply length_be_bytes].
  - assert (Htl : bytes_ok (octets src ++ octets dst ++ opt)) by by rewrite !Forall_app.
    apply header_checksum_valid; try done.
    + rewrite !length_app, !octets_length. lia.
  - apply transport_checksum_valid; try done; try (unfold is_byte; lia).
    rewrite Hx. unfold transport_field. case_match; [by exists 8%nat | by exists 3%nat].
Qed.

Lemma rewrite_src_correct_witness :
  exists ck tck,
    rewrite_src_ip_outbound (sample_header 17 29 ++ [0; 53; 4; 0; 0; 9] ++ [0; 0] ++ [7]) (8, 8, 8, 8) =
      Ok (front 0x45 0 0 29 0 1 0x40 0 64 17 ++ ck ++ [8; 8; 8; 8] ++ [1; 1; 1; 1] ++ [] ++
          ([0; 53; 4; 0; 0; 9] ++ tck ++ [7]) ++ []) /\
    checksum_valid (front 0x45 0 0 29 0 1 0x40 0 64 17 ++ ck ++ [8; 8; 8; 8] ++ [1; 1; 1; 1] ++ []) /\
    checksum_valid (pseudo_packet (8, 8, 8, 8) (1, 1, 1, 1) 17 ([0; 53; 4; 0; 0; 9] ++ tck ++ [7])) /\
    length ck = 2%nat /\ length tck = 2%nat.
Proof.
  apply (rewrite_src_correct 0x45 0 0 29 0 1 0x40 0 64 17 [0; 0] [10; 8; 0; 2] (1, 1, 1, 1) (8, 8, 8, 8)
    [] [0; 53; 4; 0; 0; 9] [0; 0] [7] []); try reflexivity.
  - repeat constructor; vm_compute; congruence.
  - repeat constructor; vm_compute; congruence.
  - vm_compute. lia.
  - right. reflexivity.
Defined.

(** The datagram built for a UDP reply is one the parser accepts and reads back field by field;
    its IP and UDP checksums verify. *)
Theorem udp_build_parse (u : Ipv4UdpPacket) :
  udp_ok u ->
  exists pkt,
    build_ipv4_udp_packet (udp_src_ip u) (udp_dst_ip u) (udp_src_port u) (udp_dst_port u)
      (udp_identification u) (udp_payload u) = Ok pkt /\
    parse_ipv4_udp_packet pkt = Ok (Some u) /\
    checksum_valid (take 20 pkt) /\
    checksum_valid (pseudo_packet (udp_src_ip u) (udp_dst_ip u) 17 (drop 20 pkt)).
Proof.
  destruct u as [src dst sp dp pl id]. intros (Hs & Hd & Hsp & Hdp & Hid & Hpl & Hlen). simpl in *.
  eexists. split; [by apply build_udp_ok|].
  set (total := 28 + len pl). set (sg := be_bytes 2 sp ++ be_bytes 2 dp ++ be_bytes 2 (8 + len pl)).
  set (ck := be_bytes 2 (ipv4_checksum _)). set (uck := be_bytes 2 (tcp_udp_checksum_ipv4 _ _ _ _)).
  assert (Hck : length ck = 2%nat) by apply length_be_bytes.
  assert (Huck : length uck = 2%nat) by apply length_be_bytes.
  assert (Hsg : length sg = 6%nat) by (unfold sg; by rewrite !length_app, !length_be_bytes).
  assert (Hseg : length (sg ++ uck ++ pl) = (8 + length pl)%nat) by (rewrite !length_app; lia).
  assert (Hfo : bytes_ok (built_front total id 17)) by by apply built_front_ok.
  assert (Hoo : bytes_ok (octets src ++ octets dst)) by by rewrite Forall_app.
  split_and!.
  - destruct (built_reads (E := Empty_set) total id 17 ck src dst (sg ++ uck ++ pl))
      as (R0 & R9 & R2 & R4 & R6 & R12 & R16 & Rs & Rl); [unfold in_u; lia | done | done |].
    unfold parse_ipv4_udp_packet. rewrite bool_decide_eq_false_2 by (rewrite Rl; lia).
    rewrite R0, R9. cbn [mbind outcome_bind]. change (ihl_of 69) with 5%nat. simpl orb.
    rewrite bool_decide_eq_false_2 by lia. cbn [orb negb Z.eqb Pos.eqb Nat.mul Nat.add].
    rewrite R2. cbn [mbind outcome_bind].
    rewrite bool_decide_eq_false_2 by (rewrite Rl; lia). rewrite R6. cbn [mbind outcome_bind].
    change (Z.land 0x4000 0x3fff =? 0) with true. cbn [negb].
    rewrite R12, R16, R4, Rs. cbn [mbind outcome_bind].
    assert (Hr : forall k z, in_u 16 z -> 
      k = 0%nat /\ z = sp \/ k = 2%nat /\ z = dp \/ k = 4%nat /\ z = 8 + len pl ->
      @be16_at Empty_set (sg ++ uck ++ pl) k = Ok z).
    { intros k z Hz Hk. rewrite <- (be_val_bytes_small 2 z Hz). unfold sg.
      by destruct Hk as [[-> ->]|[[-> ->]|[-> ->]]]. }
    rewrite (Hr 4%nat (8 + len pl)) by (unfold in_u; lia || tauto). cbn [mbind outcome_bind].
    rewrite bool_decide_eq_false_2 by lia.
    rewrite (Hr 0%nat sp), (Hr 2%nat dp) by (done || tauto). cbn [mbind outcome_bind].
    rewrite slice_ok by (rewrite ?Hseg; lia). cbn [mbind outcome_bind]. do 3 f_equal.
    rewrite app_assoc, drop_app_length' by (rewrite length_app; lia). apply take_ge. lia.
  - rewrite take_header, take_0, app_nil_r
      by (done || apply octets_length || apply built_front_length || lia).
    apply header_checksum_valid; try done.
    + rewrite length_app, !octets_length. lia.
  - rewrite (app_assoc (octets src)), (app_assoc ck), (app_assoc (built_front _ _ _)), drop_app_length'
      by by rewrite !length_app, built_front_length, Hck, !octets_length.
    apply transport_checksum_valid; try done.
    + unfold sg. rewrite !Forall_app. auto using be_bytes_ok.
    + rewrite Hsg. by exists 3%nat.
    + lia.
Qed.

(** A small datagram for the witness. *)
Definition sample_udp : Ipv4UdpPacket :=
  {| udp_src_ip := (8, 8, 8, 8); udp_dst_ip := (10, 8, 0, 2); udp_src_port := 53;
     udp_dst_port := 4000; udp_payload := [1; 2; 3]; udp_identification := 77 |}.

Lemma udp_build_parse_witness :
  exists pkt, build_ipv4_udp_packet (8, 8, 8, 8) (10, 8, 0, 2) 53 4000 77 [1; 2; 3] = Ok pkt /\
    parse_ipv4_udp_packet pkt = Ok (Some sample_udp).
Proof.
  destruct (udp_build_parse sample_udp) as (pkt & H1 & H2 & _).
  - repeat split; try (repeat constructor; vm_compute; congruence); vm_compute; congruence.
  - exists pkt. exact (conj H1 H2).
Defined.

(** An echo reply goes back with the caller's identifier: its ICMP checksum is recomputed and
    verifies, the packet built around it has valid header and ICMP checksums, and a parser that
    expects an echo request does not take it for one. *)
Theorem icmp_reply_correct (src dst : Ipv4Addr) (id eid : Z) (a m e y : list Z) :
  ip_ok src -> ip_ok dst -> in_u 16 id -> in_u 16 eid -> bytes_ok (a ++ m ++ e ++ y) ->
  length a = 2%nat -> length m = 2%nat -> length e = 2%nat -> (2 <= length y)%nat ->
  26 + len y <= 65535 -> a !! 0%nat = Some 0 ->
  exists seg pkt,
    restore_echo_reply eid (a ++ m ++ e ++ y) = Ok (Some seg) /\
    build_ipv4_icmp_packet src dst id seg = Ok pkt /\
    (exists ck, seg = a ++ ck ++ be_bytes 2 eid ++ y /\ length ck = 2%nat) /\
    checksum_valid seg /\ checksum_valid (take 20 pkt) /\ drop 20 pkt = seg /\
    parse_ipv4_icmp_echo_packet pkt = Ok None.
Proof.
  intros Hs Hd Hid Heid Hok Ha Hm He Hy Hlen Ha0.
  rewrite !Forall_app in Hok. destruct Hok as (Hoa & Hom & Hoe & Hoy).
  pose proof (length_be_bytes 2 eid) as Hel.
  set (y' := be_bytes 2 eid ++ y).
  assert (Hy' : length y' = (2 + length y)%nat) by (unfold y'; rewrite length_app; lia).
  assert (Hoy' : bytes_ok y') by (unfold y'; rewrite Forall_app; auto using be_bytes_ok).
  set (ck := be_bytes 2 (ones_complement_sum (a ++ [0; 0] ++ y'))).
  assert (Hck : length ck = 2%nat) by apply length_be_bytes.
  exists (a ++ ck ++ y'). eexists. split_and!.
  - by apply restore_echo_ok.
  - apply build_icmp_ok; [done.. | lia | lia].
  - by exists ck.
  - apply checksum_field; [rewrite Ha; by exists 1%nat | done.. |].
    unfold CHECKSUM_MAX_LEN. lia.
  - rewrite take_header, take_0, app_nil_r
      by (done || apply octets_length || apply built_front_length || apply length_be_bytes || lia).
    apply header_checksum_valid; try done.
    + by apply built_front_ok.
    + by rewrite Forall_app.
    + rewrite length_app, !octets_length. lia.
  - rewrite (app_assoc (octets src)), (app_assoc (be_bytes _ _)), (app_assoc (built_front _ _ _)).
    apply drop_app_length'. by rewrite !length_app, built_front_length, length_be_bytes, !octets_length.
  - apply parse_icmp_not_request; try done; [unfold in_u; lia | |].
    + rewrite !length_app, length_be_bytes. lia.
    + destruct a as [|a0 a]; [done|]. by injection Ha0 as ->.
Qed.

Lemma icmp_reply_correct_witness :
  exists seg pkt,
    restore_echo_reply 9 ([0; 0] ++ [1; 2] ++ [3; 4] ++ [0; 1]) = Ok (Some seg) /\
    build_ipv4_icmp_packet (8, 8, 8, 8) (10, 8, 0, 2) 5 seg = Ok pkt /\ checksum_valid seg.
Proof.
  assert (Hb : forall l, bool_decide (bytes_ok l) = true -> bytes_ok l)
    by (intros l Hl; by apply bool_decide_eq_true in Hl).
  destruct (icmp_reply_correct (8, 8, 8, 8) (10, 8, 0, 2) 5 9 [0; 0] [1; 2] [3; 4] [0; 1])
    as (seg & pkt & H1 & H2 & _ & H3 & _).
  1-2: by apply Hb.
  1-2: unfold in_u; lia.
  1: by apply Hb.
  1-3: reflexivity.
  1: simpl; lia.
  1: simpl; lia.
  1: reflexivity.
  exists seg, pkt. exact (conj H1 (conj H2 H3)).
Defined.
