(* ===== verification/Routing.v ===== *)
(** Sessions on the server: the session registry
    ([src/crates/bonded-server/src/session_registry.rs]), the TUN bridge
    ([src/crates/bonded-server/src/tun_bridge.rs]) and the task that serves one authenticated
    connection ([run_server] in [src/crates/bonded-server/src/main.rs]).  The server is a state machine
    over these three: connections are opened and closed, frames arrive from clients, packets from the
    TUN device, in any order. *)

From stdpp Require Import base tactics list gmap strings.
From Stdlib Require Import ZArith Lia.
From S2P Require Import Prelude Words Session Packet PeerShare.
Open Scope Z_scope.

(** * Definitions *)

(** ** Session registry *)

Record SessionRegistryInner := {
  next_session_id : Z;
  sessions_by_client : gmap string Z
}.

(** [Default] *)
Definition registry_default : SessionRegistryInner :=
  {| next_session_id := 0; sessions_by_client := ∅ |}.

Definition register_client (client_key : string) (r : SessionRegistryInner)
  : Z * SessionRegistryInner :=
  match sessions_by_client r !! client_key with
  | Some existing => (existing, r)
  | None =>
      let session_id := next_session_id r in
      (session_id,
       {| next_session_id := wrapping_add 64 (next_session_id r) 1;
          sessions_by_client := <[client_key := session_id]> (sessions_by_client r) |})
  end.

Definition unregister_client (client_key : string) (r : SessionRegistryInner)
  : SessionRegistryInner :=
  {| next_session_id := next_session_id r;
     sessions_by_client := delete client_key (sessions_by_client r) |}.

Definition contains_client (client_key : string) (r : SessionRegistryInner) : bool :=
  bool_decide (is_Some (sessions_by_client r !! client_key)).

Definition active_sessions (r : SessionRegistryInner) : nat := size (sessions_by_client r).

Definition registry_snapshot (r : SessionRegistryInner) : list (string * Z) :=
  map_to_list (sessions_by_client r).

(** ** TUN bridge *)

(** A connection's task, which holds the receiving ends of its channels. *)
Abbreviation path_id := nat.

Record OutboundPacket := { out_session_id : Z; out_connection_id : Z; out_payload : list Z }.

Record SessionRoute := { tx : path_id; route_connection_id : Z; next_server_sequence : Z }.

Record TunBridgeState := {
  sessions : gmap Z SessionRoute;
  ip_to_session : gmap Ipv4Addr Z
}.

Definition bridge_new : TunBridgeState := {| sessions := ∅; ip_to_session := ∅ |}.

Definition parse_ipv4_src_dst (packet : list Z) : panicky (option (Ipv4Addr * Ipv4Addr)) :=
  return_if bool_decide (length packet < 20)%nat with Ok None ;;
  b0 ← index packet 0;
  let version := Z.shiftr b0 4 in
  let ihl := ihl_of b0 in
  return_if negb (version =? 4) || bool_decide (ihl < 5)%nat with Ok None ;;
  let header_len := (ihl * 4)%nat in
  return_if bool_decide (length packet < header_len)%nat with Ok None ;;
  total ← be16_at packet 2;
  return_if bool_decide (total < Z.of_nat header_len) || bool_decide (len packet < total) with Ok None ;;
  src ← ipv4_at packet 12;
  dst ← ipv4_at packet 16;
  Ok (Some (src, dst)).

Definition src_dst (packet : list Z) : option (Ipv4Addr * Ipv4Addr) :=
  match parse_ipv4_src_dst packet with
  | Ok r => r
  | _ => None
  end.

Definition retain_others (session_id : Z) (m : gmap Ipv4Addr Z) : gmap Ipv4Addr Z :=
  filter (fun kv => kv.2 <> session_id) m.

Definition register_session (session_id : Z) (p : path_id) (b : TunBridgeState) : TunBridgeState :=
  {| sessions := <[session_id := {| tx := p; route_connection_id := 1; next_server_sequence := 0 |}]>
                   (sessions b);
     ip_to_session := ip_to_session b |}.

Definition unregister_session (session_id : Z) (b : TunBridgeState) : TunBridgeState :=
  {| sessions := delete session_id (sessions b);
     ip_to_session := retain_others session_id (ip_to_session b) |}.

(** The writer task's work on one queued packet: what goes to the device. *)
Definition tun_write (pkt : OutboundPacket) (b : TunBridgeState) : option (list Z) * TunBridgeState :=
  match src_dst (out_payload pkt) with
  | None => (None, b)
  | Some (src_ip, _) =>
      let b :=
        match sessions b !! out_session_id pkt with
        | Some route =>
            {| sessions := <[out_session_id pkt :=
                 {| tx := tx route; route_connection_id := out_connection_id pkt;
                    next_server_sequence := next_server_sequence route |}]> (sessions b);
               ip_to_session := <[src_ip := out_session_id pkt]> (ip_to_session b) |}
        | None => b
        end in
      (Some (out_payload pkt), b)
  end.

(** The reader task's work on one packet from the device; [alive] says whose receiver still exists.
    The frame goes into a path's queue. *)
Definition tun_return (alive : path_id -> bool) (packet : list Z) (b : TunBridgeState)
  : option (path_id * SessionFrame) * TunBridgeState :=
  match src_dst packet with
  | None => (None, b)
  | Some (_, dst_ip) =>
      match ip_to_session b !! dst_ip with
      | None => (None, b)
      | Some session_id =>
          match sessions b !! session_id with
          | None =>
              (None, {| sessions := sessions b; ip_to_session := delete dst_ip (ip_to_session b) |})
          | Some route =>
              let frame :=
                {| header := {| connection_id := route_connection_id route;
                                sequence := next_server_sequence route; flags := 0 |};
                   payload := packet |} in
              let route' :=
                {| tx := tx route; route_connection_id := route_connection_id route;
                   next_server_sequence := wrapping_add 64 (next_server_sequence route) 1 |} in
              let b := {| sessions := <[session_id := route']> (sessions b);
                          ip_to_session := ip_to_session b |} in
              if alive (tx route) then (Some (tx route, frame), b)
              else (None, unregister_session session_id b)
          end
      end
  end.

(** ** The task of one connection *)

Definition MAX_RESPONSE_DRAIN_PER_CYCLE : nat := 256.

Record PathTask := {
  use_tun_bridge : bool;               (** TCP connections of a server with a TUN device *)
  path_key : string;
  path_session : Z;
  tun_rx : list SessionFrame;          (** queued by the TUN bridge *)
  forward_rx : list SessionFrame;      (** queued by the connection's own forwarder *)
  pending_frame : option SessionFrame;
  client_out : list SessionFrame;      (** written to the transport *)
  ingested : list SessionFrame         (** handed to the forwarder *)
}.

Record Server := {
  tun_mode : bool;
  registry : SessionRegistryInner;
  forwarders : gmap Z path_id;
  bridge : TunBridgeState;
  outbound : list OutboundPacket;
  writer_alive : bool;                 (** the bridge's writer task, which receives from [outbound] *)
  paths : gmap path_id PathTask
}.

Definition set_path (p : path_id) (t : PathTask) (s : Server) : Server :=
  {| tun_mode := tun_mode s; registry := registry s; forwarders := forwarders s; bridge := bridge s;
     outbound := outbound s; writer_alive := writer_alive s; paths := <[p := t]> (paths s) |}.

Definition set_bridge (b : TunBridgeState) (s : Server) : Server :=
  {| tun_mode := tun_mode s; registry := registry s; forwarders := forwarders s; bridge := b;
     outbound := outbound s; writer_alive := writer_alive s; paths := paths s |}.

(** What the writer leaves behind *)
Definition set_outbound (b : TunBridgeState) (alive : bool) (queue : list OutboundPacket) (s : Server) : Server :=
  {| tun_mode := tun_mode s; registry := registry s; forwarders := forwarders s; bridge := b;
     outbound := queue; writer_alive := alive; paths := paths s |}.

(** What the task does once the session is bound, up to its loop. *)
Definition open_path (use_tun : bool) (p : path_id) (binding : SessionBinding) (s : Server) : Server :=
  let (session_id, reg) := register_client (client_public_key binding) (registry s) in
  {| tun_mode := tun_mode s;
     registry := reg;
     forwarders := if use_tun then forwarders s else <[session_id := p]> (forwarders s);
     bridge := if use_tun then register_session session_id p (bridge s) else bridge s;
     outbound := outbound s;
     writer_alive := writer_alive s;
     paths := <[p := {| use_tun_bridge := use_tun; path_key := client_public_key binding; path_session := session_id;
                        tun_rx := []; forward_rx := []; pending_frame := initial_frame binding;
                        client_out := []; ingested := [] |}]> (paths s) |}.

(** What it does after its loop. *)
Definition close_path (p : path_id) (t : PathTask) (s : Server) : Server :=
  {| tun_mode := tun_mode s;
     registry := unregister_client (path_key t) (registry s);
     forwarders :=
       if use_tun_bridge t then forwarders s else delete (path_session t) (forwarders s);
     bridge := if use_tun_bridge t then unregister_session (path_session t) (bridge s) else bridge s;
     outbound := outbound s;
     writer_alive := writer_alive s;
     paths := delete p (paths s) |}.

(** Whether the sender of the path's TUN channel still exists: without a bridge the task keeps it
    itself, with a bridge the routes hold it. *)
Definition tun_tx_alive (p : path_id) (t : PathTask) (s : Server) : bool :=
  negb (use_tun_bridge t) || existsb (fun r => Nat.eqb (tx r.2) p) (map_to_list (sessions (bridge s))).

(** One [for] loop that drains a queue: up to [n] frames, ended early by a failed send, whose frame is
    lost; [oks] are the results of the sends (a missing one is a failure). *)
Fixpoint drain_queue (n : nat) (oks : list bool) (queue out : list SessionFrame)
  : list SessionFrame * list SessionFrame * list bool :=
  match n, queue with
  | S n, f :: queue =>
      match oks with
      | true :: oks => drain_queue n oks queue (out ++ [f])
      | false :: oks => (queue, out, oks)
      | [] => (queue, out, [])
      end
  | _, _ => (queue, out, oks)
  end.

Definition with_queues (tun fwd out : list SessionFrame) (t : PathTask) : PathTask :=
  {| use_tun_bridge := use_tun_bridge t; path_key := path_key t; path_session := path_session t; tun_rx := tun; forward_rx := fwd;
     pending_frame := pending_frame t; client_out := out; ingested := ingested t |}.

Definition with_pending (f : option SessionFrame) (t : PathTask) : PathTask :=
  {| use_tun_bridge := use_tun_bridge t; path_key := path_key t; path_session := path_session t; tun_rx := tun_rx t;
     forward_rx := forward_rx t; pending_frame := f; client_out := client_out t;
     ingested := ingested t |}.

Definition with_ingested (f : SessionFrame) (t : PathTask) : PathTask :=
  {| use_tun_bridge := use_tun_bridge t; path_key := path_key t; path_session := path_session t; tun_rx := tun_rx t;
     forward_rx := forward_rx t; pending_frame := pending_frame t; client_out := client_out t;
     ingested := ingested t ++ [f] |}.

(** The drains at the head of every cycle; [n] frames were queued when they ran, what is queued behind
    those came while the task waited. *)
Definition drain_responses (n : nat) (oks : list bool) (t : PathTask) : PathTask :=
  let limit := Nat.min MAX_RESPONSE_DRAIN_PER_CYCLE n in
  let '(tun, out, oks) := drain_queue limit oks (tun_rx t) (client_out t) in
  let '(fwd, out, _) :=
    if use_tun_bridge t then (forward_rx t, out, oks) else drain_queue limit oks (forward_rx t) out in
  with_queues tun fwd out t.

Definition pong_of (f : SessionFrame) : SessionFrame :=
  {| header := {| connection_id := connection_id (header f); sequence := sequence (header f);
                  flags := FLAG_PONG |};
     payload := payload f |}.

Inductive control := Continue | Break.

(** A send on the transport ends the loop when it fails. *)
Definition send_or_break (ok : bool) (f : SessionFrame) (t : PathTask) : control * PathTask :=
  if ok then (Continue, with_queues (tun_rx t) (forward_rx t) (client_out t ++ [f]) t)
  else (Break, t).

(** A frame from the client: an empty ping is answered, anything else goes to the bridge's queue, which ends
    the connection if the writer is gone, or to the connection's forwarder. *)
Definition handle_client_frame (p : path_id) (f : SessionFrame) (ok : bool) (t : PathTask) (s : Server)
  : control * Server :=
  if negb (Z.land (flags (header f)) FLAG_PING =? 0) && bool_decide (payload f = []) then
    let (c, t) := send_or_break ok (pong_of f) t in (c, set_path p t s)
  else if use_tun_bridge t then
    if writer_alive s then
      (Continue,
       set_path p t (set_outbound (bridge s) true
         (outbound s ++ [{| out_session_id := path_session t; out_connection_id := connection_id (header f);
                            out_payload := payload f |}]) s))
    else (Break, set_path p t s)
  else (Continue, set_path p (with_ingested f t) s).

(** The branch [select!] takes: a channel or the transport has something. *)
Inductive branch :=
  | OnTun (ok : bool)
  | OnForward (ok : bool)
  | OnRecv (r : option SessionFrame) (ok : bool).

(** [None]: the branch is not ready. *)
Definition select_step (p : path_id) (b : branch) (t : PathTask) (s : Server)
  : option (control * Server) :=
  match b with
  | OnTun ok =>
      match tun_rx t with
      | f :: q =>
          let (c, t) := send_or_break ok f (with_queues q (forward_rx t) (client_out t) t) in
          Some (c, set_path p t s)
      | [] => if tun_tx_alive p t s then None else Some (Break, set_path p t s)
      end
  | OnForward ok =>
      match forward_rx t with
      | f :: q =>
          let t := with_queues (tun_rx t) q (client_out t) t in
          if use_tun_bridge t then Some (Continue, set_path p t s)
          else let (c, t) := send_or_break ok f t in Some (c, set_path p t s)
      | [] => None
      end
  | OnRecv (Some f) ok => Some (handle_client_frame p f ok t s)
  | OnRecv None _ => Some (Break, set_path p t s)
  end.

(** One cycle of the loop; a [Break] closes the path.  [n] frames were queued at its start; [oks] are the
    results of the drains' sends and [ok] of the answer to a pending ping. *)
Definition cycle (p : path_id) (n : nat) (oks : list bool) (ok : bool) (b : branch) (s : Server)
  : option Server :=
  t ← paths s !! p;
  let t := drain_responses n oks t in
  '(c, s) ← match pending_frame t with
            | Some f => Some (handle_client_frame p f ok (with_pending None t) s)
            | None => select_step p b t s
            end;
  match c with
  | Continue => Some s
  | Break => t ← paths s !! p; Some (close_path p t s)
  end.

(** Registrations and removals in a row, with the ids handed out. *)
Inductive registry_op := OpRegister (client_key : string) | OpUnregister (client_key : string).

Fixpoint registry_run (ops : list registry_op) (r : SessionRegistryInner)
  : list Z * SessionRegistryInner :=
  match ops with
  | [] => ([], r)
  | OpRegister k :: ops =>
      let (id, r) := register_client k r in
      let (ids, r) := registry_run ops r in (id :: ids, r)
  | OpUnregister k :: ops => registry_run ops (unregister_client k r)
  end.

Definition server_new (use_tun : bool) : Server :=
  {| tun_mode := use_tun; registry := registry_default; forwarders := ∅; bridge := bridge_new;
     outbound := []; writer_alive := true; paths := ∅ |}.

(** A connection of [run_server], and one of [handle_websocket_session] in bootstrap.rs, which has no
    TUN bridge; their loops are the same [cycle]: without a bridge the TUN queue stays empty and its
    branch is never ready. *)
Definition tcp_session_open (p : path_id) (binding : SessionBinding) (s : Server) : Server :=
  open_path (tun_mode s) p binding s.
Definition websocket_session_open (p : path_id) (binding : SessionBinding) (s : Server) : Server :=
  open_path false p binding s.
Definition websocket_session_cycle (p : path_id) (n : nat) (oks : list bool) (ok : bool) (b : branch)
  (s : Server) : option Server := cycle p n oks ok b s.

(** A connection of [handle_quic_connection] in quic.rs, which has no TUN bridge either.  Its loop differs:
    there is no TUN queue, and a drained frame that cannot be sent ends the session. *)
Definition quic_session_open (p : path_id) (binding : SessionBinding) (s : Server) : Server :=
  open_path false p binding s.

(** What is left in the queue, what was sent, and whether a send failed *)
Fixpoint quic_drain (n : nat) (oks : list bool) (queue out : list SessionFrame)
  : list SessionFrame * list SessionFrame * control :=
  match n, queue with
  | S n, f :: queue =>
      match oks with
      | true :: oks => quic_drain n oks queue (out ++ [f])
      | _ => (queue, out, Break)
      end
  | _, _ => (queue, out, Continue)
  end.

Definition MAX_DRAIN : nat := 256.

Definition quic_session_cycle (p : path_id) (n : nat) (oks : list bool) (ok : bool) (b : branch) (s : Server)
  : option Server :=
  t ← paths s !! p;
  let '(fwd, out, c) := quic_drain (Nat.min MAX_DRAIN n) oks (forward_rx t) (client_out t) in
  let t := with_queues (tun_rx t) fwd out t in
  '(c, s) ← match c, pending_frame t, b with
            | Break, _, _ => Some (Break, set_path p t s)
            | Continue, Some f, _ => Some (handle_client_frame p f ok (with_pending None t) s)
            | Continue, None, OnTun _ => None
            | Continue, None, b => select_step p b t s
            end;
  match c with
  | Continue => Some s
  | Break => t ← paths s !! p; Some (close_path p t s)
  end.

Definition push_tun (p : path_id) (f : SessionFrame) (s : Server) : Server :=
  match paths s !! p with
  | Some t => set_path p (with_queues (tun_rx t ++ [f]) (forward_rx t) (client_out t) t) s
  | None => s
  end.

Definition push_forward (p : path_id) (f : SessionFrame) (s : Server) : Server :=
  match paths s !! p with
  | Some t =>
      if use_tun_bridge t then s
      else set_path p (with_queues (tun_rx t) (forward_rx t ++ [f]) (client_out t) t) s
  | None => s
  end.

(** Everything that can happen to the server. *)
Inductive server_step : Server -> Server -> Prop :=
  | StepOpenTcp s p binding :
      paths s !! p = None -> server_step s (tcp_session_open p binding s)
  | StepOpenWebSocket s p binding :
      paths s !! p = None -> server_step s (websocket_session_open p binding s)
  | StepOpenQuic s p binding :
      paths s !! p = None -> server_step s (quic_session_open p binding s)
  | StepCycle s p n oks ok b s' : cycle p n oks ok b s = Some s' -> server_step s s'
  | StepQuicCycle s p t n oks ok b s' :
      paths s !! p = Some t -> use_tun_bridge t = false -> quic_session_cycle p n oks ok b s = Some s' ->
      server_step s s'
  | StepForwarded s p f : server_step s (push_forward p f s)
  | StepWrite s pkt rest :
      writer_alive s = true -> outbound s = pkt :: rest ->
      server_step s (set_outbound (tun_write pkt (bridge s)).2 true rest s)
  | StepWriteFails s pkt rest :
      writer_alive s = true -> outbound s = pkt :: rest -> is_Some (tun_write pkt (bridge s)).1 ->
      server_step s (set_outbound (tun_write pkt (bridge s)).2 false [] s)
  | StepReturn s packet r b :
      tun_return (fun p => bool_decide (is_Some (paths s !! p))) packet (bridge s) = (r, b) ->
      server_step s
        (match r with
         | Some (p, f) => push_tun p f (set_bridge b s)
         | None => set_bridge b s
         end).

Inductive reachable (use_tun : bool) : Server -> Prop :=
  | ReachNew : reachable use_tun (server_new use_tun)
  | ReachStep s s' : reachable use_tun s -> server_step s s' -> reachable use_tun s'.

(** * Lemmas *)

(** ** Registry *)

(** Ids are below the next one and no two clients share one. *)
Record registry_ok (r : SessionRegistryInner) : Prop := {
  registry_bound : forall k id, sessions_by_client r !! k = Some id -> 0 <= id < next_session_id r;
  registry_inj : forall k1 k2 id, sessions_by_client r !! k1 = Some id ->
    sessions_by_client r !! k2 = Some id -> k1 = k2;
  registry_next : 0 <= next_session_id r
}.

Lemma registry_default_ok : registry_ok registry_default.
Proof. by split; simpl; intros; simplify_map_eq. Qed.

Lemma unregister_client_ok k r : registry_ok r -> registry_ok (unregister_client k r).
Proof.
  intros [Hb Hi Hn]. split; simpl; [| |done].
  - intros k' id [_ Hk]%lookup_delete_Some. eauto.
  - intros k1 k2 id [_ H1]%lookup_delete_Some [_ H2]%lookup_delete_Some. eauto.
Qed.

Lemma register_client_ok k r :
  registry_ok r -> next_session_id r + 1 < 2 ^ 64 ->
  registry_ok (register_client k r).2 /\
  next_session_id r <= next_session_id (register_client k r).2 <= next_session_id r + 1 /\
  0 <= (register_client k r).1 < next_session_id (register_client k r).2 /\
  sessions_by_client (register_client k r).2 !! k = Some (register_client k r).1.
Proof.
  intros Hr Hmax. pose proof Hr as [Hb Hi Hn]. unfold register_client.
  destruct (sessions_by_client r !! k) as [id|] eqn:Hk.
  { simpl. pose proof (Hb _ _ Hk). split_and!; [done|lia..|done]. }
  assert (Hw : wrapping_add 64 (next_session_id r) 1 = next_session_id r + 1)
    by (apply wrapping_add_small; unfold in_u; lia).
  cbn [fst snd next_session_id sessions_by_client]. rewrite Hw.
  split_and!; [|lia..|by rewrite lookup_insert_eq]. split; simpl.
  - intros k' id [[<- <-]|[_ H']]%lookup_insert_Some; [lia|]. pose proof (Hb _ _ H'). lia.
  - intros k1 k2 id [[<- <-]|[? H1]]%lookup_insert_Some [[<- He]|[? H2]]%lookup_insert_Some; try done.
    + pose proof (Hb _ _ H2). lia.
    + subst id. pose proof (Hb _ _ H1). lia.
    + eauto.
  - lia.
Qed.

Lemma registry_run_ok ops r :
  registry_ok r -> next_session_id r + Z.of_nat (length ops) < 2 ^ 64 ->
  let r' := (registry_run ops r).2 in
  registry_ok r' /\ next_session_id r <= next_session_id r' <= next_session_id r + len ops /\
  Forall (fun id => 0 <= id < next_session_id r') (registry_run ops r).1.
Proof.
  revert r. induction ops as [|[k|k] ops IH]; intros r Hr Hmax.
  - simpl. split_and!; [done|lia..|constructor].
  - rewrite length_cons in Hmax.
    destruct (register_client_ok k r Hr) as (Hr1 & Hn1 & Hid & _); [lia|].
    cbn [registry_run]. destruct (register_client k r) as [id r1]. cbn [fst snd] in *.
    destruct (IH r1 Hr1) as (Hr2 & Hn2 & Hall); [lia|].
    destruct (registry_run ops r1) as [ids r2]. cbn [fst snd] in *. rewrite length_cons.
    split_and!; [done|lia..|]. constructor; [lia|done].
  - rewrite length_cons in *.
    destruct (IH (unregister_client k r)) as (Hr2 & Hn2 & Hall);
      [by apply unregister_client_ok | simpl; lia |].
    cbn [registry_run]. split_and!; [done|simpl in *; lia..|done].
Qed.

(** ** The server *)

(** Routes lead to open connections of the same session, addresses to routes. *)
Record server_ok (s : Server) : Prop := {
  routes_open : forall sid r, sessions (bridge s) !! sid = Some r ->
    exists t, paths s !! tx r = Some t /\ path_session t = sid /\ use_tun_bridge t = true;
  ips_routed : forall ip sid, ip_to_session (bridge s) !! ip = Some sid ->
    is_Some (sessions (bridge s) !! sid)
}.

Lemma server_new_ok m : server_ok (server_new m).
Proof. by split; simpl; intros; simplify_map_eq. Qed.

(** What a task keeps for its life. *)
Definition same_task (t' t : PathTask) : Prop :=
  path_session t' = path_session t /\ path_key t' = path_key t /\
  use_tun_bridge t' = use_tun_bridge t.

(** A task's own steps change nothing but its task and the outbound queue. *)
Record only_path (p : path_id) (t : PathTask) (s s' : Server) : Prop := {
  op_mode : tun_mode s' = tun_mode s /\ writer_alive s' = writer_alive s;
  op_bridge : bridge s' = bridge s;
  op_paths : exists t', paths s' = <[p := t']> (paths s) /\ same_task t' t
}.

Lemma set_path_only p t t' s :
  same_task t' t -> only_path p t s (set_path p t' s).
Proof. intros. split; [done..|]. by exists t'. Qed.

Lemma send_or_break_same ok f t : same_task (send_or_break ok f t).2 t.
Proof. by destruct ok. Qed.

Lemma handle_only p f ok t s : only_path p t s (handle_client_frame p f ok t s).2.
Proof.
  unfold handle_client_frame. destruct (_ && _).
  - destruct (send_or_break ok (pong_of f) t) as [c t'] eqn:Hs.
    pose proof (send_or_break_same ok (pong_of f) t) as Ht. rewrite Hs in Ht. by apply set_path_only.
  - destruct (use_tun_bridge t) eqn:Hm; [|by apply set_path_only].
    destruct (writer_alive s) eqn:Hw; [|by apply set_path_only]. split; simpl; [done..|]. by exists t.
Qed.

Lemma select_only p b t s c s' : select_step p b t s = Some (c, s') -> only_path p t s s'.
Proof.
  destruct b as [ok|ok|[f|] ok]; simpl.
  - destruct (tun_rx t) as [|f q].
    + destruct (tun_tx_alive p t s); [done|]. intros [= <- <-]. by apply set_path_only.
    + match goal with |- context [send_or_break ok f ?u] =>
        pose proof (send_or_break_same ok f u); destruct (send_or_break ok f u) as [c0 t'] end.
      intros [= <- <-]. by apply set_path_only.
  - destruct (forward_rx t) as [|f q]; [done|]. destruct (use_tun_bridge _).
    + intros [= <- <-]. by apply set_path_only.
    + match goal with |- context [send_or_break ok f ?u] =>
        pose proof (send_or_break_same ok f u); destruct (send_or_break ok f u) as [c0 t'] end.
      intros [= <- <-]. by apply set_path_only.
  - intros [= Heq]. pose proof (handle_only p f ok t s) as Ho. by rewrite Heq in Ho.
  - intros [= <- <-]. by apply set_path_only.
Qed.

Lemma drain_responses_same n oks t : same_task (drain_responses n oks t) t.
Proof.
  unfold drain_responses. destruct (drain_queue _ _ (tun_rx t) _) as [[tun out] oks'].
  by destruct (if use_tun_bridge t then _ else _) as [[fwd out'] ?].
Qed.

Lemma only_path_ok p t s s' :
  paths s !! p = Some t -> only_path p t s s' -> server_ok s -> server_ok s'.
Proof.
  intros Hp [Hm Hb (t' & Hps & Hts & Hk & Hu')] [Hro Hip]. split; rewrite Hb; [|done].
  intros sid r Hr. destruct (Hro sid r Hr) as (u & Hu & Hus & Hut). rewrite Hps.
  destruct (decide (tx r = p)) as [Heq|Hne].
  - rewrite Heq in *. rewrite lookup_insert_eq. exists t'. split_and!; congruence.
  - rewrite lookup_insert_ne by done. eauto.
Qed.

Lemma close_path_ok p t s : paths s !! p = Some t -> server_ok s -> server_ok (close_path p t s).
Proof.
  intros Hp [Hro Hip]. unfold close_path. split; simpl.
  - intros sid r Hr.
    assert (Hold : sessions (bridge s) !! sid = Some r /\
      (use_tun_bridge t = true -> sid <> path_session t)).
    { destruct (use_tun_bridge t); [|done]. simpl in Hr. by apply lookup_delete_Some in Hr as [? ?]. }
    destruct Hold as [Hold Hne]. destruct (Hro sid r Hold) as (u & Hu & Hus & Hut).
    exists u. split; [|done]. apply lookup_delete_Some. split; [|done]. intros Heq.
    rewrite Heq in Hp. assert (u = t) as -> by congruence. by destruct (Hne Hut).
  - intros ip sid. destruct (use_tun_bridge t); [|apply Hip]. simpl.
    intros [Hi Hne]%map_lookup_filter_Some. simpl in Hne.
    rewrite lookup_delete_ne by done. eauto.
Qed.

Lemma open_path_ok u p b s : paths s !! p = None -> server_ok s -> server_ok (open_path u p b s).
Proof.
  intros Hp [Hro Hip]. unfold open_path. destruct (register_client _ _) as [sid reg].
  set (t := {| use_tun_bridge := u; path_key := _; path_session := _; tun_rx := _; forward_rx := _;
               pending_frame := _; client_out := _; ingested := _ |}).
  assert (Hold : forall i r, sessions (bridge s) !! i = Some r -> exists t0,
    <[p := t]> (paths s) !! tx r = Some t0 /\ path_session t0 = i /\ use_tun_bridge t0 = true).
  { intros i r Hr. destruct (Hro i r Hr) as (v & Hv & Hvs). exists v.
    rewrite lookup_insert_ne by congruence. done. }
  split; cbn [bridge paths].
  - destruct u; [|done]. intros i r. simpl.
    intros [[<- <-]|[_ Hr]]%lookup_insert_Some; [|by apply Hold].
    simpl. rewrite lookup_insert_eq. by eexists.
  - intros ip i. destruct u; [|apply Hip]. simpl. intros Hi.
    apply lookup_insert_is_Some'. right. eauto.
Qed.

Lemma same_task_trans t2 t1 t : same_task t2 t1 -> same_task t1 t -> same_task t2 t.
Proof. unfold same_task. intuition congruence. Qed.

Lemma only_path_trans p t t1 s s1 : same_task t1 t -> only_path p t1 s s1 -> only_path p t s s1.
Proof.
  intros Ht [Hm Hb (t' & Hp & Ht')]. split; [done..|]. exists t'. split; [done|].
  by eapply same_task_trans.
Qed.

(** A cycle goes on with the path's own changes or closes the path after them. *)
Definition path_cycle (p : path_id) (s s' : Server) : Prop :=
  exists t s1, paths s !! p = Some t /\ only_path p t s s1 /\
    (s' = s1 \/ exists t1, paths s1 !! p = Some t1 /\ same_task t1 t /\ s' = close_path p t1 s1).

Lemma ends_cycle p t s c s1 s' :
  paths s !! p = Some t -> only_path p t s s1 ->
  match c with
  | Continue => Some s1
  | Break => t ← paths s1 !! p; Some (close_path p t s1)
  end = Some s' -> path_cycle p s s'.
Proof.
  intros Hp Hstep. destruct c; [intros [= <-]; exists t, s1; auto|].
  destruct (paths s1 !! p) as [t1|] eqn:Hp1; [|done]. intros [= <-]. exists t, s1.
  split_and!; [done..|]. right. exists t1. destruct Hstep as [_ _ (t' & Hps & Ht')].
  assert (t1 = t') as -> by (rewrite Hps, lookup_insert_eq in Hp1; congruence). done.
Qed.

Lemma cycle_cases p n oks ok b s s' : cycle p n oks ok b s = Some s' -> path_cycle p s s'.
Proof.
  unfold cycle. destruct (paths s !! p) as [t|] eqn:Hp; [|done]. cbn [mbind option_bind].
  pose proof (drain_responses_same n oks t) as Hd. set (t0 := drain_responses n oks t) in *.
  assert (Hstep : forall c s1,
    match pending_frame t0 with
    | Some f => Some (handle_client_frame p f ok (with_pending None t0) s)
    | None => select_step p b t0 s
    end = Some (c, s1) -> only_path p t s s1).
  { intros c s1. destruct (pending_frame t0) as [f|].
    - intros [= Heq]. pose proof (handle_only p f ok (with_pending None t0) s) as Ho.
      rewrite Heq in Ho. by eapply only_path_trans, Ho.
    - intros Hsel%select_only. by eapply only_path_trans, Hsel. }
  destruct (match pending_frame t0 with Some _ => _ | None => _ end) as [[c s1]|]; [|done].
  specialize (Hstep c s1 eq_refl). cbn [mbind option_bind]. by apply (ends_cycle p t s).
Qed.

Lemma quic_cycle_cases p n oks ok b s s' : quic_session_cycle p n oks ok b s = Some s' -> path_cycle p s s'.
Proof.
  unfold quic_session_cycle. destruct (paths s !! p) as [t|] eqn:Hp; [|done]. cbn [mbind option_bind].
  destruct (quic_drain _ _ _ _) as [[fwd out] c0].
  set (t0 := with_queues _ _ _ t). assert (Hd : same_task t0 t) by done.
  destruct (match c0 with Continue => _ | Break => _ end) as [[c s1]|] eqn:Hm; [|done]. cbn [mbind option_bind].
  apply (ends_cycle p t s); [done|]. destruct c0; [|injection Hm as <- <-; by apply set_path_only].
  destruct (pending_frame t0) as [f|].
  - injection Hm as Heq. pose proof (handle_only p f ok (with_pending None t0) s) as Ho.
    rewrite Heq in Ho. by eapply only_path_trans, Ho.
  - destruct b; [done|..]; apply select_only in Hm; by eapply only_path_trans, Hm.
Qed.

Lemma path_cycle_ok p s s' : path_cycle p s s' -> server_ok s -> server_ok s'.
Proof.
  intros (t & s1 & Hp & Ho & [->|(t1 & Hp1 & _ & ->)]) Hs;
    pose proof (only_path_ok p t s s1 Hp Ho Hs); [done|]. by apply close_path_ok.
Qed.

Lemma set_bridge_ok s b :
  server_ok s ->
  (forall sid r, sessions b !! sid = Some r ->
     exists r0, sessions (bridge s) !! sid = Some r0 /\ tx r = tx r0) ->
  (forall ip sid, ip_to_session b !! ip = Some sid -> is_Some (sessions b !! sid)) ->
  server_ok (set_bridge b s).
Proof.
  intros [Hro Hip] Hb Hi. split; simpl; [|done].
  intros sid r Hr. destruct (Hb sid r Hr) as (r0 & Hr0 & ->). by apply Hro.
Qed.

(** The writer only records addresses of sessions that have a route. *)
Lemma tun_write_keeps pkt b :
  (forall ip sid, ip_to_session b !! ip = Some sid -> is_Some (sessions b !! sid)) ->
  let b' := (tun_write pkt b).2 in
  (forall sid r, sessions b' !! sid = Some r ->
     exists r0, sessions b !! sid = Some r0 /\ tx r = tx r0) /\
  (forall ip sid, ip_to_session b' !! ip = Some sid -> is_Some (sessions b' !! sid)).
Proof.
  intros Hi. unfold tun_write. destruct (src_dst _) as [[src dst]|]; [|simpl; eauto].
  destruct (sessions b !! out_session_id pkt) as [route|] eqn:Hr; simpl; [|eauto]. split.
  - intros sid r [[<- <-]|[_ H]]%lookup_insert_Some; simpl; eauto.
  - intros ip sid [[_ <-]|[_ H]]%lookup_insert_Some; apply lookup_insert_is_Some'; eauto.
Qed.

(** In a good state the reader finds a live route for every address it has recorded. *)
Lemma tun_return_cases s packet :
  server_ok s ->
  let alive := fun p => bool_decide (is_Some (paths s !! p)) in
  tun_return alive packet (bridge s) = (None, bridge s) \/
  exists src dst sid route t,
    src_dst packet = Some (src, dst) /\ ip_to_session (bridge s) !! dst = Some sid /\
    sessions (bridge s) !! sid = Some route /\ paths s !! tx route = Some t /\ path_session t = sid /\
    tun_return alive packet (bridge s) =
      (Some (tx route,
         {| header := {| connection_id := route_connection_id route;
                         sequence := next_server_sequence route; flags := 0 |};
            payload := packet |}),
       {| sessions := <[sid := {| tx := tx route; route_connection_id := route_connection_id route;
                                  next_server_sequence :=
                                    wrapping_add 64 (next_server_sequence route) 1 |}]>
                        (sessions (bridge s));
          ip_to_session := ip_to_session (bridge s) |}).
Proof.
  intros [Hro Hip]. cbn zeta. unfold tun_return.
  destruct (src_dst packet) as [[src dst]|]; [|by left].
  destruct (ip_to_session (bridge s) !! dst) as [sid|] eqn:Hd; [|by left].
  destruct (Hip _ _ Hd) as [route Hr]. destruct (Hro _ _ Hr) as (t & Ht & Hts & _). right.
  exists src, dst, sid, route, t. rewrite Hr, Ht. cbn zeta.
  rewrite bool_decide_eq_true_2 by done. by split_and!.
Qed.

Lemma push_ok p s tun fwd out t :
  paths s !! p = Some t -> server_ok s -> server_ok (set_path p (with_queues tun fwd out t) s).
Proof. intros Hp. apply only_path_ok with p t; [done|]. by apply set_path_only. Qed.

Lemma push_tun_ok p f s : server_ok s -> server_ok (push_tun p f s).
Proof. intros Hs. unfold push_tun. destruct (paths s !! p) eqn:Hp; [by apply push_ok | done]. Qed.

Lemma push_forward_ok p f s : server_ok s -> server_ok (push_forward p f s).
Proof.
  intros Hs. unfold push_forward. destruct (paths s !! p) as [t|] eqn:Hp; [|done].
  destruct (use_tun_bridge t); [done | by apply push_ok].
Qed.

Lemma server_step_ok s s' : server_step s s' -> server_ok s -> server_ok s'.
Proof.
  destruct 1 as [s p b Hp|s p b Hp|s p b Hp|s p n oks ok b s' Hc|s p t n oks ok b s' _ _ Hc|s p f|s pkt rest _ Hq
    |s pkt rest _ Hq _|s packet r b Hret]; intros Hs.
  - by apply open_path_ok.
  - by apply open_path_ok.
  - by apply open_path_ok.
  - eapply path_cycle_ok; [by eapply cycle_cases | done].
  - eapply path_cycle_ok; [by eapply quic_cycle_cases | done].
  - by apply push_forward_ok.
  - destruct (tun_write_keeps pkt (bridge s) (ips_routed s Hs)) as [H1 H2].
    destruct (set_bridge_ok s _ Hs H1 H2) as [A B]. split; [exact A | exact B].
  - destruct (tun_write_keeps pkt (bridge s) (ips_routed s Hs)) as [H1 H2].
    destruct (set_bridge_ok s _ Hs H1 H2) as [A B]. split; [exact A | exact B].
  - destruct (tun_return_cases s packet Hs)
      as [He|(src & dst & sid & route & t & _ & Hd & Hr & Ht & Hts & He)];
      cbn zeta in He; rewrite He in Hret; injection Hret as <- <-.
    + by destruct s.
    + apply push_tun_ok, set_bridge_ok; [done| |]; simpl.
      * intros i r [[<- <-]|[_ H]]%lookup_insert_Some; eauto.
      * intros ip i Hi. apply lookup_insert_is_Some'. right. by eapply ips_routed.
Qed.

Lemma server_reachable_ok m s : reachable m s -> server_ok s.
Proof. induction 1; [apply server_new_ok | by eapply server_step_ok]. Qed.

Lemma reachable_mode m s : reachable m s -> tun_mode s = m.
Proof.
  induction 1 as [|s s' _ IH Hstep]; [done|].
  destruct Hstep as [s p b ?|s p b ?|s p b ?|s p n oks ok b s' Hc|s p t n oks ok b s' _ _ Hc|s p f|s|s|s packet r b ?];
    simpl; try done.
  - unfold tcp_session_open, open_path. by destruct (register_client _ _).
  - unfold websocket_session_open, open_path. by destruct (register_client _ _).
  - unfold quic_session_open, open_path. by destruct (register_client _ _).
  - apply cycle_cases in Hc as (t & s1 & _ & [[Hm _] _ _] & [->|(t1 & _ & _ & ->)]); simpl; congruence.
  - apply quic_cycle_cases in Hc as (t0 & s1 & _ & [[Hm _] _ _] & [->|(t1 & _ & _ & ->)]); simpl; congruence.
  - unfold push_forward. destruct (paths s !! p) as [t|]; [by destruct (use_tun_bridge t) | done].
  - destruct r as [[p f]|]; [|done]. unfold push_tun. simpl. by destruct (paths s !! p).
Qed.

Lemma tun_tx_alive_spec p t s :
  use_tun_bridge t = true ->
  tun_tx_alive p t s = true <-> exists sid r, sessions (bridge s) !! sid = Some r /\ tx r = p.
Proof.
  intros Hm. unfold tun_tx_alive. rewrite Hm, orb_false_l, existsb_exists. split.
  - intros ([sid r] & Hin & Heq). exists sid, r. split; [|by apply Nat.eqb_eq].
    by apply elem_of_map_to_list, list_elem_of_In.
  - intros (sid & r & Hr & <-). exists (sid, r). split; [|apply Nat.eqb_refl].
    by apply list_elem_of_In, elem_of_map_to_list.
Qed.

(** A task with nothing queued whose channel lost its sender ends at its next cycle. *)
Lemma cycle_closed p s t ok :
  paths s !! p = Some t -> pending_frame t = None -> tun_rx t = [] ->
  use_tun_bridge t = true -> tun_tx_alive p t s = false ->
  exists t', same_task t' t /\ cycle p 0 [] ok (OnTun ok) s = Some (close_path p t' (set_path p t' s)).
Proof.
  intros Hp Hpend Hq Hm Hdead. unfold cycle. rewrite Hp. cbn [mbind option_bind].
  assert (Ht : drain_responses 0 [] t = with_queues [] (forward_rx t) (client_out t) t)
    by (unfold drain_responses; by rewrite Hq, Hm).
  rewrite Ht. cbn [pending_frame with_queues]. rewrite Hpend.
  cbn [select_step tun_rx with_queues].
  change (tun_tx_alive p _ s) with (tun_tx_alive p t s). rewrite Hdead. cbn [mbind option_bind].
  cbn [paths set_path]. rewrite lookup_insert_eq. cbn [mbind option_bind].
  exists (with_queues [] (forward_rx t) (client_out t) t). by split_and!.
Qed.

(** Opening a second connection of a session takes the first one's sender away. *)
Lemma open_second_dead s p1 t1 p2 b :
  server_ok s -> use_tun_bridge t1 = true -> paths s !! p1 = Some t1 -> paths s !! p2 = None ->
  client_public_key b = path_key t1 ->
  sessions_by_client (registry s) !! path_key t1 = Some (path_session t1) ->
  tun_tx_alive p1 t1 (open_path true p2 b s) = false.
Proof.
  intros [Hro _] Hu Hp1 Hp2 Hkey Hreg. apply not_true_is_false. rewrite tun_tx_alive_spec by done.
  unfold open_path, register_client. rewrite Hkey, Hreg. cbn [bridge register_session sessions].
  intros (sid & r & [[<- <-]|[Hne Hr]]%lookup_insert_Some & Htx); simpl in Htx; [congruence|].
  destruct (Hro _ _ Hr) as (t & Ht & Hs & _). congruence.
Qed.

(** ** A dead writer *)

Lemma drain_pending n oks t : pending_frame (drain_responses n oks t) = pending_frame t.
Proof.
  unfold drain_responses. destruct (drain_queue _ _ (tun_rx t) _) as [[tun out] oks'].
  by destruct (if use_tun_bridge t then _ else _) as [[fwd out'] ?].
Qed.

Lemma path_cycle_writer p s s' : path_cycle p s s' -> writer_alive s' = writer_alive s.
Proof. intros (t & s1 & _ & [[_ Hw] _ _] & [->|(t1 & _ & _ & ->)]); cbn; congruence. Qed.

Lemma writer_stays_dead s s' : writer_alive s = false -> server_step s s' -> writer_alive s' = false.
Proof.
  intros Hw Hstep.
  destruct Hstep as [s p b ?|s p b ?|s p b ?|s p n oks ok b s' Hc|s p t n oks ok b s' _ _ Hc|s p f|s pkt rest Ha
    |s pkt rest Ha|s packet r b ?]; try congruence.
  - unfold tcp_session_open, open_path. by destruct (register_client _ _).
  - unfold websocket_session_open, open_path. by destruct (register_client _ _).
  - unfold quic_session_open, open_path. by destruct (register_client _ _).
  - rewrite <- Hw. by eapply path_cycle_writer, cycle_cases.
  - rewrite <- Hw. by eapply path_cycle_writer, quic_cycle_cases.
  - unfold push_forward. destruct (paths s !! p) as [t|]; [by destruct (use_tun_bridge t)|done].
  - destruct r as [[p f]|]; [|done]. unfold push_tun. cbn. by destruct (paths s !! p).
Qed.

(** * Properties *)

(** Session ids: over fewer than 2^64 registrations and removals from an empty registry, no two
    registered clients share an id, registering a registered client again returns its id and changes
    nothing, and a client that is not registered gets an id no registration returned before, not even
    one of its own earlier sessions. *)
Theorem registry_ids_unique (ops : list registry_op) (k : string) :
  Z.of_nat (length ops) + 1 < 2 ^ 64 ->
  let (ids, r) := registry_run ops registry_default in
  (forall k1 k2 id, sessions_by_client r !! k1 = Some id -> sessions_by_client r !! k2 = Some id ->
     k1 = k2) /\
  (contains_client k r = true -> (register_client k r).2 = r) /\
  (contains_client k r = false -> (register_client k r).1 ∉ ids) /\
  sessions_by_client (register_client k r).2 !! k = Some (register_client k r).1.
Proof.
  intros Hmax. destruct (registry_run_ok ops registry_default registry_default_ok)
    as (Hr & Hn & Hall); [simpl; lia|].
  destruct (registry_run ops registry_default) as [ids r]. cbn [fst snd next_session_id registry_default] in *.
  destruct (register_client_ok k r Hr) as (_ & _ & _ & Hk); [lia|].
  split_and!; [apply Hr| | |done]; unfold contains_client, register_client.
  - intros [id ->]%bool_decide_eq_true. done.
  - intros Hno%bool_decide_eq_false%eq_None_not_Some. rewrite Hno. simpl. intros Hin.
    rewrite Forall_forall in Hall. specialize (Hall _ Hin). lia.
Qed.

(** C10: Return traffic: in every reachable state of the server the TUN reader either drops a packet and
    changes nothing (it is not IPv4 or its destination was never seen as a source), or hands it, whole
    and numbered with the next sequence number of the session, to the connection that opened the
    session's route last, which is open and belongs to the session that last sent from that address;
    the branches for a vanished session and a closed receiver are never taken. *)
Theorem tun_return_routes (m : bool) (s : Server) (packet : list Z) :
  reachable m s ->
  let alive := fun p => bool_decide (is_Some (paths s !! p)) in
  tun_return alive packet (bridge s) = (None, bridge s) \/
  exists src dst sid route t b',
    src_dst packet = Some (src, dst) /\ ip_to_session (bridge s) !! dst = Some sid /\
    sessions (bridge s) !! sid = Some route /\ paths s !! tx route = Some t /\ path_session t = sid /\
    tun_return alive packet (bridge s) =
      (Some (tx route,
         {| header := {| connection_id := route_connection_id route;
                         sequence := next_server_sequence route; flags := 0 |};
            payload := packet |}), b') /\
    ip_to_session b' = ip_to_session (bridge s) /\
    next_server_sequence <$> sessions b' !! sid =
      Some (wrapping_add 64 (next_server_sequence route) 1).
Proof.
  intros Hs%server_reachable_ok. destruct (tun_return_cases s packet Hs)
    as [He|(src & dst & sid & route & t & H1 & H2 & H3 & H4 & H5 & He)]; [by left|].
  right. eexists src, dst, sid, route, t, _. split_and!; [done..|exact He|done|].
  cbn [sessions]. by rewrite lookup_insert_eq.
Qed.

(** With a TUN bridge a client cannot hold two TCP connections: when a second one of a registered
    client opens, the first one's TUN channel is closed, so its task, once its queue is empty, ends
    and takes the session away; then the second one's channel is closed as well, its route and the
    client's registration are gone. *)
Theorem second_connection_ends_both (ok : bool) (s : Server) (p1 p2 : path_id) (t1 : PathTask)
    (b : SessionBinding) :
  reachable true s -> paths s !! p1 = Some t1 -> use_tun_bridge t1 = true -> paths s !! p2 = None ->
  pending_frame t1 = None -> tun_rx t1 = [] -> client_public_key b = path_key t1 ->
  sessions_by_client (registry s) !! path_key t1 = Some (path_session t1) ->
  exists s' t2, cycle p1 0 [] ok (OnTun ok) (tcp_session_open p2 b s) = Some s' /\
    paths s' !! p1 = None /\ paths s' !! p2 = Some t2 /\ path_key t2 = path_key t1 /\
    tun_tx_alive p2 t2 s' = false /\ sessions (bridge s') !! path_session t1 = None /\
    contains_client (path_key t1) (registry s') = false.
Proof.
  intros Hreach Hp1 Hu Hp2 Hpend Hq Hkey Hreg. pose proof (server_reachable_ok _ _ Hreach) as Hs.
  unfold tcp_session_open. rewrite (reachable_mode _ _ Hreach).
  assert (Hne : p1 <> p2) by congruence.
  pose proof (open_second_dead s p1 t1 p2 b Hs Hu Hp1 Hp2 Hkey Hreg) as Hdead.
  pose proof (open_path_ok true p2 b s Hp2 Hs) as Hok.
  assert (Hpaths : paths (open_path true p2 b s) !! p1 = Some t1 /\
    exists t2, paths (open_path true p2 b s) !! p2 = Some t2 /\ same_task t2 t1).
  { unfold open_path, register_client. rewrite Hkey, Hreg. cbn [paths].
    rewrite lookup_insert_ne, lookup_insert_eq by done. split; [done|]. eexists. split; [done|].
    unfold same_task; cbn; split_and!; congruence. }
  destruct Hpaths as [Hp1' (t2 & Hp2' & Hs2 & Hk2 & Hu2)]. set (s1 := open_path true p2 b s) in *.
  destruct (cycle_closed p1 s1 t1 ok Hp1' Hpend Hq Hu Hdead) as (t' & (Hs' & Hk' & Hu') & ->).
  eexists _, t2. split; [done|]. unfold close_path. cbn [paths set_path bridge registry].
  rewrite Hu', Hu, Hs', Hk'. split_and!; [apply lookup_delete_eq| |done| |apply lookup_delete_eq|].
  - by rewrite lookup_delete_ne, lookup_insert_ne by done.
  - apply not_true_is_false. rewrite tun_tx_alive_spec by congruence. cbn.
    intros (sid & r & [Hsid Hr]%lookup_delete_Some & Htx).
    destruct (routes_open s1 Hok sid r Hr) as (t & Ht & Hts & _). congruence.
  - unfold contains_client. cbn. rewrite lookup_delete_eq. by apply bool_decide_eq_false_2, is_Some_None.
Qed.

(** One write to the TUN device that fails ends the forwarding of all clients, for good: the writer task is gone
    and nothing starts it again, and every connection of a client with a TUN bridge is closed by the next packet it
    sends. *)
Theorem failed_write_ends_forwarding (s s' : Server) (p : path_id) (t : PathTask) (f : SessionFrame) (n : nat)
    (oks : list bool) (ok : bool) :
  writer_alive s = false -> paths s !! p = Some t -> use_tun_bridge t = true -> pending_frame t = None ->
  payload f <> [] ->
  (server_step s s' -> writer_alive s' = false) /\
  exists s1, cycle p n oks ok (OnRecv (Some f) ok) s = Some s1 /\ paths s1 !! p = None /\ outbound s1 = outbound s.
Proof.
  intros Hw Ht Hu Hp Hf. split; [by apply writer_stays_dead|].
  unfold cycle. rewrite Ht. cbn [mbind option_bind].
  pose proof (drain_responses_same n oks t) as (_ & _ & Hu'). rewrite drain_pending, Hp. cbn [select_step].
  unfold handle_client_frame. rewrite (bool_decide_eq_false_2 (payload f = [])), andb_false_r by done.
  rewrite Hu', Hu, Hw. cbn. rewrite lookup_insert_eq. cbn. eexists. split; [done|]. cbn. by rewrite lookup_delete_eq.
Qed.

(** ** Witnesses *)

Module Sample.
Definition binding : SessionBinding :=
  {| client_public_key := "key"; initial_frame := None; relayed_via_provider := true |}.
Definition one_path : Server := tcp_session_open 1 binding (server_new true).
(** An IPv4 packet from 10.0.0.1 to 10.0.0.2 and one back. *)
Definition packet_out : list Z := [69; 0; 0; 20; 0; 0; 0; 0; 0; 0; 0; 0; 10; 0; 0; 1; 10; 0; 0; 2].
Definition packet_back : list Z := [69; 0; 0; 20; 0; 0; 0; 0; 0; 0; 0; 0; 10; 0; 0; 2; 10; 0; 0; 1].

Lemma one_path_reachable : reachable true one_path.
Proof. eapply ReachStep; [apply ReachNew|]. by apply StepOpenTcp. Qed.

Lemma registry_ids_unique_witness :
  let (ids, r) := registry_run [OpRegister "a"; OpRegister "b"; OpUnregister "a"] registry_default in
  ids = [0; 1] /\ (register_client "a" r).1 ∉ ids.
Proof.
  pose proof (registry_ids_unique [OpRegister "a"; OpRegister "b"; OpUnregister "a"] "a") as H.
  destruct H as (_ & _ & Hfresh & _); [vm_compute; reflexivity|].
  split; [reflexivity|]. apply Hfresh. vm_compute. reflexivity.
Defined.

Lemma second_connection_ends_both_witness :
  exists s' t2, cycle 1 0 [] true (OnTun true) (tcp_session_open 2 binding one_path) = Some s' /\
    paths s' !! 1%nat = None /\ tun_tx_alive 2 t2 s' = false.
Proof.
  destruct (second_connection_ends_both true one_path 1 2
    {| use_tun_bridge := true; path_key := "key"; path_session := 0; tun_rx := []; forward_rx := []; pending_frame := None;
       client_out := []; ingested := [] |} binding) as (s' & t2 & Hc & H1 & _ & _ & H2 & _);
    try reflexivity.
  - apply one_path_reachable.
  - exists s', t2. split; [exact Hc|]. split; [exact H1 | exact H2].
Defined.

(** A state in which the bridge has learned 10.0.0.1. *)
Definition frame_out : SessionFrame :=
  {| header := {| connection_id := 7; sequence := 0; flags := 0 |}; payload := packet_out |}.
Definition queued : Server :=
  default one_path (cycle 1 0 [] true (OnRecv (Some frame_out) true) one_path).
Definition learned : Server :=
  set_outbound (tun_write {| out_session_id := 0; out_connection_id := 7; out_payload := packet_out |}
    (bridge queued)).2 true [] queued.

Lemma learned_reachable : reachable true learned.
Proof.
  apply (ReachStep true queued).
  - apply (ReachStep true one_path); [apply one_path_reachable|].
    apply (StepCycle _ 1 0 [] true (OnRecv (Some frame_out) true)). vm_compute. reflexivity.
  - apply (StepWrite queued); vm_compute; reflexivity.
Qed.

Lemma tun_return_routes_witness :
  exists f b', tun_return (fun p => bool_decide (is_Some (paths learned !! p))) packet_back (bridge learned) =
    (Some (1%nat, f), b') /\ payload f = packet_back /\ connection_id (header f) = 7.
Proof.
  destruct (tun_return_routes true learned packet_back learned_reachable)
    as [He|(src & dst & sid & route & t & b' & Hsd & Hd & Hr & _ & _ & He & _)].
  - exfalso. revert He. vm_compute. discriminate.
  - injection Hsd as <- <-. injection Hd as <-. injection Hr as <-.
    eexists _, b'. split; [exact He|]. split; reflexivity.
Defined.
End Sample.
