(* ===== verification/WgServer.v ===== *)
(** The server's WireGuard side ([src/crates/bonded-server/src/wireguard.rs]): the registry of peers
    with its address allocation and its file, the per-peer tunnels, and the handlers that hand out
    leases ([wireguard_peer_response] in [src/crates/bonded-server/src/bootstrap.rs]). *)

From stdpp Require Import base tactics list gmap strings pretty sorting.
From Stdlib Require Import ZArith Lia.
From S2P Require Import Prelude Text Json Auth Stores AuthHandshake Session PeerShare Packet Routing.
Open Scope Z_scope.

(** * Definitions *)

(** ** The registry *)

Record WireGuardPeer := {
  wp_device_public_key : string;
  wp_wg_public_key : string;
  wp_peer_ip : Ipv4Addr;
  wp_lease_expires_at : Z
}.

#[global] Instance WireGuardPeer_eq_dec : EqDecision WireGuardPeer.
Proof. solve_decision. Defined.

Record RegisteredWireGuardPeer := { rg_peer_ip : string; rg_lease_expires_at : Z }.

(** [poisoned]: a thread panicked while it held the registry's lock. *)
Record WireGuardPeerRegistry := {
  wg_peers : gmap string WireGuardPeer;
  next_octet : Z;
  peer_lease : Z;
  wg_path : option string;
  poisoned : bool
}.

(** [WireGuardPeersFile { peers }] *)
Record WireGuardPeersFile := { file_peers : list WireGuardPeer }.

Definition DEFAULT_WIREGUARD_PEER_LEASE_SECS : Z := 30 * 24 * 60 * 60.

Definition last_octet (ip : Ipv4Addr) : Z := let '(_, _, _, d) := ip in d.

(** [Display] of an address *)
Definition ip_string (ip : Ipv4Addr) : string :=
  let '(a, b, c, d) := ip in
  pretty a +:+ "." +:+ pretty b +:+ "." +:+ pretty c +:+ "." +:+ pretty d.

Definition new_with_lease (lease : Z) : WireGuardPeerRegistry :=
  {| wg_peers := ∅; next_octet := 1; peer_lease := lease; wg_path := None; poisoned := false |}.

Definition normalize_octet (octet : Z) : Z :=
  if (octet =? 0) || (octet =? 255) then 1 else Z.min octet 254.

Definition octet_in_use (peers : gmap string WireGuardPeer) (candidate : Z) : bool :=
  existsb (fun kp => last_octet (wp_peer_ip kp.2) =? candidate) (map_to_list peers).

Definition octet_candidate (start offset : Z) : Z := (start - 1 + offset) mod 254 + 1.

(** The loop over the offsets from [offset] on, [n] of them. *)
Fixpoint find_octet (n : nat) (start offset : Z) (peers : gmap string WireGuardPeer) : option Z :=
  match n with
  | O => None
  | S n =>
      let candidate := octet_candidate start offset in
      if octet_in_use peers candidate then find_octet n start (offset + 1) peers else Some candidate
  end.

Inductive WgError := WgExhausted | WgStore (e : StoreError).

Definition allocate_peer_ip (peers : gmap string WireGuardPeer) (next : Z)
  : outcome WgError Ipv4Addr * Z :=
  let start := normalize_octet next in
  match find_octet 254 start 0 peers with
  | Some candidate => (Ok (100, 64, 1, candidate), normalize_octet (saturating_add 8 candidate 1))
  | None => (Err WgExhausted, next)
  end.

Section registry.
Context `{Toml WireGuardPeersFile}.

(** The file lists the peers by their device key. *)
Definition by_device_key (a b : WireGuardPeer) : Prop :=
  String.leb (wp_device_public_key a) (wp_device_public_key b) = true.

#[global] Instance by_device_key_dec : RelDecision by_device_key.
Proof. intros a b. unfold by_device_key. apply _. Defined.

Definition persist_peers_file (path : string) (peers : gmap string WireGuardPeer) (fs : FS)
  : outcome WgError unit * FS :=
  let peer_list := merge_sort by_device_key (map_to_list peers).*2 in
  match toml_print {| file_peers := peer_list |} with
  | None => (Err (WgStore StoreToml), fs)
  | Some raw => let (r, fs) := write_file path raw fs in (map_err WgStore r, fs)
  end.

Definition persist_locked (path : option string) (peers : gmap string WireGuardPeer) (fs : FS)
  : outcome WgError unit * FS :=
  match path with
  | None => (Ok tt, fs)
  | Some path => persist_peers_file path peers fs
  end.

Definition live (now : Z) (p : WireGuardPeer) : bool :=
  (wp_lease_expires_at p =? 0) || (now <? wp_lease_expires_at p).

Definition prune (now : Z) (peers : gmap string WireGuardPeer) : gmap string WireGuardPeer :=
  filter (fun kp => live now kp.2 = true) peers.

Definition with_peers (peers : gmap string WireGuardPeer) (octet : Z) (r : WireGuardPeerRegistry)
  : WireGuardPeerRegistry :=
  {| wg_peers := peers; next_octet := octet; peer_lease := peer_lease r; wg_path := wg_path r;
     poisoned := poisoned r |}.

Definition poison (r : WireGuardPeerRegistry) : WireGuardPeerRegistry :=
  {| wg_peers := wg_peers r; next_octet := next_octet r; peer_lease := peer_lease r;
     wg_path := wg_path r; poisoned := true |}.

(** [now] is [None] when the clock is before the epoch. *)
Definition prune_expired_locked (now : option Z) (r : WireGuardPeerRegistry) (fs : FS)
  : outcome WgError unit * WireGuardPeerRegistry * FS :=
  match now with
  | None => (Err (WgStore StoreClock), r, fs)
  | Some now =>
      let peers := prune now (wg_peers r) in
      let r' := with_peers peers (next_octet r) r in
      if decide (size peers = size (wg_peers r)) then (Ok tt, r', fs)
      else let (res, fs) := persist_locked (wg_path r) peers fs in (res, r', fs)
  end.

(** A [Result] that is [expect]ed while the lock is held. *)
Definition expect_locked {A} (res : outcome WgError unit) (r : WireGuardPeerRegistry) (fs : FS)
    (k : outcome Empty_set A * WireGuardPeerRegistry * FS)
  : outcome Empty_set A * WireGuardPeerRegistry * FS :=
  match res with
  | Ok _ => k
  | _ => (Panic, poison r, fs)
  end.

Definition register_peer_lease (now : option Z) (device_public_key wg_public_key : string)
    (r : WireGuardPeerRegistry) (fs : FS)
  : outcome Empty_set RegisteredWireGuardPeer * WireGuardPeerRegistry * FS :=
  if poisoned r then (Panic, r, fs)
  else
    let '(res, r, fs) := prune_expired_locked now r fs in
    expect_locked res r fs
    match now with
    | None => (Panic, poison r, fs)
    | Some now =>
        let lease_expires_at := saturating_add 64 now (peer_lease r) in
        match wg_peers r !! device_public_key with
        | Some existing =>
            let updated := {| wp_device_public_key := wp_device_public_key existing;
                              wp_wg_public_key := wg_public_key;
                              wp_peer_ip := wp_peer_ip existing;
                              wp_lease_expires_at := lease_expires_at |} in
            let answer := {| rg_peer_ip := ip_string (wp_peer_ip existing) +:+ "/32";
                             rg_lease_expires_at := lease_expires_at |} in
            let r := with_peers (<[device_public_key := updated]> (wg_peers r)) (next_octet r) r in
            if decide (updated = existing) then (Ok answer, r, fs)
            else
              let (res, fs) := persist_locked (wg_path r) (wg_peers r) fs in
              expect_locked res r fs (Ok answer, r, fs)
        | None =>
            match allocate_peer_ip (wg_peers r) (next_octet r) with
            | (Ok ip, octet) =>
                let peer := {| wp_device_public_key := device_public_key;
                               wp_wg_public_key := wg_public_key; wp_peer_ip := ip;
                               wp_lease_expires_at := lease_expires_at |} in
                let r := with_peers (<[device_public_key := peer]> (wg_peers r)) octet r in
                let (res, fs) := persist_locked (wg_path r) (wg_peers r) fs in
                expect_locked res r fs
                  (Ok {| rg_peer_ip := ip_string ip +:+ "/32";
                         rg_lease_expires_at := lease_expires_at |}, r, fs)
            | _ => (Panic, poison r, fs)
            end
        end
    end.

(** [find_by_wg_key]: some peer with that key, in the map's order. *)
Definition find_by_wg_key (now : option Z) (wg_public_key : string) (r : WireGuardPeerRegistry) (fs : FS)
  : outcome Empty_set (option WireGuardPeer) * WireGuardPeerRegistry * FS :=
  if poisoned r then (Panic, r, fs)
  else
    let '(res, r, fs) := prune_expired_locked now r fs in
    expect_locked res r fs
      (Ok (List.find (fun p => bool_decide (wp_wg_public_key p = wg_public_key))
             (map_to_list (wg_peers r)).*2), r, fs).

Definition all_peers (now : option Z) (r : WireGuardPeerRegistry) (fs : FS)
  : outcome Empty_set (list WireGuardPeer) * WireGuardPeerRegistry * FS :=
  if poisoned r then (Panic, r, fs)
  else
    let '(res, r, fs) := prune_expired_locked now r fs in
    expect_locked res r fs (Ok (map_to_list (wg_peers r)).*2, r, fs).

(** One entry of the file as it is loaded: the peers, the largest octet and whether anything differs
    from the file. *)
Definition load_peer (now default_lease : Z) (acc : gmap string WireGuardPeer * Z * bool)
    (peer : WireGuardPeer) : gmap string WireGuardPeer * Z * bool :=
  let '(peers, max_octet, normalized) := acc in
  let zero := wp_lease_expires_at peer =? 0 in
  let peer := if zero then {| wp_device_public_key := wp_device_public_key peer;
                              wp_wg_public_key := wp_wg_public_key peer;
                              wp_peer_ip := wp_peer_ip peer;
                              wp_lease_expires_at := default_lease |} else peer in
  let normalized := normalized || zero in
  if wp_lease_expires_at peer <=? now then (peers, max_octet, true)
  else (<[wp_device_public_key peer := peer]> peers,
        Z.max max_octet (last_octet (wp_peer_ip peer)), normalized).

Definition load_peers_file (now : option Z) (path : string) (lease : Z) (fs : FS)
  : outcome WgError (gmap string WireGuardPeer * Z * bool) :=
  return_if negb (exists_file path fs) with Ok (∅, 1, false) ;;
  raw ← map_err WgStore (read_to_string path fs);
  parsed ← ok_or (WgStore StoreToml) (toml_parse raw);
  now ← ok_or (WgStore StoreClock) now;
  let default_lease := saturating_add 64 now lease in
  let '(peers, max_octet, normalized) :=
    foldl (load_peer now default_lease) (∅, 0, false) (file_peers parsed) in
  Ok (peers, normalize_octet (saturating_add 8 max_octet 1), normalized).

Definition load_with_lease (now : option Z) (path : string) (lease : Z) (fs : FS)
  : outcome WgError WireGuardPeerRegistry * FS :=
  match load_peers_file now path lease fs with
  | Ok (peers, octet, normalized) =>
      let r := {| wg_peers := peers; next_octet := octet; peer_lease := lease; wg_path := Some path;
                  poisoned := false |} in
      if normalized then
        let (res, fs) := persist_locked (wg_path r) (wg_peers r) fs in (_ ← res; Ok r, fs)
      else (Ok r, fs)
  | Err e => (Err e, fs)
  | Panic => (Panic, fs)
  end.

(** ** The endpoint that hands out leases *)

(** [wireguard_peer_response]: [keypair] is the server's WireGuard public key. *)
Definition wireguard_peer_response `{JsonText} (keypair : option string) (now : option Z) (body : string)
    (peers : option WireGuardPeerRegistry) (fs : FS)
  : outcome Empty_set (Z * string) * option WireGuardPeerRegistry * FS :=
  match keypair, peers with
  | Some kp, Some r =>
      match json_parse (trim body) with
      | None => (Ok (400, error_body "invalid JSON body"), peers, fs)
      | Some req =>
          let device_pk := default EmptyString (json_get "device_public_key" req ≫= as_str) in
          let wg_pk := default EmptyString (json_get "wg_public_key" req ≫= as_str) in
          if is_empty device_pk || is_empty wg_pk then
            (Ok (400, error_body "device_public_key and wg_public_key are required"), peers, fs)
          else
            let '(res, r, fs) := register_peer_lease now device_pk wg_pk r fs in
            (peer ← res;
             Ok (200, json_print (JObj [("lease_expires_at", JNum (rg_lease_expires_at peer));
                                        ("peer_ip", JStr (rg_peer_ip peer));
                                        ("server_wg_public_key", JStr kp)])), Some r, fs)
      end
  | _, _ => (Ok (501, error_body "WireGuard is not enabled on this server"), peers, fs)
  end.
End registry.

(** * Lemmas *)

(** ** Allocation *)

Lemma octet_in_use_spec peers c :
  octet_in_use peers c = true <-> exists k p, peers !! k = Some p /\ last_octet (wp_peer_ip p) = c.
Proof.
  unfold octet_in_use. rewrite existsb_exists. split.
  - intros ([k p] & Hin & Heq). exists k, p. split; [|by apply Z.eqb_eq].
    by apply elem_of_map_to_list, list_elem_of_In.
  - intros (k & p & Hp & <-). exists (k, p). split; [|apply Z.eqb_refl].
    by apply list_elem_of_In, elem_of_map_to_list.
Qed.

Lemma octet_candidate_range start offset : 1 <= octet_candidate start offset <= 254.
Proof. unfold octet_candidate. pose proof (Z.mod_pos_bound (start - 1 + offset) 254). lia. Qed.

(** Every octet is some offset away from the start. *)
Lemma octet_candidate_surj start c :
  1 <= c <= 254 -> exists k, 0 <= k < 254 /\ octet_candidate start k = c.
Proof.
  intros Hc. exists ((c - start) mod 254). split; [apply Z.mod_pos_bound; lia|].
  unfold octet_candidate. rewrite Z.add_mod_idemp_r by lia.
  replace (start - 1 + (c - start)) with (c - 1) by lia. rewrite Z.mod_small by lia. lia.
Qed.

Lemma find_octet_Some n start off peers c :
  find_octet n start off peers = Some c -> octet_in_use peers c = false /\ 1 <= c <= 254.
Proof.
  revert off. induction n as [|n IH]; intros off; [done|]. cbn [find_octet].
  destruct (octet_in_use peers (octet_candidate start off)) eqn:Hu; [apply IH|]. intros [= <-].
  split; [done | apply octet_candidate_range].
Qed.

Lemma find_octet_None n start off peers k :
  find_octet n start off peers = None -> off <= k < off + Z.of_nat n ->
  octet_in_use peers (octet_candidate start k) = true.
Proof.
  revert off. induction n as [|n IH]; intros off; [lia|]. cbn [find_octet].
  destruct (octet_in_use peers (octet_candidate start off)) eqn:Hu; [|done]. intros Hf Hk.
  destruct (decide (k = off)) as [->|]; [done|]. apply (IH (off + 1)); [done|lia].
Qed.

Lemma normalize_octet_range o : 0 <= o <= 255 -> 1 <= normalize_octet o <= 254.
Proof. intros Ho. unfold normalize_octet. case_tests; lia. Qed.

(** ** The invariant *)

(** Peers are filed under their own key, have an address of the block each, and no two share one. *)
Record peers_ok (peers : gmap string WireGuardPeer) : Prop := {
  peer_filed : forall k p, peers !! k = Some p -> wp_device_public_key p = k;
  peer_addr : forall k p, peers !! k = Some p ->
    exists o, wp_peer_ip p = (100, 64, 1, o) /\ 1 <= o <= 254;
  peer_lease_set : forall k p, peers !! k = Some p -> 0 < wp_lease_expires_at p;
  peer_unique : forall k1 k2 p1 p2, peers !! k1 = Some p1 -> peers !! k2 = Some p2 ->
    wp_peer_ip p1 = wp_peer_ip p2 -> k1 = k2
}.

Record registry_wf (r : WireGuardPeerRegistry) : Prop := {
  wf_peers : peers_ok (wg_peers r);
  wf_octet : 0 <= next_octet r <= 255;
  wf_lease : 0 < peer_lease r
}.

Lemma peers_ok_empty : peers_ok ∅.
Proof. by split; intros; simplify_map_eq. Qed.

Lemma peers_ok_subset peers peers' : peers' ⊆ peers -> peers_ok peers -> peers_ok peers'.
Proof.
  intros Hs [H1 H2 H3 H4]. split.
  - intros k p Hk. by apply H1, (lookup_weaken _ _ _ _ Hk).
  - intros k p Hk. by apply (H2 k), (lookup_weaken _ _ _ _ Hk).
  - intros k p Hk. by apply (H3 k), (lookup_weaken _ _ _ _ Hk).
  - intros k1 k2 p1 p2 Hp1 Hp2. apply H4; by eapply lookup_weaken.
Qed.

Lemma prune_ok now peers : peers_ok peers -> peers_ok (prune now peers).
Proof. apply peers_ok_subset, map_filter_subseteq. Qed.

Lemma peers_ok_insert peers k p o :
  peers_ok peers -> wp_device_public_key p = k -> wp_peer_ip p = (100, 64, 1, o) -> 1 <= o <= 254 ->
  0 < wp_lease_expires_at p ->
  (forall k' p', k' <> k -> peers !! k' = Some p' -> last_octet (wp_peer_ip p') <> o) ->
  peers_ok (<[k := p]> peers).
Proof.
  intros [H1 H2 H3 H4] Hk Hip Ho Hl Hfree. split.
  - intros k' p' [[<- <-]|[_ H]]%lookup_insert_Some; eauto.
  - intros k' p' [[<- <-]|[_ H]]%lookup_insert_Some; eauto.
  - intros k' p' [[<- <-]|[_ H]]%lookup_insert_Some; eauto.
  - intros k1 k2 p1 p2 [[<- <-]|[Hn1 Hp1]]%lookup_insert_Some [[<- <-]|[Hn2 Hp2]]%lookup_insert_Some Heq.
    + done.
    + exfalso. apply (Hfree k2 p2); [congruence|done|]. by rewrite <- Heq, Hip.
    + exfalso. apply (Hfree k1 p1); [congruence|done|]. by rewrite Heq, Hip.
    + by eapply H4.
Qed.

Lemma octet_unique peers k1 k2 p1 p2 :
  peers_ok peers -> peers !! k1 = Some p1 -> peers !! k2 = Some p2 ->
  last_octet (wp_peer_ip p1) = last_octet (wp_peer_ip p2) -> k1 = k2.
Proof.
  intros Hok H1 H2 Heq. destruct (peer_addr _ Hok _ _ H1) as (o1 & Ho1 & _).
  destruct (peer_addr _ Hok _ _ H2) as (o2 & Ho2 & _). eapply (peer_unique _ Hok); [done..|].
  rewrite Ho1, Ho2 in *. simpl in Heq. by subst.
Qed.

Section registry_lemmas.
Context `{Toml WireGuardPeersFile}.

Lemma with_peers_wf r peers octet :
  registry_wf r -> peers_ok peers -> 0 <= octet <= 255 -> registry_wf (with_peers peers octet r).
Proof. intros [_ _ Hl] Hp Ho. by split. Qed.

Lemma poison_wf r : registry_wf r -> registry_wf (poison r).
Proof. intros [Hp Ho Hl]. by split. Qed.

(** Pruning leaves the registry as it is but for the expired peers, whatever becomes of the file. *)
Lemma prune_locked_spec now r fs res r' fs' :
  prune_expired_locked (Some now) r fs = (res, r', fs') ->
  r' = with_peers (prune now (wg_peers r)) (next_octet r) r.
Proof.
  unfold prune_expired_locked. case_decide.
  - by intros [= <- <- <-].
  - destruct (persist_locked _ _ fs). by intros [= <- <- <-].
Qed.

Lemma prune_locked_wf now r fs res r' fs' :
  prune_expired_locked now r fs = (res, r', fs') -> registry_wf r -> registry_wf r'.
Proof.
  intros Hp Hr. destruct now as [now|].
  - apply prune_locked_spec in Hp as ->. apply with_peers_wf; [done| |apply Hr].
    apply prune_ok, Hr.
  - by injection Hp as <- <- <-.
Qed.
End registry_lemmas.

Lemma lease_pos now lease : 0 <= now -> 0 < lease -> 0 < saturating_add 64 now lease.
Proof. unfold saturating_add. lia. Qed.

(** The registry's file, if it has one, can be read and written. *)
Definition file_ok (path : option string) (fs : FS) : Prop :=
  match path with Some p => path_ok p fs | None => True end.

Section file_lemmas.
Context `{TomlLaws WireGuardPeersFile}.

Lemma persist_locked_ok path peers fs :
  file_ok path fs ->
  exists fs', persist_locked path peers fs = (Ok tt, fs') /\ file_ok path fs' /\
    (forall p, path = Some p -> exists raw, files fs' !! p = Some raw /\
       toml_parse raw = Some {| file_peers := merge_sort by_device_key (map_to_list peers).*2 |}).
Proof.
  destruct path as [p|]; cbn [file_ok]; [|by exists fs]. intros Hp.
  unfold persist_locked, persist_peers_file.
  destruct (toml_round {| file_peers := merge_sort by_device_key (map_to_list peers).*2 |})
    as (raw & -> & Hraw).
  destruct (write_file_ok p raw fs Hp) as (fs' & -> & Hf & Hp'). exists fs'. split; [done|].
  split; [done|]. intros ? [= <-]. exists raw. by rewrite Hf, lookup_insert_eq.
Qed.

Lemma prune_locked_ok now r fs :
  file_ok (wg_path r) fs ->
  exists fs', prune_expired_locked (Some now) r fs =
    (Ok tt, with_peers (prune now (wg_peers r)) (next_octet r) r, fs') /\ file_ok (wg_path r) fs'.
Proof.
  intros Hf. unfold prune_expired_locked. case_decide; [by exists fs|].
  destruct (persist_locked_ok (wg_path r) (prune now (wg_peers r)) fs Hf) as (fs' & -> & Hf' & _).
  by exists fs'.
Qed.

(** Whether a device can get a lease: it has one, or an address is free. *)
Definition can_lease (peers : gmap string WireGuardPeer) (device : string) : Prop :=
  is_Some (peers !! device) \/ exists o, 1 <= o <= 254 /\ octet_in_use peers o = false.

(** What a granted lease is. *)
Definition leased (now : Z) (device wg : string) (before after : WireGuardPeerRegistry)
    (a : RegisteredWireGuardPeer) : Prop :=
  exists p, wg_peers after !! device = Some p /\ wp_wg_public_key p = wg /\
    wp_lease_expires_at p = saturating_add 64 now (peer_lease before) /\
    a = {| rg_peer_ip := ip_string (wp_peer_ip p) +:+ "/32";
           rg_lease_expires_at := wp_lease_expires_at p |} /\
    (forall p0, prune now (wg_peers before) !! device = Some p0 -> wp_peer_ip p = wp_peer_ip p0) /\
    (forall k, k <> device -> wg_peers after !! k = prune now (wg_peers before) !! k).

Lemma allocate_free peers next :
  (exists o, 1 <= o <= 254 /\ octet_in_use peers o = false) ->
  exists c, allocate_peer_ip peers next =
    (Ok (100, 64, 1, c), normalize_octet (saturating_add 8 c 1)) /\
    1 <= c <= 254 /\ octet_in_use peers c = false.
Proof.
  intros (o & Ho & Hfree). unfold allocate_peer_ip.
  destruct (find_octet 254 (normalize_octet next) 0 peers) as [c|] eqn:Hf.
  - apply find_octet_Some in Hf as [Hu Hc]. by exists c.
  - destruct (octet_candidate_surj (normalize_octet next) o Ho) as (k & Hk & <-).
    rewrite (find_octet_None _ _ _ _ k Hf) in Hfree; [done|lia].
Qed.

Lemma allocate_exhausted peers next :
  (forall o, 1 <= o <= 254 -> octet_in_use peers o = true) ->
  allocate_peer_ip peers next = (Err WgExhausted, next).
Proof.
  intros Hall. unfold allocate_peer_ip.
  destruct (find_octet 254 (normalize_octet next) 0 peers) as [c|] eqn:Hf; [|done].
  apply find_octet_Some in Hf as [Hu Hc]. rewrite Hall in Hu by done. done.
Qed.

(** Registering a device that has a live lease: its address stays. *)
Lemma register_existing now device wg r fs p0 :
  registry_wf r -> poisoned r = false -> file_ok (wg_path r) fs -> 0 <= now ->
  prune now (wg_peers r) !! device = Some p0 ->
  exists a r' fs', register_peer_lease (Some now) device wg r fs = (Ok a, r', fs') /\
    registry_wf r' /\ leased now device wg r r' a /\ poisoned r' = false.
Proof.
  intros Hr Hpo Hf Hnow Hp0. unfold register_peer_lease. rewrite Hpo.
  destruct (prune_locked_ok now r fs Hf) as (fs1 & -> & Hf1). cbn [expect_locked with_peers wg_peers].
  rewrite Hp0. cbn [peer_lease next_octet wg_path]. pose proof (wf_peers r Hr) as Hok.
  pose proof (prune_ok now _ Hok) as Hpk.
  set (p := {| wp_device_public_key := wp_device_public_key p0; wp_wg_public_key := wg;
               wp_peer_ip := wp_peer_ip p0; wp_lease_expires_at := _ |}).
  set (peers' := <[device := p]> (prune now (wg_peers r))).
  assert (Hwf : registry_wf (with_peers peers' (next_octet r) r)).
  { apply with_peers_wf; [done| |apply Hr]. destruct (peer_addr _ Hpk _ _ Hp0) as (o & Ho & Hor).
    apply (peers_ok_insert _ _ _ o); [done|exact (peer_filed _ Hpk _ _ Hp0)|done|done| |].
    - apply lease_pos; [done|apply Hr].
    - intros k' p' Hne Hk' Heq. apply Hne. eapply (octet_unique _ _ _ _ _ Hpk Hk' Hp0).
      by rewrite Heq, Ho. }
  assert (Hl : leased now device wg r (with_peers peers' (next_octet r) r)
    {| rg_peer_ip := ip_string (wp_peer_ip p0) +:+ "/32";
       rg_lease_expires_at := saturating_add 64 now (peer_lease r) |}).
  { exists p. unfold with_peers, peers'. cbn [wg_peers]. rewrite lookup_insert_eq.
    split_and!; try done; [intros p1 Hp1; rewrite Hp0 in Hp1; by injection Hp1 as <-|]. intros k Hk. by rewrite lookup_insert_ne. }
  case_decide.
  - eexists _, _, fs1. split; [done|]. by split_and!.
  - destruct (persist_locked_ok (wg_path r) peers' fs1 Hf1) as (fs2 & Hpers & _).
    cbn [with_peers wg_path wg_peers next_octet peer_lease poisoned]. rewrite Hpers.
    cbn [expect_locked]. eexists _, _, fs2. split; [done|].
    split_and!; [exact Hwf | exact Hl | exact Hpo].
Qed.

(** Registering a new device while an address is free. *)
Lemma register_new now device wg r fs :
  registry_wf r -> poisoned r = false -> file_ok (wg_path r) fs -> 0 <= now ->
  prune now (wg_peers r) !! device = None ->
  (exists o, 1 <= o <= 254 /\ octet_in_use (prune now (wg_peers r)) o = false) ->
  exists a r' fs', register_peer_lease (Some now) device wg r fs = (Ok a, r', fs') /\
    registry_wf r' /\ leased now device wg r r' a /\ poisoned r' = false.
Proof.
  intros Hr Hpo Hf Hnow Hp0 Hfree. unfold register_peer_lease. rewrite Hpo.
  destruct (prune_locked_ok now r fs Hf) as (fs1 & -> & Hf1).
  cbn [expect_locked with_peers wg_peers wg_path peer_lease next_octet poisoned]. rewrite Hp0.
  destruct (allocate_free _ (next_octet r) Hfree) as (c & -> & Hc & Hu).
  pose proof (prune_ok now _ (wf_peers r Hr)) as Hpk.
  set (p := {| wp_device_public_key := device; wp_wg_public_key := wg; wp_peer_ip := (100, 64, 1, c);
               wp_lease_expires_at := _ |}).
  set (peers' := <[device := p]> (prune now (wg_peers r))).
  set (octet := normalize_octet (saturating_add 8 c 1)).
  assert (Hwf : registry_wf (with_peers peers' octet r)).
  { apply with_peers_wf; [done| |].
    - apply (peers_ok_insert _ _ _ c); [done..| |].
      + apply lease_pos; [done|apply Hr].
      + intros k' p' _ Hk' Heq. apply not_true_iff_false in Hu. apply Hu, octet_in_use_spec. eauto.
    - pose proof (normalize_octet_range (saturating_add 8 c 1)) as Hn. unfold saturating_add in *. lia. }
  destruct (persist_locked_ok (wg_path r) peers' fs1 Hf1) as (fs2 & Hpers & _).
  rewrite Hpers. cbn [expect_locked]. eexists _, _, fs2. split; [done|].
  split_and!; [exact Hwf| |exact Hpo]. exists p. cbn [wg_peers with_peers]. unfold peers'.
  rewrite lookup_insert_eq. split_and!; try done; [intros p1 Hp1; congruence|]. intros k Hk.
  by rewrite lookup_insert_ne.
Qed.

(** Without a free address the registration panics with the lock held. *)
Lemma register_exhausted now device wg r fs :
  registry_wf r -> poisoned r = false -> file_ok (wg_path r) fs ->
  prune now (wg_peers r) !! device = None ->
  (forall o, 1 <= o <= 254 -> octet_in_use (prune now (wg_peers r)) o = true) ->
  exists r' fs', register_peer_lease (Some now) device wg r fs = (Panic, r', fs') /\
    registry_wf r' /\ poisoned r' = true.
Proof.
  intros Hr Hpo Hf Hp0 Hall. unfold register_peer_lease. rewrite Hpo.
  destruct (prune_locked_ok now r fs Hf) as (fs1 & -> & Hf1).
  cbn [expect_locked with_peers wg_peers]. rewrite Hp0. rewrite allocate_exhausted by done.
  eexists _, fs1. split; [done|]. split; [|done]. apply poison_wf, with_peers_wf; [done| |apply Hr].
  apply prune_ok, Hr.
Qed.
End file_lemmas.

(** ** Restarts *)

Lemma load_peers_fold now d l m o b :
  Forall (fun p => 0 < wp_lease_expires_at p /\ 0 <= last_octet (wp_peer_ip p) <= 254) l ->
  NoDup (wp_device_public_key <$> l) -> (forall p, p ∈ l -> m !! wp_device_public_key p = None) ->
  0 <= o <= 254 ->
  let r := foldl (load_peer now d) (m, o, b) l in
  0 <= r.1.2 <= 254 /\
  forall k p, r.1.1 !! k = Some p <->
    m !! k = Some p \/ (p ∈ l /\ wp_device_public_key p = k /\ now < wp_lease_expires_at p).
Proof.
  revert m o b. induction l as [|q l IH]; intros m o b Hall Hnd Hm Ho.
  { simpl. split; [done|]. intros k p. split; [by left|]. by intros [|[Hin _]]; [|apply not_elem_of_nil in Hin]. }
  apply Forall_cons in Hall as [[Hq Hqo] Hall]. rewrite fmap_cons in Hnd.
  apply NoDup_cons in Hnd as [Hnin Hnd]. cbn [foldl].
  assert (Hstep : load_peer now d (m, o, b) q =
    if wp_lease_expires_at q <=? now then (m, o, true)
    else (<[wp_device_public_key q := q]> m, Z.max o (last_octet (wp_peer_ip q)), b || false)).
  { unfold load_peer. by rewrite (proj2 (Z.eqb_neq (wp_lease_expires_at q) 0)) by lia. }
  rewrite Hstep. clear Hstep.
  assert (Hfresh : forall p, p ∈ l -> wp_device_public_key p <> wp_device_public_key q).
  { intros p Hp Heq. apply Hnin. rewrite <- Heq. by apply list_elem_of_fmap_2. }
  destruct (Z.leb_spec (wp_lease_expires_at q) now) as [Hle|Hgt].
  - destruct (IH m o true Hall Hnd) as [Hor Hk]; [|done|].
    { intros p Hp. apply Hm. by right. }
    split; [done|]. intros k p. rewrite Hk, elem_of_cons. split; [naive_solver|].
    intros [|([->|Hin] & Hkp & Hl)]; [by left|lia|by right].
  - set (b' := b || false). set (o' := Z.max o _).
    destruct (IH (<[wp_device_public_key q := q]> m) o' b' Hall Hnd) as [Hor Hk].
    + intros p Hp. rewrite lookup_insert_ne by (symmetry; by apply Hfresh). apply Hm. by right.
    + unfold o'. lia.
    + split; [done|]. intros k p. rewrite Hk, lookup_insert_Some, elem_of_cons.
      pose proof (Hm q ltac:(by left)) as Hmq. split; [naive_solver|].
      intros [Hmk|([->|Hin] & Hkp & Hl)]; [|naive_solver..]. left. right. split; [|done].
      intros <-. congruence.
Qed.

Section restart.
Context `{TomlLaws WireGuardPeersFile}.

Lemma persisted_peers peers (l := merge_sort by_device_key (map_to_list peers).*2) :
  peers_ok peers ->
  NoDup (wp_device_public_key <$> l) /\ (forall p, p ∈ l <-> exists k, peers !! k = Some p) /\
  Forall (fun p => 0 < wp_lease_expires_at p /\ 0 <= last_octet (wp_peer_ip p) <= 254) l.
Proof.
  intros Hok. pose proof (merge_sort_Permutation by_device_key (map_to_list peers).*2) as Hperm.
  change (merge_sort _ _) with l in Hperm. clearbody l.
  assert (Hin : forall p, p ∈ l <-> exists k, peers !! k = Some p).
  { intros p. rewrite Hperm, list_elem_of_fmap. split.
    - intros ([k p'] & -> & Hp). exists k. by apply elem_of_map_to_list.
    - intros [k Hk]. exists (k, p). split; [done|by apply elem_of_map_to_list]. }
  split; [|split; [done|]].
  - rewrite Hperm, <- list_fmap_compose.
    assert (Heq : (wp_device_public_key ∘ snd) <$> map_to_list peers = (map_to_list peers).*1).
    { apply list_fmap_ext. intros i [k p] Hi. simpl.
      apply list_elem_of_lookup_2, elem_of_map_to_list in Hi. by apply Hok. }
    rewrite Heq. apply NoDup_fst_map_to_list.
  - apply Forall_forall. intros p [k Hk]%Hin. destruct (peer_addr _ Hok _ _ Hk) as (o & -> & Ho).
    split; [by apply (peer_lease_set _ Hok k) | simpl; lia].
Qed.

Lemma load_persisted now path lease peers fs raw :
  path_ok path fs -> files fs !! path = Some raw ->
  toml_parse raw = Some {| file_peers := merge_sort by_device_key (map_to_list peers).*2 |} ->
  peers_ok peers ->
  exists octet normalized, load_peers_file (Some now) path lease fs =
    Ok (filter (fun kp => now < wp_lease_expires_at kp.2) peers, octet, normalized) /\ 1 <= octet <= 254.
Proof.
  intros Hp Hf Hraw Hok. destruct (read_written path raw fs) as [He Hr]; [apply Hp|done|].
  unfold load_peers_file. rewrite He, Hr. cbn [negb map_err mbind outcome_bind]. rewrite Hraw.
  cbn [ok_or mbind outcome_bind file_peers].
  destruct (persisted_peers peers Hok) as (Hnd & Hin & Hall).
  destruct (load_peers_fold now (saturating_add 64 now lease) _ ∅ 0 false Hall Hnd) as [Ho Hk];
    [done|lia|].
  destruct (foldl _ _ _) as [[m o] b]. cbn [fst snd] in *.
  exists (normalize_octet (saturating_add 8 o 1)), b. split.
  - do 3 f_equal. apply map_eq. intros k. apply option_eq. intros p.
    rewrite map_lookup_filter_Some, Hk, Hin. cbn. split.
    + intros [Hempty|([k' Hk'] & <- & Hl)]; [by rewrite lookup_empty in Hempty|].
      by rewrite (peer_filed _ Hok _ _ Hk').
    + intros [Hpk Hl]. right. split; [eauto|]. split; [by apply (peer_filed _ Hok)|done].
  - apply normalize_octet_range. unfold saturating_add. lia.
Qed.
End restart.

(** A lease is granted if it can be. *)
Lemma lease_granted `{TomlLaws WireGuardPeersFile} (now : Z) (device wg : string) (r : WireGuardPeerRegistry) (fs : FS) :
  registry_wf r -> poisoned r = false -> file_ok (wg_path r) fs -> 0 <= now ->
  can_lease (prune now (wg_peers r)) device ->
  exists a r' fs', register_peer_lease (Some now) device wg r fs = (Ok a, r', fs') /\ leased now device wg r r' a.
Proof.
  intros Hr Hp Hf Hnow Hcan.
  destruct (prune now (wg_peers r) !! device) as [p0|] eqn:Hp0.
  - destruct (register_existing now device wg r fs p0) as (a & r' & fs' & Hreg & _ & Hl & _); eauto.
  - destruct (register_new now device wg r fs) as (a & r' & fs' & Hreg & _ & Hl & _); eauto.
    by destruct Hcan as [[? ?]|]; [congruence|].
Qed.

(** The endpoint answers a request with both keys by the lease. *)
Lemma provisioned `{JsonText} `{TomlLaws WireGuardPeersFile} (kp device wg : string) (now : Z)
    (r : WireGuardPeerRegistry) (fs : FS) (body : string) :
  registry_wf r -> poisoned r = false -> file_ok (wg_path r) fs -> 0 <= now ->
  json_parse (trim body) = Some (flat [("device_public_key", device); ("wg_public_key", wg)]) ->
  is_empty device = false -> is_empty wg = false -> can_lease (prune now (wg_peers r)) device ->
  exists a r' fs', leased now device wg r r' a /\
    wireguard_peer_response (Some kp) (Some now) body (Some r) fs =
      (Ok (200, json_print (JObj [("lease_expires_at", JNum (rg_lease_expires_at a));
                                  ("peer_ip", JStr (rg_peer_ip a)); ("server_wg_public_key", JStr kp)])),
       Some r', fs').
Proof.
  intros Hr Hp Hf Hnow Hbody Hd Hw Hcan. unfold wireguard_peer_response. rewrite Hbody.
  destruct (lease_granted now device wg r fs) as (a & r' & fs' & Hreg & Hl); [done..|].
  assert (Hget : forall k v, json_get k (flat [("device_public_key", device); ("wg_public_key", wg)])
    ≫= as_str = Some v -> default EmptyString (json_get k (flat [("device_public_key", device);
      ("wg_public_key", wg)]) ≫= as_str) = v) by (by intros k v ->).
  rewrite (Hget "device_public_key" device), (Hget "wg_public_key" wg) by done.
  rewrite Hd, Hw. cbn [orb]. rewrite Hreg. by exists a, r', fs'.
Qed.

(** * Properties *)

(** C9: Leases: on a registry that is not poisoned and whose file can be written, a device gets a lease
    exactly if it has a live one or one of the 254 addresses is free.  It keeps the address it has, a
    new one is in 100.64.1.1-254 and different from every other peer's; the lease runs for the
    configured time, the WireGuard key is the new one, expired peers are gone and the others are
    untouched.  Otherwise the call panics with the lock held, and every later call panics too. *)
Theorem wg_lease_spec `{TomlLaws WireGuardPeersFile} (now : Z) (device wg : string)
    (r : WireGuardPeerRegistry) (fs : FS) :
  registry_wf r -> poisoned r = false -> file_ok (wg_path r) fs -> 0 <= now ->
  exists res r' fs', register_peer_lease (Some now) device wg r fs = (res, r', fs') /\ registry_wf r' /\
    (can_lease (prune now (wg_peers r)) device -> exists a, res = Ok a /\ leased now device wg r r' a) /\
    (~ can_lease (prune now (wg_peers r)) device -> res = Panic /\
       forall now' d w fs1, register_peer_lease now' d w r' fs1 = (Panic, r', fs1) /\
         all_peers now' r' fs1 = (Panic, r', fs1)).
Proof.
  intros Hr Hp Hf Hnow. destruct (prune now (wg_peers r) !! device) as [p0|] eqn:Hd.
  - destruct (register_existing now device wg r fs p0 Hr Hp Hf Hnow Hd) as (a & r' & fs' & -> & Hw & Hl & _).
    exists (Ok a), r', fs'. split_and!; [done..| |]; [eauto|]. intros Hno. destruct Hno. left. eauto.
  - destruct (decide (Exists (fun o => octet_in_use (prune now (wg_peers r)) o = false) (seqZ 1 254)))
      as [Hex|Hall].
    + apply Exists_exists in Hex as (o & Ho & Hu). apply elem_of_seqZ in Ho.
      assert (Hfree : exists o, 1 <= o <= 254 /\ octet_in_use (prune now (wg_peers r)) o = false)
        by (exists o; split; [lia|done]).
      destruct (register_new now device wg r fs Hr Hp Hf Hnow Hd Hfree) as (a & r' & fs' & -> & Hw & Hl & _).
      exists (Ok a), r', fs'. split_and!; [done..| |]; [eauto|]. intros Hno. destruct Hno. by right.
    + assert (Hused : forall o, 1 <= o <= 254 -> octet_in_use (prune now (wg_peers r)) o = true).
      { intros o Ho. apply not_false_is_true. intros Hu. apply Hall, Exists_exists. exists o.
        split; [apply elem_of_seqZ; lia|done]. }
      destruct (register_exhausted now device wg r fs Hr Hp Hf Hd Hused) as (r' & fs' & -> & Hw & Hpo).
      exists Panic, r', fs'. split_and!; [done..| |].
      * intros [[p0 Hp0]|(o & Ho & Hu)]; [congruence|]. by rewrite Hused in Hu.
      * intros _. split; [done|]. intros now' d w fs1. unfold register_peer_lease, all_peers. by rewrite Hpo.
Qed.

(** Allocations survive a restart: once the registry has written its file, a server that loads it
    later has exactly the peers whose leases have not run out, with the same keys and addresses, and
    its invariant holds, so that no address is given out twice. *)
Theorem wg_restart_keeps_leases `{TomlLaws WireGuardPeersFile} (now lease : Z) (path : string)
    (r : WireGuardPeerRegistry) (fs : FS) :
  registry_wf r -> path_ok path fs -> 0 < lease ->
  exists fs1 r' fs2, persist_locked (Some path) (wg_peers r) fs = (Ok tt, fs1) /\
    load_with_lease (Some now) path lease fs1 = (Ok r', fs2) /\ registry_wf r' /\
    forall k p, wg_peers r' !! k = Some p <-> wg_peers r !! k = Some p /\ now < wp_lease_expires_at p.
Proof.
  intros Hr Hp Hl. destruct (persist_locked_ok (Some path) (wg_peers r) fs Hp) as (fs1 & Hpers & Hf1 & Hfile).
  destruct (Hfile path eq_refl) as (raw & Hraw & Hparse).
  destruct (load_persisted now path lease (wg_peers r) fs1 raw Hf1 Hraw Hparse (wf_peers r Hr))
    as (octet & normalized & Hload & Ho).
  set (peers := filter (fun kp : string * WireGuardPeer => now < wp_lease_expires_at kp.2) (wg_peers r)) in *.
  set (r' := {| wg_peers := peers; next_octet := octet; peer_lease := lease; wg_path := Some path;
                poisoned := false |}).
  assert (Hr' : registry_wf r').
  { split; [|simpl; lia|done]. apply (peers_ok_subset (wg_peers r)); [|apply Hr].
    apply map_filter_subseteq. }
  assert (Hpeers : forall k p, wg_peers r' !! k = Some p <-> wg_peers r !! k = Some p /\ now < wp_lease_expires_at p).
  { intros k p. unfold r', peers. cbn [wg_peers]. by rewrite map_lookup_filter_Some. }
  exists fs1, r'. unfold load_with_lease. rewrite Hload. destruct normalized; [|by exists fs1].
  destruct (persist_locked_ok (Some path) peers fs1 Hf1) as (fs2 & Hp2 & _ & _).
  exists fs2. cbn [wg_path wg_peers]. by rewrite Hp2.
Qed.

(** Any client gets a lease: the provisioning endpoint answers 200 and stores the peer for every pair
    of non-empty keys while an address is free, and neither an authorized key nor an invite nor a
    signature is asked for. *)
Theorem wg_provisioning_open `{JsonText} `{TomlLaws WireGuardPeersFile} (kp device wg : string) (now : Z)
    (r : WireGuardPeerRegistry) (fs : FS) (body : string) :
  registry_wf r -> poisoned r = false -> file_ok (wg_path r) fs -> 0 <= now ->
  json_parse (trim body) = Some (flat [("device_public_key", device); ("wg_public_key", wg)]) ->
  is_empty device = false -> is_empty wg = false -> can_lease (prune now (wg_peers r)) device ->
  exists answer r' fs', wireguard_peer_response (Some kp) (Some now) body (Some r) fs =
      (Ok (200, answer), Some r', fs') /\
    exists p, wg_peers r' !! device = Some p /\ wp_wg_public_key p = wg.
Proof.
  intros Hr Hp Hf Hnow Hbody Hd Hw Hcan.
  destruct (provisioned kp device wg now r fs body) as (a & r' & fs' & (p & Hpk & Hwg & _) & Hresp); [done..|].
  rewrite Hresp. eexists _, r', fs'. split; [done|]. by exists p.
Qed.

(** ** Witnesses *)

#[global] Instance WireGuardPeer_countable : Countable WireGuardPeer.
Proof.
  refine (inj_countable' (fun p => (wp_device_public_key p, wp_wg_public_key p, wp_peer_ip p,
                                    wp_lease_expires_at p))
    (fun '(a, b, c, d) => {| wp_device_public_key := a; wp_wg_public_key := b; wp_peer_ip := c;
                             wp_lease_expires_at := d |}) _).
  by intros [].
Defined.

Module Sample.
#[local] Existing Instances Json.Sample.json_text.

#[local] Instance toml_peers : Toml WireGuardPeersFile := {|
  toml_parse s := (fun l => {| file_peers := l |}) <$> bits_parse s;
  toml_print f := Some (bits_print (file_peers f))
|}.

#[local] Instance toml_peers_laws : TomlLaws WireGuardPeersFile.
Proof. intros [l]. eexists. split; [done|]. cbn. by rewrite bits_round. Qed.

Definition peer_of (k : string) (o lease : Z) : WireGuardPeer :=
  {| wp_device_public_key := k; wp_wg_public_key := "w"; wp_peer_ip := (100, 64, 1, o);
     wp_lease_expires_at := lease |}.
(** "a" holds .1, whose lease ends at 50, and "b" holds .2 until 500. *)
Definition reg : WireGuardPeerRegistry :=
  {| wg_peers := <[ "a" := peer_of "a" 1 50 ]> {[ "b" := peer_of "b" 2 500 ]}; next_octet := 2;
     peer_lease := 100; wg_path := Some "p"; poisoned := false |}.
Definition no_files : FS := {| files := ∅; read_fails := ∅; write_fails := ∅ |}.

Lemma reg_wf : registry_wf reg.
Proof.
  split; [|simpl; lia|simpl; lia]. apply (peers_ok_insert _ _ _ 1); [|done|done|lia|done|].
  - apply (peers_ok_insert _ _ _ 2); [apply peers_ok_empty|done|done|lia|done|].
    intros k p _ Hk. by rewrite lookup_empty in Hk.
  - intros k p _ [<- <-]%lookup_singleton_Some. done.
Qed.

Lemma no_files_ok : path_ok "p" no_files.
Proof. split; apply not_elem_of_empty. Qed.

(** At 100 "a" has expired: "c" gets an address and "b" keeps its own. *)
Lemma wg_lease_spec_witness :
  exists a r' fs', register_peer_lease (Some 100) "c" "key" reg no_files = (Ok a, r', fs') /\
    rg_lease_expires_at a = 200 /\ wg_peers r' !! "b" = Some (peer_of "b" 2 500).
Proof.
  destruct (wg_lease_spec 100 "c" "key" reg no_files reg_wf) as (res & r' & fs' & He & _ & Hok & _).
  - reflexivity.
  - apply no_files_ok.
  - lia.
  - destruct Hok as (a & -> & p & _ & _ & Hl & -> & _ & Hother).
    + right. exists 7. split; [lia|]. vm_compute. reflexivity.
    + eexists _, r', fs'. split; [exact He|]. split; [exact Hl|].
      rewrite Hother by discriminate. vm_compute. reflexivity.
Defined.

Lemma wg_restart_keeps_leases_witness :
  exists fs1 r' fs2, persist_locked (Some "p") (wg_peers reg) no_files = (Ok tt, fs1) /\
    load_with_lease (Some 100) "p" 100 fs1 = (Ok r', fs2) /\
    wg_peers r' !! "b" = Some (peer_of "b" 2 500).
Proof.
  destruct (wg_restart_keeps_leases 100 100 "p" reg no_files reg_wf) as (fs1 & r' & fs2 & Hp & Hl & _ & Hk).
  - apply no_files_ok.
  - lia.
  - exists fs1, r', fs2. split; [exact Hp|]. split; [exact Hl|]. apply Hk.
    split; [vm_compute; reflexivity | reflexivity].
Defined.

Lemma wg_provisioning_open_witness :
  exists answer r' fs', wireguard_peer_response (Some "kp") (Some 100)
      (json_print (flat [("device_public_key", "stranger"); ("wg_public_key", "w")])) (Some reg) no_files =
      (Ok (200, answer), Some r', fs') /\
    exists p, wg_peers r' !! "stranger" = Some p /\ wp_wg_public_key p = "w".
Proof.
  apply (wg_provisioning_open "kp" "stranger" "w" 100 reg no_files).
  - apply reg_wf.
  - reflexivity.
  - apply no_files_ok.
  - lia.
  - vm_compute. reflexivity.
  - reflexivity.
  - reflexivity.
  - right. exists 7. split; [lia|]. vm_compute. reflexivity.
Defined.
End Sample.
