(* ===== verification/WgPeers.v ===== *)
(** The tunnels of the server's WireGuard endpoint: the second part of
    [src/crates/bonded-server/src/wireguard.rs].  One loop receives every datagram, finds the peer it
    belongs to and hands the decoded frames on; each peer has a tunnel of its own.  boringtun's [Tunn]
    is the class of WgTransport.v. *)

From stdpp Require Import base tactics list gmap strings.
From Stdlib Require Import ZArith Lia.
From S2P Require Import Prelude Words Session Checksum Transport WgTransport PeerShare Packet Routing WgServer.
Open Scope Z_scope.

(** * Definitions *)

(** ** The IPv4 header around a frame

    wireguard.rs has a copy of the two functions of transport.rs; it does not write the second byte, which is
    zero anyway. *)
Definition srv_wrap_in_ipv4 {E} (payload : list Z) : outcome E (list Z) :=
  let total_len := (IPV4_HDR_LEN + length payload)%nat in
  let packet := replicate total_len 0 in
  packet ← store packet 0 0x45;
  let total_len_bytes := be_bytes 2 (cast_u 16 (Z.of_nat total_len)) in
  tl0 ← index total_len_bytes 0;
  packet ← store packet 2 tl0;
  tl1 ← index total_len_bytes 1;
  packet ← store packet 3 tl1;
  packet ← store packet 8 64;
  packet ← store packet 9 253;
  packet ← copy_at packet 12 WG_FAKE_SRC_IP;
  packet ← copy_at packet 16 WG_FAKE_DST_IP;
  checksum ← sum_at packet header_offsets 0;
  let checksum := fold_carry FOLD_FUEL checksum in
  let checksum := not_u16 checksum in
  packet ← store packet 10 (cast_u 8 (Z.shiftr checksum 8));
  packet ← store packet 11 (cast_u 8 (Z.land checksum 0xff));
  copy_at packet IPV4_HDR_LEN payload.

Inductive UnwrapError := UnwrapTooShort (n : nat) | UnwrapBadIhl (ihl n : nat).

Definition srv_unwrap_from_ipv4 (ip_packet : list Z) : outcome UnwrapError (list Z) :=
  return_if bool_decide (length ip_packet < IPV4_HDR_LEN)%nat with Err (UnwrapTooShort (length ip_packet)) ;;
  b0 ← index ip_packet 0;
  let ihl := (Z.to_nat (Z.land b0 0x0f) * 4)%nat in
  return_if bool_decide (length ip_packet < ihl)%nat with Err (UnwrapBadIhl ihl (length ip_packet)) ;;
  slice_from ip_packet ihl.

(** ** Peers and the endpoint *)

(** A socket address: IP and port. *)
Abbreviation SocketAddr := (Z * Z)%type.

Record WireGuardPeerTransportState (T : Type) := {
  pt_tunn : T;
  pt_addr : option SocketAddr;
  pt_pending : list SessionFrame;
  pt_buf : nat
}.
Arguments pt_tunn {T}. Arguments pt_addr {T}. Arguments pt_pending {T}. Arguments pt_buf {T}.

(** [WireGuardServerPeer] with its [WireGuardPeerRuntime] *)
Record WireGuardServerPeer (T : Type) := {
  sp_session_id : Z;
  sp_wg_public_key : string;
  sp_state : WireGuardPeerTransportState T
}.
Arguments sp_session_id {T}. Arguments sp_wg_public_key {T}. Arguments sp_state {T}.

(** The endpoint: [runtimes] and [peer_by_source] of the loop, the sessions, what went out on the
    socket, how the coming sends end (a missing one succeeds), and the frames handed on. *)
Record WgEndpoint (T : Type) := {
  runtimes : gmap string (WireGuardServerPeer T);
  peer_by_source : gmap SocketAddr string;
  wg_sessions : SessionRegistryInner;
  wg_out : list (SocketAddr * list Z);
  wg_send_fails : list bool;
  delivered : list (Z * SessionFrame)
}.
Arguments runtimes {T}. Arguments peer_by_source {T}. Arguments wg_sessions {T}.
Arguments wg_out {T}. Arguments wg_send_fails {T}. Arguments delivered {T}.

Inductive EndpointError := SendFailed | BadPeerKey | NoPeerAddress | EncapFailed.

Section endpoint.
Context {T : Type} `{Tunn T}.

(** [Tunn::new] for a peer's public key; [None] when the key does not decode. *)
Variable new_tunn : string -> Z -> option T.

Definition WireGuardPeerRuntime_new (peer : WireGuardPeer) (session_id : Z)
  : outcome EndpointError (WireGuardServerPeer T) :=
  t ← ok_or BadPeerKey (new_tunn (wp_wg_public_key peer) (cast_u 32 session_id));
  Ok {| sp_session_id := session_id; sp_wg_public_key := wp_wg_public_key peer;
        sp_state := {| pt_tunn := t; pt_addr := None; pt_pending := [];
                       pt_buf := WG_MAX_DATAGRAM + WG_ENCAP_OVERHEAD |} |}.

(** [handle_tunn_result]: whether the result was accepted; what it adds is [collect]'s. *)
Definition handle_tunn_result (r : TunnResult) : bool :=
  match r with
  | TunnErr => false
  | _ => true
  end.

(** [process_datagram]: [None] when [fuel] rounds did not empty the tunnel's queue. *)
Definition srv_process_datagram (fuel : nat) (st : WireGuardPeerTransportState T) (peer_ip : Z)
    (datagram : list Z)
  : option (option (list (list Z) * list SessionFrame) * WireGuardPeerTransportState T) :=
  let (r, t1) := decapsulate (pt_tunn st) (Some peer_ip) datagram (pt_buf st) in
  if negb (handle_tunn_result r) then
    Some (None, {| pt_tunn := t1; pt_addr := pt_addr st; pt_pending := pt_pending st;
                   pt_buf := pt_buf st |})
  else
    match drain_tunn fuel t1 (pt_buf st) (collect r ([], [])) with
    | None => None
    | Some (t2, (outbound, frames)) =>
        Some (Some (outbound, frames ++ pt_pending st),
              {| pt_tunn := t2; pt_addr := pt_addr st; pt_pending := []; pt_buf := pt_buf st |})
    end.

(** [for packet in outbound_packets { socket.send_to(&packet, peer_addr).await? }] *)
Fixpoint send_all_to (addr : SocketAddr) (pkts : list (list Z)) (s : WgEndpoint T)
  : outcome EndpointError unit * WgEndpoint T :=
  match pkts with
  | [] => (Ok tt, s)
  | pkt :: pkts =>
      let with_socket out fails :=
        {| runtimes := runtimes s; peer_by_source := peer_by_source s; wg_sessions := wg_sessions s;
           wg_out := out; wg_send_fails := fails; delivered := delivered s |} in
      match wg_send_fails s with
      | true :: fails => (Err SendFailed, with_socket (wg_out s) fails)
      | fails => send_all_to addr pkts (with_socket (wg_out s ++ [(addr, pkt)]) (tail fails))
      end
  end.

Definition set_runtime (k : string) (p : WireGuardServerPeer T) (s : WgEndpoint T) : WgEndpoint T :=
  {| runtimes := <[k := p]> (runtimes s); peer_by_source := peer_by_source s;
     wg_sessions := wg_sessions s; wg_out := wg_out s; wg_send_fails := wg_send_fails s;
     delivered := delivered s |}.

Definition set_source (f : gmap SocketAddr string -> gmap SocketAddr string) (s : WgEndpoint T)
  : WgEndpoint T :=
  {| runtimes := runtimes s; peer_by_source := f (peer_by_source s); wg_sessions := wg_sessions s;
     wg_out := wg_out s; wg_send_fails := wg_send_fails s; delivered := delivered s |}.

Definition with_state (st : WireGuardPeerTransportState T) (p : WireGuardServerPeer T)
  : WireGuardServerPeer T :=
  {| sp_session_id := sp_session_id p; sp_wg_public_key := sp_wg_public_key p; sp_state := st |}.

Definition with_addr (a : SocketAddr) (st : WireGuardPeerTransportState T)
  : WireGuardPeerTransportState T :=
  {| pt_tunn := pt_tunn st; pt_addr := Some a; pt_pending := pt_pending st; pt_buf := pt_buf st |}.

(** [try_accept_datagram] on the runtime filed under [k]. *)
Definition try_accept_datagram (fuel : nat) (k : string) (p : WireGuardServerPeer T) (src : SocketAddr)
    (datagram : list Z) (s : WgEndpoint T)
  : option (outcome EndpointError (option (list SessionFrame)) * WgEndpoint T) :=
  let st := sp_state p in
  if bool_decide (pt_addr st <> None /\ pt_addr st <> Some src) then Some (Ok None, s)
  else
    match srv_process_datagram fuel st src.1 datagram with
    | None => None
    | Some (None, st) => Some (Ok None, set_runtime k (with_state st p) s)
    | Some (Some (outbound, frames), st) =>
        let (r, s) := send_all_to src outbound (set_runtime k (with_state (with_addr src st) p) s) in
        Some (_ ← r; Ok (Some frames), s)
    end.

(** [send_frame] on the runtime filed under [k]. *)
Definition send_frame (k : string) (p : WireGuardServerPeer T) (f : SessionFrame) (s : WgEndpoint T)
  : outcome EndpointError unit * WgEndpoint T :=
  let st := sp_state p in
  match pt_addr st with
  | None => (Err NoPeerAddress, s)
  | Some addr =>
      let (r1, t1) := update_timers (pt_tunn st) (pt_buf st) in
      let timers := match r1 with WriteToNetwork pkt => [pkt] | _ => [] end in
      match @srv_wrap_in_ipv4 EndpointError (encode f) with
      | Ok ip_packet =>
          let buf := Nat.max (pt_buf st) (send_dst_len ip_packet) in
          let (r2, t2) := encapsulate t1 ip_packet buf in
          let s := set_runtime k (with_state {| pt_tunn := t2; pt_addr := pt_addr st;
                                                pt_pending := pt_pending st; pt_buf := buf |} p) s in
          match r2 with
          | WriteToNetwork pkt => send_all_to addr (timers ++ [pkt]) s
          | _ => (Err EncapFailed, s)
          end
      | Err e => (Err e, s)
      | Panic => (Panic, s)
      end
  end.

(** The part of [ensure_peer_runtime] that makes a runtime, without the task it spawns. *)
Definition create_runtime (peer : WireGuardPeer) (s : WgEndpoint T)
  : outcome EndpointError (WireGuardServerPeer T) * WgEndpoint T :=
  let k := wp_device_public_key peer in
  let (session_id, reg) := register_client k (wg_sessions s) in
  let s := {| runtimes := runtimes s; peer_by_source := peer_by_source s; wg_sessions := reg;
              wg_out := wg_out s; wg_send_fails := wg_send_fails s; delivered := delivered s |} in
  match WireGuardPeerRuntime_new peer session_id with
  | Ok p => (Ok p, set_runtime k p s)
  | Err e => (Err e, s)
  | Panic => (Panic, s)
  end.

Definition ensure_peer_runtime (peer : WireGuardPeer) (s : WgEndpoint T)
  : outcome EndpointError (WireGuardServerPeer T) * WgEndpoint T :=
  let k := wp_device_public_key peer in
  match runtimes s !! k with
  | Some existing =>
      if contains_client k (wg_sessions s) then (Ok existing, s)
      else create_runtime peer
        {| runtimes := delete k (runtimes s); peer_by_source := peer_by_source s;
           wg_sessions := wg_sessions s; wg_out := wg_out s; wg_send_fails := wg_send_fails s;
           delivered := delivered s |}
  | None => create_runtime peer s
  end.

Definition deliver (session_id : Z) (f : SessionFrame) (s : WgEndpoint T) : WgEndpoint T :=
  {| runtimes := runtimes s; peer_by_source := peer_by_source s; wg_sessions := wg_sessions s;
     wg_out := wg_out s; wg_send_fails := wg_send_fails s;
     delivered := delivered s ++ [(session_id, f)] |}.

(** [handle_decoded_frames]: a failed pong is only logged. *)
Fixpoint handle_decoded_frames (k : string) (frames : list SessionFrame) (s : WgEndpoint T)
  : WgEndpoint T :=
  match frames with
  | [] => s
  | f :: frames =>
      let s :=
        match runtimes s !! k with
        | None => s
        | Some p =>
            if negb (Z.land (flags (header f)) FLAG_PING =? 0) && bool_decide (payload f = []) then
              (send_frame k p (pong_of f) s).2
            else deliver (sp_session_id p) f s
        end in
      handle_decoded_frames k frames s
  end.

(** The search for the peer of a datagram from an unknown source, in the registry's order. *)
Fixpoint find_peer (fuel : nat) (peers : list WireGuardPeer) (src : SocketAddr) (datagram : list Z)
    (s : WgEndpoint T) : option (outcome EndpointError (option string) * WgEndpoint T) :=
  match peers with
  | [] => Some (Ok None, s)
  | peer :: peers =>
      let k := wp_device_public_key peer in
      match ensure_peer_runtime peer s with
      | (Ok p, s) =>
          match try_accept_datagram fuel k p src datagram s with
          | None => None
          | Some (Ok (Some _), s) => Some (Ok (Some k), set_source (insert src k) s)
          | Some (Ok None, s) => find_peer fuel peers src datagram s
          | Some (Err e, s) => Some (Err e, s)
          | Some (Panic, s) => Some (Panic, s)
          end
      | (Err e, s) => Some (Err e, s)
      | (Panic, s) => Some (Panic, s)
      end
  end.

(** One round of [run_wireguard_server]'s loop; an error ends the server. *)
Definition dispatch (fuel : nat) (peers : list WireGuardPeer) (src : SocketAddr) (datagram : list Z)
    (s : WgEndpoint T) : option (outcome EndpointError unit * WgEndpoint T) :=
  let matched := k ← peer_by_source s !! src; p ← runtimes s !! k; Some k in
  match (match matched with
         | Some k => Some (Ok (Some k), s)
         | None => find_peer fuel peers src datagram s
         end) with
  | None => None
  | Some (Ok (Some k), s) =>
      match runtimes s !! k with
      | None => Some (Ok tt, s)
      | Some p =>
          match try_accept_datagram fuel k p src datagram s with
          | None => None
          | Some (Ok None, s) => Some (Ok tt, set_source (delete src) s)
          | Some (Ok (Some frames), s) =>
              Some (Ok tt, handle_decoded_frames k frames (set_source (insert src k) s))
          | Some (Err e, s) => Some (Err e, s)
          | Some (Panic, s) => Some (Panic, s)
          end
      end
  | Some (Ok None, s) => Some (Ok tt, s)
  | Some (Err e, s) => Some (Err e, s)
  | Some (Panic, s) => Some (Panic, s)
  end.

(** Datagrams one after the other, each with the peers registered when it arrives. *)
Fixpoint run_wireguard_server (fuel : nat)
    (inputs : list (list WireGuardPeer * SocketAddr * list Z)) (s : WgEndpoint T)
  : option (outcome EndpointError unit * WgEndpoint T) :=
  match inputs with
  | [] => Some (Ok tt, s)
  | (peers, src, datagram) :: inputs =>
      match dispatch fuel peers src datagram s with
      | Some (Ok _, s) => run_wireguard_server fuel inputs s
      | other => other
      end
  end.
End endpoint.

Definition endpoint_new {T} : WgEndpoint T :=
  {| runtimes := ∅; peer_by_source := ∅; wg_sessions := registry_default; wg_out := [];
     wg_send_fails := []; delivered := [] |}.

(** ** Replay protection *)

(** The tunnel after any number of follow-up calls without a datagram. *)
Inductive drains {T} `{Tunn T} (n : nat) : T -> T -> Prop :=
  | drains_refl t : drains n t t
  | drains_step t r t1 t2 : decapsulate t None [] n = (r, t1) -> drains n t1 t2 -> drains n t t2.

(** The tunnel takes this datagram at most once: when it was accepted, and the follow-up calls were made, it is
    refused.  So WireGuard documents it for data messages, which carry a counter, and for handshake messages, which
    carry a timestamp or answer an open handshake.  It is not so for an empty datagram, for a cookie reply, and for
    an initiation that a tunnel under load answers with a cookie. *)
Definition taken_once {T} `{Tunn T} (d : list Z) : Prop :=
  forall (t : T) ip n r t1 t2,
    decapsulate t (Some ip) d n = (r, t1) -> r <> TunnErr -> drains n t1 t2 ->
    (decapsulate t2 (Some ip) d n).1 = TunnErr.

(** * Lemmas *)

(** ** The IPv4 header *)

Lemma store_same {E} (l : list Z) i x : l !! i = Some x -> @store E Z l i x = Ok l.
Proof.
  intros Hl. unfold store, copy_at. pose proof (lookup_lt_Some _ _ _ Hl) as Hi.
  rewrite decide_True by (simpl; lia). f_equal. simpl. rewrite Nat.add_1_r. by apply take_drop_middle.
Qed.

Lemma store_first {E} (l : list Z) b x : @store E Z (b :: l) 0 x = Ok (x :: l).
Proof. unfold store, copy_at. rewrite decide_True by (simpl; lia). done. Qed.

(** The header of the server's endpoint is the one of the client's transport. *)
Lemma srv_wrap_same {E} p : @srv_wrap_in_ipv4 E p = wrap_in_ipv4 p.
Proof.
  unfold srv_wrap_in_ipv4, wrap_in_ipv4. change (IPV4_HDR_LEN + length p)%nat with (S (S (18 + length p))).
  cbn [replicate]. rewrite !store_first. cbn [mbind outcome_bind].
  rewrite (store_same (0x45 :: 0 :: replicate (18 + length p) 0) 1 0x00 eq_refl). cbn [mbind outcome_bind]. reflexivity.
Qed.

Lemma srv_unwrap_same ip : ok_option (srv_unwrap_from_ipv4 ip) = ok_option (unwrap_from_ipv4 ip).
Proof.
  unfold srv_unwrap_from_ipv4, unwrap_from_ipv4. destruct (bool_decide _); [done|].
  unfold index. destruct (ip !! 0%nat); [|done]. cbn [mbind outcome_bind expect_some]. case_bool_decide; [done|].
  unfold slice_from. by case_decide.
Qed.

(** What either end wraps the other unwraps. *)
Theorem wg_headers_agree p ip :
  (@srv_wrap_in_ipv4 UnwrapError p ≫= srv_unwrap_from_ipv4) = Ok p /\
  (@wrap_in_ipv4 UnwrapError p ≫= srv_unwrap_from_ipv4) = Ok p /\
  (@srv_wrap_in_ipv4 TransportError p ≫= unwrap_from_ipv4) = Ok p /\
  ok_option (srv_unwrap_from_ipv4 ip) = ok_option (unwrap_from_ipv4 ip).
Proof.
  assert (Hs : (@wrap_in_ipv4 UnwrapError p ≫= srv_unwrap_from_ipv4) = Ok p).
  { pose proof (unwrap_wrap p) as Hu. rewrite wrap_in_ipv4_ok in Hu. rewrite wrap_in_ipv4_ok. cbn [mbind outcome_bind] in *.
    match goal with |- srv_unwrap_from_ipv4 ?x = _ => pose proof (srv_unwrap_same x) as Hx end.
    rewrite Hu in Hx. by destruct (srv_unwrap_from_ipv4 _); [injection Hx as ->| |]. }
  rewrite !srv_wrap_same. split_and!; [done|done|apply unwrap_wrap|apply srv_unwrap_same].
Qed.

Lemma drain_tunn_drains {T} `{Tunn T} fuel (t : T) n acc t' acc' :
  drain_tunn fuel t n acc = Some (t', acc') -> drains n t t'.
Proof.
  revert t acc. induction fuel as [|fuel IH]; intros t acc; [done|]. cbn [drain_tunn].
  destruct (decapsulate t None [] n) as [r t1] eqn:Hd.
  destruct r; try (intros Hr%IH; by eapply drains_step).
  intros [= <- _]. eapply drains_step; [done|]. constructor.
Qed.

Section endpoint_lemmas.
Context {T : Type} `{Tunn T} (new_tunn : string -> Z -> option T).

(** Neither the sources nor what was handed on have changed. *)
Definition quiet (s s' : WgEndpoint T) : Prop :=
  peer_by_source s' = peer_by_source s /\ delivered s' = delivered s.

Lemma quiet_refl s : quiet s s.
Proof. done. Qed.

Lemma quiet_trans s1 s2 s3 : quiet s1 s2 -> quiet s2 s3 -> quiet s1 s3.
Proof. unfold quiet. intuition congruence. Qed.

Lemma send_all_quiet addr pkts s r s' :
  send_all_to addr pkts s = (r, s') -> quiet s s' /\ runtimes s' = runtimes s.
Proof.
  revert s. induction pkts as [|pkt pkts IH]; intros s; cbn [send_all_to].
  { by intros [= <- <-]. }
  destruct (wg_send_fails s) as [|[|] fails]; [..|]; try (intros [[H1 H2] H3]%IH; by split_and!).
  by intros [= <- <-].
Qed.

Lemma try_accept_quiet fuel k p src d s r s' :
  try_accept_datagram fuel k p src d s = Some (r, s') -> quiet s s'.
Proof.
  unfold try_accept_datagram. case_bool_decide; [by intros [= <- <-]|].
  destruct (srv_process_datagram _ _ _ _) as [[[[out frames]|] st]|]; [| |done].
  - destruct (send_all_to _ _ _) as [r0 s0] eqn:Hs. intros [= <- <-].
    by apply send_all_quiet in Hs as [Hq _].
  - by intros [= <- <-].
Qed.

Lemma ensure_quiet peer s r s' : ensure_peer_runtime new_tunn peer s = (r, s') -> quiet s s'.
Proof.
  assert (Hc : forall s0 r0 s1, create_runtime new_tunn peer s0 = (r0, s1) -> quiet s0 s1).
  { intros s0 r0 s1. unfold create_runtime. destruct (register_client _ _).
    destruct (WireGuardPeerRuntime_new _ _ _); by intros [= <- <-]. }
  unfold ensure_peer_runtime. destruct (runtimes s !! _); [|apply Hc].
  destruct (contains_client _ _); [by intros [= <- <-]|]. intros Hq%Hc. exact Hq.
Qed.

(** A processed datagram is refused the second time. *)
Lemma process_again fuel st ip d x st1 a :
  taken_once (T := T) d -> srv_process_datagram fuel st ip d = Some (Some x, st1) ->
  exists st2, srv_process_datagram fuel
    {| pt_tunn := pt_tunn st1; pt_addr := a; pt_pending := pt_pending st1; pt_buf := pt_buf st1 |} ip d
    = Some (None, st2).
Proof.
  intros Honce. unfold srv_process_datagram at 1.
  destruct (decapsulate (pt_tunn st) (Some ip) d (pt_buf st)) as [r t1] eqn:Hd.
  destruct (handle_tunn_result r) eqn:Hr; cbn [negb]; [|done].
  destruct (drain_tunn _ _ _ _) as [[t2 [out frames]]|] eqn:Hdr; [|done]. intros [= _ <-].
  apply drain_tunn_drains in Hdr.
  assert (Hne : r <> TunnErr) by (intros ->; done).
  pose proof (Honce _ _ _ _ _ _ Hd Hne Hdr) as Hrep.
  unfold srv_process_datagram. cbn [pt_tunn pt_buf pt_addr pt_pending].
  destruct (decapsulate t2 (Some ip) d (pt_buf st)) as [r2 t3]. simpl in Hrep. subst r2. by eexists.
Qed.

Lemma try_accept_again fuel k p src d s frames s1 :
  taken_once (T := T) d -> try_accept_datagram fuel k p src d s = Some (Ok (Some frames), s1) ->
  exists p1, runtimes s1 !! k = Some p1 /\
    forall s2, exists s3, try_accept_datagram fuel k p1 src d s2 = Some (Ok None, s3).
Proof.
  intros Honce. unfold try_accept_datagram at 1. case_bool_decide; [done|].
  destruct (srv_process_datagram _ _ _ _) as [[[[out fr]|] st]|] eqn:Hp; [|done..].
  destruct (send_all_to _ _ _) as [r0 s0] eqn:Hs. destruct r0 as [[]| |]; [|done..].
  intros [= <- <-]. apply send_all_quiet in Hs as [_ Hrt].
  exists (with_state (with_addr src st) p). split.
  { rewrite Hrt. simpl. apply lookup_insert_eq. }
  intros s2. unfold try_accept_datagram. cbn [sp_state with_state with_addr pt_addr].
  rewrite bool_decide_eq_false_2 by naive_solver.
  destruct (process_again _ _ _ _ _ _ (Some src) Honce Hp) as (st2 & Hst2). unfold with_addr. rewrite Hst2.
  by eexists.
Qed.

(** The search registers the source of a peer whose tunnel has just accepted the datagram. *)
Lemma find_peer_cases fuel peers src d s r s' :
  taken_once (T := T) d -> find_peer new_tunn fuel peers src d s = Some (r, s') ->
  (quiet s s' /\ forall k, r <> Ok (Some k)) \/
  exists k p1 s0, r = Ok (Some k) /\ s' = set_source (insert src k) s0 /\ quiet s s0 /\
    runtimes s0 !! k = Some p1 /\
    forall s2, exists s3, try_accept_datagram fuel k p1 src d s2 = Some (Ok None, s3).
Proof.
  intros Honce. revert s. induction peers as [|peer peers IH]; intros s; cbn [find_peer].
  { intros [= <- <-]. left. by split. }
  destruct (ensure_peer_runtime new_tunn peer s) as [[p|e|] s1] eqn:He; apply ensure_quiet in He.
  2, 3: intros [= <- <-]; left; by split.
  destruct (try_accept_datagram fuel _ p src d s1) as [[[[frames|]|e|] s2]|] eqn:Ht; [..|done].
  - intros [= <- <-]. right. pose proof (try_accept_quiet _ _ _ _ _ _ _ _ Ht) as Hq.
    apply try_accept_again in Ht as (p1 & Hp1 & Hag); [|done]. eexists _, p1, s2.
    split_and!; try done; by eapply quiet_trans.
  - intros Hf. apply try_accept_quiet in Ht.
    assert (Hq : quiet s s2) by (by eapply quiet_trans).
    apply IH in Hf as [[Hq2 Hr]|(k & p1 & s0 & Hr & Hs' & Hq2 & Hp1 & Hag)].
    + left. split; [by eapply quiet_trans|done].
    + right. exists k, p1, s0. split_and!; try done; by eapply quiet_trans.
  - intros [= <- <-]. apply try_accept_quiet in Ht. left. split; [by eapply quiet_trans|done].
  - intros [= <- <-]. apply try_accept_quiet in Ht. left. split; [by eapply quiet_trans|done].
Qed.

(** A datagram from a source that is not on record leaves no source on record and no frame. *)
Lemma dispatch_unknown fuel peers src d s r s' :
  taken_once (T := T) d -> dispatch new_tunn fuel peers src d s = Some (r, s') -> peer_by_source s = ∅ ->
  peer_by_source s' = ∅ /\ delivered s' = delivered s.
Proof.
  intros Honce Hd Hempty. unfold dispatch in Hd. rewrite Hempty, lookup_empty in Hd.
  cbn [mbind option_bind] in Hd.
  destruct (find_peer new_tunn fuel peers src d s) as [[r0 s0]|] eqn:Hf; [|done].
  apply find_peer_cases in Hf as [[[Hq1 Hq2] Hr]|(k & p1 & s1 & -> & -> & [Hq1 Hq2] & Hp1 & Hag)]; [..|done].
  - destruct r0 as [[k|]|e|]; [by destruct (Hr k)|..]; injection Hd as <- <-; by rewrite Hq1, Hq2.
  - cbn [runtimes set_source] in Hd. rewrite Hp1 in Hd.
    destruct (Hag (set_source (insert src k) s1)) as (s3 & Hs3). rewrite Hs3 in Hd.
    injection Hd as <- <-. apply try_accept_quiet in Hs3 as [H1 H2].
    cbn [set_source peer_by_source delivered] in *. rewrite H1, H2, Hq1, Hempty, Hq2.
    split; [|done]. by rewrite insert_empty, delete_singleton_eq.
Qed.
End endpoint_lemmas.

(** * Properties *)

(** C33: a WireGuard endpoint that delivers nothing.  The datagram that identifies its source is put through the
    tunnel twice; if it is one the tunnel takes once, the second pass is refused, the frames of the first are dropped
    and the source is forgotten again, so that the next datagram is treated the same way.  Whatever datagrams arrive
    from whatever sources and peers, as long as each is one that a tunnel takes at most once (data messages always,
    handshake messages unless they are answered with a cookie; not empty datagrams and cookie replies), nothing is
    delivered and no source stays on record. *)
Theorem wg_endpoint_delivers_nothing {T} `{Tunn T} (new_tunn : string -> Z -> option T)
    (fuel : nat) (inputs : list (list WireGuardPeer * SocketAddr * list Z))
    (r : outcome EndpointError unit) (s : WgEndpoint T) :
  Forall (fun i => taken_once (T := T) i.2) inputs ->
  run_wireguard_server new_tunn fuel inputs endpoint_new = Some (r, s) ->
  delivered s = [] /\ peer_by_source s = ∅.
Proof.
  intros Honce Hrun.
  enough (Hgen : forall s0, peer_by_source s0 = ∅ ->
    run_wireguard_server new_tunn fuel inputs s0 = Some (r, s) ->
    delivered s = delivered s0 /\ peer_by_source s = ∅) by (by apply (Hgen endpoint_new)).
  clear Hrun. induction Honce as [|[[peers src] d] inputs Hd1 _ IH]; intros s0 Hs0; cbn [run_wireguard_server].
  { by intros [= <- <-]. }
  destruct (dispatch new_tunn fuel peers src d s0) as [[[[]|e|] s1]|] eqn:Hd; [..|done];
    destruct (dispatch_unknown new_tunn _ _ _ _ _ _ _ Hd1 Hd Hs0) as [Hs Hdl].
  - intros Hr. rewrite <- Hdl. by apply IH.
  - by intros [= <- <-].
  - by intros [= <- <-].
Qed.

(** ** Witnesses *)

Module Sample.
(** A tunnel that remembers what it has accepted and decrypts to the datagram itself; an empty one it accepts
    every time. *)
#[local] Instance seen_tunn : Tunn (list (list Z)) := {|
  decapsulate seen src d _ :=
    match src with
    | None => (TunnDone, seen)
    | Some _ =>
        if bool_decide (d = []) then (TunnDone, seen)
        else if bool_decide (d ∈ seen) then (TunnErr, seen) else (WriteToTunnelV4 d, d :: seen)
    end;
  encapsulate seen d _ := (WriteToNetwork d, seen);
  update_timers seen _ := (TunnDone, seen);
  format_handshake_initiation seen _ _ := (TunnDone, seen);
  has_session _ := true
|}.

Lemma seen_once d : d <> [] -> taken_once (T := list (list Z)) d.
Proof.
  intros Hd0 t ip n r t1 t2 Hd Hr Hdr. cbn in Hd |- *. rewrite (bool_decide_eq_false_2 (d = [])) in Hd |- * by done.
  case_bool_decide; [by injection Hd as <- <-|]. injection Hd as <- <-.
  assert (Hsame : t2 = d :: t).
  { remember (d :: t) as t0. clear -Hdr. induction Hdr as [|t r t1 t2 Hd _ IH]; [done|].
    cbn in Hd. injection Hd as _ <-. done. }
  subst t2. rewrite bool_decide_eq_true_2; [done|]. by left.
Qed.

Definition peer : WireGuardPeer :=
  {| wp_device_public_key := "dev"; wp_wg_public_key := "wg"; wp_peer_ip := (100, 64, 1, 1);
     wp_lease_expires_at := 9 |}.
(** A frame with a payload of one byte, in its IPv4 wrapping. *)
Definition datagram : list Z :=
  match @wrap_in_ipv4 Empty_set
    (encode {| header := {| connection_id := 1; sequence := 0; flags := 0 |}; payload := [7] |}) with
  | Ok d => d
  | _ => []
  end.
Definition inputs : list (list WireGuardPeer * SocketAddr * list Z) :=
  [([peer], (5, 6), datagram); ([peer], (5, 6), datagram ++ [1])].
Definition result : outcome EndpointError unit * WgEndpoint (list (list Z)) :=
  default (Panic, endpoint_new) (run_wireguard_server (fun _ _ => Some []) 1 inputs endpoint_new).

(** The tunnel accepted both datagrams, and still nothing is delivered. *)
Lemma wg_endpoint_delivers_nothing_witness :
  run_wireguard_server (fun _ _ => Some []) 1 inputs endpoint_new = Some result /\
  (pt_tunn ∘ sp_state) <$> runtimes result.2 !! "dev" = Some [datagram ++ [1]; datagram] /\
  delivered result.2 = [].
Proof.
  split; [vm_compute; reflexivity|]. split; [vm_compute; reflexivity|].
  destruct (wg_endpoint_delivers_nothing (fun _ _ => Some []) 1 inputs result.1 result.2) as [H _].
  - constructor; [|constructor; [|constructor]]; apply seen_once; vm_compute; discriminate.
  - vm_compute. reflexivity.
  - exact H.
Defined.

(** An empty datagram puts its source on record, and what follows is delivered. *)
Example empty_datagram_registers :
  option_map (fun x : outcome EndpointError unit * WgEndpoint (list (list Z)) => length (delivered x.2))
    (run_wireguard_server (fun _ _ => Some []) 1 [([peer], (5, 6), []); ([peer], (5, 6), datagram)] endpoint_new) = Some 1%nat.
Proof. vm_compute. reflexivity. Qed.
End Sample.
