(* ===== verification/WgTasks.v ===== *)
(** The tasks that return frames to WireGuard peers ([ensure_peer_runtime] and
    [cleanup_wireguard_peer] of [src/crates/bonded-server/src/wireguard.rs]).  They share the session
    registry, the forwarders and the TUN bridge with the connections of Routing.v; whether a frame could
    be sent through the peer's tunnel ([send_frame] of WgPeers.v) is an input. *)

From stdpp Require Import base tactics list gmap strings.
From Stdlib Require Import ZArith Lia.
From S2P Require Import Prelude Words Session Packet PeerShare Routing.
Open Scope Z_scope.

(** * Definitions *)

(** A task with its two channels: [wt_tun_rx] exists with a TUN bridge only; [wt_forward_tx] says whether
    the sender of the other channel exists, [wt_waiting] whether the task is at its [select!], where
    further frames may arrive. *)
Record WgTask := {
  wt_key : string;
  wt_session : Z;
  wt_tun_rx : option (list SessionFrame);
  wt_forward_rx : list SessionFrame;
  wt_forward_tx : bool;
  wt_waiting : bool;
  wt_sent : list SessionFrame
}.

Record WgTasks := { shared : Server; tasks : gmap path_id WgTask }.

(** [ensure_peer_runtime] for a peer that needs a new runtime, whose tunnel could be made: without a
    bridge [forward_tx] moves into the forwarder, with one it is dropped when the function returns. *)
Definition wg_task_open (p : path_id) (device_public_key : string) (s : WgTasks) : WgTasks :=
  let sh := shared s in
  let tun := tun_mode sh in
  let (session_id, reg) := register_client device_public_key (registry sh) in
  {| shared :=
       {| tun_mode := tun; registry := reg;
          forwarders := if tun then forwarders sh else <[session_id := p]> (forwarders sh);
          bridge := if tun then register_session session_id p (bridge sh) else bridge sh;
          outbound := outbound sh; writer_alive := writer_alive sh; paths := paths sh |};
     tasks := <[p := {| wt_key := device_public_key; wt_session := session_id;
                        wt_tun_rx := if tun then Some [] else None; wt_forward_rx := [];
                        wt_forward_tx := negb tun; wt_waiting := false; wt_sent := [] |}]> (tasks s) |}.

(** The end of a task *)
Definition cleanup_wireguard_peer (p : path_id) (t : WgTask) (s : WgTasks) : WgTasks :=
  let sh := shared s in
  let with_bridge := bool_decide (is_Some (wt_tun_rx t)) in
  {| shared :=
       {| tun_mode := tun_mode sh; registry := unregister_client (wt_key t) (registry sh);
          forwarders := if with_bridge then forwarders sh else delete (wt_session t) (forwarders sh);
          bridge := if with_bridge then unregister_session (wt_session t) (bridge sh) else bridge sh;
          outbound := outbound sh; writer_alive := writer_alive sh; paths := paths sh |};
     tasks := delete p (tasks s) |}.

Definition set_task (p : path_id) (t : WgTask) (s : WgTasks) : WgTasks :=
  {| shared := shared s; tasks := <[p := t]> (tasks s) |}.

Definition with_rx (tun : option (list SessionFrame)) (fwd sent : list SessionFrame) (t : WgTask) : WgTask :=
  {| wt_key := wt_key t; wt_session := wt_session t; wt_tun_rx := tun; wt_forward_rx := fwd;
     wt_forward_tx := wt_forward_tx t; wt_waiting := wt_waiting t; wt_sent := sent |}.

Definition waiting (b : bool) (t : WgTask) : WgTask :=
  {| wt_key := wt_key t; wt_session := wt_session t; wt_tun_rx := wt_tun_rx t; wt_forward_rx := wt_forward_rx t;
     wt_forward_tx := wt_forward_tx t; wt_waiting := b; wt_sent := wt_sent t |}.

(** The drains at the head of a cycle: with a bridge the TUN queue, without one the forwarder's. *)
Definition wg_drain (oks : list bool) (t : WgTask) : control * WgTask :=
  match wt_tun_rx t with
  | Some queue =>
      let '(queue, sent, c) := quic_drain MAX_RESPONSE_DRAIN_PER_CYCLE oks queue (wt_sent t) in
      (c, with_rx (Some queue) (wt_forward_rx t) sent t)
  | None =>
      let '(queue, sent, c) := quic_drain MAX_RESPONSE_DRAIN_PER_CYCLE oks (wt_forward_rx t) (wt_sent t) in
      (c, with_rx None queue sent t)
  end.

Inductive wg_branch := WgOnTun (ok : bool) | WgOnForward (ok : bool).

Definition send_or_end (ok : bool) (f : SessionFrame) (t : WgTask) : control * WgTask :=
  if ok then (Continue, with_rx (wt_tun_rx t) (wt_forward_rx t) (wt_sent t ++ [f]) t) else (Break, t).

(** Whether a route holds the sender of the task's TUN channel *)
Definition tun_sender_alive (p : path_id) (s : WgTasks) : bool :=
  existsb (fun r => Nat.eqb (tx r.2) p) (map_to_list (sessions (bridge (shared s)))).

(** The [select!] with a bridge, the wait for the forwarder without; [None]: the branch is not ready. *)
Definition wg_select (p : path_id) (b : wg_branch) (t : WgTask) (s : WgTasks) : option (control * WgTask) :=
  match b, wt_tun_rx t with
  | WgOnTun ok, Some (f :: queue) => Some (send_or_end ok f (with_rx (Some queue) (wt_forward_rx t) (wt_sent t) t))
  | WgOnTun _, Some [] => if tun_sender_alive p s then None else Some (Break, t)
  | WgOnTun _, None => None
  | WgOnForward ok, tun =>
      match wt_forward_rx t with
      | f :: queue => Some (send_or_end ok f (with_rx tun queue (wt_sent t) t))
      | [] => if wt_forward_tx t then None else Some (Break, t)
      end
  end.

(** The task goes on to the other half of its cycle, or ends. *)
Definition go_on (p : path_id) (wait : bool) (r : control * WgTask) (s : WgTasks) : WgTasks :=
  match r with
  | (Continue, t) => set_task p (waiting wait t) s
  | (Break, t) => cleanup_wireguard_peer p t s
  end.

(** The two halves of a cycle: the drains, and the branch taken. *)
Definition wg_task_drain (p : path_id) (oks : list bool) (s : WgTasks) : option WgTasks :=
  t ← tasks s !! p;
  if wt_waiting t then None else Some (go_on p true (wg_drain oks t) s).

Definition wg_task_select (p : path_id) (b : wg_branch) (s : WgTasks) : option WgTasks :=
  t ← tasks s !! p;
  if wt_waiting t then r ← wg_select p b t s; Some (go_on p false r s) else None.

(** A frame enters a channel: from the TUN bridge, or from the task's forwarder, which has the sender. *)
Definition wg_push_tun (p : path_id) (f : SessionFrame) (s : WgTasks) : WgTasks :=
  match tasks s !! p with
  | Some t =>
      match wt_tun_rx t with
      | Some queue => set_task p (with_rx (Some (queue ++ [f])) (wt_forward_rx t) (wt_sent t) t) s
      | None => s
      end
  | None => s
  end.

Definition wg_push_forward (p : path_id) (f : SessionFrame) (s : WgTasks) : WgTasks :=
  match tasks s !! p with
  | Some t =>
      if wt_forward_tx t
      then set_task p (with_rx (wt_tun_rx t) (wt_forward_rx t ++ [f]) (wt_sent t) t) s else s
  | None => s
  end.

Inductive wg_step : WgTasks -> WgTasks -> Prop :=
  | WgOpen s p key : tasks s !! p = None -> wg_step s (wg_task_open p key s)
  | WgDrain s p oks s' : wg_task_drain p oks s = Some s' -> wg_step s s'
  | WgSelect s p b s' : wg_task_select p b s = Some s' -> wg_step s s'
  | WgPushTun s p f : wg_step s (wg_push_tun p f s)
  | WgPushForward s p f : wg_step s (wg_push_forward p f s)
  | WgShared s sh : tun_mode sh = tun_mode (shared s) -> wg_step s {| shared := sh; tasks := tasks s |}.

(** [WgShared]: whatever else happens to the server. *)
Inductive wg_reachable (use_tun : bool) : WgTasks -> Prop :=
  | WgReachNew sh : tun_mode sh = use_tun -> wg_reachable use_tun {| shared := sh; tasks := ∅ |}
  | WgReachStep s s' : wg_reachable use_tun s -> wg_step s s' -> wg_reachable use_tun s'.

(** * Lemmas *)

(** Which channels a task has: with a bridge the forwarder's channel has no sender and is empty. *)
Definition task_ok (tun : bool) (t : WgTask) : Prop :=
  if tun then is_Some (wt_tun_rx t) /\ wt_forward_rx t = [] /\ wt_forward_tx t = false
  else wt_tun_rx t = None /\ wt_forward_tx t = true.

Lemma wg_drain_ok tun oks t : task_ok tun t -> task_ok tun (wg_drain oks t).2.
Proof.
  unfold task_ok, wg_drain. destruct tun.
  - intros ([q ->] & Hf & Htx). destruct (quic_drain _ _ _ _) as [[q' sent] c]. simpl. eauto.
  - intros [-> Htx]. by destruct (quic_drain _ _ _ _) as [[q' sent] c].
Qed.

Lemma wg_select_ok tun p b t s c t' :
  wg_select p b t s = Some (c, t') -> task_ok tun t -> task_ok tun t'.
Proof.
  unfold wg_select, task_ok, send_or_end. destruct tun.
  - intros Hs ([q Hq] & Hf & Htx). rewrite Hq, Hf, Htx in Hs.
    destruct b as [ok|ok]; [destruct q as [|f q]|].
    + destruct (tun_sender_alive p s); [done|]. injection Hs as <- <-. rewrite Hq. eauto.
    + destruct ok; injection Hs as <- <-; simpl; eauto.
    + injection Hs as <- <-. rewrite Hq. eauto.
  - intros Hs [Hq Htx]. rewrite Hq, Htx in Hs. destruct b as [ok|ok]; [done|].
    destruct (wt_forward_rx t) as [|f q]; [done|]. by destruct ok; injection Hs as <- <-.
Qed.

Definition tasks_ok (tun : bool) (s : WgTasks) : Prop :=
  tun_mode (shared s) = tun /\ map_Forall (fun _ => task_ok tun) (tasks s).

Lemma set_task_ok tun p t s : task_ok tun t -> tasks_ok tun s -> tasks_ok tun (set_task p t s).
Proof. intros Ht [Hm Hs]. split; [done|]. by apply map_Forall_insert_2. Qed.

Lemma go_on_ok tun p wait r s : task_ok tun r.2 -> tasks_ok tun s -> tasks_ok tun (go_on p wait r s).
Proof.
  destruct r as [[] t]; cbn [snd go_on]; intros Ht Hs; [by apply set_task_ok|].
  destruct Hs as [Hm Hs]. split; [done|]. by apply map_Forall_delete.
Qed.

Lemma wg_step_ok tun s s' : wg_step s s' -> tasks_ok tun s -> tasks_ok tun s'.
Proof.
  destruct 1 as [s p key Hp|s p oks s' Hc|s p b s' Hc|s p f|s p f|s sh Hsh]; intros Hok; pose proof Hok as [Hm Hs].
  - unfold wg_task_open. destruct (register_client _ _) as [sid reg]. split; [done|].
    apply map_Forall_insert_2; [|done]. rewrite Hm. destruct tun; simpl; eauto.
  - unfold wg_task_drain in Hc. destruct (tasks s !! p) as [t|] eqn:Hp; [|done]. cbn [mbind option_bind] in Hc.
    destruct (wt_waiting t); [done|]. injection Hc as <-. apply go_on_ok; [|done]. apply wg_drain_ok. by eapply Hs.
  - unfold wg_task_select in Hc. destruct (tasks s !! p) as [t|] eqn:Hp; [|done]. cbn [mbind option_bind] in Hc.
    destruct (wt_waiting t); [|done]. destruct (wg_select p b t s) as [[c t']|] eqn:Hsel; [|done].
    injection Hc as <-. apply (go_on_ok tun p false (c, t')); [|done].
    eapply wg_select_ok; [done | by eapply Hs].
  - unfold wg_push_tun. destruct (tasks s !! p) as [t|] eqn:Hp; [|done].
    destruct (wt_tun_rx t) as [q|] eqn:Hq; [|done]. apply set_task_ok; [|done].
    specialize (Hs p t Hp). unfold task_ok in *. simpl. rewrite Hq in Hs. destruct tun; naive_solver.
  - unfold wg_push_forward. destruct (tasks s !! p) as [t|] eqn:Hp; [|done].
    destruct (wt_forward_tx t) eqn:Hq; [|done]. apply set_task_ok; [|done].
    specialize (Hs p t Hp). unfold task_ok in *. simpl. rewrite Hq in Hs. destruct tun; naive_solver.
  - split; [simpl; congruence | done].
Qed.

Lemma wg_reachable_ok tun s : wg_reachable tun s -> tasks_ok tun s.
Proof.
  induction 1 as [sh Hm|s s' _ IH Hstep]; [|by eapply wg_step_ok]. split; [done | apply map_Forall_empty].
Qed.

(** A drain sends a prefix of the queue, and all of it is sent if no send fails. *)
Lemma quic_drain_spec n oks queue out queue' out' c :
  quic_drain n oks queue out = (queue', out', c) ->
  match c with
  | Continue => out' ++ queue' = out ++ queue
  | Break => oks <> replicate (length oks) true \/ (length oks < length queue)%nat
  end.
Proof.
  revert oks queue out. induction n as [|n IH]; intros oks queue out; [by intros [= <- <- <-]|].
  destruct queue as [|f queue]; [by intros [= <- <- <-]|]. cbn [quic_drain].
  destruct oks as [|[] oks]; [intros [= <- <- <-]; right; simpl; lia| |].
  - intros Hd%IH. destruct c; [by rewrite Hd, <- app_assoc|].
    destruct Hd as [Hd|Hd]; [|right; simpl; lia]. left. simpl. congruence.
  - intros [= <- <- <-]. by left.
Qed.

Lemma bridge_task_ends s p t ok :
  tasks s !! p = Some t -> task_ok true t -> wt_waiting t = true ->
  exists s', wg_task_select p (WgOnForward ok) s = Some s' /\ tasks s' !! p = None /\
    contains_client (wt_key t) (registry (shared s')) = false /\
    sessions (bridge (shared s')) !! wt_session t = None.
Proof.
  intros Hp ([q Hq] & Hf & Htx) Hw. exists (cleanup_wireguard_peer p t s).
  unfold wg_task_select, wg_select. rewrite Hp. cbn [mbind option_bind]. rewrite Hw, Hf, Htx. split; [done|].
  unfold cleanup_wireguard_peer, contains_client. simpl. rewrite Hq, !lookup_delete_eq. split_and!; [done..|].
  simpl. by rewrite lookup_delete_eq.
Qed.

Lemma forwarder_task_goes_on s p t ok :
  tasks s !! p = Some t -> task_ok false t ->
  (wt_waiting t = true -> wt_forward_rx t <> [] -> is_Some (wg_task_select p (WgOnForward ok) s)) /\
  forall oks b s',
    wg_task_drain p oks s = Some s' \/ wg_task_select p b s = Some s' ->
    match tasks s' !! p with
    | Some t' => wt_sent t' ++ wt_forward_rx t' = wt_sent t ++ wt_forward_rx t
    | None => oks <> replicate (length oks) true \/ (length oks < length (wt_forward_rx t))%nat \/
              b = WgOnForward false
    end.
Proof.
  intros Hp [Hq Htx]. unfold wg_task_select, wg_task_drain, wg_drain, wg_select. rewrite Hp. cbn [mbind option_bind].
  rewrite Hq, Htx. split.
  - intros -> Hf. destruct (wt_forward_rx t) as [|f queue]; [done|]. by eexists.
  - intros oks b s' [Hd|Hs].
    + destruct (wt_waiting t); [done|]. destruct (quic_drain _ _ _ _) as [[queue sent] c] eqn:Hdr.
      apply quic_drain_spec in Hdr. destruct c; injection Hd as <-; simpl.
      * by rewrite lookup_insert_eq.
      * rewrite lookup_delete_eq. tauto.
    + destruct (wt_waiting t); [|done]. destruct b as [ok'|ok']; [done|].
      destruct (wt_forward_rx t) as [|f queue]; [done|]. destruct ok'; injection Hs as <-; simpl.
      * rewrite lookup_insert_eq. simpl. by rewrite <- app_assoc.
      * rewrite lookup_delete_eq. tauto.
Qed.

(** * Properties *)

(** C26: the tasks that return frames to WireGuard peers.  On a server with a TUN bridge every task that
    waits can end: the branch for the forwarder's channel, which has no sender, is always ready, and it
    unregisters the peer's session and removes its route from the bridge.  Without a bridge a waiting task
    goes on with the next frame as soon as there is one; it ends only when a send fails, and as long as it
    lives what it has sent and what is queued are together what was queued, in order. *)
Theorem wg_return_task (tun : bool) (s : WgTasks) (p : path_id) (t : WgTask) (ok : bool) :
  wg_reachable tun s -> tasks s !! p = Some t ->
  if tun then
    wt_waiting t = true ->
    exists s', wg_task_select p (WgOnForward ok) s = Some s' /\ tasks s' !! p = None /\
      contains_client (wt_key t) (registry (shared s')) = false /\
      sessions (bridge (shared s')) !! wt_session t = None
  else
    (wt_waiting t = true -> wt_forward_rx t <> [] -> is_Some (wg_task_select p (WgOnForward ok) s)) /\
    forall oks b s',
      wg_task_drain p oks s = Some s' \/ wg_task_select p b s = Some s' ->
      match tasks s' !! p with
      | Some t' => wt_sent t' ++ wt_forward_rx t' = wt_sent t ++ wt_forward_rx t
      | None => oks <> replicate (length oks) true \/ (length oks < length (wt_forward_rx t))%nat \/
                b = WgOnForward false
      end.
Proof.
  intros Hr Hp. pose proof (wg_reachable_ok tun s Hr) as [_ Hok]. specialize (Hok p t Hp). cbn in Hok.
  destruct tun; [by apply bridge_task_ends | by apply forwarder_task_goes_on].
Qed.

(** ** Witnesses *)

Module Sample.
Definition no_tasks (tun : bool) : WgTasks := {| shared := server_new tun; tasks := ∅ |}.
Definition one_peer (tun : bool) : WgTasks := wg_task_open 7 "device" (no_tasks tun).

(** The peer's task at its [select!] *)
Definition at_select (tun : bool) : WgTasks := default (no_tasks tun) (wg_task_drain 7 [] (one_peer tun)).
Definition peer_task (tun : bool) : WgTask :=
  {| wt_key := "device"; wt_session := 0; wt_tun_rx := if tun then Some [] else None; wt_forward_rx := [];
     wt_forward_tx := negb tun; wt_waiting := true; wt_sent := [] |}.

Lemma at_select_reachable tun : wg_reachable tun (at_select tun).
Proof.
  apply (WgReachStep tun (one_peer tun)).
  - apply (WgReachStep tun (no_tasks tun)); [by apply WgReachNew | by apply WgOpen].
  - apply (WgDrain _ 7 []). destruct tun; vm_compute; reflexivity.
Qed.

Lemma wg_return_task_witness :
  exists s', wg_task_select 7 (WgOnForward true) (at_select true) = Some s' /\ tasks s' !! 7%nat = None /\
    contains_client "device" (registry (shared s')) = false /\
    contains_client "device" (registry (shared (at_select true))) = true.
Proof.
  destruct (wg_return_task true (at_select true) 7 (peer_task true) true) as (s' & Hc & Ht & Hk & _).
  - apply at_select_reachable.
  - vm_compute. reflexivity.
  - reflexivity.
  - exists s'. split; [exact Hc|]. split; [exact Ht|]. split; [exact Hk | vm_compute; reflexivity].
Defined.

Definition frame : SessionFrame :=
  {| header := {| connection_id := 1; sequence := 0; flags := 0 |}; payload := [1; 2; 3] |}.

(** Without a bridge the task waits for a frame and sends it. *)
Lemma frame_returned :
  wg_task_select 7 (WgOnForward true) (at_select false) = None /\
  (s' ← wg_task_select 7 (WgOnForward true) (wg_push_forward 7 frame (at_select false));
   wt_sent <$> (tasks s' !! 7%nat)) = Some [frame].
Proof. split; vm_compute; reflexivity. Qed.
End Sample.
