(* ===== verification/TcpForwarder.v ===== *)
(** The forwarder of a session, TCP part: [ingest_packet], the dispatch of client packets and the poll
    thread of [src/crates/bonded-server/src/smoltcp_forwarder.rs].  smoltcp's interface and socket set
    are an external component, a class of operations; the pending and active connections, the tuple
    look-ups, the promotion of established connections and the byte pumps are the program's own. *)

From stdpp Require Import base tactics list gmap.
From Stdlib Require Import ZArith Lia.
From S2P Require Import Prelude Words Session Checksum Packet.
Open Scope Z_scope.

(** * Definitions *)

(** ** Commands to the poll thread *)

Inductive PollCommand :=
  | InjectPacket (pkt : list Z)
  | CreateTcpSocket (listen_port : Z) (original_dst_ip client_src_ip : Ipv4Addr)
      (client_src_port : Z).

Definition COMMAND_CAPACITY : nat := 8192.

(** [cmd_tx.try_send]: a full channel drops the command. *)
Definition try_send (queue : list PollCommand) (c : PollCommand) : list PollCommand :=
  if decide (length queue < COMMAND_CAPACITY)%nat then queue ++ [c] else queue.

(** [dispatch_tcp]: the commands queued, or a panic of the calling task. *)
Definition dispatch_tcp (queue : list PollCommand) (payload : list Z)
  : panicky (list PollCommand) :=
  hdr ← parse_tcp_header payload;
  let queue :=
    match hdr with
    | Some (src_ip, src_port, dst_ip, dst_port, true) =>
        try_send queue (CreateTcpSocket dst_port dst_ip src_ip src_port)
    | _ => queue
    end in
  rewritten ← rewrite_dst_ip_inbound payload;
  match rewritten with
  | Some pkt => Ok (try_send queue (InjectPacket pkt))
  | None => Ok queue
  end.

(** Where [ingest_packet] sends a frame. *)
Inductive dispatch := DropPacket | ToTcp | ToUdp | ToIcmp.

Definition classify (payload : list Z) : panicky dispatch :=
  return_if bool_decide (length payload < 20)%nat with Ok DropPacket ;;
  protocol ← index payload 9;
  if protocol =? 6 then Ok ToTcp
  else if protocol =? 17 then Ok ToUdp
  else if protocol =? 1 then Ok ToIcmp
  else Ok DropPacket.

(** [ingest_packet], its TCP branch: UDP and ICMP packets go to tasks of their own. *)
Definition ingest_packet (queue : list PollCommand) (f : SessionFrame) : panicky (list PollCommand) :=
  d ← classify (payload f);
  match d with
  | ToTcp => dispatch_tcp queue (payload f)
  | _ => Ok queue
  end.

(** ** smoltcp *)

Inductive TcpState :=
  | Closed | Listen | SynSent | SynReceived | Established | FinWait1 | FinWait2 | CloseWait
  | Closing | LastAck | TimeWait.

#[global] Instance TcpState_eq_dec : EqDecision TcpState.
Proof. solve_decision. Defined.

(** The interface and the socket set; a socket handle is an index. *)
Class Stack (N : Type) := {
  (** [Socket::listen] and [SocketSet::add] *)
  stack_listen : N -> Z -> option (nat * N);
  (** [Interface::poll]: the packets left in the receive queue, those to transmit, the new state *)
  stack_poll : N -> list (list Z) -> list (list Z) * list (list Z) * N;
  sock_state : N -> nat -> TcpState;
  sock_is_active : N -> nat -> bool;
  sock_can_recv : N -> nat -> bool;
  sock_can_send : N -> nat -> bool;
  (** [Socket::recv] with a closure that takes everything *)
  sock_recv : N -> nat -> list Z * N;
  (** [Socket::send_slice]: how many bytes were taken *)
  sock_send_slice : N -> nat -> list Z -> option nat * N;
  sock_remove : N -> nat -> N;
  (** [SystemTime::now], read at this point, in seconds *)
  sys_now : N -> Z
}.

(** ** Connections *)

Record PendingTcpConn := {
  p_handle : nat;
  p_original_dst_ip : Ipv4Addr;
  p_dst_port : Z;
  p_client_src_ip : Ipv4Addr;
  p_client_src_port : Z
}.

Record PendingBridgeBytes := { pb_bytes : list Z; pb_offset : nat }.

Definition pb_remaining {E} (p : PendingBridgeBytes) : outcome E (list Z) :=
  slice_from (pb_bytes p) (pb_offset p).
Definition pb_is_complete (p : PendingBridgeBytes) : bool :=
  bool_decide (length (pb_bytes p) <= pb_offset p)%nat.

Record ActiveTcpConn := {
  a_original_dst_ip : Ipv4Addr;
  a_dst_port : Z;
  a_client_src_ip : Ipv4Addr;
  a_client_src_port : Z;
  (** the channel to the bridge task: what was sent, in order, while the task lived *)
  to_bridge : list (list Z);
  bridge_alive : bool;
  (** the channel from the bridge task: chunks not yet received *)
  from_bridge : list (list Z);
  pending_from_bridge : option PendingBridgeBytes
}.

(** The record of a flow; its [session_id] is the thread's. *)
Record TcpFlowRecord := {
  r_conn_id : Z;
  r_src_ip : Ipv4Addr;
  r_src_port : Z;
  r_dst_ip : Ipv4Addr;
  r_dst_port : Z;
  r_created_at : Z;
  r_last_activity_at : Z;
  r_client_to_remote : Z;
  r_remote_to_client : Z;
  r_bridge_read_chunks : Z;
  r_bridge_read_bytes : Z;
  r_bridge_to_smoltcp_chunks : Z;
  r_bridge_to_smoltcp_bytes : Z
}.

(** The local variables of [smoltcp_poll_thread]. *)
Record PollState (N : Type) := {
  net : N;
  device_rx : list (list Z);
  pending : list PendingTcpConn;
  active : gmap nat ActiveTcpConn;
  promoted : gset nat;
  next_conn_id : Z;
  global_seq : Z;
  inbound_tcp_rst_total : Z;
  outbound_tcp_rst_total : Z;
  outbound_tcp_rst_unmatched_total : Z;
  ambiguous_tcp_tuple_drop_total : Z;
  flows : gmap nat TcpFlowRecord;
  outbound_frames : list SessionFrame
}.
Arguments net {N}. Arguments device_rx {N}. Arguments pending {N}. Arguments active {N}.
Arguments promoted {N}. Arguments next_conn_id {N}. Arguments global_seq {N}.
Arguments inbound_tcp_rst_total {N}. Arguments outbound_tcp_rst_total {N}.
Arguments outbound_tcp_rst_unmatched_total {N}. Arguments ambiguous_tcp_tuple_drop_total {N}.
Arguments flows {N}. Arguments outbound_frames {N}.

(** ** Tuple look-up *)

(** The fields the look-ups compare, of a pending or of an active connection. *)
Record conn_tuple := {
  ct_client_ip : Ipv4Addr;
  ct_client_port : Z;
  ct_server_port : Z;
  ct_original : Ipv4Addr
}.

Definition pending_tuple (p : PendingTcpConn) : conn_tuple :=
  {| ct_client_ip := p_client_src_ip p; ct_client_port := p_client_src_port p;
     ct_server_port := p_dst_port p; ct_original := p_original_dst_ip p |}.
Definition active_tuple (a : ActiveTcpConn) : conn_tuple :=
  {| ct_client_ip := a_client_src_ip a; ct_client_port := a_client_src_port a;
     ct_server_port := a_dst_port a; ct_original := a_original_dst_ip a |}.

Definition tuple_matches (ip : Ipv4Addr) (port server_port : Z) (c : conn_tuple) : bool :=
  bool_decide (ct_client_ip c = ip) && (ct_client_port c =? port) && (ct_server_port c =? server_port).

Inductive tuple_lookup := NoMatch | Match (original : Ipv4Addr) | Ambiguous.

(** The look-up loops: the first match is kept, a different one stops the search. *)
Fixpoint lookup_loop (ip : Ipv4Addr) (port server_port : Z) (found : option Ipv4Addr)
    (cs : list conn_tuple) : tuple_lookup :=
  match cs with
  | [] => match found with Some o => Match o | None => NoMatch end
  | c :: cs =>
      if tuple_matches ip port server_port c then
        match found with
        | None => lookup_loop ip port server_port (Some (ct_original c)) cs
        | Some existing =>
            if decide (existing = ct_original c)
            then lookup_loop ip port server_port found cs else Ambiguous
        end
      else lookup_loop ip port server_port found cs
  end.

Definition lookup_tuple (ip : Ipv4Addr) (port server_port : Z) (cs : list conn_tuple) : tuple_lookup :=
  lookup_loop ip port server_port None cs.

(** [active.values()]: the order of a hash map is not specified; the theorems hold for any. *)
Definition active_tuples (m : gmap nat ActiveTcpConn) : list conn_tuple :=
  active_tuple <$> (map_to_list m).*2.

(** ** Field updates *)

Section poll_thread.
Context {N : Type} `{Stack N}.
Implicit Types st : PollState N.

Definition set_net n st : PollState N :=
  {| net := n; device_rx := device_rx st; pending := pending st; active := active st;
     promoted := promoted st; next_conn_id := next_conn_id st; global_seq := global_seq st;
     inbound_tcp_rst_total := inbound_tcp_rst_total st;
     outbound_tcp_rst_total := outbound_tcp_rst_total st;
     outbound_tcp_rst_unmatched_total := outbound_tcp_rst_unmatched_total st;
     ambiguous_tcp_tuple_drop_total := ambiguous_tcp_tuple_drop_total st;
     flows := flows st; outbound_frames := outbound_frames st |}.
Definition set_device_rx rx st : PollState N :=
  {| net := net st; device_rx := rx; pending := pending st; active := active st;
     promoted := promoted st; next_conn_id := next_conn_id st; global_seq := global_seq st;
     inbound_tcp_rst_total := inbound_tcp_rst_total st;
     outbound_tcp_rst_total := outbound_tcp_rst_total st;
     outbound_tcp_rst_unmatched_total := outbound_tcp_rst_unmatched_total st;
     ambiguous_tcp_tuple_drop_total := ambiguous_tcp_tuple_drop_total st;
     flows := flows st; outbound_frames := outbound_frames st |}.
Definition set_conns p a pr st : PollState N :=
  {| net := net st; device_rx := device_rx st; pending := p; active := a;
     promoted := pr; next_conn_id := next_conn_id st; global_seq := global_seq st;
     inbound_tcp_rst_total := inbound_tcp_rst_total st;
     outbound_tcp_rst_total := outbound_tcp_rst_total st;
     outbound_tcp_rst_unmatched_total := outbound_tcp_rst_unmatched_total st;
     ambiguous_tcp_tuple_drop_total := ambiguous_tcp_tuple_drop_total st;
     flows := flows st; outbound_frames := outbound_frames st |}.
Definition set_flows f st : PollState N :=
  {| net := net st; device_rx := device_rx st; pending := pending st; active := active st;
     promoted := promoted st; next_conn_id := next_conn_id st; global_seq := global_seq st;
     inbound_tcp_rst_total := inbound_tcp_rst_total st;
     outbound_tcp_rst_total := outbound_tcp_rst_total st;
     outbound_tcp_rst_unmatched_total := outbound_tcp_rst_unmatched_total st;
     ambiguous_tcp_tuple_drop_total := ambiguous_tcp_tuple_drop_total st;
     flows := f; outbound_frames := outbound_frames st |}.
Definition set_conn_id i st : PollState N :=
  {| net := net st; device_rx := device_rx st; pending := pending st; active := active st;
     promoted := promoted st; next_conn_id := i; global_seq := global_seq st;
     inbound_tcp_rst_total := inbound_tcp_rst_total st;
     outbound_tcp_rst_total := outbound_tcp_rst_total st;
     outbound_tcp_rst_unmatched_total := outbound_tcp_rst_unmatched_total st;
     ambiguous_tcp_tuple_drop_total := ambiguous_tcp_tuple_drop_total st;
     flows := flows st; outbound_frames := outbound_frames st |}.
Definition set_counters ir orst un am st : PollState N :=
  {| net := net st; device_rx := device_rx st; pending := pending st; active := active st;
     promoted := promoted st; next_conn_id := next_conn_id st; global_seq := global_seq st;
     inbound_tcp_rst_total := ir; outbound_tcp_rst_total := orst;
     outbound_tcp_rst_unmatched_total := un; ambiguous_tcp_tuple_drop_total := am;
     flows := flows st; outbound_frames := outbound_frames st |}.
Definition push_frame f sq st : PollState N :=
  {| net := net st; device_rx := device_rx st; pending := pending st; active := active st;
     promoted := promoted st; next_conn_id := next_conn_id st; global_seq := sq;
     inbound_tcp_rst_total := inbound_tcp_rst_total st;
     outbound_tcp_rst_total := outbound_tcp_rst_total st;
     outbound_tcp_rst_unmatched_total := outbound_tcp_rst_unmatched_total st;
     ambiguous_tcp_tuple_drop_total := ambiguous_tcp_tuple_drop_total st;
     flows := flows st; outbound_frames := outbound_frames st ++ [f] |}.

Definition incr (z : Z) : Z := saturating_add 64 z 1.
Definition count_ambiguous st : PollState N :=
  set_counters (inbound_tcp_rst_total st) (outbound_tcp_rst_total st)
    (outbound_tcp_rst_unmatched_total st) (incr (ambiguous_tcp_tuple_drop_total st)) st.
Definition count_inbound_rst st : PollState N :=
  set_counters (incr (inbound_tcp_rst_total st)) (outbound_tcp_rst_total st)
    (outbound_tcp_rst_unmatched_total st) (ambiguous_tcp_tuple_drop_total st) st.
Definition count_outbound_rst st : PollState N :=
  set_counters (inbound_tcp_rst_total st) (incr (outbound_tcp_rst_total st))
    (outbound_tcp_rst_unmatched_total st) (ambiguous_tcp_tuple_drop_total st) st.
Definition count_unmatched_rst st : PollState N :=
  set_counters (inbound_tcp_rst_total st) (incr (outbound_tcp_rst_total st))
    (incr (outbound_tcp_rst_unmatched_total st)) (ambiguous_tcp_tuple_drop_total st) st.

(** [flags & 0x04 != 0] of a parsed TCP packet *)
Definition is_rst (t : option (Ipv4Addr * Z * Ipv4Addr * Z * Z)) : bool :=
  match t with
  | Some (_, _, _, _, flags) => negb (Z.land flags 0x04 =? 0)
  | None => false
  end.

(** ** Draining commands *)

Definition poll_command (c : PollCommand) st : panicky (PollState N) :=
  match c with
  | InjectPacket pkt =>
      t ← parse_ipv4_tcp_tuple_flags pkt;
      let st := if is_rst t then count_inbound_rst st else st in
      Ok (set_device_rx (device_rx st ++ [pkt]) st)
  | CreateTcpSocket listen_port original_dst_ip client_src_ip client_src_port =>
      match stack_listen (net st) listen_port with
      | Some (handle, n) =>
          let p := {| p_handle := handle; p_original_dst_ip := original_dst_ip;
                      p_dst_port := listen_port; p_client_src_ip := client_src_ip;
                      p_client_src_port := client_src_port |} in
          Ok (set_conns (pending st ++ [p]) (active st) (promoted st) (set_net n st))
      | None => Ok st
      end
  end.

Fixpoint drain_commands (cs : list PollCommand) st : panicky (PollState N) :=
  match cs with
  | [] => Ok st
  | c :: cs => st ← poll_command c st; drain_commands cs st
  end.

(** ** Draining the transmit ring *)

(** The frame for a packet whose original source is known. *)
Definition emit_packet (pkt : list Z) (original_src : Ipv4Addr) st : panicky (PollState N) :=
  pkt ← rewrite_src_ip_outbound pkt original_src;
  Ok (push_frame {| header := {| connection_id := 0; sequence := global_seq st; flags := 0 |};
                    payload := pkt |} (wrapping_add 64 (global_seq st) 1) st).

Definition transmit_packet (pkt : list Z) st : panicky (PollState N) :=
  return_if bool_decide (length pkt < 20)%nat with Ok st ;;
  b0 ← index pkt 0;
  return_if negb (Z.shiftr b0 4 =? 4) with Ok st ;;
  maybe_tcp_tuple_flags ← parse_ipv4_tcp_tuple_flags pkt;
  smoltcp_dst_ip ← ipv4_at pkt 16;
  return_if bool_decide (length pkt < 22)%nat with Ok st ;;
  smoltcp_src_port ← be16_at pkt 20;
  return_if bool_decide (length pkt < 24)%nat with Ok st ;;
  smoltcp_dst_port ← be16_at pkt 22;
  match lookup_tuple smoltcp_dst_ip smoltcp_dst_port smoltcp_src_port (active_tuples (active st)) with
  | Ambiguous => Ok (count_ambiguous st)
  | Match original_src =>
      let st := if is_rst maybe_tcp_tuple_flags then count_outbound_rst st else st in
      emit_packet pkt original_src st
  | NoMatch =>
      match lookup_tuple smoltcp_dst_ip smoltcp_dst_port smoltcp_src_port
              (pending_tuple <$> pending st) with
      | Ambiguous => Ok (count_ambiguous st)
      | NoMatch => Ok (if is_rst maybe_tcp_tuple_flags then count_unmatched_rst st else st)
      | Match original_src =>
          let st := if is_rst maybe_tcp_tuple_flags then count_outbound_rst st else st in
          emit_packet pkt original_src st
      end
  end.

Fixpoint drain_tx (pkts : list (list Z)) st : panicky (PollState N) :=
  match pkts with
  | [] => Ok st
  | pkt :: pkts => st ← transmit_packet pkt st; drain_tx pkts st
  end.

(** ** Promotion *)

(** The indices of pending connections whose socket is established. *)
Definition newly_established st : list nat :=
  omap (fun ip : nat * PendingTcpConn =>
          let (i, p) := ip in
          if decide (p_handle p ∈ promoted st) then None
          else if decide (sock_state (net st) (p_handle p) = Established) then Some i else None)
    (imap pair (pending st)).

Definition tuple_conflict (a : gmap nat ActiveTcpConn) (p : PendingTcpConn) : bool :=
  existsb (fun c => tuple_matches (p_client_src_ip p) (p_client_src_port p) (p_dst_port p) c
                    && negb (bool_decide (ct_original c = p_original_dst_ip p)))
    (active_tuples a).

(** [next_conn_id.wrapping_add(1).max(1)] *)
Definition bump_conn_id (i : Z) : Z := Z.max (wrapping_add 32 i 1) 1.

(** The body of the promotion loop for index [idx]; [Vec::remove] panics out of range. *)
Definition promote_one (idx : nat) st : panicky (PollState N) :=
  p ← index (pending st) idx;
  let rest := delete idx (pending st) in
  let h := p_handle p in
  if tuple_conflict (active st) p then
    let st := count_ambiguous st in
    Ok (set_conns rest (active st) (promoted st ∖ {[h]}) (set_net (sock_remove (net st) h) st))
  else
    let conn_id := next_conn_id st in
    let record := {| r_conn_id := conn_id; r_src_ip := p_client_src_ip p;
                     r_src_port := p_client_src_port p; r_dst_ip := p_original_dst_ip p;
                     r_dst_port := p_dst_port p; r_created_at := sys_now (net st);
                     r_last_activity_at := sys_now (net st); r_client_to_remote := 0;
                     r_remote_to_client := 0; r_bridge_read_chunks := 0; r_bridge_read_bytes := 0;
                     r_bridge_to_smoltcp_chunks := 0; r_bridge_to_smoltcp_bytes := 0 |} in
    let conn := {| a_original_dst_ip := p_original_dst_ip p; a_dst_port := p_dst_port p;
                   a_client_src_ip := p_client_src_ip p; a_client_src_port := p_client_src_port p;
                   to_bridge := []; bridge_alive := true; from_bridge := [];
                   pending_from_bridge := None |} in
    Ok (set_flows (<[h := record]> (flows st))
         (set_conns rest (<[h := conn]> (active st)) (promoted st ∪ {[h]})
           (set_conn_id (bump_conn_id conn_id) st))).

(** [for &idx in newly_established.iter().rev()] *)
Fixpoint promote_all (idxs : list nat) st : panicky (PollState N) :=
  match idxs with
  | [] => Ok st
  | idx :: idxs => st ← promote_one idx st; promote_all idxs st
  end.

Definition promote st : panicky (PollState N) := promote_all (rev (newly_established st)) st.

(** ** Servicing active connections *)

Definition set_bridge (tb fb : list (list Z)) (pb : option PendingBridgeBytes) (c : ActiveTcpConn)
  : ActiveTcpConn :=
  {| a_original_dst_ip := a_original_dst_ip c; a_dst_port := a_dst_port c;
     a_client_src_ip := a_client_src_ip c; a_client_src_port := a_client_src_port c;
     to_bridge := tb; bridge_alive := bridge_alive c; from_bridge := fb;
     pending_from_bridge := pb |}.

Definition add_flow_counts (now c2r r2c chunks bs : Z) (r : TcpFlowRecord) : TcpFlowRecord :=
  {| r_conn_id := r_conn_id r; r_src_ip := r_src_ip r; r_src_port := r_src_port r;
     r_dst_ip := r_dst_ip r; r_dst_port := r_dst_port r;
     r_created_at := r_created_at r; r_last_activity_at := now;
     r_bridge_read_chunks := r_bridge_read_chunks r; r_bridge_read_bytes := r_bridge_read_bytes r;
     r_client_to_remote := saturating_add 64 (r_client_to_remote r) c2r;
     r_remote_to_client := saturating_add 64 (r_remote_to_client r) r2c;
     r_bridge_to_smoltcp_chunks := saturating_add 64 (r_bridge_to_smoltcp_chunks r) chunks;
     r_bridge_to_smoltcp_bytes := saturating_add 64 (r_bridge_to_smoltcp_bytes r) bs |}.

Definition add_flow (h : nat) (now c2r r2c chunks bs : Z) (m : gmap nat TcpFlowRecord)
  : gmap nat TcpFlowRecord := alter (add_flow_counts now c2r r2c chunks bs) h m.

(** Client to server: everything the socket has goes to the bridge task as one chunk. *)
Definition service_recv (h : nat) (n : N) (c : ActiveTcpConn) (fl : gmap nat TcpFlowRecord)
  : N * ActiveTcpConn * gmap nat TcpFlowRecord :=
  if sock_can_recv n h then
    let (data, n) := sock_recv n h in
    match data with
    | [] => (n, c, fl)
    | _ => (n, set_bridge (if bridge_alive c then to_bridge c ++ [data] else to_bridge c)
                 (from_bridge c) (pending_from_bridge c) c, add_flow h (sys_now n) 1 0 0 0 fl)
    end
  else (n, c, fl).

(** Server to client: the [while socket.can_send()] loop; [None] when [fuel] rounds were not
    enough.  The offset stays below the chunk's length, so its saturating addition is exact. *)
Fixpoint service_send (fuel : nat) (h : nat) (n : N) (c : ActiveTcpConn)
    (fl : gmap nat TcpFlowRecord)
  : option (panicky (N * ActiveTcpConn * gmap nat TcpFlowRecord)) :=
  match fuel with
  | O => None
  | S fuel =>
      let finish (p : PendingBridgeBytes) (fb : list (list Z)) (fl : gmap nat TcpFlowRecord) :=
        if pb_is_complete p then
          service_send fuel h n (set_bridge (to_bridge c) fb None c) fl
        else
          match pb_remaining p with
          | Ok data =>
              let (r, n) := sock_send_slice n h data in
              match r with
              | None | Some O => Some (Ok (n, set_bridge (to_bridge c) fb (Some p) c, fl))
              | Some written =>
                  let p := {| pb_bytes := pb_bytes p; pb_offset := pb_offset p + written |} in
                  let fl := add_flow h (sys_now n) 0 0 0 (Z.of_nat written) fl in
                  service_send fuel h n
                    (set_bridge (to_bridge c) fb (if pb_is_complete p then None else Some p) c) fl
              end
          | Err e => Some (Err e)
          | Panic => Some Panic
          end in
      if negb (sock_can_send n h) then Some (Ok (n, c, fl))
      else
        match pending_from_bridge c with
        | Some p => finish p (from_bridge c) fl
        | None =>
            match from_bridge c with
            | [] => Some (Ok (n, c, fl))
            | [] :: fb => service_send fuel h n (set_bridge (to_bridge c) fb None c) fl
            | b :: fb => finish {| pb_bytes := b; pb_offset := 0 |} fb (add_flow h (sys_now n) 0 1 1 0 fl)
            end
        end
  end.

(** What is still owed to the socket. *)
Definition outstanding (c : ActiveTcpConn) : list Z :=
  match pending_from_bridge c with
  | Some p => drop (pb_offset p) (pb_bytes p)
  | None => []
  end ++ concat (from_bridge c).

(** Each round takes a chunk off the channel, clears a finished chunk, or writes a byte. *)
Definition service_fuel (c : ActiveTcpConn) : nat :=
  S (length (outstanding c) + length (from_bridge c) +
     (if pending_from_bridge c then 1 else 0)).

Definition service_one (h : nat) st : option (panicky (PollState N)) :=
  match active st !! h with
  | None => Some Panic
  | Some c =>
      let '(n, c, fl) := service_recv h (net st) c (flows st) in
      match service_send (service_fuel c) h n c fl with
      | None => None
      | Some (Ok (n, c, fl)) =>
          Some (Ok (set_flows fl (set_conns (pending st) (<[h := c]> (active st)) (promoted st)
                     (set_net n st))))
      | Some (Err e) => Some (Err e)
      | Some Panic => Some Panic
      end
  end.

Fixpoint service_all (hs : list nat) st : option (panicky (PollState N)) :=
  match hs with
  | [] => Some (Ok st)
  | h :: hs =>
      match service_one h st with
      | Some (Ok st) => service_all hs st
      | r => r
      end
  end.

(** ** Removing closed connections *)

Definition is_closed st (h : nat) : bool :=
  negb (sock_is_active (net st) h) && negb (bool_decide (sock_state (net st) h = Listen)).

Definition remove_one (h : nat) st : PollState N :=
  set_flows (delete h (flows st))
    (set_net (sock_remove (net st) h)
      (set_conns (pending st) (delete h (active st)) (promoted st ∖ {[h]}) st)).

Definition remove_closed st : PollState N :=
  let closed := List.filter (is_closed st) ((map_to_list (active st)).*1) in
  let st := foldl (fun st h => remove_one h st) st closed in
  set_conns (pending st) (active st) (promoted st ∩ dom (active st)) st.

(** ** One round of the thread, after the commands [cs] were received *)

Definition poll_round (cs : list PollCommand) st : option (panicky (PollState N)) :=
  let before :=
    st ← drain_commands cs st;
    let '(rx, tx, n) := stack_poll (net st) (device_rx st) in
    st ← drain_tx tx (set_device_rx rx (set_net n st));
    promote st in
  match before with
  | Ok st =>
      match service_all ((map_to_list (active st)).*1) st with
      | Some (Ok st) => Some (Ok (remove_closed st))
      | r => r
      end
  | Err e => Some (Err e)
  | Panic => Some Panic
  end.

(** The state the thread starts with. *)
Definition poll_init (n : N) : PollState N :=
  {| net := n; device_rx := []; pending := []; active := ∅; promoted := ∅; next_conn_id := 1;
     global_seq := 0; inbound_tcp_rst_total := 0; outbound_tcp_rst_total := 0;
     outbound_tcp_rst_unmatched_total := 0; ambiguous_tcp_tuple_drop_total := 0; flows := ∅;
     outbound_frames := [] |}.
End poll_thread.

(** ** The bridge task *)

(** What a read of the remote stream returned. *)
Inductive remote_read := RemoteErr | RemoteOk (data : list Z).

(** The read pump: the chunks sent to the poll thread, and the events left when it stopped. *)
Fixpoint bridge_read_pump (evs : list remote_read) : list (list Z) * list remote_read :=
  match evs with
  | [] => ([], [])
  | RemoteErr :: evs => ([], evs)
  | RemoteOk [] :: evs => ([], evs)
  | RemoteOk data :: evs => let (out, rest) := bridge_read_pump evs in (data :: out, rest)
  end.

(** The write pump: chunks are written whole, in order, until a write fails. *)
Fixpoint bridge_write_pump (chunks : list (list Z)) (fails : list bool) : list Z :=
  match chunks with
  | [] => []
  | c :: chunks =>
      match fails with
      | true :: _ => []
      | _ => c ++ bridge_write_pump chunks (tail fails)
      end
  end.

(** * Lemmas *)

(** ** Tuple look-up *)

Section lookup.
Context (ip : Ipv4Addr) (port server_port : Z).
Implicit Types cs : list conn_tuple.
Let matches := tuple_matches ip port server_port.

(** The original destinations of the matching connections. *)
Definition originals cs : list Ipv4Addr := ct_original <$> List.filter matches cs.

Lemma lookup_loop_some o cs :
  lookup_loop ip port server_port (Some o) cs =
  if decide (Forall (eq o) (originals cs)) then Match o else Ambiguous.
Proof.
  unfold originals. induction cs as [|c cs IH].
  - rewrite decide_True by constructor. done.
  - cbn [lookup_loop List.filter]. fold (matches c).
    destruct (matches c) eqn:Hm; [|exact IH]. rewrite fmap_cons.
    destruct (decide (o = ct_original c)) as [He|He].
    + rewrite IH. apply decide_ext. rewrite Forall_cons. naive_solver.
    + rewrite decide_False; [done|]. rewrite Forall_cons. naive_solver.
Qed.

Lemma lookup_tuple_originals cs :
  lookup_tuple ip port server_port cs =
  match originals cs with
  | [] => NoMatch
  | o :: os => if decide (Forall (eq o) os) then Match o else Ambiguous
  end.
Proof.
  unfold lookup_tuple, originals. induction cs as [|c cs IH]; [done|].
  cbn [lookup_loop List.filter]. fold (matches c). destruct (matches c) eqn:Hm; [|exact IH].
  rewrite fmap_cons. apply lookup_loop_some.
Qed.

Lemma originals_perm cs cs' : cs ≡ₚ cs' -> originals cs ≡ₚ originals cs'.
Proof.
  intros Hp. apply fmap_Permutation. induction Hp; simpl; try done.
  - case_match; [by constructor | done].
  - repeat case_match; try done. constructor.
  - by etrans.
Qed.

Lemma lookup_tuple_perm cs cs' :
  cs ≡ₚ cs' -> lookup_tuple ip port server_port cs = lookup_tuple ip port server_port cs'.
Proof.
  intros Hp%originals_perm. rewrite !lookup_tuple_originals.
  destruct (originals cs) as [|o os] eqn:E1, (originals cs') as [|o' os'] eqn:E2; try done.
  - by apply Permutation_nil_l in Hp.
  - symmetry in Hp. by apply Permutation_nil_l in Hp.
  - assert (Hall : Forall (eq o) os <-> Forall (eq o) (o' :: os')).
    { rewrite <- Hp, Forall_cons. naive_solver. }
    destruct (decide (Forall (eq o) os)) as [H|H].
    + apply Hall, Forall_cons in H as [<- H]. by rewrite decide_True.
    + rewrite decide_False; [done|]. intros Hf. apply H, Hall.
      assert (Hin : o ∈ o' :: os') by (rewrite <- Hp; constructor).
      apply elem_of_cons in Hin as [->|Hin]; [by constructor|].
      assert (o' = o) as -> by exact (proj1 (Forall_forall _ _) Hf o Hin). by constructor.
Qed.
End lookup.

(** Connections with the same client and server port have the same destination. *)
Definition unambiguous (cs : list conn_tuple) : Prop :=
  forall c c', c ∈ cs -> c' ∈ cs -> ct_client_ip c = ct_client_ip c' ->
    ct_client_port c = ct_client_port c' -> ct_server_port c = ct_server_port c' ->
    ct_original c = ct_original c'.

Lemma tuple_matches_true ip port sp c :
  tuple_matches ip port sp c = true <->
  ct_client_ip c = ip /\ ct_client_port c = port /\ ct_server_port c = sp.
Proof.
  unfold tuple_matches. rewrite !andb_true_iff, bool_decide_eq_true, !Z.eqb_eq. tauto.
Qed.

Lemma elem_of_originals ip port sp cs o :
  o ∈ originals ip port sp cs <->
  exists c, c ∈ cs /\ tuple_matches ip port sp c = true /\ ct_original c = o.
Proof.
  unfold originals. rewrite list_elem_of_fmap. setoid_rewrite list_elem_of_In.
  setoid_rewrite filter_In. naive_solver.
Qed.

Lemma unambiguous_lookup ip port sp cs :
  unambiguous cs -> lookup_tuple ip port sp cs <> Ambiguous.
Proof.
  intros Hu. rewrite lookup_tuple_originals.
  destruct (originals ip port sp cs) as [|o os] eqn:E; [done|].
  rewrite decide_True; [done|]. apply Forall_forall. intros o' Ho'.
  assert (H1 : o ∈ originals ip port sp cs) by (rewrite E; constructor).
  assert (H2 : o' ∈ originals ip port sp cs) by (rewrite E; by constructor).
  apply elem_of_originals in H1 as (c & Hc & (? & ? & ?)%tuple_matches_true & <-).
  apply elem_of_originals in H2 as (c' & Hc' & (? & ? & ?)%tuple_matches_true & <-).
  apply Hu; congruence.
Qed.

(** Under the invariant the look-up finds the destination of every matching connection. *)
Lemma unambiguous_lookup_match ip port sp cs c :
  unambiguous cs -> c ∈ cs -> tuple_matches ip port sp c = true ->
  lookup_tuple ip port sp cs = Match (ct_original c).
Proof.
  intros Hu Hc Hm. pose proof (unambiguous_lookup ip port sp cs Hu) as Hna.
  rewrite lookup_tuple_originals in *.
  assert (Ho : ct_original c ∈ originals ip port sp cs) by (apply elem_of_originals; eauto).
  destruct (originals ip port sp cs) as [|o os]; [by apply not_elem_of_nil in Ho|].
  case_decide as Hf; [|done]. apply elem_of_cons in Ho as [->|Ho]; [done|].
  rewrite Forall_forall in Hf. by rewrite (Hf _ Ho).
Qed.

Lemma elem_of_active_tuples m t :
  t ∈ active_tuples m <-> exists h c, m !! h = Some c /\ active_tuple c = t.
Proof.
  unfold active_tuples. rewrite list_elem_of_fmap. split.
  - intros (c & -> & [[h c'] [-> Hin]]%list_elem_of_fmap). apply elem_of_map_to_list in Hin. eauto.
  - intros (h & c & Hc & <-). exists c. split; [done|]. apply list_elem_of_fmap.
    exists (h, c). split; [done | by apply elem_of_map_to_list].
Qed.

Lemma active_tuples_insert m h c t :
  t ∈ active_tuples (<[h := c]> m) -> t = active_tuple c \/ t ∈ active_tuples m.
Proof.
  rewrite !elem_of_active_tuples. intros (h' & c' & Hc' & <-).
  apply lookup_insert_Some in Hc' as [[_ <-]|[_ Hc']]; eauto 6.
Qed.

Lemma active_tuples_delete m h t : t ∈ active_tuples (delete h m) -> t ∈ active_tuples m.
Proof.
  rewrite !elem_of_active_tuples. intros (h' & c' & Hc' & <-).
  apply lookup_delete_Some in Hc' as [_ Hc']. eauto.
Qed.

Lemma unambiguous_subset cs cs' :
  unambiguous cs -> (forall t, t ∈ cs' -> t ∈ cs) -> unambiguous cs'.
Proof. intros Hu Hs c c' Hc Hc'. apply Hu; auto. Qed.

(** Adding a connection that conflicts with none keeps the invariant. *)
Lemma unambiguous_insert m h c :
  unambiguous (active_tuples m) ->
  (forall t, t ∈ active_tuples m -> ct_client_ip t = a_client_src_ip c ->
     ct_client_port t = a_client_src_port c -> ct_server_port t = a_dst_port c ->
     ct_original t = a_original_dst_ip c) ->
  unambiguous (active_tuples (<[h := c]> m)).
Proof.
  intros Hu Hc t t' [->|Ht]%active_tuples_insert [->|Ht']%active_tuples_insert;
    [done | | | by apply Hu]; simpl; intros; [symmetry|]; apply Hc; congruence.
Qed.

Section thread_lemmas.
Context {N : Type} `{Stack N}.
Implicit Types st : PollState N.

Definition poll_inv st : Prop := unambiguous (active_tuples (active st)).

(** ** What the steps leave alone *)

Lemma poll_command_active c st st' : poll_command c st = Ok st' -> active st' = active st.
Proof.
  destruct c as [pkt|]; simpl.
  - destruct (parse_ipv4_tcp_tuple_flags pkt) as [t|e|]; simpl; [|done..].
    intros [= <-]. by destruct (is_rst t).
  - destruct (stack_listen _ _) as [[h n]|]; intros [= <-]; done.
Qed.

Lemma drain_commands_active cs st st' :
  drain_commands cs st = Ok st' -> active st' = active st.
Proof.
  revert st. induction cs as [|c cs IH]; intros st; simpl; [by intros [= <-]|].
  destruct (poll_command c st) as [st1|e|] eqn:Hc; simpl; [|done..].
  intros ->%IH. by eapply poll_command_active.
Qed.

Lemma emit_packet_spec pkt o st st' :
  emit_packet pkt o st = Ok st' ->
  exists pkt', rewrite_src_ip_outbound pkt o = Ok pkt' /\
    st' = push_frame {| header := {| connection_id := 0; sequence := global_seq st; flags := 0 |};
                        payload := pkt' |} (wrapping_add 64 (global_seq st) 1) st.
Proof.
  unfold emit_packet. destruct (rewrite_src_ip_outbound pkt o) as [pkt'|e|]; simpl; [|done..].
  intros [= <-]. eauto.
Qed.

(** What the transmit ring has no effect on *)
Definition thread_core st := (net st, pending st, active st, promoted st, flows st, next_conn_id st).

(** A packet off the ring is dropped (only counters change) or becomes the next frame. *)
Lemma transmit_packet_spec pkt st st' :
  transmit_packet pkt st = Ok st' ->
  thread_core st' = thread_core st /\
  ((outbound_frames st' = outbound_frames st /\ global_seq st' = global_seq st) \/
   (exists pkt', outbound_frames st' = outbound_frames st ++
      [{| header := {| connection_id := 0; sequence := global_seq st; flags := 0 |};
          payload := pkt' |}] /\ global_seq st' = wrapping_add 64 (global_seq st) 1)).
Proof.
  unfold transmit_packet. case_bool_decide; [naive_solver|].
  destruct (index pkt 0) as [b0|e|]; simpl; [|done..].
  destruct (negb _); [naive_solver|].
  destruct (parse_ipv4_tcp_tuple_flags pkt) as [t|e|]; simpl; [|done..].
  destruct (ipv4_at pkt 16) as [ip|e|]; simpl; [|done..].
  case_bool_decide; [naive_solver|].
  destruct (be16_at pkt 20) as [sp|e|]; simpl; [|done..].
  case_bool_decide; [naive_solver|].
  destruct (be16_at pkt 22) as [dp|e|]; simpl; [|done..].
  destruct (lookup_tuple ip dp sp (active_tuples (active st))).
  2: destruct (is_rst t); intros (p & _ & ->)%emit_packet_spec; simpl; eauto 8.
  2: intros [= <-]; simpl; auto.
  destruct (lookup_tuple ip dp sp (pending_tuple <$> pending st)).
  - destruct (is_rst t); intros [= <-]; simpl; auto.
  - destruct (is_rst t); intros (p & _ & ->)%emit_packet_spec; simpl; eauto 8.
  - intros [= <-]; simpl; auto.
Qed.

Lemma drain_tx_core pkts st st' : drain_tx pkts st = Ok st' -> thread_core st' = thread_core st.
Proof.
  revert st. induction pkts as [|p pkts IH]; intros st; simpl; [by intros [= <-]|].
  destruct (transmit_packet p st) as [st1|e|] eqn:Hc; simpl; [|done..].
  intros ->%IH. by destruct (transmit_packet_spec _ _ _ Hc) as [-> _].
Qed.

Lemma drain_tx_active pkts st st' : drain_tx pkts st = Ok st' -> active st' = active st.
Proof. intros Hd%drain_tx_core. unfold thread_core in Hd. congruence. Qed.

(** ** Promotion *)

Lemma tuple_conflict_false a p :
  tuple_conflict a p = false ->
  forall t, t ∈ active_tuples a -> ct_client_ip t = p_client_src_ip p ->
    ct_client_port t = p_client_src_port p -> ct_server_port t = p_dst_port p ->
    ct_original t = p_original_dst_ip p.
Proof.
  unfold tuple_conflict. intros Hc t Ht H1 H2 H3. apply list_elem_of_In in Ht.
  apply dec_stable. intros Hne.
  assert (He : existsb (fun c => tuple_matches (p_client_src_ip p) (p_client_src_port p) (p_dst_port p) c
    && negb (bool_decide (ct_original c = p_original_dst_ip p))) (active_tuples a) = true);
    [|congruence].
  apply existsb_exists. exists t. split; [done|].
  apply andb_true_iff. split; [by apply tuple_matches_true|].
  by rewrite bool_decide_eq_false_2.
Qed.

Lemma promote_one_inv idx st st' : promote_one idx st = Ok st' -> poll_inv st -> poll_inv st'.
Proof.
  unfold promote_one, poll_inv. destruct (index (pending st) idx) as [p|e|]; simpl; [|done..].
  destruct (tuple_conflict (active st) p) eqn:Hc; intros [= <-] Hinv; simpl; [done|].
  apply unambiguous_insert; [done|]. simpl. by apply tuple_conflict_false.
Qed.

Lemma promote_all_inv idxs st st' : promote_all idxs st = Ok st' -> poll_inv st -> poll_inv st'.
Proof.
  revert st. induction idxs as [|i idxs IH]; intros st; simpl; [by intros [= <-]|].
  destruct (promote_one i st) as [st1|e|] eqn:Hp; simpl; [|done..].
  intros Hall Hinv. eapply IH; [done|]. by eapply promote_one_inv.
Qed.
End thread_lemmas.

(** Documented behaviour of a smoltcp socket: [sock_tx n h] is what the socket has accepted for
    transmission so far; [send_slice] accepts a prefix of its argument. *)
Class StackLaws (N : Type) `{Stack N} (sock_tx : N -> nat -> list Z) := {
  send_slice_some : forall n h data w n', sock_send_slice n h data = (Some w, n') ->
    (w <= length data)%nat /\ sock_tx n' h = sock_tx n h ++ take w data;
  send_slice_none : forall n h data n', sock_send_slice n h data = (None, n') ->
    sock_tx n' h = sock_tx n h;
  recv_keeps_tx : forall n h, sock_tx (sock_recv n h).2 h = sock_tx n h
}.

Section service_lemmas.
Context {N : Type} `{Stack N} `{!StackLaws N sock_tx}.
Implicit Types (n : N) (c : ActiveTcpConn) (fl : gmap nat TcpFlowRecord).

Definition pb_ok c : Prop :=
  match pending_from_bridge c with
  | Some p => (pb_offset p <= length (pb_bytes p))%nat
  | None => True
  end.

(** What one call of the loop guarantees. *)
Definition service_post h n c (r : option (panicky (N * ActiveTcpConn * gmap nat TcpFlowRecord)))
  : Prop :=
  exists n' c' fl', r = Some (Ok (n', c', fl')) /\
    sock_tx n' h ++ outstanding c' = sock_tx n h ++ outstanding c /\ pb_ok c' /\
    active_tuple c' = active_tuple c /\ to_bridge c' = to_bridge c.

Lemma service_post_step h n c n1 c1 r :
  service_post h n1 c1 r -> sock_tx n1 h ++ outstanding c1 = sock_tx n h ++ outstanding c ->
  active_tuple c1 = active_tuple c -> to_bridge c1 = to_bridge c -> service_post h n c r.
Proof.
  intros (n' & c' & fl' & -> & Ho & Hp & Ht & Hb) E1 E2 E3. exists n', c', fl'.
  split_and!; congruence.
Qed.

(** A chunk with [w] more bytes written. *)
Lemma advance_chunk (p : PendingBridgeBytes) w :
  (pb_offset p + w <= length (pb_bytes p))%nat ->
  let p' := {| pb_bytes := pb_bytes p; pb_offset := pb_offset p + w |} in
  match (if pb_is_complete p' then None else Some p') with
  | Some q => drop (pb_offset q) (pb_bytes q)
  | None => []
  end = drop w (drop (pb_offset p) (pb_bytes p)).
Proof.
  intros Hw p'. rewrite drop_drop. unfold pb_is_complete, p'. simpl.
  case_bool_decide; simpl; [|done]. symmetry. apply drop_ge. lia.
Qed.

(** Sending from the current chunk [p], the channel holding [fb]. *)
Lemma service_chunk fuel h n c p fb fl
  (IH : forall n c fl, (service_fuel c <= fuel)%nat -> pb_ok c ->
    service_post h n c (service_send fuel h n c fl)) :
  pb_is_complete p = false -> (pb_offset p <= length (pb_bytes p))%nat ->
  outstanding c = drop (pb_offset p) (pb_bytes p) ++ concat fb ->
  (length (outstanding c) + length fb + 1 <= fuel)%nat ->
  service_post h n c
    match pb_remaining p with
    | Ok data =>
        let (r, n) := sock_send_slice n h data in
        match r with
        | None | Some O => Some (Ok (n, set_bridge (to_bridge c) fb (Some p) c, fl))
        | Some written =>
            let p := {| pb_bytes := pb_bytes p; pb_offset := pb_offset p + written |} in
            let fl := add_flow h (sys_now n) 0 0 0 (Z.of_nat written) fl in
            service_send fuel h n
              (set_bridge (to_bridge c) fb (if pb_is_complete p then None else Some p) c) fl
        end
    | Err e => Some (Err e)
    | Panic => Some Panic
    end.
Proof.
  intros Hnc Hoff Hout Hfuel. unfold pb_remaining. rewrite slice_from_ok by done.
  set (data := drop (pb_offset p) (pb_bytes p)) in *.
  destruct (sock_send_slice n h data) as [r n1] eqn:Hs.
  assert (Hstop : sock_tx n1 h = sock_tx n h ->
    service_post h n c (Some (Ok (n1, set_bridge (to_bridge c) fb (Some p) c, fl)))).
  { intros Htx. do 3 eexists. split; [done|]. rewrite Htx, Hout. done. }
  destruct r as [[|w]|]; [| | apply Hstop; by eapply send_slice_none].
  - apply Hstop. destruct (send_slice_some _ _ _ _ _ Hs) as [_ ->]. by rewrite take_0, app_nil_r.
  - destruct (send_slice_some _ _ _ _ _ Hs) as [Hw Htx].
    assert (Hdl : length data = (length (pb_bytes p) - pb_offset p)%nat) by apply length_drop.
    set (p' := {| pb_bytes := pb_bytes p; pb_offset := pb_offset p + S w |}).
    set (c1 := set_bridge (to_bridge c) fb (if pb_is_complete p' then None else Some p') c).
    assert (Ho1 : outstanding c1 = drop (S w) data ++ concat fb).
    { unfold outstanding, c1. cbn [pending_from_bridge from_bridge set_bridge]. f_equal.
      apply (advance_chunk p (S w)). lia. }
    apply (service_post_step h n c n1 c1); [|by rewrite Ho1, Htx, Hout, <- app_assoc,
      (app_assoc (take _ _)), take_drop|done|done].
    apply IH.
    + unfold service_fuel. rewrite Ho1. rewrite Hout, length_app in Hfuel.
      rewrite length_app, length_drop. simpl. case_match; lia.
    + unfold pb_ok, c1. simpl. destruct (pb_is_complete p'); simpl; [done|]. lia.
Qed.

Lemma service_send_spec fuel h n c fl :
  (service_fuel c <= fuel)%nat -> pb_ok c -> service_post h n c (service_send fuel h n c fl).
Proof.
  revert n c fl. induction fuel as [|fuel IH]; intros n c fl Hf Hp; [unfold service_fuel in Hf; lia|].
  assert (Hdone : service_post h n c (Some (Ok (n, c, fl)))) by (do 3 eexists; by split_and!).
  cbn [service_send]. destruct (sock_can_send n h); [|exact Hdone]. cbn [negb].
  unfold service_fuel in Hf. unfold pb_ok in Hp.
  destruct (pending_from_bridge c) as [p|] eqn:Hpend.
  - assert (Hout : outstanding c = drop (pb_offset p) (pb_bytes p) ++ concat (from_bridge c))
      by (unfold outstanding; by rewrite Hpend).
    destruct (pb_is_complete p) eqn:Hc.
    + assert (Ho1 : outstanding (set_bridge (to_bridge c) (from_bridge c) None c) = outstanding c).
      { rewrite Hout. unfold outstanding. simpl.
        unfold pb_is_complete in Hc. apply bool_decide_eq_true in Hc. by rewrite drop_ge. }
      eapply service_post_step; [apply IH | by rewrite Ho1 | done | done]; [|done].
      unfold service_fuel. rewrite Ho1. simpl. lia.
    + apply service_chunk; try done. lia.
  - assert (Hout : outstanding c = concat (from_bridge c)) by (unfold outstanding; by rewrite Hpend).
    destruct (from_bridge c) as [|[|b0 b] fb] eqn:Hfb; [exact Hdone | |].
    + assert (Ho1 : outstanding (set_bridge (to_bridge c) fb None c) = outstanding c) by by rewrite Hout.
      eapply service_post_step; [apply IH | by rewrite Ho1 | done | done]; [|done].
      unfold service_fuel. rewrite Ho1. simpl in *. lia.
    + change (pb_is_complete {| pb_bytes := b0 :: b; pb_offset := 0 |}) with false. cbv iota.
      apply service_chunk; try done; [simpl; lia | simpl in *; lia].
Qed.
End service_lemmas.

(** ** Whole rounds *)

Section rounds.
Context {N : Type} `{Stack N} `{!StackLaws N sock_tx}.
Implicit Types st : PollState N.

(** The invariant of the thread between its steps. *)
Record poll_ok st : Prop := {
  ok_unambiguous : unambiguous (active_tuples (active st));
  ok_chunks : forall h c, active st !! h = Some c -> pb_ok c
}.

Lemma poll_ok_same st st' : active st' = active st -> poll_ok st -> poll_ok st'.
Proof. intros Ha [Hu Hc]. split; by rewrite Ha. Qed.

Lemma poll_ok_insert_same st h c c' n fl :
  poll_ok st -> active st !! h = Some c -> active_tuple c' = active_tuple c -> pb_ok c' ->
  poll_ok (set_flows fl (set_conns (pending st) (<[h := c']> (active st)) (promoted st)
    (set_net n st))).
Proof.
  intros [Hu Hch] Hc Ht Hp. split; simpl.
  - apply (unambiguous_subset _ _ Hu). intros t [->|Hin]%active_tuples_insert; [|done].
    rewrite Ht. apply elem_of_active_tuples. eauto.
  - intros h' c1 [[<- <-]|[_ Hl]]%lookup_insert_Some; [done | eauto].
Qed.

Lemma service_recv_spec h n c fl :
  let '(n', c', fl') := service_recv h n c fl in
  sock_tx n' h = sock_tx n h /\ outstanding c' = outstanding c /\
  active_tuple c' = active_tuple c /\ (pb_ok c -> pb_ok c').
Proof.
  unfold service_recv. destruct (sock_can_recv n h); [|done].
  pose proof (recv_keeps_tx n h) as Htx.
  destruct (sock_recv n h) as [data n1]. by destruct data.
Qed.

Lemma service_one_spec h st c :
  poll_ok st -> active st !! h = Some c ->
  exists st' c', service_one h st = Some (Ok st') /\ poll_ok st' /\
    active st' = <[h := c']> (active st) /\ pending st' = pending st /\
    active_tuple c' = active_tuple c /\
    sock_tx (net st') h ++ outstanding c' = sock_tx (net st) h ++ outstanding c.
Proof.
  intros Hok Hc. unfold service_one. rewrite Hc.
  pose proof (service_recv_spec h (net st) c (flows st)) as Hr.
  destruct (service_recv h (net st) c (flows st)) as [[n1 c1] fl1].
  destruct Hr as (Htx & Hout & Htup & Hpb).
  destruct (service_send_spec (service_fuel c1) h n1 c1 fl1) as
    (n2 & c2 & fl2 & -> & Ho & Hp & Ht & _); [done | eapply Hpb, ok_chunks; eauto |].
  do 2 eexists. split; [done|]. split_and!; try done.
  - eapply poll_ok_insert_same; eauto. congruence.
  - congruence.
  - simpl. by rewrite Ho, Htx, Hout.
Qed.

Lemma service_all_spec hs st :
  poll_ok st -> (forall h, h ∈ hs -> is_Some (active st !! h)) ->
  exists st', service_all hs st = Some (Ok st') /\ poll_ok st'.
Proof.
  revert st. induction hs as [|h hs IH]; intros st Hok Hin; [eauto|]. cbn [service_all].
  destruct (Hin h) as [c Hc]; [constructor|].
  destruct (service_one_spec h st c Hok Hc) as (st1 & c1 & -> & Hok1 & Ha & _).
  apply IH; [done|]. intros h' Hh'. rewrite Ha. destruct (decide (h = h')) as [->|].
  - rewrite lookup_insert_eq. eauto.
  - rewrite lookup_insert_ne by done. apply Hin. by constructor.
Qed.

Lemma promote_one_ok idx st st' : promote_one idx st = Ok st' -> poll_ok st -> poll_ok st'.
Proof.
  intros Hp Hok. split; [by eapply promote_one_inv, Hok|]. revert Hp. unfold promote_one.
  destruct (index (pending st) idx) as [p|e|]; simpl; [|done..].
  destruct Hok as [_ Hch]. destruct (tuple_conflict _ p); intros [= <-]; simpl; [done|].
  intros h c [[_ <-]|[_ Hl]]%lookup_insert_Some; [done | eauto].
Qed.

Lemma promote_all_ok idxs st st' : promote_all idxs st = Ok st' -> poll_ok st -> poll_ok st'.
Proof.
  revert st. induction idxs as [|i idxs IH]; intros st; simpl; [by intros [= <-]|].
  destruct (promote_one i st) as [st1|e|] eqn:Hp; simpl; [|done..].
  intros Hall Hok. eapply IH; [done|]. by eapply promote_one_ok.
Qed.

Lemma remove_one_ok h st : poll_ok st -> poll_ok (remove_one h st).
Proof.
  intros [Hu Hch]. split; simpl.
  - apply (unambiguous_subset _ _ Hu). apply active_tuples_delete.
  - intros h' c [_ Hl]%lookup_delete_Some. eauto.
Qed.

Lemma remove_closed_ok st : poll_ok st -> poll_ok (remove_closed st).
Proof.
  intros Hok. unfold remove_closed. generalize (List.filter (is_closed st) (map_to_list (active st)).*1).
  intros hs. assert (Hf : poll_ok (foldl (fun st h => remove_one h st) st hs)).
  { revert st Hok. induction hs as [|h hs IH]; intros st Hok; [done|]. simpl.
    by apply IH, remove_one_ok. }
  by apply (poll_ok_same (foldl (fun st h => remove_one h st) st hs)).
Qed.

(** A round is never stuck in a service loop, and it keeps the invariant. *)
Lemma poll_round_ok cs st :
  poll_ok st ->
  match poll_round cs st with
  | None => False
  | Some (Ok st') => poll_ok st'
  | Some _ => True
  end.
Proof.
  intros Hok. unfold poll_round.
  destruct (drain_commands cs st) as [st1|e|] eqn:H1; simpl; [|done..].
  apply drain_commands_active in H1.
  destruct (stack_poll (net st1) (device_rx st1)) as [[rx tx] n].
  destruct (drain_tx tx _) as [st2|e|] eqn:H2; simpl; [|done..].
  apply drain_tx_active in H2. simpl in H2.
  assert (Hok2 : poll_ok st2) by (apply (poll_ok_same st); congruence).
  destruct (promote st2) as [st3|e|] eqn:H3; simpl; [|done..].
  assert (Hok3 : poll_ok st3) by by eapply promote_all_ok.
  destruct (service_all_spec ((map_to_list (active st3)).*1) st3 Hok3) as (st4 & -> & Hok4).
  { intros h [[h' c] [-> Hin]]%list_elem_of_fmap. apply elem_of_map_to_list in Hin. eauto. }
  by apply remove_closed_ok.
Qed.

(** The thread and the tasks around it: rounds, and the bridge tasks filling their channels or
    ending between rounds. *)
Definition bridge_push (h : nat) (chunk : list Z) st : PollState N :=
  set_conns (pending st)
    (alter (fun c => set_bridge (to_bridge c) (from_bridge c ++ [chunk]) (pending_from_bridge c) c)
       h (active st)) (promoted st) st.

Inductive reachable : PollState N -> Prop :=
  | reach_init n : reachable (poll_init n)
  | reach_round cs st st' : reachable st -> poll_round cs st = Some (Ok st') -> reachable st'
  | reach_bridge h chunk st : reachable st -> reachable (bridge_push h chunk st).

Lemma bridge_push_ok h chunk st : poll_ok st -> poll_ok (bridge_push h chunk st).
Proof.
  intros [Hu Hch]. split; simpl.
  - apply (unambiguous_subset _ _ Hu). intros t (h' & c & Hc & <-)%elem_of_active_tuples.
    apply lookup_alter_Some in Hc as [(-> & c0 & Hc0 & ->)|[_ Hc]];
      apply elem_of_active_tuples; eauto.
  - intros h' c [(-> & c0 & Hc0 & ->)|[_ Hc]]%lookup_alter_Some; [|eauto].
    by apply (Hch _ _ Hc0).
Qed.

Lemma reachable_ok st : reachable st -> poll_ok st.
Proof.
  induction 1 as [n|cs st st' _ IH Hr|h chunk st _ IH].
  - split; simpl; [|done]. intros c c' Hc.
    apply elem_of_active_tuples in Hc as (? & ? & Hc & _). done.
  - pose proof (poll_round_ok cs st IH) as Hk. by rewrite Hr in Hk.
  - by apply bridge_push_ok.
Qed.
End rounds.

(** ** Promotion, as a function of the pending list *)

(** The positions of the elements that satisfy [P]. *)
Definition positions {A} (P : A -> bool) (l : list A) : list nat :=
  omap (fun ip : nat * A => let (i, p) := ip in if P p then Some i else None) (imap pair l).

Lemma positions_snoc {A} (P : A -> bool) l x :
  positions P (l ++ [x]) = positions P l ++ (if P x then [length l] else []).
Proof.
  unfold positions. rewrite imap_app, omap_app. f_equal. simpl. rewrite Nat.add_0_r.
  by destruct (P x).
Qed.

Lemma filter_snoc {A} (P : A -> bool) l x :
  List.filter P (l ++ [x]) = List.filter P l ++ (if P x then [x] else []).
Proof. rewrite List.filter_app. simpl. by destruct (P x). Qed.

Section promotion.
Context {N : Type} `{Stack N}.
Implicit Types st : PollState N.

(** Connections that [promote] takes off the pending list. *)
Definition is_new st (p : PendingTcpConn) : bool :=
  bool_decide (p_handle p ∉ promoted st) &&
  bool_decide (sock_state (net st) (p_handle p) = Established).

Lemma newly_established_positions st : newly_established st = positions (is_new st) (pending st).
Proof.
  unfold newly_established, positions, is_new.
  generalize (imap pair (pending st)). intros l. induction l as [|[i p] l IH]; [done|]. simpl.
  destruct (decide (p_handle p ∈ promoted st)) as [Hp|Hp].
  - rewrite (bool_decide_eq_false_2 (p_handle p ∉ promoted st)) by naive_solver. exact IH.
  - rewrite (bool_decide_eq_true_2 (p_handle p ∉ promoted st)) by done. simpl.
    destruct (decide (sock_state (net st) (p_handle p) = Established)) as [He|He].
    + rewrite bool_decide_eq_true_2 by done. f_equal. exact IH.
    + rewrite bool_decide_eq_false_2 by done. exact IH.
Qed.

Lemma promote_one_pending l x suf st :
  pending st = l ++ x :: suf ->
  exists st', promote_one (length l) st = Ok st' /\ pending st' = l ++ suf.
Proof.
  intros Hp. unfold promote_one, index. rewrite Hp, list_lookup_middle by done. simpl.
  assert (Hd : delete (length l) (l ++ x :: suf) = l ++ suf) by by apply delete_middle.
  rewrite Hd. destruct (tuple_conflict _ x); eauto.
Qed.

Lemma promote_positions (P : PendingTcpConn -> bool) l suf st :
  pending st = l ++ suf ->
  exists st', promote_all (rev (positions P l)) st = Ok st' /\
    pending st' = List.filter (fun p => negb (P p)) l ++ suf.
Proof.
  revert suf st. induction l as [|x l IH] using rev_ind; intros suf st Hp; [by exists st|].
  rewrite positions_snoc, filter_snoc, rev_app_distr. rewrite <- app_assoc in Hp. simpl in Hp.
  destruct (P x); simpl.
  - destruct (promote_one_pending l x suf st Hp) as (st1 & -> & Hp1). simpl.
    destruct (IH suf st1 Hp1) as (st' & -> & H2). exists st'. by rewrite app_nil_r.
  - destruct (IH (x :: suf) st Hp) as (st' & -> & H2). exists st'. by rewrite <- app_assoc.
Qed.
End promotion.

(** ** A stack for the witnesses: nothing arrives, sockets take up to four bytes at a time *)

Record toy_net := { toy_next : nat; toy_sent : gmap nat (list Z) }.

Definition toy_accept (data : list Z) : nat := Nat.min 4 (length data).

#[export] Instance toy_stack : Stack toy_net := {
  stack_listen n _ :=
    Some (toy_next n, {| toy_next := S (toy_next n); toy_sent := delete (toy_next n) (toy_sent n) |});
  stack_poll n _ := ([], [], n);
  sock_state _ _ := Established;
  sock_is_active _ _ := true;
  sock_can_recv _ _ := false;
  sock_can_send _ _ := true;
  sock_recv n _ := ([], n);
  sock_send_slice n h data :=
    (Some (toy_accept data),
     {| toy_next := toy_next n;
        toy_sent := <[h := default [] (toy_sent n !! h) ++ take (toy_accept data) data]>
                      (toy_sent n) |});
  sock_remove n _ := n;
  sys_now _ := 0
}.

Definition toy_tx (n : toy_net) (h : nat) : list Z := default [] (toy_sent n !! h).

#[export] Instance toy_laws : StackLaws toy_net toy_tx.
Proof.
  split.
  - intros n h data w n'. cbn [sock_send_slice toy_stack]. intros [= <- <-].
    split; [apply Nat.le_min_r|]. unfold toy_tx. cbn [toy_sent]. by rewrite lookup_insert_eq.
  - done.
  - done.
Qed.

(** * Properties *)

(** C8: promotion never lets two active connections share client address, client port and server
    port while going to different destinations; so, in every reachable state, whatever order the hash
    map is read in, the search for the original destination of an outgoing packet is never ambiguous
    and finds the destination of every active connection it belongs to; and no round of the thread
    gets stuck in a service loop. *)
Theorem active_lookup_unambiguous {N} `{Stack N} `{!StackLaws N sock_tx} (st : PollState N)
    (order : list conn_tuple) (ip : Ipv4Addr) (port server_port : Z) (cs : list PollCommand) :
  reachable st -> order ≡ₚ active_tuples (active st) ->
  lookup_tuple ip port server_port order <> Ambiguous /\
  (forall h c, active st !! h = Some c ->
     tuple_matches ip port server_port (active_tuple c) = true ->
     lookup_tuple ip port server_port order = Match (a_original_dst_ip c)) /\
  poll_round cs st <> None.
Proof.
  intros Hr Hp. pose proof (reachable_ok st Hr) as Hok. rewrite (lookup_tuple_perm _ _ _ _ _ Hp).
  split_and!.
  - apply unambiguous_lookup, Hok.
  - intros h c Hc Hm. apply (unambiguous_lookup_match _ _ _ _ (active_tuple c)); [apply Hok | | done].
    apply elem_of_active_tuples. eauto.
  - pose proof (poll_round_ok cs st Hok) as Hk. by destruct (poll_round cs st).
Qed.

Definition toy_start : PollState toy_net := poll_init {| toy_next := 0; toy_sent := ∅ |}.

(** Two connections that differ only in their destination, and a third one; the second is dropped. *)
Definition toy_two : PollState toy_net :=
  match poll_round [CreateTcpSocket 443 (1, 1, 1, 1) (10, 8, 0, 2) 5000; CreateTcpSocket 443 (2, 2, 2, 2) (10, 8, 0, 2) 5000;
                    CreateTcpSocket 80 (3, 3, 3, 3) (10, 8, 0, 2) 5000] toy_start with
  | Some (Ok st) => st
  | _ => toy_start
  end.

Lemma active_lookup_unambiguous_witness :
  size (active toy_two) = 2%nat /\ ambiguous_tcp_tuple_drop_total toy_two = 1 /\
  exists original, lookup_tuple (10, 8, 0, 2) 5000 443 (rev (active_tuples (active toy_two))) = Match original.
Proof.
  split; [vm_compute; reflexivity|]. split; [vm_compute; reflexivity|].
  assert (Hr : reachable toy_two).
  { unfold toy_two. destruct (poll_round _ toy_start) as [[st|e|]|] eqn:Hr; [|constructor..].
    eapply reach_round; [apply reach_init | exact Hr]. }
  destruct (active_lookup_unambiguous toy_two (rev (active_tuples (active toy_two))) (10, 8, 0, 2) 5000 443 [] Hr) as (_ & Hm & _).
  { symmetry. apply Permutation_rev. }
  destruct (active toy_two !! 2%nat) as [c2|] eqn:H2; [|exfalso; revert H2; vm_compute; discriminate].
  destruct (active toy_two !! 1%nat) as [c|] eqn:H1.
  - exists (a_original_dst_ip c). apply (Hm 1%nat c H1). revert H1. vm_compute. intros [= <-]; reflexivity.
  - destruct (active toy_two !! 0%nat) as [c|] eqn:H0.
    + exists (a_original_dst_ip c). apply (Hm 0%nat c H0). revert H0. vm_compute. intros [= <-]; reflexivity.
    + exfalso. revert H0 H1. vm_compute. discriminate.
Defined.

(** Server-to-client bytes.  Servicing a connection ends, and what its socket has accepted
    followed by what is still owed to it (the unsent tail of the current chunk, then the channel) is
    the same byte sequence before and after: partial writes lose, repeat and reorder nothing. *)
Theorem bridge_bytes_preserved {N} `{Stack N} `{!StackLaws N sock_tx} (st : PollState N) (h : nat) c :
  reachable st -> active st !! h = Some c ->
  exists st' c', service_one h st = Some (Ok st') /\ active st' !! h = Some c' /\
    sock_tx (net st') h ++ outstanding c' = sock_tx (net st) h ++ outstanding c.
Proof.
  intros Hr Hc.
  destruct (service_one_spec h st c (reachable_ok st Hr) Hc) as (st' & c' & Hs & _ & Ha & _ & _ & Ho).
  exists st', c'. rewrite Ha, lookup_insert_eq. done.
Qed.

(** A SYN from the client, promoted at once by the toy stack, and a chunk from the server. *)
Definition toy_connected : PollState toy_net :=
  match poll_round [CreateTcpSocket 443 (1, 1, 1, 1) (10, 8, 0, 2) 5000] toy_start with
  | Some (Ok st) => bridge_push 0 [1; 2; 3; 4; 5; 6; 7] st
  | _ => toy_start
  end.

Lemma bridge_bytes_preserved_witness :
  exists st' c', service_one 0 toy_connected = Some (Ok st') /\ active st' !! 0%nat = Some c' /\
    toy_tx (net st') 0 ++ outstanding c' = [1; 2; 3; 4; 5; 6; 7].
Proof.
  assert (Hr : reachable toy_connected).
  { unfold toy_connected. destruct (poll_round _ toy_start) as [[st|e|]|] eqn:Hr;
      [|by apply reach_init..].
    eapply reach_bridge, reach_round; [apply reach_init | exact Hr]. }
  destruct (active toy_connected !! 0%nat) as [c|] eqn:Hc; [|by vm_compute in Hc].
  destruct (bridge_bytes_preserved toy_connected 0 c Hr Hc) as (st' & c' & H1 & H2 & H3).
  exists st', c'. split; [exact H1|]. split; [exact H2|]. rewrite H3.
  vm_compute in Hc. injection Hc as <-. reflexivity.
Defined.

(** The promotion step takes exactly the established connections off the pending list, in any
    number at once, and never panics: indices are removed from the back. *)
Theorem promote_takes_established {N} `{Stack N} (st : PollState N) :
  exists st', promote st = Ok st' /\
    pending st' = List.filter (fun p => negb (is_new st p)) (pending st).
Proof.
  unfold promote. rewrite newly_established_positions.
  destruct (promote_positions (is_new st) (pending st) [] st) as (st' & H1 & H2);
    [by rewrite app_nil_r|]. exists st'. by rewrite app_nil_r in H2.
Qed.

(** A client can make the task that handles its frames panic: exactly by an IPv4 packet with
    protocol 6 whose header length field points past the end of the packet.  The TCP parser rejects
    such packets, but the packet is rewritten whether or not it parsed. *)
Theorem ingest_packet_panics (queue : list PollCommand) (f : SessionFrame) :
  ingest_packet queue f = Panic <->
  (20 <= length (payload f))%nat /\ payload f !! 9%nat = Some 6 /\
  exists b0, payload f !! 0%nat = Some b0 /\ Z.shiftr b0 4 = 4 /\
    (length (payload f) < ihl_of b0 * 4)%nat.
Proof.
  unfold ingest_packet, classify. case_bool_decide as Hl; [split; [done | intros (? & _); lia]|].
  rewrite index_lt by lia. pose proof (list_lookup_lookup_total_lt (payload f) 9) as H9.
  rewrite H9 by lia. cbn [mbind outcome_bind]. destruct (Z.eqb_spec (payload f !!! 9%nat) 6) as [->|Hne].
  - cbn [mbind outcome_bind]. unfold dispatch_tcp.
    pose proof (parse_tcp_header_no_panic (payload f)) as Hnp.
    destruct (parse_tcp_header (payload f)) as [t|[]|]; [|done]. cbn [mbind outcome_bind].
    pose proof (rewrite_dst_panic_iff (payload f)) as Hiff.
    destruct (rewrite_dst_ip_inbound (payload f)) as [[pkt|]|[]|]; cbn [mbind outcome_bind];
      naive_solver.
  - split; [|intros (_ & H6 & _); congruence]. by repeat case_match.
Qed.
