(* ===== verification/PollWake.v ===== *)
(** How the poll thread of a session's forwarder is woken ([SmoltcpForwarder] and [smoltcp_poll_thread] of
    [src/crates/bonded-server/src/smoltcp_forwarder.rs]): the command channel, the flag and the condition
    variable it shares with the task that ingests client packets and with the bridge tasks, its sleep
    between rounds, and its end.  A round is [poll_round] of TcpForwarder.v.  Every section of the source
    under the lock, every operation on a channel and every round is one step; the threads interleave. *)

From stdpp Require Import base tactics list gmap relations.
From Stdlib Require Import ZArith Lia.
From S2P Require Import Prelude Words Session Packet TcpForwarder.
Open Scope Z_scope.

(** * Definitions *)

(** What [ingest_packet] will send to the thread, and whether it will notify it. *)
Definition dispatch_plan (p : list Z) : panicky (list PollCommand * bool) :=
  d ← classify p;
  match d with
  | ToTcp =>
      hdr ← parse_tcp_header p;
      let create :=
        match hdr with
        | Some (src_ip, src_port, dst_ip, dst_port, true) => [CreateTcpSocket dst_port dst_ip src_ip src_port]
        | _ => []
        end in
      rewritten ← rewrite_dst_ip_inbound p;
      match rewritten with
      | Some pkt => Ok (create ++ [InjectPacket pkt], true)
      | None => Ok (create, false)
      end
  | _ => Ok ([], false)
  end.

(** Where the poll thread is: before the lock with the wait it computed, asleep on the condition variable,
    in a round, or gone. *)
Inductive PollPhase := AtLock (next_poll_wait : option Z) | Asleep (next_poll_wait : option Z) | Running | Exited.

Definition gone (p : PollPhase) : bool := match p with Exited => true | _ => false end.

(** The forwarder of a session.  [sending] and [notify_due]: what the task in [ingest_packet] has still to
    do; [bridges_due]: bridge tasks between their send and their notification; [polled]: the network stack
    as the last [iface.poll] left it; [accepted] and [drained]: the commands the channel took and gave so
    far. *)
Record Forwarder (N : Type) := {
  cmd_queue : list PollCommand;
  sender_alive : bool;
  work_flag : bool;
  sending : list PollCommand;
  notify_due : bool;
  bridges_due : nat;
  phase : PollPhase;
  poll : PollState N;
  polled : N;
  accepted : list PollCommand;
  drained : list PollCommand
}.
Arguments cmd_queue {N}. Arguments sender_alive {N}. Arguments work_flag {N}. Arguments sending {N}.
Arguments notify_due {N}. Arguments bridges_due {N}. Arguments phase {N}. Arguments poll {N}.
Arguments polled {N}. Arguments accepted {N}. Arguments drained {N}.

Section thread.
Context {N : Type} `{Stack N}.
Implicit Types s : Forwarder N.

Definition forwarder_new (n : N) : Forwarder N :=
  {| cmd_queue := []; sender_alive := true; work_flag := false; sending := []; notify_due := false;
     bridges_due := 0; phase := AtLock (Some 0); poll := poll_init n; polled := n; accepted := []; drained := [] |}.

(** *** The task that ingests packets *)

Definition set_sending cs due s : Forwarder N :=
  {| cmd_queue := cmd_queue s; sender_alive := sender_alive s; work_flag := work_flag s; sending := cs;
     notify_due := due; bridges_due := bridges_due s; phase := phase s; poll := poll s; polled := polled s;
     accepted := accepted s; drained := drained s |}.

(** The next [try_send]: lost if the channel is full, or if the thread is gone and the receiver with it. *)
Definition send_next (c : PollCommand) (cs : list PollCommand) s : Forwarder N :=
  let room := negb (gone (phase s)) && bool_decide (length (cmd_queue s) < COMMAND_CAPACITY)%nat in
  {| cmd_queue := if room then cmd_queue s ++ [c] else cmd_queue s; sender_alive := sender_alive s; work_flag := work_flag s;
     sending := cs; notify_due := notify_due s; bridges_due := bridges_due s; phase := phase s; poll := poll s;
     polled := polled s; accepted := if room then accepted s ++ [c] else accepted s; drained := drained s |}.

(** [notify_one] wakes the thread if it sleeps. *)
Definition woken (p : PollPhase) : PollPhase := match p with Asleep _ => Running | p => p end.

Definition set_phase flag p s : Forwarder N :=
  {| cmd_queue := cmd_queue s; sender_alive := sender_alive s; work_flag := flag; sending := sending s;
     notify_due := notify_due s; bridges_due := bridges_due s; phase := p; poll := poll s; polled := polled s;
     accepted := accepted s; drained := drained s |}.

(** The flag set and the thread notified, under the lock *)
Definition notify s : Forwarder N := set_phase true (woken (phase s)) s.

(** The forwarder is dropped at the end of the session: its sender goes, nothing is notified. *)
Definition drop_forwarder s : Forwarder N :=
  {| cmd_queue := cmd_queue s; sender_alive := false; work_flag := work_flag s; sending := sending s;
     notify_due := notify_due s; bridges_due := bridges_due s; phase := phase s; poll := poll s;
     polled := polled s; accepted := accepted s; drained := drained s |}.

(** *** The bridge tasks *)

Definition set_bridges (n : nat) (st : PollState N) s : Forwarder N :=
  {| cmd_queue := cmd_queue s; sender_alive := sender_alive s; work_flag := work_flag s; sending := sending s;
     notify_due := notify_due s; bridges_due := n; phase := phase s; poll := st; polled := polled s;
     accepted := accepted s; drained := drained s |}.

(** *** The thread *)

(** The section under the lock at the top of the loop *)
Definition lock_section (wait : option Z) s : Forwarder N :=
  if work_flag s then set_phase false Running s
  else
    match wait with
    | Some 0 => set_phase false Running s
    | _ => set_phase false (Asleep wait) s
    end.

(** The stack as [iface.poll] leaves it in a round *)
Definition round_polled (cs : list PollCommand) (st : PollState N) : N :=
  match drain_commands cs st with
  | Ok st => (stack_poll (net st) (device_rx st)).2
  | _ => net st
  end.

(** A round: the commands are drained, and the thread ends if the channel is empty and its sender gone;
    [delay] is what [poll_delay] says.  A panic ends the thread too.  [None]: a service loop without end. *)
Definition run_round (delay : option Z) s : option (Forwarder N) :=
  let after p st n :=
    {| cmd_queue := []; sender_alive := sender_alive s; work_flag := work_flag s; sending := sending s;
       notify_due := notify_due s; bridges_due := bridges_due s; phase := p; poll := st; polled := n;
       accepted := accepted s; drained := drained s ++ cmd_queue s |} in
  if sender_alive s then
    match poll_round (cmd_queue s) (poll s) with
    | Some (Ok st) => Some (after (AtLock delay) st (round_polled (cmd_queue s) (poll s)))
    | Some _ => Some (after Exited (poll s) (polled s))
    | None => None
    end
  else Some (after Exited (poll s) (polled s)).

(** *** Steps *)

Inductive wake_event := Ingest (f : SessionFrame) | TrySend | NotifyIngest | Drop
  | BridgeSend (h : nat) (chunk : list Z) | NotifyBridge | Lock | Timeout | Spurious | Round (delay : option Z).

Inductive wake_step : wake_event -> Forwarder N -> Forwarder N -> Prop :=
  | StepIngest s f cs due :
      sender_alive s = true -> sending s = [] -> notify_due s = false ->
      dispatch_plan (payload f) = Ok (cs, due) -> wake_step (Ingest f) s (set_sending cs due s)
  | StepTrySend s c cs : sending s = c :: cs -> wake_step TrySend s (send_next c cs s)
  | StepNotifyIngest s : sending s = [] -> notify_due s = true -> wake_step NotifyIngest s (set_sending [] false (notify s))
  | StepDrop s : sending s = [] -> notify_due s = false -> wake_step Drop s (drop_forwarder s)
  | StepBridgeSend s h chunk : is_Some (active (poll s) !! h) -> phase s <> Exited ->
      wake_step (BridgeSend h chunk) s (set_bridges (S (bridges_due s)) (bridge_push h chunk (poll s)) s)
  | StepNotifyBridge s n : bridges_due s = S n -> wake_step NotifyBridge s (set_bridges n (poll s) (notify s))
  | StepLock s w : phase s = AtLock w -> wake_step Lock s (lock_section w s)
  | StepTimeout s t : phase s = Asleep (Some t) -> wake_step Timeout s (set_phase (work_flag s) Running s)
  | StepSpurious s w : phase s = Asleep w -> wake_step Spurious s (set_phase (work_flag s) Running s)
  | StepRound s delay s' : phase s = Running -> run_round delay s = Some s' -> wake_step (Round delay) s s'.

Inductive wake_reachable : Forwarder N -> Prop :=
  | WakeNew n : wake_reachable (forwarder_new n)
  | WakeStep s e s' : wake_reachable s -> wake_step e s s' -> wake_reachable s'.

(** The steps as a function *)
Definition wake_exec (e : wake_event) s : option (Forwarder N) :=
  match e with
  | Ingest f =>
      match sending s, notify_due s, sender_alive s, dispatch_plan (payload f) with
      | [], false, true, Ok (cs, due) => Some (set_sending cs due s)
      | _, _, _, _ => None
      end
  | TrySend => match sending s with c :: cs => Some (send_next c cs s) | [] => None end
  | NotifyIngest =>
      match sending s, notify_due s with [], true => Some (set_sending [] false (notify s)) | _, _ => None end
  | Drop => match sending s, notify_due s with [], false => Some (drop_forwarder s) | _, _ => None end
  | BridgeSend h chunk =>
      if gone (phase s) then None
      else _ ← active (poll s) !! h; Some (set_bridges (S (bridges_due s)) (bridge_push h chunk (poll s)) s)
  | NotifyBridge => match bridges_due s with S n => Some (set_bridges n (poll s) (notify s)) | O => None end
  | Lock => match phase s with AtLock w => Some (lock_section w s) | _ => None end
  | Timeout => match phase s with Asleep (Some _) => Some (set_phase (work_flag s) Running s) | _ => None end
  | Spurious => match phase s with Asleep _ => Some (set_phase (work_flag s) Running s) | _ => None end
  | Round delay => match phase s with Running => run_round delay s | _ => None end
  end.

Fixpoint wake_run (es : list wake_event) s : option (Forwarder N) :=
  match es with
  | [] => Some s
  | e :: es => s ← wake_exec e s; wake_run es s
  end.
End thread.

(** * Lemmas *)

(** The plan is what [ingest_packet] does to the queue of a thread that is there. *)
Lemma dispatch_plan_sends queue f :
  ingest_packet queue f = (plan ← dispatch_plan (payload f); Ok (foldl try_send queue plan.1)).
Proof.
  unfold ingest_packet, dispatch_plan. destruct (classify (payload f)) as [[]| |]; try done.
  cbn [mbind outcome_bind]. unfold dispatch_tcp.
  destruct (parse_tcp_header (payload f)) as [hdr| |]; try done. cbn [mbind outcome_bind].
  destruct (rewrite_dst_ip_inbound (payload f)) as [[pkt|]| |]; cbn [mbind outcome_bind];
    destruct hdr as [[[[[a b] c] d] []]|]; reflexivity.
Qed.

(** A packet that parses as TCP can be rewritten. *)
Lemma parsed_is_rewritten p t :
  parse_tcp_header p = Ok (Some t) -> exists pkt, rewrite_dst_ip_inbound p = Ok (Some pkt).
Proof.
  intros Hp. assert (Hh : (40 <= length p)%nat /\ exists b0, p !! 0%nat = Some b0 /\ Z.shiftr b0 4 = 4 /\
    (ihl_of b0 * 4 + 20 <= length p)%nat).
  { unfold parse_tcp_header in Hp. case_bool_decide as Hl; [done|].
    rewrite index_lt in Hp by lia. cbn [mbind outcome_bind] in Hp. rewrite index_lt in Hp by lia.
    cbn [mbind outcome_bind] in Hp. split; [lia|]. exists (p !!! 0%nat).
    split; [apply list_lookup_lookup_total_lt; lia|].
    destruct (Z.shiftr (p !!! 0%nat) 4 =? 4) eqn:Hv; [|done]. apply Z.eqb_eq in Hv. split; [done|].
    destruct (bool_decide (ihl_of (p !!! 0%nat) < 5)%nat); [done|].
    destruct (p !!! 9%nat =? 6); [|done]. cbn [negb orb] in Hp.
    case_bool_decide as Hi; [done|]. lia. }
  destruct Hh as (Hl & b0 & H0 & Hv & Hi).
  assert (Hnp : rewrite_dst_ip_inbound p <> Panic).
  { rewrite rewrite_dst_panic_iff. intros (_ & b & Hb & _ & Hlt). rewrite H0 in Hb. injection Hb as <-. lia. }
  revert Hnp. unfold rewrite_dst_ip_inbound. rewrite bool_decide_eq_false_2 by lia.
  rewrite index_lt by lia. cbn [mbind outcome_bind].
  rewrite (list_lookup_total_correct _ _ _ H0), Hv. cbn [Z.eqb negb Pos.eqb].
  repeat match goal with |- (x ← ?m; _) <> Panic -> _ =>
    destruct m as [?|[]|]; cbn [mbind outcome_bind]; [|done] end.
  eauto.
Qed.

(** Whoever sends notifies. *)
Lemma plan_notifies p cs due : dispatch_plan p = Ok (cs, due) -> cs <> [] -> due = true.
Proof.
  unfold dispatch_plan. destruct (classify p) as [[]| |]; try done; cbn [mbind outcome_bind];
    try (intros [= <- <-]; done).
  destruct (parse_tcp_header p) as [hdr| |] eqn:Hp; try done. cbn [mbind outcome_bind].
  destruct (rewrite_dst_ip_inbound p) as [[pkt|]| |] eqn:Hr; try done; cbn [mbind outcome_bind];
    [by intros [= <- <-]|].
  destruct hdr as [t|]; [|by intros [= <- <-]].
  destruct (parsed_is_rewritten p t Hp) as [pkt Hpkt]. congruence.
Qed.

Section wake_lemmas.
Context {N : Type} `{Stack N}.
Implicit Types s : Forwarder N.

(** The invariant: what waits in the queue is about to be noticed, and nothing is lost or repeated. *)
Record wake_inv s : Prop := {
  inv_noticed : cmd_queue s <> [] -> work_flag s = true \/ phase s = Running \/ phase s = Exited \/ notify_due s = true;
  inv_due : sending s <> [] -> notify_due s = true;
  inv_asleep : forall w, phase s = Asleep w -> work_flag s = false;
  inv_alive : sending s <> [] \/ notify_due s = true -> sender_alive s = true;
  inv_order : accepted s = drained s ++ cmd_queue s
}.

Lemma wake_inv_new n : wake_inv (forwarder_new n).
Proof. by split. Qed.

Lemma wake_inv_notify s : wake_inv s -> wake_inv (notify s).
Proof. intros [Hq Hd Ha Hal Ho]. split; cbn; auto. intros w. by destruct (phase s). Qed.

Lemma wake_inv_round s delay s' : wake_inv s -> run_round delay s = Some s' -> wake_inv s'.
Proof.
  intros [Hq Hd Ha Hal Ho]. unfold run_round.
  assert (Hstep : forall p st n, (forall w, p <> Asleep w) -> wake_inv
    {| cmd_queue := []; sender_alive := sender_alive s; work_flag := work_flag s; sending := sending s;
       notify_due := notify_due s; bridges_due := bridges_due s; phase := p; poll := st; polled := n;
       accepted := accepted s; drained := drained s ++ cmd_queue s |}).
  { intros p st n Hp. split; cbn; try done.
    - intros w Hw. by destruct (Hp w).
    - by rewrite app_nil_r. }
  destruct (sender_alive s) eqn:Hs; [|intros [= <-]; by apply Hstep].
  destruct (poll_round _ _) as [[st| |]|]; intros [= <-]; by apply Hstep.
Qed.

Lemma wake_inv_step e s s' : wake_inv s -> wake_step e s s' -> wake_inv s'.
Proof.
  intros Hinv Hstep. pose proof Hinv as [Hq Hd Ha Hal Ho].
  destruct Hstep as [s f cs due Hsa Hs Hn Hp|s c cs Hs|s Hs Hn|s Hs Hn|s h chunk _ _|s n _|s w Hw|s t Hw|s w Hw|s delay s' Hw Hr].
  - split; cbn; auto; [|intros Hne; by eapply plan_notifies]. intros Hne.
    destruct (Hq Hne) as [|[|[|]]]; auto. congruence.
  - assert (Hdue : notify_due s = true) by (apply Hd; by rewrite Hs).
    assert (Halive : sender_alive s = true) by (apply Hal; auto).
    split; cbn; auto. case_match; [|done]. by rewrite Ho, app_assoc.
  - destruct (wake_inv_notify s Hinv) as [Hq' Hd' Ha' Hal' Ho']. split; cbn in *; auto.
  - split; cbn; auto. by rewrite Hs, Hn; intros [|].
  - split; cbn; auto.
  - destruct (wake_inv_notify s Hinv) as [Hq' Hd' Ha' Hal' Ho']. by split.
  - unfold lock_section. destruct (work_flag s) eqn:Hf.
    + by split; cbn; auto.
    + assert (Hrun : wake_inv (set_phase false Running s)) by (by split; cbn; auto).
      assert (Hsleep : wake_inv (set_phase false (Asleep w) s)).
      { split; cbn; auto. intros Hne. destruct (Hq Hne) as [|[|[|]]]; auto; congruence. }
      by destruct w as [[]|].
  - by split; cbn; auto.
  - by split; cbn; auto.
  - by eapply wake_inv_round.
Qed.

Lemma wake_reachable_inv s : wake_reachable s -> wake_inv s.
Proof. induction 1 as [n|s e s' _ IH Hs]; [apply wake_inv_new | by eapply wake_inv_step]. Qed.

Lemma wake_exec_step e s s' : wake_exec e s = Some s' -> wake_step e s s'.
Proof.
  destruct e; cbn [wake_exec].
  - destruct (sending s) eqn:?, (notify_due s) eqn:?, (sender_alive s) eqn:?; try done.
    destruct (dispatch_plan _) as [[cs due]| |] eqn:?; try done. intros [= <-]. by constructor.
  - destruct (sending s) eqn:?; [done|]. intros [= <-]. by constructor.
  - destruct (sending s) eqn:?, (notify_due s) eqn:?; try done. intros [= <-]. by constructor.
  - destruct (sending s) eqn:?, (notify_due s) eqn:?; try done. intros [= <-]. by constructor.
  - destruct (phase s) eqn:Hp; cbn [gone]; try done; destruct (active (poll s) !! h) eqn:?; try done; cbn;
      intros [= <-]; constructor; (by eexists) || congruence.
  - destruct (bridges_due s) eqn:?; [done|]. intros [= <-]. by constructor.
  - destruct (phase s) eqn:?; try done. intros [= <-]. by constructor.
  - destruct (phase s) as [|[]| |] eqn:?; try done. intros [= <-]. by econstructor.
  - destruct (phase s) eqn:?; try done. intros [= <-]. by econstructor.
  - destruct (phase s) eqn:?; try done. intros Hr. by constructor.
Qed.

Lemma wake_run_reachable es s s' : wake_reachable s -> wake_run es s = Some s' -> wake_reachable s'.
Proof.
  revert s. induction es as [|e es IH]; intros s Hs; cbn [wake_run]; [by intros [= <-]|].
  destruct (wake_exec e s) as [s1|] eqn:He; [|done]. cbn [mbind option_bind]. apply IH.
  eapply WakeStep; [exact Hs | by apply wake_exec_step].
Qed.

(** The thread's own state is one of TcpForwarder.v's. *)
Lemma wake_poll_reachable s : wake_reachable s -> reachable (poll s).
Proof.
  induction 1 as [n|s e s' _ IH Hs]; [apply reach_init|].
  destruct Hs as [| | | |s h chunk Ha _| |s w Hw| | |s delay s' Hw Hr]; cbn; try done.
  - by apply reach_bridge.
  - unfold lock_section. by destruct (work_flag s); [|destruct w as [[]|]].
  - unfold run_round in Hr. destruct (sender_alive s); [|by injection Hr as <-].
    destruct (poll_round _ _) as [[st| |]|] eqn:Hround; simplify_eq; cbn; try done. by eapply reach_round.
Qed.

(** A running thread finishes its round and has then taken every command. *)
Lemma round_drains `{!StackLaws N sock_tx} s delay :
  wake_reachable s -> phase s = Running ->
  exists s', wake_step (Round delay) s s' /\ drained s' = accepted s.
Proof.
  intros Hr Hp. pose proof (inv_order _ (wake_reachable_inv s Hr)) as Ho.
  assert (Hround : poll_round (cmd_queue s) (poll s) <> None).
  { pose proof (poll_round_ok (cmd_queue s) (poll s) (reachable_ok _ (wake_poll_reachable s Hr))) as Hk.
    by destruct (poll_round (cmd_queue s) (poll s)). }
  destruct (run_round delay s) as [s'|] eqn:Hrun.
  - exists s'. split; [by constructor|]. rewrite Ho. unfold run_round in Hrun.
    repeat case_match; by simplify_eq.
  - unfold run_round in Hrun. repeat case_match; by simplify_eq.
Qed.

Lemma lock_runs s w : phase s = AtLock w -> work_flag s = true -> wake_step Lock s (lock_section w s) /\
  phase (lock_section w s) = Running /\ accepted (lock_section w s) = accepted s.
Proof. intros Hp Hf. split; [by constructor|]. unfold lock_section. by rewrite Hf. Qed.
End wake_lemmas.

(** * Properties *)

(** C28: no command is lost, repeated, reordered or forgotten.  In every interleaving of the task that
    ingests packets, the bridge tasks and the poll thread: what the channel accepted is what the thread
    took followed by what is queued; and once the task has left [ingest_packet], queued commands never
    wait for a sleeping thread: it takes them all in its next round, at most one lock section away,
    whatever wait it had computed. *)
Theorem commands_reach_thread {N} `{Stack N} `{!StackLaws N sock_tx} (s : Forwarder N) (delay : option Z) :
  wake_reachable s ->
  accepted s = drained s ++ cmd_queue s /\
  (notify_due s = false -> phase s <> Exited -> cmd_queue s <> [] ->
   exists s1 s2, (s1 = s \/ wake_step Lock s s1) /\ wake_step (Round delay) s1 s2 /\ drained s2 = accepted s).
Proof.
  intros Hr. pose proof (wake_reachable_inv s Hr) as [Hq _ Ha _ Ho]. split; [done|]. intros Hd Hx Hne.
  assert (Hcase : phase s = Running \/ exists w, phase s = AtLock w /\ work_flag s = true).
  { destruct (Hq Hne) as [Hf|[Hp|[|]]]; [|by left|done|congruence].
    destruct (phase s) as [w|w| |] eqn:Hp; [eauto| |by left|done]. rewrite (Ha w eq_refl) in Hf. done. }
  destruct Hcase as [Hp|(w & Hp & Hf)].
  - destruct (round_drains s delay Hr Hp) as (s' & Hs & Hdr). exists s, s'. auto.
  - destruct (lock_runs s w Hp Hf) as (Hs & Hrun & Hacc).
    destruct (round_drains (lock_section w s) delay) as (s' & Hs' & Hdr); [by eapply WakeStep | done |].
    exists (lock_section w s), s'. split_and!; [by right | done | congruence].
Qed.

(** The thread of a dropped forwarder does not end.  The thread only looks whether its session is gone
    in a round, and dropping the forwarder wakes nobody: if it sleeps without a timer and no connection is
    open, it stays asleep for ever, whatever else happens, spurious wake-ups apart. *)
Theorem poll_thread_leaks {N} `{Stack N} (s s' : Forwarder N) :
  phase s = Asleep None -> sender_alive s = false -> sending s = [] -> notify_due s = false ->
  bridges_due s = 0%nat -> active (poll s) = ∅ ->
  rtc (fun a b => exists e, e <> Spurious /\ wake_step e a b) s s' -> phase s' = Asleep None.
Proof.
  intros Hp Hal Hs Hd Hb Ha Hrtc.
  enough (Hinv : phase s' = Asleep None /\ sender_alive s' = false /\ sending s' = [] /\ notify_due s' = false /\
    bridges_due s' = 0%nat /\ active (poll s') = ∅) by apply Hinv.
  induction Hrtc as [s|s s1 s2 (e & Hne & Hstep) _ IH]; [done|]. apply IH; clear IH;
    destruct Hstep; cbn in *; try congruence; try (by destruct Hne).
  all: match goal with He : is_Some (active _ !! _) |- _ => rewrite Ha in He; by destruct He end.
Qed.

(** ** Witnesses *)

Module Sample.
(** A SYN of 10.8.0.2:5000 to 1.1.1.1:443 *)
Definition syn : SessionFrame :=
  {| header := {| connection_id := 1; sequence := 0; flags := 0 |};
     payload := [69; 0; 0; 40; 0; 0; 0; 0; 64; 6; 0; 0; 10; 8; 0; 2; 1; 1; 1; 1;
                 19; 136; 1; 187; 0; 0; 0; 0; 0; 0; 0; 0; 80; 2; 0; 0; 0; 0; 0; 0] |}.
Definition fresh : Forwarder toy_net := forwarder_new {| toy_next := 0; toy_sent := ∅ |}.

(** The thread is asleep when the packet comes in. *)
Definition after_ingest : Forwarder toy_net :=
  default fresh (wake_run [Lock; Round None; Lock; Ingest syn; TrySend; TrySend; NotifyIngest] fresh).

Lemma after_ingest_reachable : wake_reachable after_ingest.
Proof.
  unfold after_ingest. destruct (wake_run _ fresh) as [s|] eqn:Hs; [|apply WakeNew].
  by apply (wake_run_reachable _ _ _ (WakeNew _) Hs).
Qed.

Lemma commands_reach_thread_witness :
  length (cmd_queue after_ingest) = 2%nat /\
  exists s1 s2, (s1 = after_ingest \/ wake_step Lock after_ingest s1) /\ wake_step (Round None) s1 s2 /\
    drained s2 = accepted after_ingest.
Proof.
  split; [vm_compute; reflexivity|].
  apply (commands_reach_thread after_ingest None after_ingest_reachable).
  - vm_compute. reflexivity.
  - vm_compute. discriminate.
  - vm_compute. discriminate.
Defined.

(** A session without TCP traffic that ends *)
Definition idle_dropped : Forwarder toy_net := default fresh (wake_run [Lock; Round None; Lock; Drop] fresh).

Lemma poll_thread_leaks_witness :
  wake_reachable idle_dropped /\
  forall s', rtc (fun a b => exists e, e <> Spurious /\ wake_step e a b) idle_dropped s' -> phase s' = Asleep None.
Proof.
  split.
  - unfold idle_dropped. destruct (wake_run _ fresh) as [s|] eqn:Hs; [|apply WakeNew].
    apply (wake_run_reachable _ _ _ (WakeNew _) Hs).
  - intros s' Hrtc. apply (poll_thread_leaks idle_dropped s'); [vm_compute; reflexivity..|exact Hrtc].
Defined.

(** Bytes of the remote end that arrive while the thread is between two rounds are handed to the socket
    after the poll of the next round, and nothing polls again: the thread goes to sleep without a timer
    and with the bytes unsent, until something else wakes it. *)
Definition chunk : list Z := [1; 2; 3; 4; 5; 6; 7].
Definition unsent : Forwarder toy_net :=
  default fresh (wake_run [Lock; Ingest syn; TrySend; TrySend; Round None; NotifyIngest; Lock; Round None;
    BridgeSend 0 chunk; NotifyBridge; Lock; Round None; Lock] fresh).

Example response_waits :
  phase unsent = Asleep None /\ work_flag unsent = false /\ bridges_due unsent = 0%nat /\
  notify_due unsent = false /\ toy_tx (net (poll unsent)) 0 = chunk /\ toy_tx (polled unsent) 0 = [].
Proof. vm_compute. repeat split. Qed.
End Sample.
