(* ===== verification/Bootstrap.v ===== *)
(** The bootstrap endpoint: reading and routing HTTP requests, the advertised endpoints and the
    certificate proof of the server ([src/crates/bonded-server/src/bootstrap.rs]), with the requests
    the client builds and how it reads the answers ([bonded-client/src/lib.rs] and
    [bonded-client/src/cert_proof.rs]). *)

From stdpp Require Import base tactics list gmap strings pretty.
From Stdlib Require Import ZArith Lia Ascii.
From S2P Require Import Prelude Words Text Json Auth Stores AuthHandshake PeerShare WgServer.
Open Scope Z_scope.

(** * Definitions *)

(** ** Reading a request *)

Definition crlf : string := String "013" (String "010" EmptyString).
Definition crlf2 : string := crlf +:+ crlf.

Definition MAX_HEADER_BYTES : Z := 16 * 1024.

Inductive HttpError := HeadersTooLong | HttpIo | HttpClosed | NoTerminator.

(** A future that reads: still waiting for the peer, or finished. *)
Inductive reading (A : Type) := Waiting | Finished (r : outcome HttpError A).
Arguments Waiting {A}.
Arguments Finished {A} r.

(** The results of successive [read] calls: an error, or the bytes read, none when the peer closed. *)
Abbreviation reads := (list (option (list Z))).

Definition from_utf8 (l : list Z) : option string :=
  if utf8_valid l then Some (bytes_string l) else None.

(** [buf.windows(4).position(|w| w == b"\r\n\r\n")] *)
Fixpoint find_header_terminator (buf : list Z) : option nat :=
  match strip_list [13; 10; 13; 10] buf with
  | Some _ => Some 0%nat
  | None => match buf with [] => None | _ :: buf => S <$> find_header_terminator buf end
  end.

Definition header_value (wanted line : string) : option string :=
  '(name, value) ← split_once ":" line;
  if eq_ignore_ascii_case (trim name) wanted then Some (trim value) else None.

Definition parse_content_length (headers : list Z) : Z :=
  let text := default EmptyString (from_utf8 headers) in
  default 0 (find_map (fun line => v ← header_value "content-length" line; parse_unsigned 64 v)
               (lines text)).

Definition upgrade_line (line : string) : bool :=
  let lower := to_ascii_lowercase line in
  starts_with "upgrade:" lower && contains "websocket" lower.

Definition is_websocket_upgrade (headers : list Z) : bool :=
  let text := default EmptyString (from_utf8 headers) in
  existsb upgrade_line (lines text).

(** The loop up to the end of the headers. *)
Fixpoint read_headers (buf : list Z) (rs : reads) : reading (list Z * reads) :=
  if MAX_HEADER_BYTES <=? Z.of_nat (length buf) then Finished (Err HeadersTooLong)
  else match rs with
    | [] => Waiting
    | None :: _ => Finished (Err HttpIo)
    | Some [] :: _ => Finished (Err HttpClosed)
    | Some d :: rs =>
        let buf := buf ++ d in
        match find_header_terminator buf with
        | Some _ => Finished (Ok (buf, rs))
        | None => read_headers buf rs
        end
    end.

(** The loop up to the end of the body. *)
Fixpoint read_body (target_len : Z) (buf : list Z) (rs : reads) : reading (list Z) :=
  if target_len <=? Z.of_nat (length buf) then Finished (Ok buf)
  else match rs with
    | [] => Waiting
    | None :: _ => Finished (Err HttpIo)
    | Some [] :: _ => Finished (Err HttpClosed)
    | Some d :: rs => read_body target_len (buf ++ d) rs
    end.

(** [usize] sums wrap, as in a release build. *)
Definition read_until_end_of_headers (rs : reads) : reading (list Z * bool) :=
  match read_headers [] rs with
  | Finished (Ok (buf, rs)) =>
      match find_header_terminator buf with
      | None => Finished (Err NoTerminator)
      | Some header_end =>
          let content_length := parse_content_length (take header_end buf) in
          let target_len := wrapping_add 64 (Z.of_nat header_end + 4) content_length in
          match read_body target_len buf rs with
          | Finished (Ok buf) => Finished (Ok (buf, is_websocket_upgrade buf))
          | Finished (Err e) => Finished (Err e)
          | Finished Panic => Finished Panic
          | Waiting => Waiting
          end
      end
  | Finished (Err e) => Finished (Err e)
  | Finished Panic => Finished Panic
  | Waiting => Waiting
  end.

Definition parse_request_parts (headers : list Z) : string * string * string :=
  let text := default EmptyString (from_utf8 headers) in
  let first_line := default EmptyString (head (lines text)) in
  let parts := split_char " " first_line in
  let body := match split_once crlf2 text with Some (_, rest) => rest | None => EmptyString end in
  (default "GET" (parts !! 0%nat), default "/" (parts !! 1%nat), body).

Definition parse_host_header (request : list Z) : option string :=
  header_end ← find_header_terminator request;
  text ← from_utf8 (take header_end request);
  find_map (fun line => v ← header_value "host" line; if is_empty v then None else Some v)
    (lines text).

(** ** The context *)

(** [http::uri::Authority]: parsing gives the host and the port, if there is one. *)
Class Authority := parse_authority : string -> option (string * option Z).

(** [Sha256::digest] *)
Class Sha256 := sha256 : list Z -> list Z.

Record AdvertisedBootstrapEndpoints := {
  ad_public_address : string;
  ad_wireguard_addr : option string
}.

(** The context without the WireGuard registry, which the requests change. *)
Record BootstrapContext := {
  server_identity : DeviceKeypair;
  tls_cert_der : option (list Z);
  ctx_public_address : string;
  wireguard_keypair : option string;
  wireguard_public_addr : option string;
  wireguard_peer_lease_secs : Z;
  ctx_authorized_keys : AuthorizedKeysStore
}.

Definition quic_enabled (ctx : BootstrapContext) : bool := if tls_cert_der ctx then true else false.
Definition wireguard_enabled (ctx : BootstrapContext) : bool :=
  if wireguard_keypair ctx then true else false.

(** [format!("{b:02x}")] *)
Definition hex_digit (d : Z) : ascii :=
  ascii_of_N (Z.to_N (if d <? 10 then 48 + d else 87 + d)).
Definition hex_byte (b : Z) : string :=
  String (hex_digit (b / 16)) (String (hex_digit (b mod 16)) EmptyString).
Definition hex_string (l : list Z) : string := foldr (fun b s => hex_byte b +:+ s) EmptyString l.

Section bootstrap.
Context `{Crypto} `{JsonText} `{Toml WireGuardPeersFile} `{!Authority} `{!Sha256}.

(** [compute_fingerprint] *)
Definition compute_fingerprint (der : list Z) : string := "sha256:" +:+ hex_string (sha256 der).

Definition cert_proof (ctx : BootstrapContext) : option (outcome AuthError (string * string)) :=
  der ← tls_cert_der ctx;
  let fingerprint := compute_fingerprint der in
  Some (s ← sign_bytes (server_identity ctx) (string_bytes fingerprint); Ok (fingerprint, s)).

Definition contains_colon (host : string) : bool := negb (no_char ":" host).

Definition rewrite_endpoint_authority (configured_endpoint requested_authority : string) : string :=
  let requested := parse_authority requested_authority in
  let configured := parse_authority configured_endpoint in
  let host :=
    match requested with
    | Some (h, _) => if is_empty h then configured_endpoint else h
    | None => configured_endpoint
    end in
  let port :=
    match requested ≫= snd with
    | Some p => Some p
    | None => configured ≫= snd
    end in
  let host := if contains_colon host && negb (starts_with "[" host) then "[" +:+ host +:+ "]" else host in
  match port with
  | Some port => host +:+ ":" +:+ pretty port
  | None => host
  end.

Definition advertised_endpoints_for_request (ctx : BootstrapContext) (requested_authority : option string)
  : AdvertisedBootstrapEndpoints :=
  let own := {| ad_public_address := ctx_public_address ctx;
                ad_wireguard_addr := wireguard_public_addr ctx |} in
  match requested_authority with
  | Some authority =>
      if is_empty (trim authority) then own
      else {| ad_public_address := rewrite_endpoint_authority (ctx_public_address ctx) authority;
              ad_wireguard_addr :=
                (fun e => rewrite_endpoint_authority e authority) <$> wireguard_public_addr ctx |}
  | None => own
  end.

(** ** Routing *)

Definition cert_proof_response (ctx : BootstrapContext) : Z * string :=
  match cert_proof ctx with
  | None => (501, error_body "TLS not configured on this server; cert-proof requires TLS")
  | Some (Ok (fingerprint, signature)) =>
      (200, json_print (flat [("cert_fingerprint", fingerprint); ("ed25519_signature", signature)]))
  | Some _ => (500, error_body "failed to generate cert proof")
  end.

(** Members in the order of serde_json's map, by name. *)
Definition capabilities_response (ctx : BootstrapContext)
    (advertised_endpoints : option AdvertisedBootstrapEndpoints) : Z * string :=
  let endpoints := default (advertised_endpoints_for_request ctx None) advertised_endpoints in
  let quic := quic_enabled ctx in
  let wg := wireguard_enabled ctx in
  let endpoint := ("endpoint", JStr (ad_public_address endpoints)) in
  let wireguard :=
    JObj [("endpoint", JStr (default (ad_public_address endpoints) (ad_wireguard_addr endpoints)));
          ("peer_lease_seconds", JNum (wireguard_peer_lease_secs ctx));
          ("provision_endpoint",
             JStr ("https://" +:+ ad_public_address endpoints +:+ "/v1/bootstrap/wireguard/peer"));
          ("server_public_key", JStr (default EmptyString (wireguard_keypair ctx)))] in
  (200, json_print (JObj
    ((if quic then [("h3", JObj [endpoint])] else []) ++
     [("transports", JArr (JStr <$> ["wss"] ++ (if quic then ["h3"] else []) ++
                                    (if wg then ["wireguard"] else [])))] ++
     (if wg then [("wireguard", wireguard)] else []) ++
     [("wss", JObj [endpoint])]))).

Definition path_no_query (path : string) : string := default path (head (split_char "?" path)).

Definition route_bootstrap_request (ctx : BootstrapContext)
    (advertised_endpoints : option AdvertisedBootstrapEndpoints) (now : option Z)
    (method path body : string) (peers : option WireGuardPeerRegistry) (fs : FS)
  : outcome Empty_set (Z * string) * option WireGuardPeerRegistry * FS :=
  let path := path_no_query path in
  if bool_decide (path = "/v1/bootstrap/cert-proof") then (Ok (cert_proof_response ctx), peers, fs)
  else if bool_decide (path = "/v1/bootstrap/capabilities")
  then (Ok (capabilities_response ctx advertised_endpoints), peers, fs)
  else if bool_decide (method = "POST" /\ path = "/v1/bootstrap/wireguard/peer")
  then wireguard_peer_response (wireguard_keypair ctx) now body peers fs
  else if bool_decide (method = "POST" /\ path = "/v1/bootstrap/peer-share/introduction")
  then (Ok (peer_share_introduction_response (server_identity ctx) (ctx_authorized_keys ctx) now body),
        peers, fs)
  else (Ok (404, error_body "not found"), peers, fs).

(** [StatusCode::canonical_reason], of the codes in use *)
Definition canonical_reason (status : Z) : string :=
  if status =? 200 then "OK" else if status =? 400 then "Bad Request"
  else if status =? 401 then "Unauthorized" else if status =? 403 then "Forbidden"
  else if status =? 404 then "Not Found" else if status =? 500 then "Internal Server Error"
  else if status =? 501 then "Not Implemented" else "Unknown".

(** [handle_rest_request]: the response as it is written. *)
Definition http_response (status : Z) (body_resp : string) : string :=
  "HTTP/1.1 " +:+ pretty status +:+ " " +:+ canonical_reason status +:+ crlf +:+
  "content-type: application/json" +:+ crlf +:+
  "content-length: " +:+ pretty (Z.of_nat (String.length body_resp)) +:+ crlf +:+
  "connection: close" +:+ crlf2 +:+ body_resp.

(** A connection becomes a WebSocket, with the request to be read again, or is answered. *)
Inductive served := Upgraded (request_bytes : list Z) | Answered (response : list Z).

Definition handle_plain_connection (ctx : BootstrapContext) (now : option Z) (rs : reads)
    (peers : option WireGuardPeerRegistry) (fs : FS)
  : reading served * option WireGuardPeerRegistry * FS :=
  match read_until_end_of_headers rs with
  | Finished (Ok (request_bytes, true)) => (Finished (Ok (Upgraded request_bytes)), peers, fs)
  | Finished (Ok (request_bytes, false)) =>
      let '(method, path, body) := parse_request_parts request_bytes in
      let endpoints := advertised_endpoints_for_request ctx (parse_host_header request_bytes) in
      match route_bootstrap_request ctx (Some endpoints) now method path body peers fs with
      | (Ok (status, body_resp), peers, fs) =>
          (Finished (Ok (Answered (string_bytes (http_response status body_resp)))), peers, fs)
      | (_, peers, fs) => (Finished Panic, peers, fs)
      end
  | Finished (Err e) => (Finished (Err e), peers, fs)
  | Finished Panic => (Finished Panic, peers, fs)
  | Waiting => (Waiting, peers, fs)
  end.

(** The same steps, on what the TLS stream reads. *)
Definition handle_tls_stream := handle_plain_connection.

(** ** The client *)

Definition build_http_request (method host path : string) (body : option string) : string :=
  match body with
  | Some body =>
      method +:+ " " +:+ path +:+ " HTTP/1.1" +:+ crlf +:+ "Host: " +:+ host +:+ crlf +:+
      "Content-Type: application/json" +:+ crlf +:+
      "Content-Length: " +:+ pretty (Z.of_nat (String.length body)) +:+ crlf +:+
      "Connection: close" +:+ crlf2 +:+ body
  | None =>
      method +:+ " " +:+ path +:+ " HTTP/1.1" +:+ crlf +:+ "Host: " +:+ host +:+ crlf +:+
      "Connection: close" +:+ crlf2
  end.

Inductive BodyError := NonUtf8 | MissingTerminator | MissingStatus | BadStatus.

Definition extract_http_json_body (raw : list Z) : outcome BodyError string :=
  response ← ok_or NonUtf8 (from_utf8 raw);
  '(headers, body) ← ok_or MissingTerminator (split_once crlf2 response);
  status_line ← ok_or MissingStatus (head (lines headers));
  return_if negb (contains " 200 " status_line) with Err BadStatus ;;
  Ok (trim body).

Inductive ProofError := ProofHttp (e : BodyError) | ProofJson | ProofField | ProofSignature (e : AuthError)
  | FingerprintMismatch.

Definition verify_cert_proof_response (presented_cert_der : list Z) (server_public_key_b64 : string)
    (response_body : string) : outcome ProofError string :=
  parsed ← ok_or ProofJson (json_parse response_body);
  fingerprint ← ok_or ProofField (json_get "cert_fingerprint" parsed ≫= as_str);
  signature ← ok_or ProofField (json_get "ed25519_signature" parsed ≫= as_str);
  _ ← map_err ProofSignature
        (verify_signature server_public_key_b64 (string_bytes fingerprint) signature);
  return_if negb (bool_decide (compute_fingerprint presented_cert_der = fingerprint))
    with Err FingerprintMismatch ;;
  Ok fingerprint.

(** The request of [fetch_and_verify_cert_proof] *)
Definition cert_proof_request (host : string) : string :=
  "GET /v1/bootstrap/cert-proof HTTP/1.1" +:+ crlf +:+ "Host: " +:+ host +:+ crlf +:+
  "Connection: close" +:+ crlf2.

(** [response.split("\r\n\r\n").nth(1)] *)
Definition second_part (response : string) : option string :=
  '(_, rest) ← split_once crlf2 response;
  Some (match split_once crlf2 rest with Some (part, _) => part | None => rest end).

(** What [fetch_and_verify_cert_proof] does with the response and the captured certificate. *)
Definition fetched_cert_proof (captured : list Z) (server_public_key_b64 : string) (raw : list Z)
  : outcome ProofError string :=
  response ← ok_or (ProofHttp NonUtf8) (from_utf8 raw);
  body ← ok_or (ProofHttp MissingTerminator) (second_part response);
  let status_line := default EmptyString (head (lines response)) in
  return_if negb (contains "200" status_line) with Err (ProofHttp BadStatus) ;;
  verify_cert_proof_response captured server_public_key_b64 (trim body).

(** [PinnedCertVerifier::verify_server_cert] accepts *)
Definition pinned_accepts (expected : string) (end_entity : list Z) : bool :=
  bool_decide (compute_fingerprint end_entity = expected).
End bootstrap.

(** * Lemmas *)

(** ** The header terminator *)

Lemma strip_list_bytes p s :
  strip_list (string_bytes p) (string_bytes s) = string_bytes <$> strip_prefix p s.
Proof.
  revert s. induction p as [|a p IH]; intros s; [by destruct s|]. destruct s as [|b s]; [done|].
  cbn [string_bytes strip_list strip_prefix].
  destruct (decide (a = b)) as [->|Hne]; [by rewrite Z.eqb_refl|].
  destruct (Z.eqb_spec (Z.of_N (N_of_ascii a)) (Z.of_N (N_of_ascii b))) as [He|_]; [|done].
  exfalso. apply Hne. rewrite <- (ascii_N_embedding a), <- (ascii_N_embedding b). f_equal. lia.
Qed.

Lemma find_bytes s : find_header_terminator (string_bytes s) =
  (fun lr => length (string_bytes lr.1)) <$> split_once crlf2 s.
Proof.
  induction s as [|a s IH]; [done|].
  change [13; 10; 13; 10] with (string_bytes crlf2).
  assert (Heq : find_header_terminator (string_bytes (String a s)) =
    match strip_list (string_bytes crlf2) (string_bytes (String a s)) with
    | Some _ => Some 0%nat
    | None => S <$> find_header_terminator (string_bytes s)
    end) by reflexivity.
  rewrite Heq, strip_list_bytes, IH. cbn [split_once].
  destruct (strip_prefix crlf2 (String a s)); [done|]. cbn [fmap option_map option_fmap].
  by destruct (split_once crlf2 s) as [[l r]|].
Qed.

Lemma strip_list_Some p l r : strip_list p l = Some r -> l = p ++ r.
Proof.
  revert l. induction p as [|a p IH]; intros l; [by intros [= ->]|].
  destruct l as [|b l]; [done|]. cbn [strip_list]. destruct (Z.eqb_spec a b) as [->|]; [|done].
  intros ->%IH. done.
Qed.

Lemma strip_list_app p l r r' : strip_list p l = Some r -> strip_list p (l ++ r') = Some (r ++ r').
Proof.
  intros ->%strip_list_Some. rewrite <- app_assoc. induction p as [|a p IH]; [done|].
  cbn [app strip_list]. by rewrite Z.eqb_refl.
Qed.

Lemma find_cons b l : find_header_terminator (b :: l) =
  match strip_list [13; 10; 13; 10] (b :: l) with
  | Some _ => Some 0%nat
  | None => S <$> find_header_terminator l
  end.
Proof. reflexivity. Qed.

Lemma find_bound l k : find_header_terminator l = Some k -> (k + 4 <= length l)%nat.
Proof.
  revert k. induction l as [|b l IH]; intros k; [done|]. rewrite find_cons.
  destruct (strip_list _ (b :: l)) as [r|] eqn:Hs.
  - intros [= <-]. apply strip_list_Some in Hs. rewrite Hs, length_app. simpl. lia.
  - destruct (find_header_terminator l) as [j|]; [|done]. intros [= <-]. specialize (IH j eq_refl).
    simpl. lia.
Qed.

Lemma find_app l r k : find_header_terminator l = Some k -> find_header_terminator (l ++ r) = Some k.
Proof.
  revert k. induction l as [|b l IH]; intros k; [done|]. cbn [app]. rewrite !find_cons.
  destruct (strip_list [13; 10; 13; 10] (b :: l)) as [u|] eqn:Hs.
  - intros [= <-]. apply (strip_list_app _ _ _ r) in Hs. cbn [app] in Hs. by rewrite Hs.
  - destruct (find_header_terminator l) as [j|] eqn:Hj; [|done]. intros [= <-].
    destruct (strip_list [13; 10; 13; 10] (b :: l ++ r)) as [u|] eqn:Hs'.
    + exfalso. pose proof (find_bound _ _ Hj) as Hb.
      destruct l as [|c [|d [|e l]]]; [simpl in Hb; lia..|].
      cbn [app strip_list] in Hs, Hs'. by repeat case_match.
    + by rewrite (IH j).
Qed.

(** A prefix that does not contain the whole terminator has none. *)
Lemma find_prefix l r k :
  find_header_terminator (l ++ r) = Some k -> find_header_terminator l = None \/
    find_header_terminator l = Some k.
Proof.
  intros Hk. destruct (find_header_terminator l) as [j|] eqn:Hj; [|by left].
  apply (find_app _ r) in Hj. right. congruence.
Qed.

(** The terminator is found in a prefix that has all of it. *)
Lemma find_within l r k :
  find_header_terminator (l ++ r) = Some k -> (k + 4 <= length l)%nat ->
  find_header_terminator l = Some k.
Proof.
  revert k. induction l as [|b l IH]; intros k; [simpl; lia|]. cbn [app]. rewrite !find_cons.
  intros Hf Hle. destruct (strip_list [13; 10; 13; 10] (b :: l)) as [u|] eqn:Hs.
  { apply (strip_list_app _ _ _ r) in Hs. cbn [app] in Hs. by rewrite Hs in Hf. }
  destruct (strip_list [13; 10; 13; 10] (b :: l ++ r)) as [u|] eqn:Hs'.
  - injection Hf as <-. exfalso. destruct l as [|c [|d [|e l]]]; [simpl in Hle; lia..|].
    cbn [app strip_list] in Hs, Hs'. by repeat case_match.
  - destruct (find_header_terminator (l ++ r)) as [j|] eqn:Hj; [|done]. injection Hf as <-.
    by rewrite (IH j) by (simpl in Hle; lia || done).
Qed.

(** ** Reading under any chunking *)

Lemma read_headers_chunks buf chunks k :
  Forall (fun d : list Z => d <> []) chunks -> find_header_terminator buf = None ->
  find_header_terminator (buf ++ concat chunks) = Some k -> Z.of_nat k + 4 <= MAX_HEADER_BYTES ->
  exists buf' chunks', read_headers buf (Some <$> chunks) = Finished (Ok (buf', Some <$> chunks')) /\
    buf' ++ concat chunks' = buf ++ concat chunks /\ Forall (fun d : list Z => d <> []) chunks' /\
    find_header_terminator buf' = Some k.
Proof.
  intros Hne. revert buf. induction Hne as [|d chunks Hd Hne IH]; intros buf Hbuf Hk Hmax.
  { cbn [concat] in Hk. rewrite app_nil_r in Hk. congruence. }
  cbn [concat] in *. rewrite app_assoc in Hk.
  assert (Hlen : (length buf < k + 4)%nat).
  { destruct (decide (k + 4 <= length buf)%nat) as [Hle|]; [|lia]. exfalso.
    enough (find_header_terminator buf = Some k) by congruence.
    rewrite <- app_assoc in Hk. by apply (find_within _ _ _ Hk). }
  cbn [fmap list_fmap read_headers]. destruct (Z.leb_spec MAX_HEADER_BYTES (Z.of_nat (length buf))); [lia|].
  destruct d as [|b d]; [done|].
  destruct (find_prefix _ _ _ Hk) as [Hn|Hs].
  - rewrite Hn. destruct (IH _ Hn Hk Hmax) as (buf' & chunks' & Hr & Hc & Hf). exists buf', chunks'.
    split; [exact Hr|]. split; [by rewrite Hc, <- app_assoc|done].
  - rewrite Hs. exists (buf ++ b :: d), chunks. by rewrite <- app_assoc.
Qed.

Lemma read_body_chunks target buf chunks :
  Forall (fun d : list Z => d <> []) chunks -> target = Z.of_nat (length (buf ++ concat chunks)) ->
  read_body target buf (Some <$> chunks) = Finished (Ok (buf ++ concat chunks)).
Proof.
  intros Hne. revert buf. induction Hne as [|d chunks Hd Hne IH]; intros buf ->;
    cbn [fmap list_fmap read_body concat].
  { rewrite app_nil_r. by rewrite Z.leb_refl. }
  destruct (Z.leb_spec (Z.of_nat (length (buf ++ d ++ concat chunks))) (Z.of_nat (length buf))) as [Hle|_].
  { rewrite !length_app in Hle. destruct d; [done|]. simpl in Hle. lia. }
  destruct d as [|b d]; [done|]. rewrite IH by (by rewrite <- app_assoc). by rewrite <- app_assoc.
Qed.

(** ** Messages as lines *)

(** A header line: not empty, one line. *)
Definition plain (l : string) : Prop :=
  no_char "010" l = true /\ no_char "013" l = true /\ l <> EmptyString.

(** The lines, separated. *)
Fixpoint header_text (ls : list string) : string :=
  match ls with
  | [] => EmptyString
  | [l] => l
  | l :: ls => l +:+ crlf +:+ header_text ls
  end.

Lemma header_text_cons l ls : ls <> [] -> header_text (l :: ls) = l +:+ crlf +:+ header_text ls.
Proof. by destruct ls. Qed.

Lemma header_text_starts ls rest :
  ls <> [] -> Forall plain ls -> strip_prefix crlf (header_text ls +:+ rest) = None.
Proof.
  intros Hne Hall. destruct Hall as [|l ls (_ & Hcr & Hl) Hall]; [done|].
  destruct l as [|a l]; [done|]. cbn [no_char] in Hcr. apply andb_true_iff in Hcr as [Ha _].
  destruct ls; cbn [header_text]; rewrite ?string_app_cons; cbn [crlf strip_prefix];
    rewrite decide_False; try done; intros <-; by rewrite bool_decide_eq_true_2 in Ha.
Qed.

Lemma split_end h rest :
  no_char "013" h = true -> split_once crlf2 (h +:+ crlf2 +:+ rest) = Some (h, rest).
Proof.
  induction h as [|a h IH]; cbn [no_char]; [done|]. intros [Ha Hh]%andb_true_iff.
  rewrite string_app_cons. cbn [split_once]. rewrite IH by done.
  assert (Hs : strip_prefix crlf2 (String a (h +:+ crlf2 +:+ rest)) = None).
  { change crlf2 with (String "013" (String "010" crlf)) at 1. cbn [strip_prefix].
    rewrite decide_False; [done|]. intros <-. by rewrite bool_decide_eq_true_2 in Ha. }
  by rewrite Hs.
Qed.

Lemma split_line h rest :
  no_char "013" h = true -> strip_prefix crlf rest = None ->
  split_once crlf2 (h +:+ crlf +:+ rest) =
    (fun lr => (h +:+ crlf +:+ lr.1, lr.2)) <$> split_once crlf2 rest.
Proof.
  intros Hh Hr. induction h as [|a h IH]; cbn [no_char] in Hh.
  - rewrite string_app_empty_l. change (crlf +:+ rest) with (String "013" (String "010" rest)).
    assert (H1 : strip_prefix crlf2 (String "013" (String "010" rest)) = strip_prefix crlf rest)
      by reflexivity.
    assert (H2 : strip_prefix crlf2 (String "010" rest) = None) by reflexivity.
    cbn [split_once]. rewrite H1, Hr, H2. destruct (split_once crlf2 rest) as [[l r]|]; reflexivity.
  - apply andb_true_iff in Hh as [Ha Hh]. rewrite string_app_cons. cbn [split_once].
    assert (Hs : strip_prefix crlf2 (String a (h +:+ crlf +:+ rest)) = None).
    { change crlf2 with (String "013" (String "010" crlf)). cbn [strip_prefix].
      rewrite decide_False; [done|]. intros <-. by rewrite bool_decide_eq_true_2 in Ha. }
    rewrite Hs, IH by done. by destruct (split_once crlf2 rest) as [[l r]|].
Qed.

Lemma message_split ls body :
  ls <> [] -> Forall plain ls ->
  split_once crlf2 (header_text ls +:+ crlf2 +:+ body) = Some (header_text ls, body).
Proof.
  intros Hne Hall. induction Hall as [|l ls (_ & Hcr & Hl) Hall IH]; [done|].
  destruct (decide (ls = [])) as [->|Hls]; [by apply split_end|].
  rewrite header_text_cons, !string_app_assoc by done.
  rewrite split_line; [|done|by apply header_text_starts]. by rewrite IH.
Qed.

Lemma message_lines ls body :
  ls <> [] -> Forall plain ls ->
  lines (header_text ls +:+ crlf2 +:+ body) = ls ++ EmptyString :: lines body.
Proof.
  intros Hne Hall. induction Hall as [|l ls (Hlf & Hcr & Hl) Hall IH]; [done|].
  destruct (decide (ls = [])) as [->|Hls].
  - cbn [header_text]. change (crlf2 +:+ body) with (String "013" (String "010" (crlf +:+ body))).
    by rewrite lines_crlf.
  - rewrite header_text_cons, !string_app_assoc by done.
    change (crlf +:+ header_text ls +:+ crlf2 +:+ body)
      with (String "013" (String "010" (header_text ls +:+ crlf2 +:+ body))).
    rewrite lines_crlf by done. cbn [app]. f_equal. by apply IH.
Qed.

Lemma lines_single s : no_char "010" s = true -> s <> EmptyString -> lines s = [s].
Proof.
  unfold lines. intros Hs Hne.
  enough (Hl : forall l, no_char "010" s = true -> l +:+ s <> EmptyString ->
    lines_from l s = [l +:+ s]) by (by apply Hl).
  clear. induction s as [|a s IH]; intros l Hs Hne; cbn [lines_from].
  - rewrite string_app_empty_r in *. by destruct l.
  - cbn [no_char] in Hs. case_bool_decide; [done|]. rewrite decide_False by done.
    assert (Heq : (l +:+ String a EmptyString) +:+ s = l +:+ String a s) by by rewrite string_app_assoc.
    rewrite IH; [by rewrite Heq|done|by rewrite Heq].
Qed.

Lemma header_lines ls : Forall plain ls -> lines (header_text ls) = ls.
Proof.
  induction 1 as [|l ls (Hlf & Hcr & Hl) Hall IH]; [done|].
  destruct (decide (ls = [])) as [->|Hls]; [by apply lines_single|].
  rewrite header_text_cons by done.
  change (crlf +:+ header_text ls) with (String "013" (String "010" (header_text ls))).
  by rewrite lines_crlf, IH.
Qed.

(** ** UTF-8, digits and trimming *)

Definition utf8_ok (s : string) : Prop := utf8_valid (string_bytes s) = true.

Lemma utf8_ok_app s t : utf8_ok s -> utf8_ok t -> utf8_ok (s +:+ t).
Proof. unfold utf8_ok. rewrite string_bytes_app. apply utf8_valid_app. Qed.

Lemma from_utf8_ok s : utf8_ok s -> from_utf8 (string_bytes s) = Some s.
Proof. unfold utf8_ok, from_utf8. intros ->. by rewrite bytes_string_bytes. Qed.

Lemma length_string_bytes s : length (string_bytes s) = String.length s.
Proof. induction s as [|a s IH]; [done|]. simpl. by rewrite IH. Qed.

(** Text whose first and last bytes are printable and not blank. *)
Definition solid (s : string) : Prop :=
  exists b e, head (string_bytes s) = Some b /\ last (string_bytes s) = Some e /\
    33 <= b <= 126 /\ 33 <= e <= 126.

Lemma strip_any_none ps b l :
  Forall (fun p => exists a p', p = a :: p' /\ a <> b) ps -> strip_any ps (b :: l) = None.
Proof.
  induction 1 as [|p ps (a & p' & -> & Hab) _ IH]; [done|]. cbn [strip_any strip_list].
  by destruct (Z.eqb_spec a b).
Qed.

Lemma strip_all_none n ps b l :
  Forall (fun p => exists a p', p = a :: p' /\ a <> b) ps -> strip_all n ps (b :: l) = b :: l.
Proof. intros Hp. destruct n; [done|]. cbn [strip_all]. by rewrite strip_any_none. Qed.

Lemma white_space_heads b :
  33 <= b <= 126 -> Forall (fun p => exists a p', p = a :: p' /\ a <> b) white_space /\
  Forall (fun p => exists a p', p = a :: p' /\ a <> b) (@rev Z <$> white_space).
Proof.
  intros Hb. split; unfold white_space; simpl;
    repeat (constructor; [eexists _, _; split; [reflexivity|lia]|]); constructor.
Qed.

Lemma trim_end_solid l e :
  last l = Some e -> 33 <= e <= 126 -> trim_end_bytes l = l.
Proof.
  intros (l' & ->)%last_Some He. unfold trim_end_bytes. rewrite rev_app_distr. cbn [rev app].
  rewrite strip_all_none by (by apply white_space_heads). cbn [rev]. by rewrite rev_involutive.
Qed.

Lemma trim_solid s : solid s -> trim s = s.
Proof.
  intros (b & e & Hh & Hl & Hb & He). unfold trim. rewrite (trim_end_solid _ e) by done.
  unfold trim_start_bytes. destruct (string_bytes s) as [|b' l] eqn:Hs; [done|]. injection Hh as ->.
  rewrite strip_all_none by (by apply white_space_heads). rewrite <- Hs. apply bytes_string_bytes.
Qed.

Lemma trim_space s : solid s -> trim (String " " s) = s.
Proof.
  intros (b & e & Hh & Hl & Hb & He). unfold trim. cbn [string_bytes].
  change (Z.of_N (N_of_ascii " ")) with 32.
  destruct (string_bytes s) as [|b' l] eqn:Hs; [done|]. injection Hh as ->.
  rewrite (trim_end_solid _ e) by (done || by rewrite last_cons_cons). unfold trim_start_bytes.
  cbn [length]. change (strip_all (S (S (length l))) white_space (32 :: b :: l))
    with (strip_all (S (length l)) white_space (b :: l)).
  rewrite strip_all_none by (by apply white_space_heads). rewrite <- Hs. apply bytes_string_bytes.
Qed.

(** Decimal numbers are digits. *)
Fixpoint all_digits (s : string) : bool :=
  match s with
  | EmptyString => true
  | String a s => (if digit_value a then true else false) && all_digits s
  end.

Lemma pretty_go_digits x s : all_digits s = true -> all_digits (pretty_N_go x s) = true.
Proof.
  revert s. induction (N.lt_wf_0 x) as [x _ IH]. intros s Hs.
  assert (x = 0 \/ 0 < x)%N as [->|Hx] by lia; [done|].
  rewrite pretty_N_go_step by done. apply IH; [by apply N.div_lt|]. cbn [all_digits].
  by rewrite digit_value_pretty by (by apply N.mod_lt).
Qed.

Lemma pretty_digits z : 0 <= z -> all_digits (pretty z) = true /\ pretty z <> EmptyString.
Proof.
  intros Hz. destruct z as [|p|p]; [done| |lia].
  change (pretty (Zpos p)) with (pretty_N_go (Npos p) "").
  split; [by apply pretty_go_digits|].
  destruct (pretty_go_head (Npos p) "") as (d & s & ->); done.
Qed.

Lemma digit_byte a : (if digit_value a then true else false) = true -> 48 <= Z.of_N (N_of_ascii a) <= 57.
Proof.
  unfold digit_value, in_range. destruct (Z.leb_spec 48 (Z.of_N (N_of_ascii a))); [|done].
  by destruct (Z.leb_spec (Z.of_N (N_of_ascii a)) 57).
Qed.

Lemma digits_bytes s : all_digits s = true -> Forall (fun b => 48 <= b <= 57) (string_bytes s).
Proof.
  induction s as [|a s IH]; [constructor|]. cbn [all_digits string_bytes].
  intros [Ha Hs]%andb_true_iff. constructor; [by apply digit_byte|auto].
Qed.

Lemma digits_solid s : all_digits s = true -> s <> EmptyString -> solid s.
Proof.
  intros Hd%digits_bytes Hne. destruct (string_bytes s) as [|b l] eqn:Hs; [by destruct s|].
  destruct (last (b :: l)) as [e|] eqn:Hl; [|by apply last_None in Hl].
  exists b, e. rewrite Hs. rewrite Forall_forall in Hd.
  pose proof (Hd b ltac:(left)). pose proof (Hd e (last_Some_elem_of _ _ Hl)).
  split_and!; [done|done|lia..].
Qed.

Lemma digits_utf8 s : all_digits s = true -> utf8_ok s.
Proof.
  intros Hd%digits_bytes. unfold utf8_ok. induction Hd as [|b l Hb _ IH]; [done|].
  cbn [utf8_valid]. unfold in_range. by rewrite !(proj2 (Z.leb_le _ _)) by lia.
Qed.

Lemma digits_no_char c s : all_digits s = true -> digit_value c = None -> no_char c s = true.
Proof.
  intros Hd Hc. induction s as [|a s IH]; [done|]. cbn [all_digits no_char] in *.
  apply andb_true_iff in Hd as [Ha Hs]. rewrite bool_decide_eq_false_2, IH; [done|done|].
  intros ->. by rewrite Hc in Ha.
Qed.

(** ** Requests *)

(** The lines of the request's header. *)
Definition request_lines (method host path : string) (body : option string) : list string :=
  [method +:+ " " +:+ path +:+ " HTTP/1.1"; "Host: " +:+ host] ++
  match body with
  | Some body => ["Content-Type: application/json";
                  "Content-Length: " +:+ pretty (Z.of_nat (String.length body))]
  | None => []
  end ++ ["Connection: close"].

(** What the client's callers pass: a known method, a path without blanks and colons, a host name that
    is not blank at its ends, no line of the body that reads as an upgrade header. *)
Record request_ok (method host path : string) (body : option string) : Prop := {
  ok_method : method = "GET" \/ method = "POST";
  ok_path : no_char " " path = true /\ no_char ":" path = true /\ no_char "010" path = true /\
    no_char "013" path = true /\ utf8_ok path;
  ok_host : solid host /\ no_char "010" host = true /\ no_char "013" host = true /\ utf8_ok host;
  ok_body : utf8_ok (default EmptyString body) /\
    existsb upgrade_line (lines (default EmptyString body)) = false
}.

Lemma build_lines method host path body :
  build_http_request method host path body =
    header_text (request_lines method host path body) +:+ crlf2 +:+ default EmptyString body.
Proof.
  destruct body as [body|]; cbn [build_http_request request_lines app header_text default];
    rewrite ?string_app_assoc, ?string_app_empty_r; reflexivity.
Qed.

Lemma no_char_app_true c s t : no_char c s = true -> no_char c t = true -> no_char c (s +:+ t) = true.
Proof. intros Hs Ht. by rewrite no_char_app, Hs, Ht. Qed.

Lemma plain_app s t : plain s -> no_char "010" t = true -> no_char "013" t = true -> plain (s +:+ t).
Proof.
  intros (H1 & H2 & H3) H4 H5. split_and!; [by apply no_char_app_true..|].
  destruct s; [done|]. by rewrite string_app_cons.
Qed.

Lemma length_pretty_digits (body : string) :
  all_digits (pretty (Z.of_nat (String.length body))) = true /\
  pretty (Z.of_nat (String.length body)) <> EmptyString.
Proof. apply pretty_digits. lia. Qed.

(** A [Forall] over a list written out. *)
Ltac forall_list := repeat first [apply Forall_nil_2 | apply Forall_cons_2 | apply Forall_app_2]; try done.

Lemma request_lines_plain method host path body :
  request_ok method host path body -> Forall plain (request_lines method host path body).
Proof.
  intros [Hm (_ & _ & Hp1 & Hp2 & _) (_ & Hh1 & Hh2 & _) _]. unfold request_lines.
  forall_list.
  - apply plain_app; [by destruct Hm as [->| ->]|..];
      (apply no_char_app_true; [done|]; by apply no_char_app_true).
  - destruct body as [body|]; forall_list.
    apply plain_app; [done|..]; apply digits_no_char; by (reflexivity || apply length_pretty_digits).
Qed.

Lemma header_text_utf8 ls : Forall utf8_ok ls -> utf8_ok (header_text ls).
Proof.
  induction 1 as [|l ls Hl Hls IH]; [done|]. destruct (decide (ls = [])) as [->|]; [done|].
  rewrite header_text_cons by done. apply utf8_ok_app; [done|]. by apply utf8_ok_app.
Qed.

Lemma request_lines_utf8 method host path body :
  request_ok method host path body -> Forall utf8_ok (request_lines method host path body).
Proof.
  intros [Hm (_ & _ & _ & _ & Hp) (_ & _ & _ & Hh) _]. unfold request_lines.
  forall_list.
  - apply utf8_ok_app; [by destruct Hm as [->| ->]|]. apply utf8_ok_app; [done|]. by apply utf8_ok_app.
  - destruct body as [body|]; forall_list.
    apply utf8_ok_app; [done|]. apply digits_utf8, length_pretty_digits.
Qed.

Lemma request_lines_nonempty method host path body : request_lines method host path body <> [].
Proof. done. Qed.

(** What the server's line functions find in the header. *)
Lemma request_lines_length method host path body :
  request_ok method host path body -> Z.of_nat (String.length (default EmptyString body)) < 2 ^ 64 ->
  default 0 (find_map (fun line => v ← header_value "content-length" line; parse_unsigned 64 v)
    (request_lines method host path body)) = Z.of_nat (String.length (default EmptyString body)).
Proof.
  intros [Hm (_ & Hp & _) _ _] Hlen. unfold request_lines. cbn [app find_map].
  assert (Hfirst : header_value "content-length" (method +:+ " " +:+ path +:+ " HTTP/1.1") = None).
  { unfold header_value. rewrite split_once_none_char; [done|].
    apply no_char_app_true; [by destruct Hm as [->| ->]|]. apply no_char_app_true; [done|].
    by apply no_char_app_true. }
  rewrite Hfirst. change (header_value "content-length" ("Host: " +:+ host)) with (@None string).
  cbn [mbind option_bind]. destruct body as [body|]; [|done]. cbn [app find_map default].
  change (header_value "content-length" "Content-Type: application/json") with (@None string).
  cbn [mbind option_bind].
  assert (Hv : header_value "content-length"
    ("Content-Length: " +:+ pretty (Z.of_nat (String.length body))) =
    Some (trim (String " " (pretty (Z.of_nat (String.length body)))))) by reflexivity.
  rewrite Hv, trim_space by (apply digits_solid; apply length_pretty_digits). cbn [mbind option_bind].
  rewrite parse_pretty; [done|]. split; [lia | exact Hlen].
Qed.

Lemma request_lines_host method host path body :
  request_ok method host path body ->
  find_map (fun line => v ← header_value "host" line; if is_empty v then None else Some v)
    (request_lines method host path body) = Some host.
Proof.
  intros [Hm (_ & Hp & _) (Hs & _) _]. unfold request_lines. cbn [app find_map].
  assert (Hfirst : header_value "host" (method +:+ " " +:+ path +:+ " HTTP/1.1") = None).
  { unfold header_value. rewrite split_once_none_char; [done|].
    apply no_char_app_true; [by destruct Hm as [->| ->]|]. apply no_char_app_true; [done|].
    by apply no_char_app_true. }
  rewrite Hfirst. cbn [mbind option_bind].
  change (header_value "host" ("Host: " +:+ host)) with (Some (trim (String " " host))).
  rewrite trim_space by done. cbn [mbind option_bind]. destruct host; [|done].
  by destruct Hs as (? & ? & ? & _).
Qed.

Lemma request_lines_upgrade method host path body :
  request_ok method host path body -> existsb upgrade_line (request_lines method host path body) = false.
Proof.
  intros [Hm _ _ _]. unfold request_lines. cbn [app existsb].
  assert (Hfirst : upgrade_line (method +:+ " " +:+ path +:+ " HTTP/1.1") = false)
    by (by destruct Hm as [->| ->]).
  rewrite Hfirst. change (upgrade_line ("Host: " +:+ host)) with false. by destruct body.
Qed.

Lemma request_bytes_split method host path body :
  request_ok method host path body ->
  let bytes := string_bytes (build_http_request method host path body) in
  let header := header_text (request_lines method host path body) in
  find_header_terminator bytes = Some (length (string_bytes header)) /\
  take (length (string_bytes header)) bytes = string_bytes header /\
  from_utf8 (string_bytes header) = Some header /\
  from_utf8 bytes = Some (header +:+ crlf2 +:+ default EmptyString body) /\
  length bytes = (length (string_bytes header) + 4 + String.length (default EmptyString body))%nat.
Proof.
  intros Hok. pose proof (request_lines_plain _ _ _ _ Hok) as Hplain. cbn zeta. rewrite build_lines.
  set (header := header_text _).
  assert (Hutf : utf8_ok header) by (by apply header_text_utf8, request_lines_utf8).
  split_and!.
  - rewrite find_bytes. unfold header. by rewrite message_split.
  - rewrite string_bytes_app. by rewrite take_app_length.
  - by apply from_utf8_ok.
  - apply from_utf8_ok. apply utf8_ok_app; [done|]. apply utf8_ok_app; [done|]. apply Hok.
  - rewrite !string_bytes_app, !length_app, (length_string_bytes (default _ _)). simpl. lia.
Qed.

Lemma request_received method host path body chunks :
  request_ok method host path body ->
  let bytes := string_bytes (build_http_request method host path body) in
  concat chunks = bytes -> Forall (fun d : list Z => d <> []) chunks ->
  Z.of_nat (length bytes - String.length (default EmptyString body)) <= MAX_HEADER_BYTES ->
  Z.of_nat (length bytes) < 2 ^ 64 ->
  read_until_end_of_headers (Some <$> chunks) = Finished (Ok (bytes, false)) /\
  parse_request_parts bytes = (method, path, default EmptyString body) /\
  parse_host_header bytes = Some host.
Proof.
  intros Hok bytes Hc Hne Hmax Hsize.
  destruct (request_bytes_split _ _ _ _ Hok) as (Hfind & Htake & Hu1 & Hu2 & Hlen).
  fold bytes in Hfind, Htake, Hu2, Hlen. pose proof (request_lines_plain _ _ _ _ Hok) as Hplain.
  set (k := length (string_bytes (header_text (request_lines method host path body)))) in *.
  split_and!.
  - unfold read_until_end_of_headers.
    destruct (read_headers_chunks [] chunks k) as (buf & chunks' & -> & Hb & Hne' & Hf); [done|done| | |].
    { by rewrite Hc. }
    { lia. }
    cbn [app] in Hb. rewrite Hf.
    assert (Ht : take k buf = take k bytes).
    { rewrite <- Hc, <- Hb, take_app_le; [done|]. apply find_bound in Hf. lia. }
    rewrite Ht, Htake. unfold parse_content_length. rewrite Hu1. cbn [from_option id].
    rewrite header_lines by done.
    rewrite request_lines_length by (done || lia).
    rewrite read_body_chunks; [|done|].
    + rewrite Hb, Hc. unfold is_websocket_upgrade. rewrite Hu2. cbn [from_option id].
      rewrite message_lines, existsb_app by done. cbn [existsb].
      rewrite request_lines_upgrade by done. cbn [orb]. by rewrite (proj2 (ok_body _ _ _ _ Hok)).
    + rewrite Hb, Hc, Hlen. rewrite wrapping_add_small by (split; lia). lia.
  - unfold parse_request_parts. rewrite Hu2. cbn [from_option id].
    rewrite message_lines, message_split by done. cbn [request_lines app head from_option id lookup list_lookup].
    destruct Hok as [Hm (Hsp & _) _ _].
    change (" " +:+ path +:+ " HTTP/1.1") with (String " " (path +:+ String " " "HTTP/1.1")).
    rewrite split_char_app by (by destruct Hm as [->| ->]). by rewrite split_char_app.
  - unfold parse_host_header. rewrite Hfind. cbn [mbind option_bind]. rewrite Htake, Hu1.
    cbn [mbind option_bind]. rewrite header_lines by done. by apply request_lines_host.
Qed.

(** ** Responses *)

Definition response_lines (status : Z) (answer : string) : list string :=
  ["HTTP/1.1 " +:+ pretty status +:+ " " +:+ canonical_reason status;
   "content-type: application/json";
   "content-length: " +:+ pretty (Z.of_nat (String.length answer)); "connection: close"].

(** The codes the endpoint answers with. *)
Definition known_status (status : Z) : Prop := status ∈ [200; 400; 401; 403; 404; 500; 501].

Lemma response_text status answer :
  http_response status answer = header_text (response_lines status answer) +:+ crlf2 +:+ answer.
Proof. unfold http_response. cbn [response_lines header_text]. by rewrite !string_app_assoc. Qed.

Lemma known_cases status (P : Z -> Prop) :
  known_status status -> P 200 -> P 400 -> P 401 -> P 403 -> P 404 -> P 500 -> P 501 -> P status.
Proof. unfold known_status. rewrite !elem_of_cons, elem_of_nil. intros H. by destruct_or? H; subst. Qed.

Lemma response_lines_ok status answer :
  known_status status ->
  Forall plain (response_lines status answer) /\ Forall utf8_ok (response_lines status answer).
Proof.
  intros Hst. unfold response_lines. split; forall_list.
  - apply (known_cases status); done.
  - apply plain_app; [done|..]; apply digits_no_char; by (reflexivity || apply length_pretty_digits).
  - apply (known_cases status); done.
  - apply utf8_ok_app; [done|]. apply digits_utf8, length_pretty_digits.
Qed.

Lemma response_read status answer :
  known_status status -> utf8_ok answer ->
  extract_http_json_body (string_bytes (http_response status answer)) =
    if status =? 200 then Ok (trim answer) else Err BadStatus.
Proof.
  intros Hst Hu. destruct (response_lines_ok status answer Hst) as [Hplain Hutf].
  unfold extract_http_json_body. rewrite response_text, from_utf8_ok.
  2: { apply utf8_ok_app; [by apply header_text_utf8|]. by apply utf8_ok_app. }
  cbn [ok_or mbind outcome_bind]. rewrite message_split by done. cbn [ok_or mbind outcome_bind].
  rewrite header_lines by done. cbn [response_lines head ok_or mbind outcome_bind].
  apply (known_cases status); done.
Qed.

Section answers.
Context `{Crypto} `{JsonText} `{Toml WireGuardPeersFile} `{!Authority} `{!Sha256}.

Lemma peer_share_status identity keys now body :
  known_status (peer_share_introduction_response identity keys now body).1.
Proof.
  unfold peer_share_introduction_response, known_status. repeat case_match; cbn [fst]; set_solver.
Qed.

Lemma wireguard_status kp now body peers fs status answer peers' fs' :
  wireguard_peer_response kp now body peers fs = (Ok (status, answer), peers', fs') ->
  known_status status.
Proof.
  unfold wireguard_peer_response, known_status. intros Hr.
  destruct kp, peers; try (injection Hr; intros; subst; set_solver).
  destruct (json_parse _); [|injection Hr; intros; subst; set_solver].
  destruct (_ || _); [injection Hr; intros; subst; set_solver|].
  destruct (register_peer_lease _ _ _ _ _) as [[[p|e|] r] fs1]; simplify_eq/=; set_solver.
Qed.

Lemma route_status ctx endpoints now method path body peers fs status answer peers' fs' :
  route_bootstrap_request ctx endpoints now method path body peers fs =
    (Ok (status, answer), peers', fs') -> known_status status.
Proof.
  unfold route_bootstrap_request. repeat case_bool_decide.
  - unfold cert_proof_response. intros Hr. unfold known_status.
    destruct (cert_proof ctx) as [[[f s]|e|]|]; simplify_eq/=; set_solver.
  - unfold capabilities_response. intros [= <- _ _ _]. unfold known_status. set_solver.
  - apply wireguard_status.
  - intros [= Hr _ _]. pose proof (peer_share_status (server_identity ctx) (ctx_authorized_keys ctx) now body)
      as Hk. by rewrite Hr in Hk.
  - intros [= <- _ _ _]. unfold known_status. set_solver.
Qed.
End answers.

(** ** The certificate proof *)

Lemma split_once_no_cr s : no_char "013" s = true -> split_once crlf2 s = None.
Proof.
  induction s as [|a s IH]; [done|]. cbn [no_char split_once]. intros [Ha Hs]%andb_true_iff.
  assert (Hp : strip_prefix crlf2 (String a s) = None).
  { change crlf2 with (String "013" (String "010" crlf)). cbn [strip_prefix].
    rewrite decide_False; [done|]. intros <-. by rewrite bool_decide_eq_true_2 in Ha. }
  by rewrite Hp, IH.
Qed.

Lemma cert_proof_request_built host :
  cert_proof_request host = build_http_request "GET" host "/v1/bootstrap/cert-proof" None.
Proof. reflexivity. Qed.

Section cert_proof.
Context `{CryptoLaws} `{JsonLaws} `{!Sha256}.

(** The proof the server gives is the one the client checks. *)
Lemma cert_proof_verifies sk ctx der presented :
  bytes_ok sk -> length sk = 32%nat -> server_identity ctx = from_signing_key sk ->
  tls_cert_der ctx = Some der ->
  exists j, cert_proof_response ctx = (200, json_print j) /\
    verify_cert_proof_response presented (public_key_b64 (from_signing_key sk)) (json_print j) =
      if bool_decide (compute_fingerprint presented = compute_fingerprint der)
      then Ok (compute_fingerprint der) else Err FingerprintMismatch.
Proof.
  intros Hsk Hlen Hid Hder.
  destruct (signed_bytes_verify sk (string_bytes (compute_fingerprint der)) Hsk Hlen) as (sig & Hs & Hv).
  exists (flat [("cert_fingerprint", compute_fingerprint der); ("ed25519_signature", sig)]).
  unfold cert_proof_response, cert_proof. rewrite Hder, Hid. cbn [mbind option_bind]. rewrite Hs.
  cbn [mbind outcome_bind]. split; [done|]. unfold verify_cert_proof_response.
  rewrite json_round by (apply flat_wf; apply (bool_decide_unpack _); by vm_compute).
  cbn [ok_or mbind outcome_bind].
  change (json_get "cert_fingerprint" (flat [("cert_fingerprint", compute_fingerprint der);
    ("ed25519_signature", sig)])) with (Some (JStr (compute_fingerprint der))).
  change (json_get "ed25519_signature" (flat [("cert_fingerprint", compute_fingerprint der);
    ("ed25519_signature", sig)])) with (Some (JStr sig)).
  cbn [ok_or mbind outcome_bind option_bind as_str]. rewrite Hv. cbn [map_err mbind outcome_bind].
  by case_bool_decide.
Qed.

(** How the client gets at the body. *)
Lemma fetched_answer captured pk j :
  utf8_ok (json_print j) ->
  fetched_cert_proof captured pk (string_bytes (http_response 200 (json_print j))) =
    verify_cert_proof_response captured pk (json_print j).
Proof.
  intros Hu. destruct (response_lines_ok 200 (json_print j)) as [Hplain Hutf]; [unfold known_status; set_solver|].
  unfold fetched_cert_proof, second_part. rewrite response_text, from_utf8_ok.
  2: { apply utf8_ok_app; [by apply header_text_utf8|]. by apply utf8_ok_app. }
  cbn [ok_or mbind outcome_bind]. rewrite message_split by done. cbn [mbind option_bind].
  rewrite split_once_no_cr by apply json_one_line. cbn [ok_or mbind outcome_bind].
  rewrite message_lines by done. cbn [response_lines app head from_option id].
  change (contains "200" _) with true. cbn [negb]. by rewrite json_trim.
Qed.
End cert_proof.

(** A request the client built, read in any pieces: how it is answered and what the client reads. *)
Lemma request_answered `{Crypto} `{JsonText} `{Toml WireGuardPeersFile} `{!Authority} `{!Sha256}
    ctx now method host path body chunks peers fs status answer peers' fs' :
  let bytes := string_bytes (build_http_request method host path body) in
  request_ok method host path body ->
  concat chunks = bytes -> Forall (fun d : list Z => d <> []) chunks ->
  Z.of_nat (length bytes - String.length (default EmptyString body)) <= MAX_HEADER_BYTES ->
  Z.of_nat (length bytes) < 2 ^ 64 ->
  route_bootstrap_request ctx (Some (advertised_endpoints_for_request ctx (Some host))) now method path
    (default EmptyString body) peers fs = (Ok (status, answer), peers', fs') ->
  handle_plain_connection ctx now (Some <$> chunks) peers fs =
    (Finished (Ok (Answered (string_bytes (http_response status answer)))), peers', fs') /\
  (utf8_ok answer -> extract_http_json_body (string_bytes (http_response status answer)) =
     if status =? 200 then Ok (trim answer) else Err BadStatus).
Proof.
  intros bytes Hok Hc Hne Hmax Hsize Hroute.
  destruct (request_received _ _ _ _ _ Hok Hc Hne Hmax Hsize) as (Hr & Hp & Hh).
  unfold handle_plain_connection. rewrite Hr, Hp, Hh, Hroute. split; [done|]. intros Hu.
  apply response_read; [|done]. by eapply route_status.
Qed.

(** What an accepted proof says. *)
Lemma fetched_cert_proof_Ok `{Crypto} `{JsonText} `{!Sha256} (presented : list Z) (key : string)
    (raw : list Z) (fingerprint : string) :
  fetched_cert_proof presented key raw = Ok fingerprint ->
  exists body, verify_cert_proof_response presented key body = Ok fingerprint.
Proof.
  unfold fetched_cert_proof. intros Hf.
  destruct (from_utf8 raw) as [response|]; [|done]. cbn [ok_or mbind outcome_bind] in Hf.
  destruct (second_part response) as [body|]; [|done]. cbn [ok_or mbind outcome_bind] in Hf.
  destruct (negb _); [done|]. eauto.
Qed.

(** The signature in the answer to the request for the proof *)
Definition proof_signature `{JsonText} (raw : list Z) : option string :=
  response ← from_utf8 raw; body ← second_part response; j ← json_parse (trim body);
  json_get "ed25519_signature" j ≫= as_str.

Lemma verify_cert_proof_Ok `{Crypto} `{JsonText} `{!Sha256} (presented : list Z) (key : string)
    (body : string) (fingerprint : string) :
  verify_cert_proof_response presented key body = Ok fingerprint ->
  fingerprint = compute_fingerprint presented /\
  exists pk sig, b64_decode key = Some pk /\
    ed_verify pk (string_bytes (compute_fingerprint presented)) sig = true.
Proof.
  unfold verify_cert_proof_response. intros Hf.
  destruct (json_parse _) as [j|]; [|done]. cbn [ok_or mbind outcome_bind] in Hf.
  destruct (json_get "cert_fingerprint" j ≫= as_str) as [fp|]; [|done]. cbn [ok_or mbind outcome_bind] in Hf.
  destruct (json_get "ed25519_signature" j ≫= as_str) as [sg|]; [|done]. cbn [ok_or mbind outcome_bind] in Hf.
  destruct (verify_signature _ _ _) as [[]|e|] eqn:Hv; [|done..]. cbn [map_err mbind outcome_bind] in Hf.
  destruct (bool_decide_reflect (compute_fingerprint presented = fp)) as [<-|]; [|done].
  injection Hf as <-. split; [done|].
  destruct (verify_signature_Ok _ _ _ Hv) as (pkb & sb & Hpk & _ & Hsig). eauto.
Qed.

Lemma fetched_cert_proof_signed `{Crypto} `{JsonText} `{!Sha256} (presented : list Z) (key : string)
    (raw : list Z) (fingerprint : string) :
  fetched_cert_proof presented key raw = Ok fingerprint ->
  exists signature pk sig, proof_signature raw = Some signature /\ b64_decode key = Some pk /\
    b64_decode signature = Some sig /\ ed_verify pk (string_bytes fingerprint) sig = true.
Proof.
  unfold fetched_cert_proof, proof_signature. intros Hf.
  destruct (from_utf8 raw) as [response|]; [|done]. cbn [ok_or mbind outcome_bind option_bind] in *.
  destruct (second_part response) as [body|]; [|done]. cbn [ok_or mbind outcome_bind option_bind] in *.
  destruct (negb _); [done|]. unfold verify_cert_proof_response in Hf.
  destruct (json_parse _) as [j|]; [|done]. cbn [ok_or mbind outcome_bind option_bind] in *.
  destruct (json_get "cert_fingerprint" j ≫= as_str) as [fp|]; [|done]. cbn [ok_or mbind outcome_bind] in Hf.
  destruct (json_get "ed25519_signature" j ≫= as_str) as [sg|] eqn:Hsg; [|done]. cbn [ok_or mbind outcome_bind] in Hf.
  destruct (verify_signature _ _ _) as [[]|e|] eqn:Hv; [|done..]. cbn [map_err mbind outcome_bind] in Hf.
  destruct (negb _); [done|]. injection Hf as <-.
  destruct (verify_signature_Ok _ _ _ Hv) as (pkb & sb & Hpk & Hsb & Hsig). by exists sg, pkb, sb.
Qed.

(** * Properties *)

(** A bootstrap request and its answer, over any division of the request into reads.  The server
    reads back method, path, body and host of the request the client built, routes it, and what the
    client extracts from the written response is the routed body (trimmed) if the status is 200 and an
    error otherwise; a panic of the handler is the only other end. *)
Theorem bootstrap_exchange `{Crypto} `{JsonText} `{Toml WireGuardPeersFile} `{!Authority} `{!Sha256}
    (ctx : BootstrapContext) (now : option Z) (method host path : string) (body : option string)
    (chunks : list (list Z)) (peers : option WireGuardPeerRegistry) (fs : FS) :
  let bytes := string_bytes (build_http_request method host path body) in
  request_ok method host path body ->
  concat chunks = bytes -> Forall (fun d => d <> []) chunks ->
  Z.of_nat (length bytes - String.length (default EmptyString body)) <= MAX_HEADER_BYTES ->
  Z.of_nat (length bytes) < 2 ^ 64 ->
  let endpoints := advertised_endpoints_for_request ctx (Some host) in
  match route_bootstrap_request ctx (Some endpoints) now method path (default EmptyString body) peers fs with
  | (Ok (status, answer), peers', fs') =>
      exists response,
        handle_plain_connection ctx now (Some <$> chunks) peers fs =
          (Finished (Ok (Answered response)), peers', fs') /\
        (utf8_ok answer -> extract_http_json_body response =
           if status =? 200 then Ok (trim answer) else Err BadStatus)
  | (_, peers', fs') =>
      handle_plain_connection ctx now (Some <$> chunks) peers fs = (Finished Panic, peers', fs')
  end.
Proof.
  intros bytes Hok Hc Hne Hmax Hsize endpoints.
  destruct (route_bootstrap_request _ _ _ _ _ _ _ _) as [[[[status answer]|e|] peers'] fs'] eqn:Hroute;
    [|done|].
  - destruct (request_answered _ _ _ _ _ _ _ _ _ _ _ _ _ Hok Hc Hne Hmax Hsize Hroute) as [Hp Hx]. eauto.
  - destruct (request_received _ _ _ _ _ Hok Hc Hne Hmax Hsize) as (Hr & Hp & Hh).
    unfold handle_plain_connection. rewrite Hr, Hp, Hh. fold endpoints. by rewrite Hroute.
Qed.

(** The certificate proof, end to end.  Whatever the division of the request into reads, a server
    with a certificate answers the client's request with a proof that the client, holding the server's
    public key, accepts exactly if the certificate it was presented has the fingerprint of the
    server's; a certificate put in between is refused as a mismatch.  The accepted fingerprint is the
    one later connections are pinned to. *)
Theorem cert_proof_end_to_end `{CryptoLaws} `{JsonLaws} `{Toml WireGuardPeersFile} `{!Authority} `{!Sha256}
    (sk : list Z) (ctx : BootstrapContext) (der presented : list Z) (now : option Z) (host : string)
    (chunks : list (list Z)) (peers : option WireGuardPeerRegistry) (fs : FS) :
  bytes_ok sk -> length sk = 32%nat -> server_identity ctx = from_signing_key sk ->
  tls_cert_der ctx = Some der -> utf8_ok (cert_proof_response ctx).2 ->
  request_ok "GET" host "/v1/bootstrap/cert-proof" None ->
  concat chunks = string_bytes (cert_proof_request host) -> Forall (fun d => d <> []) chunks ->
  Z.of_nat (length (string_bytes (cert_proof_request host))) <= MAX_HEADER_BYTES ->
  exists response,
    handle_plain_connection ctx now (Some <$> chunks) peers fs = (Finished (Ok (Answered response)), peers, fs) /\
    fetched_cert_proof presented (public_key_b64 (from_signing_key sk)) response =
      (if pinned_accepts (compute_fingerprint der) presented
       then Ok (compute_fingerprint der) else Err FingerprintMismatch).
Proof.
  intros Hsk Hlen Hid Hder Hutf Hok Hc Hne Hmax. rewrite cert_proof_request_built in Hc, Hmax.
  destruct (request_received _ _ _ _ _ Hok Hc Hne) as (Hr & Hp & Hh).
  { cbn [from_option id String.length]. lia. }
  { unfold MAX_HEADER_BYTES in Hmax. lia. }
  destruct (cert_proof_verifies sk ctx der presented Hsk Hlen Hid Hder) as (j & Hj & Hv).
  rewrite Hj in Hutf. exists (string_bytes (http_response 200 (json_print j))).
  unfold handle_plain_connection. rewrite Hr, Hp. unfold route_bootstrap_request.
  change (path_no_query "/v1/bootstrap/cert-proof") with "/v1/bootstrap/cert-proof".
  rewrite bool_decide_eq_true_2 by done. rewrite Hj. split; [done|].
  rewrite fetched_answer by done. exact Hv.
Qed.

(** The certificate proof, against any answer: if the client accepts, the answer carried a
    signature under the server's key over exactly the fingerprint of the certificate it was
    presented. *)
Theorem cert_proof_sound `{Crypto} `{JsonText} `{!Sha256} (presented : list Z) (key : string)
    (raw : list Z) (fingerprint : string) :
  fetched_cert_proof presented key raw = Ok fingerprint ->
  fingerprint = compute_fingerprint presented /\
  exists pk sig, b64_decode key = Some pk /\
    ed_verify pk (string_bytes (compute_fingerprint presented)) sig = true.
Proof. intros (body & Hb)%fetched_cert_proof_Ok. by apply (verify_cert_proof_Ok _ _ body). Qed.

Module Sample.
#[local] Existing Instances AuthHandshake.Sample.crypto AuthHandshake.Sample.crypto_laws
  Json.Sample.json_text Json.Sample.json_laws WgServer.Sample.toml_peers.

(** Every text is a host without a port; the digest is the length. *)
#[local] Instance authority : Authority := fun s => Some (s, None).
#[local] Instance digest : Sha256 := fun l => [Z.of_nat (length l) mod 256].

Definition sk : list Z := AuthHandshake.Sample.sk.
Definition ctx : BootstrapContext :=
  {| server_identity := from_signing_key sk; tls_cert_der := Some [1; 2; 3];
     ctx_public_address := "vpn.example"; wireguard_keypair := None; wireguard_public_addr := None;
     wireguard_peer_lease_secs := 60; ctx_authorized_keys := AuthHandshake.Sample.keys |}.

(** The request in three reads. *)
Definition cut (l : list Z) : list (list Z) := [take 1 l; take 30 (drop 1 l); drop 31 l].

Lemma sample_ok method path :
  method = "GET" \/ method = "POST" -> no_char " " path = true -> no_char ":" path = true ->
  no_char "010" path = true -> no_char "013" path = true -> utf8_ok path ->
  request_ok method "vpn.example" path None.
Proof.
  intros. split; [done|done| |by split]. split_and!; [|reflexivity..].
  exists 118, 101. split_and!; (reflexivity || lia).
Qed.

Lemma json_utf8 j : utf8_ok (json_print j).
Proof.
  unfold utf8_ok. cbn [json_print Json.Sample.json_text]. induction (Json.Sample.shown_text j) as [|b l Hb _ IH]; [done|].
  cbn [utf8_valid]. unfold in_range. unfold Json.Sample.visible in Hb.
  by rewrite (proj2 (Z.leb_le 0 b)), (proj2 (Z.leb_le b 0x7F)) by lia.
Qed.

Lemma bootstrap_exchange_witness :
  exists response,
    handle_plain_connection ctx (Some 0)
      (Some <$> cut (string_bytes (build_http_request "GET" "vpn.example" "/v1/bootstrap/none" None)))
      None AuthHandshake.Sample.fs = (Finished (Ok (Answered response)), None, AuthHandshake.Sample.fs) /\
    extract_http_json_body response = Err BadStatus.
Proof.
  pose proof (bootstrap_exchange ctx (Some 0) "GET" "vpn.example" "/v1/bootstrap/none" None
    (cut (string_bytes (build_http_request "GET" "vpn.example" "/v1/bootstrap/none" None)))
    None AuthHandshake.Sample.fs) as Hx.
  destruct Hx as (response & Hr & He).
  - apply sample_ok; [by left|reflexivity..].
  - vm_compute. reflexivity.
  - repeat constructor; vm_compute; discriminate.
  - vm_compute. discriminate.
  - vm_compute. reflexivity.
  - exists response. split; [exact Hr|]. apply He. vm_compute. reflexivity.
Defined.

Lemma cert_proof_end_to_end_witness :
  exists response,
    handle_plain_connection ctx (Some 0) (Some <$> cut (string_bytes (cert_proof_request "vpn.example")))
      None AuthHandshake.Sample.fs = (Finished (Ok (Answered response)), None, AuthHandshake.Sample.fs) /\
    fetched_cert_proof [9; 9] (public_key_b64 (from_signing_key sk)) response = Err FingerprintMismatch.
Proof.
  destruct (cert_proof_end_to_end sk ctx [1; 2; 3] [9; 9] (Some 0) "vpn.example"
    (cut (string_bytes (cert_proof_request "vpn.example"))) None AuthHandshake.Sample.fs)
    as (response & Hr & He).
  - apply (bool_decide_unpack _). vm_compute. exact I.
  - reflexivity.
  - reflexivity.
  - reflexivity.
  - vm_compute. reflexivity.
  - apply sample_ok; [by left|reflexivity..].
  - vm_compute. reflexivity.
  - repeat constructor; vm_compute; discriminate.
  - vm_compute. discriminate.
  - exists response. split; [exact Hr|]. rewrite He. reflexivity.
Defined.

Lemma cert_proof_sound_witness :
  exists raw fingerprint,
    fetched_cert_proof [4; 5; 6] (public_key_b64 (from_signing_key sk)) raw = Ok fingerprint /\
    fingerprint = compute_fingerprint [4; 5; 6].
Proof.
  exists (string_bytes (http_response 200 (cert_proof_response ctx).2)), "sha256:03".
  assert (Hf : fetched_cert_proof [4; 5; 6] (public_key_b64 (from_signing_key sk))
    (string_bytes (http_response 200 (cert_proof_response ctx).2)) = Ok "sha256:03")
    by (vm_compute; reflexivity).
  split; [exact Hf|]. apply (cert_proof_sound _ _ _ _ Hf).
Defined.

(** A request whose body has a line that reads as an upgrade header is taken for a WebSocket. *)
Example upgrade_in_body :
  let request := build_http_request "POST" "h" "/v1/bootstrap/wireguard/peer"
    (Some ("{}" +:+ crlf +:+ "Upgrade: websocket")) in
  read_until_end_of_headers [Some (string_bytes request)] = Finished (Ok (string_bytes request, true)).
Proof. vm_compute. reflexivity. Qed.

(** A declared length of 2^64 - 1 wraps: the request counts as complete without its body. *)
Example content_length_wraps :
  let request := "POST / HTTP/1.1" +:+ crlf +:+ "Content-Length: 18446744073709551615" +:+ crlf2 in
  read_until_end_of_headers [Some (string_bytes request)] = Finished (Ok (string_bytes request, false)).
Proof. vm_compute. reflexivity. Qed.
End Sample.
