(* ===== verification/Pcap.v ===== *)
(** Packet captures: the PCAP file of the tunnel ([src/crates/bonded-server/src/tunnel_pcap.rs]) and the
    raw dump of bridged TCP data ([TcpBridgeDumpWriter] of
    [src/crates/bonded-server/src/smoltcp_forwarder.rs]).  Both append records to a file up to a limit;
    a reader of the two formats says what the files mean. *)

From stdpp Require Import base tactics list gmap strings.
From Stdlib Require Import ZArith Lia.
From S2P Require Import Prelude Words Text.
Open Scope Z_scope.

(** * Definitions *)

(** ** A file that grows up to a limit *)

(** [Inner] and [TcpBridgeDumpInner], with the contents of the file *)
Record Capture := {
  file : list Z;
  bytes_written : Z;
  max_bytes : Z;
  stopped_at_limit : bool
}.

(** [write_all]: everything, or an error after some bytes *)
Inductive write_result := Written | Torn (n : nat).

Definition write_all (w : write_result) (bytes f : list Z) : bool * list Z :=
  match w with
  | Written => (true, f ++ bytes)
  | Torn n => (false, f ++ take n bytes)
  end.

Definition with_file (f : list Z) (c : Capture) : Capture :=
  {| file := f; bytes_written := bytes_written c; max_bytes := max_bytes c;
     stopped_at_limit := stopped_at_limit c |}.

(** The common part of [log_packet] and [record], once the lock is taken. *)
Definition append_record (record_len : Z) (header payload : list Z) (w1 w2 : write_result) (c : Capture)
  : Capture :=
  if max_bytes c <? saturating_add 64 (bytes_written c) record_len then
    {| file := file c; bytes_written := bytes_written c; max_bytes := max_bytes c; stopped_at_limit := true |}
  else
    let (ok, f) := write_all w1 header (file c) in
    if negb ok then with_file f c
    else
      let (ok, f) := write_all w2 payload f in
      if negb ok then with_file f c
      else {| file := f; bytes_written := saturating_add 64 (bytes_written c) record_len;
              max_bytes := max_bytes c; stopped_at_limit := stopped_at_limit c |}.

(** The limit: megabytes, not zero, in bytes within 64 bits *)
Inductive LimitError := NotANumber | Zero | Overflow | CannotCreate.

Definition parse_limit (value : string) : outcome LimitError Z :=
  max_mb ← ok_or NotANumber (parse_unsigned 64 (trim value));
  if max_mb =? 0 then Err Zero else ok_or Overflow (checked_mul 64 max_mb (1024 * 1024)).

(** ** The PCAP file *)

Definition PCAP_GLOBAL_HEADER_LEN : nat := 24.
Definition PCAP_RECORD_HEADER_LEN : nat := 16.

Definition build_global_header : list Z :=
  le_bytes 4 0xa1b2c3d4 ++ le_bytes 2 2 ++ le_bytes 2 4 ++ le_bytes 4 0 ++ le_bytes 4 0
  ++ le_bytes 4 65535 ++ le_bytes 4 101.

Definition build_record_header (ts_sec ts_usec incl_len orig_len : Z) : list Z :=
  le_bytes 4 ts_sec ++ le_bytes 4 ts_usec ++ le_bytes 4 incl_len ++ le_bytes 4 orig_len.

(** The clock: seconds and microseconds since the epoch, none before it. *)
Definition current_pcap_timestamp (now : option (Z * Z)) : Z * Z :=
  let (secs, usecs) := default (0, 0) now in (cast_u 32 secs, usecs).

(** [TunnelPcapLogger::from_env]: [created] tells whether directory, file and header could be written. *)
Definition from_env (value : option string) (created : bool) : outcome LimitError (option Capture) :=
  match value with
  | None => Ok None
  | Some value =>
      max ← parse_limit value;
      if created then
        Ok (Some {| file := build_global_header; bytes_written := Z.of_nat PCAP_GLOBAL_HEADER_LEN;
                    max_bytes := max; stopped_at_limit := false |})
      else Err CannotCreate
  end.

Definition log_packet (now : option (Z * Z)) (w1 w2 : write_result) (packet : list Z) (c : Capture)
  : Capture :=
  match packet with
  | [] => c
  | _ =>
      match checked_add 64 (Z.of_nat PCAP_RECORD_HEADER_LEN) (Z.of_nat (length packet)) with
      | None => c
      | Some record_len =>
          let (secs, usecs) := current_pcap_timestamp now in
          let n := cast_u 32 (Z.of_nat (length packet)) in
          append_record record_len (build_record_header secs usecs n n) packet w1 w2 c
      end
  end.

(** ** The dump of bridged TCP data *)

Inductive TcpBridgeDumpDirection := SmoltcpToRemote | RemoteToSmoltcp.

Definition direction_byte (d : TcpBridgeDumpDirection) : Z :=
  match d with SmoltcpToRemote => 1 | RemoteToSmoltcp => 2 end.

(** "BNDBRDG1" *)
Definition dump_magic : list Z := string_bytes "BNDBRDG1".

(** [TcpBridgeDumpWriter::from_env]: any problem leaves the dump disabled. *)
Definition dump_from_env (value : option string) (created : bool) : option Capture :=
  value ← value;
  max ← ok_option (parse_limit value);
  if created then
    Some {| file := dump_magic; bytes_written := 8; max_bytes := max; stopped_at_limit := false |}
  else None.

Definition dump_header (ts_micros session_id conn_id : Z) (d : TcpBridgeDumpDirection) (n : Z) : list Z :=
  le_bytes 8 ts_micros ++ le_bytes 8 session_id ++ le_bytes 4 conn_id ++ [direction_byte d]
  ++ replicate 3 0 ++ le_bytes 4 n ++ replicate 4 0.

Definition record (now : option (Z * Z)) (session_id conn_id : Z) (d : TcpBridgeDumpDirection)
    (w1 w2 : write_result) (payload : list Z) (c : Capture) : Capture :=
  match payload with
  | [] => c
  | _ =>
      let (secs, usecs) := default (0, 0) now in
      let ts_micros := cast_u 64 (secs * 1000000 + usecs) in
      let n := Z.of_nat (length payload) in
      append_record (saturating_add 64 32 n)
        (dump_header ts_micros session_id conn_id d (cast_u 32 n)) payload w1 w2 c
  end.

(** ** What the files mean: a reader *)

Section reader.
Context {M : Type}.
(** The length of a record header, and what it says: its fields and the length of the payload. *)
Variables (hlen : nat) (decode : list Z -> M * nat).

Fixpoint read_records (fuel : nat) (l : list Z) : option (list (M * list Z)) :=
  match l with
  | [] => Some []
  | _ =>
      match fuel with
      | O => None
      | S fuel =>
          let header := take hlen l in
          let (m, n) := decode header in
          let payload := take n (drop hlen l) in
          if (length header =? hlen)%nat && (length payload =? n)%nat then
            rs ← read_records fuel (drop (hlen + n) l); Some ((m, payload) :: rs)
          else None
      end
  end.
End reader.

Definition decode_pcap (h : list Z) : (Z * Z) * nat :=
  ((le_val (take 4 h), le_val (take 4 (drop 4 h))), Z.to_nat (le_val (take 4 (drop 8 h)))).

(** Time stamps and packets *)
Definition read_pcap (f : list Z) : option (list ((Z * Z) * list Z)) :=
  if decide (take 24 f = build_global_header) then
    read_records PCAP_RECORD_HEADER_LEN decode_pcap (length f) (drop 24 f)
  else None.

Definition decode_dump (h : list Z) : (Z * Z * Z * Z) * nat :=
  ((le_val (take 8 h), le_val (take 8 (drop 8 h)), le_val (take 4 (drop 16 h)),
    le_val (take 1 (drop 20 h))), Z.to_nat (le_val (take 4 (drop 24 h)))).

(** Time, session, connection and direction with the data *)
Definition read_dump (f : list Z) : option (list ((Z * Z * Z * Z) * list Z)) :=
  if decide (take 8 f = dump_magic) then read_records 32 decode_dump (length f) (drop 8 f) else None.

(** The items that are kept under a limit, each with [overhead] bytes more than its payload: one that no
    longer fits is skipped, a later one that fits is kept. *)
Fixpoint kept {A} (payload : A -> list Z) (overhead used limit : Z) (xs : list A) : list A :=
  match xs with
  | [] => []
  | x :: xs =>
      let n := Z.of_nat (length (payload x)) in
      if (n =? 0) || (limit <? used + overhead + n) then kept payload overhead used limit xs
      else x :: kept payload overhead (used + overhead + n) limit xs
  end.

(** * Lemmas *)

Section reader_lemmas.
Context {M : Type} (hlen : nat) (decode : list Z -> M * nat) (Hpos : (0 < hlen)%nat).

Lemma read_records_app fuel header payload l m rs :
  length header = hlen -> decode header = (m, length payload) ->
  read_records hlen decode fuel l = Some rs ->
  read_records hlen decode (S fuel) (header ++ payload ++ l) = Some ((m, payload) :: rs).
Proof.
  intros Hh Hd Hl. destruct (header ++ payload ++ l) as [|b bs] eqn:He.
  { destruct header; [cbn in Hh; lia|done]. }
  cbn [read_records]. rewrite <- He. rewrite (take_app_length' header) by done.
  rewrite (drop_app_length' header) by done. rewrite Hd, take_app_length, Hh, !Nat.eqb_refl. cbn [andb].
  rewrite (assoc_L app), drop_app_length' by (rewrite length_app; lia). by rewrite Hl.
Qed.

(** Records read back in order; a byte of fuel for each byte is enough. *)
Lemma read_records_all {A} (header payload : A -> list Z) (meta : A -> M) xs fuel :
  (forall x, x ∈ xs -> length (header x) = hlen /\ decode (header x) = (meta x, length (payload x))) ->
  (length (concat ((fun x => header x ++ payload x) <$> xs)) <= fuel)%nat ->
  read_records hlen decode fuel (concat ((fun x => header x ++ payload x) <$> xs)) =
  Some ((fun x => (meta x, payload x)) <$> xs).
Proof.
  revert fuel. induction xs as [|x xs IH]; intros fuel Hx Hf; [by destruct fuel|].
  rewrite !fmap_cons in *. cbn [concat] in *. destruct (Hx x ltac:(left)) as [Hl Hd].
  rewrite !length_app, Hl in Hf. destruct fuel as [|fuel]; [lia|]. rewrite <- (assoc_L app).
  apply read_records_app; [done|done|]. apply IH; [|lia].
  intros y Hy. apply Hx. by right.
Qed.
End reader_lemmas.

Lemma append_record_fits n header payload c :
  n = Z.of_nat (length header + length payload) -> 0 <= bytes_written c -> max_bytes c < 2 ^ 64 - 1 ->
  append_record n header payload Written Written c =
  if max_bytes c <? bytes_written c + n then
    {| file := file c; bytes_written := bytes_written c; max_bytes := max_bytes c; stopped_at_limit := true |}
  else {| file := file c ++ header ++ payload; bytes_written := bytes_written c + n;
          max_bytes := max_bytes c; stopped_at_limit := stopped_at_limit c |}.
Proof.
  intros Hn Hb Hm. unfold append_record, saturating_add.
  destruct (Z.ltb_spec (max_bytes c) (bytes_written c + n)) as [Hl|Hl].
  - by rewrite (proj2 (Z.ltb_lt _ _)) by lia.
  - rewrite (proj2 (Z.ltb_ge _ _)) by lia. cbn [write_all negb].
    rewrite (assoc_L app), Z.min_l by lia. done.
Qed.

(** A logger whose writes succeed: the file grows by the records of what is kept. *)
Lemma capture_run {A} (payload header : A -> list Z) (overhead : Z) (log : A -> Capture -> Capture) xs c :
  (forall x, x ∈ xs -> Z.of_nat (length (header x)) = overhead) ->
  (forall x c, x ∈ xs -> payload x = [] -> log x c = c) ->
  (forall x c, x ∈ xs -> payload x <> [] ->
     log x c = append_record (overhead + Z.of_nat (length (payload x))) (header x) (payload x) Written Written c) ->
  0 <= bytes_written c <= max_bytes c -> max_bytes c < 2 ^ 64 - 1 ->
  let c' := foldl (fun c x => log x c) c xs in
  let new := concat ((fun x => header x ++ payload x) <$>
                     kept payload overhead (bytes_written c) (max_bytes c) xs) in
  file c' = file c ++ new /\ bytes_written c' = bytes_written c + Z.of_nat (length new) /\
  bytes_written c' <= max_bytes c.
Proof.
  revert c. induction xs as [|x xs IH]; intros c Hh He Hl Hb Hm; cbn [foldl kept].
  { cbn. rewrite app_nil_r. split_and!; [done|lia|lia]. }
  assert (Hi : forall c, 0 <= bytes_written c <= max_bytes c -> max_bytes c < 2 ^ 64 - 1 ->
    let c' := foldl (fun c x => log x c) c xs in
    let new := concat ((fun x => header x ++ payload x) <$>
                       kept payload overhead (bytes_written c) (max_bytes c) xs) in
    file c' = file c ++ new /\ bytes_written c' = bytes_written c + Z.of_nat (length new) /\
    bytes_written c' <= max_bytes c).
  { intros d. apply IH; [intros y Hy; apply Hh; by right|intros y d' Hy; apply He; by right|
                         intros y d' Hy; apply Hl; by right]. }
  destruct (payload x) as [|b p] eqn:Hp.
  { rewrite (He x c ltac:(left) Hp). cbn [length Z.of_nat Z.eqb orb]. by apply Hi. }
  rewrite (Hl x c ltac:(left)) by (by rewrite Hp). rewrite <- Hp in *.
  rewrite append_record_fits by (try lia; rewrite Nat2Z.inj_add, (Hh x ltac:(left)); done).
  assert (Hlen : Z.of_nat (length (payload x)) <> 0) by (rewrite Hp; cbn; lia).
  rewrite (proj2 (Z.eqb_neq _ _) Hlen). cbn [orb]. rewrite Z.add_assoc.
  destruct (Z.ltb_spec (max_bytes c) (bytes_written c + overhead + Z.of_nat (length (payload x)))) as [Hlt|Hge].
  - by apply (Hi {| file := file c; bytes_written := bytes_written c; max_bytes := max_bytes c;
                    stopped_at_limit := true |}).
  - pose proof (Hh x ltac:(left)) as Hx.
    destruct (Hi {| file := file c ++ header x ++ payload x;
      bytes_written := bytes_written c + overhead + Z.of_nat (length (payload x)); max_bytes := max_bytes c;
      stopped_at_limit := stopped_at_limit c |}) as (Hf & Hw & Hmx); cbn [bytes_written max_bytes]; [lia|lia|].
    cbn [file bytes_written max_bytes] in Hf, Hw, Hmx. cbn [fmap list_fmap concat].
    rewrite Hf, Hw. split_and!.
    + by rewrite <- !(assoc_L app).
    + rewrite !length_app. lia.
    + by rewrite <- Hw.
Qed.

Lemma le_field n z l : 0 <= z < 256 ^ Z.of_nat n -> le_val (take n (le_bytes n z ++ l)) = z.
Proof.
  intros Hz. rewrite take_app_length' by (by rewrite length_le_bytes). rewrite le_val_bytes. by apply Z.mod_small.
Qed.

Lemma le_field_last n z : 0 <= z < 256 ^ Z.of_nat n -> le_val (take n (le_bytes n z)) = z.
Proof. intros Hz. rewrite <- (app_nil_r (le_bytes n z)). by apply le_field. Qed.

Lemma decode_record_header s u n :
  in_u 32 s -> in_u 32 u -> in_u 32 (Z.of_nat n) ->
  length (build_record_header s u (Z.of_nat n) (Z.of_nat n)) = 16%nat /\
  decode_pcap (build_record_header s u (Z.of_nat n) (Z.of_nat n)) = ((s, u), n).
Proof.
  unfold in_u. intros Hs Hu Hn. unfold build_record_header, decode_pcap.
  split; [by rewrite !length_app, !length_le_bytes|].
  rewrite le_field by done. rewrite (drop_app_length' (le_bytes 4 s)) by (by rewrite length_le_bytes).
  rewrite le_field by done. rewrite (assoc_L app (le_bytes 4 s)).
  rewrite (drop_app_length' (le_bytes 4 s ++ le_bytes 4 u)) by by rewrite length_app, !length_le_bytes.
  rewrite le_field by done. by rewrite Nat2Z.id.
Qed.

Lemma direction_byte_le d : [direction_byte d] = le_bytes 1 (direction_byte d).
Proof. by destruct d. Qed.

Lemma decode_dump_header t s k d n :
  in_u 64 t -> in_u 64 s -> in_u 32 k -> in_u 32 (Z.of_nat n) ->
  length (dump_header t s k d (Z.of_nat n)) = 32%nat /\
  decode_dump (dump_header t s k d (Z.of_nat n)) = ((t, s, k, direction_byte d), n).
Proof.
  unfold in_u. intros Ht Hs Hk Hn. unfold dump_header, decode_dump.
  split; [by rewrite !length_app, !length_le_bytes|]. rewrite direction_byte_le.
  assert (Hd : 0 <= direction_byte d < 256 ^ Z.of_nat 1) by (destruct d; cbn; lia).
  rewrite le_field by done. rewrite (drop_app_length' (le_bytes 8 t)) by (by rewrite length_le_bytes).
  rewrite le_field by done. rewrite (assoc_L app (le_bytes 8 t)).
  rewrite (drop_app_length' (le_bytes 8 t ++ le_bytes 8 s)) by by rewrite length_app, !length_le_bytes.
  rewrite le_field by done. rewrite (assoc_L app (le_bytes 8 t ++ _)).
  rewrite (drop_app_length' ((le_bytes 8 t ++ le_bytes 8 s) ++ le_bytes 4 k))
    by by rewrite !length_app, !length_le_bytes.
  rewrite le_field by done. rewrite (assoc_L app ((_ ++ _) ++ _)), (assoc_L app (((_ ++ _) ++ _) ++ _)).
  rewrite (drop_app_length' ((((le_bytes 8 t ++ le_bytes 8 s) ++ le_bytes 4 k) ++ le_bytes 1 (direction_byte d)) ++ replicate 3 0))
    by by rewrite !length_app, !length_le_bytes.
  rewrite le_field by done. by rewrite Nat2Z.id.
Qed.

(** A limit is a whole number of megabytes. *)
Lemma parse_limit_range value max : parse_limit value = Ok max -> 2 ^ 20 <= max < 2 ^ 64 - 1.
Proof.
  unfold parse_limit. destruct (parse_unsigned 64 (trim value)) as [mb|] eqn:Hp; [|done].
  cbn [ok_or mbind outcome_bind]. destruct (Z.eqb_spec mb 0); [done|].
  apply parse_unsigned_in_u in Hp as [Hmb _].
  unfold checked_mul. case_decide as Hd; [|done]. intros [= <-]. unfold in_u in Hd. lia.
Qed.

Lemma kept_elem {A} (payload : A -> list Z) o u l xs x : x ∈ kept payload o u l xs -> x ∈ xs.
Proof.
  revert u. induction xs as [|y xs IH]; intros u; cbn [kept]; [done|].
  destruct (_ || _); [intros Hx%IH; by right|]. intros [->|Hx]%elem_of_cons; [by left|right; by eapply IH].
Qed.

(** * Properties *)

(** What may be logged: a length that fits the header, a clock with microseconds. *)
Definition packet_ok (x : option (Z * Z) * list Z) : Prop :=
  len x.2 < 2 ^ 32 /\ 0 <= snd (default (0, 0) x.1) < 1000000.

(** The capture file can be read: after any packets, when no write fails, a PCAP reader finds
    exactly the packets that fitted under the limit, in order and with their time stamps; the count of
    bytes is the size of the file, which never exceeds the limit. *)
Theorem capture_readable (value : string) (c0 : Capture) (xs : list (option (Z * Z) * list Z)) :
  from_env (Some value) true = Ok (Some c0) -> Forall packet_ok xs ->
  let c := foldl (fun c x => log_packet x.1 Written Written x.2 c) c0 xs in
  read_pcap (file c) = Some ((fun x => (current_pcap_timestamp x.1, x.2)) <$>
                             kept snd 16 24 (max_bytes c0) xs) /\
  bytes_written c = len (file c) /\ len (file c) <= max_bytes c0.
Proof.
  unfold from_env. destruct (parse_limit value) as [max| |] eqn:Hl; [|done..]. cbn [mbind outcome_bind].
  intros [= <-] Hok. apply parse_limit_range in Hl. rewrite Forall_forall in Hok.
  set (header := fun x : option (Z * Z) * list Z =>
    let '(s, u) := current_pcap_timestamp x.1 in build_record_header s u (len x.2) (len x.2)).
  assert (Hd : forall x, packet_ok x -> length (header x) = 16%nat /\
    decode_pcap (header x) = (current_pcap_timestamp x.1, length x.2)).
  { intros [now p] [Hp Hu]. unfold header, current_pcap_timestamp in *. cbn [fst snd] in *.
    destruct (default (0, 0) now) as [s u]. apply decode_record_header.
    - by apply cast_u_in_u.
    - cbn in Hu. unfold in_u. lia.
    - unfold in_u. lia. }
  destruct (capture_run (A := option (Z * Z) * list Z) snd header 16
    (fun x => log_packet x.1 Written Written x.2) xs
    {| file := build_global_header; bytes_written := Z.of_nat PCAP_GLOBAL_HEADER_LEN; max_bytes := max;
       stopped_at_limit := false |}) as (Hf & Hw & Hm); cbn [bytes_written max_bytes]; [..|lia|].
  - intros x Hx. by rewrite (proj1 (Hd x (Hok x Hx))).
  - intros x c Hx Hp. unfold log_packet. by rewrite Hp.
  - intros x c Hx Hp. unfold log_packet. destruct (x.2) as [|b p] eqn:He; [done|].
    destruct (Hok x Hx) as [Hlen _]. rewrite He in Hlen. unfold checked_add.
    change (Z.of_nat PCAP_RECORD_HEADER_LEN) with 16. rewrite decide_True by lia. unfold header. rewrite He.
    destruct (current_pcap_timestamp x.1). by rewrite cast_u_small by (unfold in_u; lia).
  - unfold PCAP_GLOBAL_HEADER_LEN; lia.
  - cbn [file bytes_written max_bytes] in Hf, Hw, Hm. cbn zeta. split_and!.
    + rewrite Hf. unfold read_pcap. rewrite take_app_length' by done. rewrite decide_True by done.
      rewrite drop_app_length' by done. apply read_records_all; [unfold PCAP_RECORD_HEADER_LEN; lia| |].
      * intros x Hx%kept_elem. by apply Hd, Hok.
      * rewrite length_app. apply Nat.le_add_l.
    + rewrite Hw, Hf, length_app. change (length build_global_header) with PCAP_GLOBAL_HEADER_LEN. lia.
    + rewrite Hf, length_app. change (length build_global_header) with PCAP_GLOBAL_HEADER_LEN. lia.
Qed.

(** What is dumped: time, session, connection, direction and data. *)
Abbreviation dumped := (option (Z * Z) * Z * Z * TcpBridgeDumpDirection * list Z)%type.
Definition dump_one (x : dumped) : Capture -> Capture :=
  let '(now, s, k, d, p) := x in record now s k d Written Written p.
Definition dump_meta (x : dumped) : Z * Z * Z * Z :=
  let '(now, s, k, d, _) := x in
  let '(secs, usecs) := default (0, 0) now in (cast_u 64 (secs * 1000000 + usecs), s, k, direction_byte d).
Definition dump_ok (x : dumped) : Prop :=
  let '(_, s, k, _, p) := x in in_u 64 s /\ in_u 32 k /\ len p < 2 ^ 32.

(** The dump of bridged data reads back in the same way: what fitted, with session, connection and
    direction. *)
Theorem dump_readable (value : string) (c0 : Capture) (xs : list dumped) :
  dump_from_env (Some value) true = Some c0 -> Forall dump_ok xs ->
  let c := foldl (fun c x => dump_one x c) c0 xs in
  read_dump (file c) = Some ((fun x => (dump_meta x, x.2)) <$> kept snd 32 8 (max_bytes c0) xs) /\
  bytes_written c = len (file c) /\ len (file c) <= max_bytes c0.
Proof.
  unfold dump_from_env. cbn [mbind option_bind]. destruct (parse_limit value) as [max| |] eqn:Hl; [|done..].
  cbn [ok_option mbind option_bind]. intros [= <-] Hok. apply parse_limit_range in Hl. rewrite Forall_forall in Hok.
  set (header := fun x : dumped =>
    let '(t, s, k, _) := dump_meta x in dump_header t s k (snd x.1) (len x.2)).
  assert (Hd : forall x, dump_ok x -> length (header x) = 32%nat /\
    decode_dump (header x) = (dump_meta x, length x.2)).
  { intros [[[[now s] k] d] p] (Hs & Hk & Hp). unfold header, dump_meta. cbn [fst snd].
    destruct (default (0, 0) now) as [secs u]. apply decode_dump_header; [by apply cast_u_in_u|done|done|].
    unfold in_u. lia. }
  destruct (capture_run (A := dumped) snd header 32 dump_one xs
    {| file := dump_magic; bytes_written := 8; max_bytes := max; stopped_at_limit := false |})
    as (Hf & Hw & Hm); cbn [bytes_written max_bytes]; [..|lia|lia|].
  - intros x Hx. by rewrite (proj1 (Hd x (Hok x Hx))).
  - intros [[[[now s] k] d] p] c Hx Hp. cbn in Hp. unfold dump_one, record. by rewrite Hp.
  - intros [[[[now s] k] d] p] c Hx Hp. destruct (Hok _ Hx) as (_ & _ & Hlen). cbn [snd] in *.
    unfold dump_one, record, header, dump_meta. cbn [fst snd]. destruct p as [|b p]; [done|].
    destruct (default (0, 0) now) as [secs u]. rewrite saturating_add_exact by (unfold in_u; lia).
    by rewrite (cast_u_small 32) by (unfold in_u; lia).
  - cbn [file bytes_written max_bytes] in Hf, Hw, Hm. cbn zeta. split_and!.
    + rewrite Hf. unfold read_dump. rewrite take_app_length' by done. rewrite decide_True by done.
      rewrite drop_app_length' by done. apply read_records_all; [lia| |].
      * intros x Hx%kept_elem. by apply Hd, Hok.
      * rewrite length_app. apply Nat.le_add_l.
    + rewrite Hw, Hf, length_app. change (length dump_magic) with 8%nat. lia.
    + rewrite Hf, length_app. change (length dump_magic) with 8%nat. lia.
Qed.

(** ** Witnesses *)

Module Sample.
Definition packets : list (option (Z * Z) * list Z) := [(Some (1, 2), [69; 0]); (None, []); (None, [70])].

Lemma capture_readable_witness :
  exists c0, from_env (Some " 1 ") true = Ok (Some c0) /\
    read_pcap (file (foldl (fun c x => log_packet x.1 Written Written x.2 c) c0 packets)) =
    Some [((1, 2), [69; 0]); ((0, 0), [70])].
Proof.
  eexists. split; [reflexivity|].
  destruct (capture_readable " 1 " {| file := build_global_header; bytes_written := 24; max_bytes := 1048576;
    stopped_at_limit := false |} packets) as [Hr _].
  - reflexivity.
  - repeat constructor; cbn; lia.
  - exact Hr.
Defined.

Lemma dump_readable_witness :
  exists c0, dump_from_env (Some "1") true = Some c0 /\
    read_dump (file (dump_one (None, 7, 8, RemoteToSmoltcp, [1; 2]) c0)) = Some [((0, 7, 8, 2), [1; 2])].
Proof.
  eexists. split; [reflexivity|].
  destruct (dump_readable "1" {| file := dump_magic; bytes_written := 8; max_bytes := 1048576;
    stopped_at_limit := false |} [(None, 7, 8, RemoteToSmoltcp, [1; 2])]) as [Hr _].
  - reflexivity.
  - repeat constructor; cbn; lia.
  - exact Hr.
Defined.

Definition tight (max : Z) : Capture :=
  {| file := build_global_header; bytes_written := 24; max_bytes := max; stopped_at_limit := false |}.

(** After the limit was reported a smaller packet is still logged. *)
Example logged_after_stop :
  let c := log_packet None Written Written [1; 2; 3] (tight 42) in
  stopped_at_limit c = true /\
  read_pcap (file (log_packet None Written Written [1; 2] c)) = Some [((0, 0), [1; 2])].
Proof. vm_compute. done. Qed.

(** A write that fails half-way leaves half a record, which is not counted: the records after it can no
    longer be read, and the file grows past its limit. *)
Example torn_write :
  let c := log_packet None Written (Torn 1) [1; 2; 3] (tight 60) in
  let c := log_packet None Written Written [4; 5; 6] c in
  read_pcap (file c) = None /\ bytes_written c = 43 /\ len (file c) = 60 /\
  len (file (log_packet None Written Written [7] c)) = 77.
Proof. vm_compute. done. Qed.
End Sample.
