(* ===== verification/NetAddr.v ===== *)
(** Internet addresses and their texts: [std::net::IpAddr] and [SocketAddr] with the parser and the
    printer of the standard library, and the uses the program makes of them
    ([src/crates/bonded-client/src/lib.rs]: [split_host_port], [parse_bind_ip],
    [local_wildcard_bind_addr_for]). *)

From stdpp Require Import base tactics list gmap strings pretty.
From Stdlib Require Import ZArith Lia Ascii.
From S2P Require Import Prelude Words Text Packet.
Open Scope Z_scope.

(** * Definitions *)

(** [Ipv4Addr] by its octets, [Ipv6Addr] by its eight 16-bit segments. *)
Inductive IpAddr := V4 (a : Ipv4Addr) | V6 (segments : list Z).

Record SocketAddr := { ip : IpAddr; port : Z }.

Definition is_unspecified (a : IpAddr) : bool :=
  match a with
  | V4 a => bool_decide (a = (0, 0, 0, 0))
  | V6 s => bool_decide (s = replicate 8 0)
  end.

(** 127.0.0.0/8 and ::1 *)
Definition is_loopback (a : IpAddr) : bool :=
  match a with
  | V4 (a, _, _, _) => a =? 127
  | V6 s => bool_decide (s = replicate 7 0 ++ [1])
  end.

(** ** Reading: a reader consumes a prefix of the text or fails *)

Abbreviation reader A := (string -> option (A * string)).

Definition read_given (c : ascii) : reader unit := fun s =>
  match s with
  | String a s => if decide (a = c) then Some (tt, s) else None
  | EmptyString => None
  end.

(** [char::to_digit(radix)] for the radices 10 and 16 *)
Definition to_digit (radix : Z) (a : ascii) : option Z :=
  let n := Z.of_N (N_of_ascii a) in
  if in_range 48 57 n then Some (n - 48)
  else if radix =? 16 then
    if in_range 97 102 n then Some (n - 87) else if in_range 65 70 n then Some (n - 55) else None
  else None.

(** The longest run of digits: its value, its length and what follows. *)
Fixpoint read_digits (radix acc : Z) (count : nat) (s : string) : Z * nat * string :=
  match s with
  | EmptyString => (acc, count, s)
  | String a s' =>
      match to_digit radix a with
      | Some d => read_digits radix (radix * acc + d) (S count) s'
      | None => (acc, count, s)
      end
  end.

(** [read_number(radix, max_digits, allow_zero_prefix)] into an unsigned type of [w] bits *)
Definition read_number (w radix : Z) (max_digits : option nat) (allow_zero_prefix : bool)
  : reader Z := fun s =>
  let '(z, count, rest) := read_digits radix 0 0 s in
  let too_long := match max_digits with Some m => (m <? count)%nat | None => false end in
  let zero_prefix := negb allow_zero_prefix && starts_with "0" s && (1 <? count)%nat in
  if (count =? 0)%nat || too_long || zero_prefix || (2 ^ w <=? z) then None else Some (z, rest).

(** [read_separator(sep, index, inner)]: the separator before every element but the first *)
Definition read_separator {A} (sep : ascii) (index : nat) (inner : reader A) : reader A := fun s =>
  match index with
  | O => inner s
  | _ => '(_, s) ← read_given sep s; inner s
  end.

Definition read_octet (index : nat) : reader Z :=
  read_separator "." index (read_number 8 10 (Some 3%nat) false).

Definition read_ipv4_addr : reader Ipv4Addr := fun s =>
  '(a, s) ← read_octet 0 s; '(b, s) ← read_octet 1 s; '(c, s) ← read_octet 2 s;
  '(d, s) ← read_octet 3 s; Some ((a, b, c, d), s).

(** [read_groups]: at most [limit] groups from group [index] on, the last two of which may be written
    as an IPv4 address; whether they were, and what follows. *)
Fixpoint read_groups (limit index : nat) (s : string) : list Z * bool * string :=
  match limit with
  | O => ([], false, s)
  | S limit =>
      match (if (0 <? limit)%nat then read_separator ":" index read_ipv4_addr s else None) with
      | Some ((a, b, c, d), s) => ([256 * a + b; 256 * c + d], true, s)
      | None =>
          match read_separator ":" index (read_number 16 16 (Some 4%nat) true) s with
          | Some (g, s) => let '(gs, v4, s) := read_groups limit (S index) s in (g :: gs, v4, s)
          | None => ([], false, s)
          end
      end
  end.

Definition read_ipv6_addr : reader (list Z) := fun s =>
  let '(hd, hd_v4, s) := read_groups 8 0 s in
  if (length hd =? 8)%nat then Some (hd, s)
  else if hd_v4 then None
  else
    '(_, s) ← read_given ":" s; '(_, s) ← read_given ":" s;
    let '(tl, _, s) := read_groups (7 - length hd) 0 s in
    Some (hd ++ replicate (8 - length hd - length tl) 0 ++ tl, s).

(** The whole text has to be read. *)
Definition parse_with {A} (r : reader A) (s : string) : option A :=
  match r s with
  | Some (a, EmptyString) => Some a
  | _ => None
  end.

(** [str::parse::<Ipv4Addr>] refuses more than 15 bytes at once. *)
Definition parse_ipv4 (s : string) : option Ipv4Addr :=
  if (15 <? String.length s)%nat then None else parse_with read_ipv4_addr s.

Definition read_ip_addr : reader IpAddr := fun s =>
  match read_ipv4_addr s with
  | Some (a, s) => Some (V4 a, s)
  | None => '(a, s) ← read_ipv6_addr s; Some (V6 a, s)
  end.

Definition parse_ip_addr (s : string) : option IpAddr := parse_with read_ip_addr s.

Definition read_port : reader Z := fun s =>
  '(_, s) ← read_given ":" s; read_number 16 10 None true s.

(** [%scope] of an IPv6 socket address, which the program does not use *)
Definition read_scope_id (s : string) : string :=
  match ('(_, s) ← read_given "%" s; read_number 32 10 None true s) with
  | Some (_, s) => s
  | None => s
  end.

Definition read_socket_addr : reader SocketAddr := fun s =>
  match ('(a, s) ← read_ipv4_addr s; '(p, s) ← read_port s;
         Some ({| ip := V4 a; port := p |}, s)) with
  | Some r => Some r
  | None =>
      '(_, s) ← read_given "[" s; '(a, s) ← read_ipv6_addr s;
      '(_, s) ← read_given "]" (read_scope_id s); '(p, s) ← read_port s;
      Some ({| ip := V6 a; port := p |}, s)
  end.

Definition parse_socket_addr (s : string) : option SocketAddr := parse_with read_socket_addr s.

(** ** Printing *)

Definition print_ipv4 (a : Ipv4Addr) : string :=
  let '(a, b, c, d) := a in
  pretty a +:+ "." +:+ pretty b +:+ "." +:+ pretty c +:+ "." +:+ pretty d.

(** [{:x}] of a 16-bit number *)
Definition print_hex (z : Z) : string :=
  let digit d := String (ascii_of_N (Z.to_N (if d <? 10 then 48 + d else 87 + d))) EmptyString in
  let ds := [z / 4096 mod 16; z / 256 mod 16; z / 16 mod 16; z mod 16] in
  let fix go (ds : list Z) : string :=
    match ds with
    | [] => EmptyString
    | [d] => digit d
    | d :: ds => if d =? 0 then go ds else foldr (fun d s => digit d +:+ s) EmptyString (d :: ds)
    end in go ds.

Fixpoint print_groups (gs : list Z) : string :=
  match gs with
  | [] => EmptyString
  | [g] => print_hex g
  | g :: gs => print_hex g +:+ ":" +:+ print_groups gs
  end.

(** The first longest run of zero segments: its start and its length. *)
Fixpoint longest_zeros (i : nat) (current longest : nat * nat) (gs : list Z) : nat * nat :=
  match gs with
  | [] => longest
  | g :: gs =>
      if g =? 0 then
        let current := (if (current.2 =? 0)%nat then i else current.1, S current.2) in
        longest_zeros (S i) current (if (longest.2 <? current.2)%nat then current else longest) gs
      else longest_zeros (S i) (0%nat, 0%nat) longest gs
  end.

Definition print_ipv6 (gs : list Z) : string :=
  match gs with
  | [0; 0; 0; 0; 0; 65535; g; h] =>
      "::ffff:" +:+ print_ipv4 (g / 256, g mod 256, h / 256, h mod 256)
  | _ =>
      let (start, n) := longest_zeros 0 (0%nat, 0%nat) (0%nat, 0%nat) gs in
      if (1 <? n)%nat then print_groups (take start gs) +:+ "::" +:+ print_groups (drop (start + n) gs)
      else print_groups gs
  end.

Definition print_ip_addr (a : IpAddr) : string :=
  match a with V4 a => print_ipv4 a | V6 gs => print_ipv6 gs end.

Definition print_socket_addr (a : SocketAddr) : string :=
  match ip a with
  | V4 i => print_ipv4 i +:+ ":" +:+ pretty (port a)
  | V6 gs => "[" +:+ print_ipv6 gs +:+ "]:" +:+ pretty (port a)
  end.

(** ** Uses in the client *)

Inductive AddrError := BadBrackets | MissingPort | BadPort | NotHostPort | BadBindAddress | Unresolved.

(** [str::rsplit_once(char)] *)
Fixpoint rsplit_once (c : ascii) (s : string) : option (string * string) :=
  match s with
  | EmptyString => None
  | String a s =>
      match rsplit_once c s with
      | Some (before, after) => Some (String a before, after)
      | None => if decide (a = c) then Some (EmptyString, s) else None
      end
  end.

Definition split_host_port (address : string) : outcome AddrError (string * Z) :=
  match strip_prefix "[" address with
  | Some stripped =>
      '(host, rest) ← ok_or BadBrackets (split_once "]" stripped);
      rest ← ok_or MissingPort (strip_prefix ":" rest);
      port ← ok_or BadPort (parse_unsigned 16 rest);
      Ok (host, port)
  | None =>
      '(host, port) ← ok_or NotHostPort (rsplit_once ":" address);
      port ← ok_or BadPort (parse_unsigned 16 port);
      Ok (host, port)
  end.

(** The bind address of a path: an address, or a socket address whose port is ignored. *)
Definition parse_bind_ip (bind_address : string) : outcome AddrError IpAddr :=
  match parse_ip_addr bind_address with
  | Some a => Ok a
  | None => a ← ok_or BadBindAddress (parse_socket_addr bind_address); Ok (ip a)
  end.

Definition local_wildcard_bind_addr_for (remote : SocketAddr) : SocketAddr :=
  match ip remote with
  | V4 _ => {| ip := V4 (0, 0, 0, 0); port := 0 |}
  | V6 _ => {| ip := V6 (replicate 8 0); port := 0 |}
  end.

Definition is_ipv4 (a : IpAddr) : bool := match a with V4 _ => true | V6 _ => false end.

(** [addresses] are the results of the look-up. *)
Definition resolve_server_address (addresses : list SocketAddr) (bind_ip : option IpAddr)
  : outcome AddrError SocketAddr :=
  match addresses with
  | [] => Err Unresolved
  | first :: _ =>
      match bind_ip with
      | Some b =>
          Ok (default first
                (List.find (fun a => Bool.eqb (is_ipv4 (ip a)) (is_ipv4 b)) addresses))
      | None => Ok first
      end
  end.

Example v6_texts :
  print_ipv6 [0x2001; 0xdb8; 0; 0; 1; 0; 0; 1] = "2001:db8::1:0:0:1" /\
  parse_ip_addr "2001:db8::1:0:0:1" = Some (V6 [0x2001; 0xdb8; 0; 0; 1; 0; 0; 1]) /\
  parse_ip_addr "::ffff:1.2.3.4" = Some (V6 [0; 0; 0; 0; 0; 0xffff; 0x102; 0x304]) /\
  parse_ip_addr "1::2::3" = None /\ parse_ip_addr "::" = Some (V6 (replicate 8 0)) /\
  parse_ip_addr "01.2.3.4" = None /\ parse_ip_addr "1.2.3.4:1" = None /\
  parse_ip_addr "1:2:3:4:5:6:7::" = Some (V6 [1; 2; 3; 4; 5; 6; 7; 0]) /\
  parse_socket_addr "[fe80::1%3]:443" = Some {| ip := V6 [0xfe80; 0; 0; 0; 0; 0; 0; 1]; port := 443 |} /\
  print_socket_addr {| ip := V6 (replicate 8 0); port := 7 |} = "[::]:7" /\
  print_ipv6 [1; 2; 3; 4; 5; 6; 7; 0xabc] = "1:2:3:4:5:6:7:abc".
Proof. vm_compute. done. Qed.

(** * Lemmas *)

Lemma to_digit_pretty d : (d < 10)%N -> to_digit 10 (pretty_N_char d) = Some (Z.of_N d).
Proof.
  intros Hd. assert (d = 0 \/ d = 1 \/ d = 2 \/ d = 3 \/ d = 4 \/ d = 5 \/ d = 6 \/ d = 7 \/ d = 8 \/
    d = 9)%N as H by lia. by destruct_or! H; subst d.
Qed.

Lemma pretty_go_app x s t : pretty_N_go x s +:+ t = pretty_N_go x (s +:+ t).
Proof.
  revert s. induction (N.lt_wf_0 x) as [x _ IH]. intros s.
  assert (x = 0 \/ 0 < x)%N as [->|Hx] by lia; [done|].
  rewrite (pretty_N_go_step x s), (pretty_N_go_step x (s +:+ t)) by done.
  rewrite IH by by apply N.div_lt. by rewrite string_app_cons.
Qed.

Lemma pretty_go_first x s :
  (0 < x)%N -> exists d s', (0 < d < 10)%N /\ pretty_N_go x s = String (pretty_N_char d) s'.
Proof.
  revert s. induction (N.lt_wf_0 x) as [x _ IH]. intros s Hx. rewrite pretty_N_go_step by done.
  destruct (N.eq_0_gt_0_cases (x `div` 10)) as [H0|Hd].
  - rewrite H0. eexists _, _. split; [|done]. pose proof (N.div_mod x 10). pose proof (N.mod_lt x 10). lia.
  - apply IH; [by apply N.div_lt | done].
Qed.

(** Reading a printed number, with its digits counted. *)
Lemma read_digits_go x n s :
  exists k, read_digits 10 0 n (pretty_N_go x s) = read_digits 10 (Z.of_N x) (n + k) s /\
    ((0 < x)%N -> (0 < k)%nat) /\ forall m : nat, (x < 10 ^ N.of_nat m)%N -> (k <= m)%nat.
Proof.
  revert n s. induction (N.lt_wf_0 x) as [x _ IH]. intros n s.
  assert (x = 0 \/ 0 < x)%N as [->|Hx] by lia.
  { exists 0%nat. rewrite Nat.add_0_r. split; [done|]. split; [lia|intros; lia]. }
  rewrite pretty_N_go_step by done.
  destruct (IH (x `div` 10)%N ltac:(by apply N.div_lt) n (String (pretty_N_char (x `mod` 10)) s))
    as (k & Hk & _ & Hm).
  exists (S k). rewrite Hk. cbn [read_digits]. rewrite to_digit_pretty by (by apply N.mod_lt).
  pose proof (N.div_mod x 10 ltac:(done)). split_and!.
  - rewrite Nat.add_succ_r. f_equal. lia.
  - lia.
  - intros [|m] Hb; [change (10 ^ N.of_nat 0)%N with 1%N in Hb; lia|].
    rewrite Nat2N.inj_succ, N.pow_succ_r' in Hb.
    assert (k <= m)%nat; [|lia]. apply Hm. apply N.Div0.div_lt_upper_bound. lia.
Qed.

(** What may follow a number: nothing, or a character that is no digit. *)
Definition ends_number (rest : string) : Prop :=
  match rest with EmptyString => True | String a _ => to_digit 10 a = None end.

Lemma read_digits_end acc n rest : ends_number rest -> read_digits 10 acc n rest = (acc, n, rest).
Proof. destruct rest as [|a rest]; [done|]. cbn. by intros ->. Qed.

Lemma read_pretty w (m : option nat) allow z rest :
  in_u w z -> (forall k, m = Some k -> z < 10 ^ Z.of_nat k /\ (0 < k)%nat) -> ends_number rest ->
  read_number w 10 m allow (pretty z +:+ rest) = Some (z, rest).
Proof.
  intros [Hz Hw] Hm Hrest. unfold read_number. destruct z as [|p|p]; [|clear Hz|lia].
  - change (pretty 0 +:+ rest) with (String "0" rest). cbn [read_digits].
    change (to_digit 10 "0") with (Some 0). cbn iota. rewrite read_digits_end by done.
    cbn [Nat.eqb orb]. change (1 <? 1)%nat with false. rewrite andb_false_r.
    replace (2 ^ w <=? 10 * 0 + 0) with false by (symmetry; apply Z.leb_gt; lia).
    destruct m as [k|]; [|done]. destruct (Hm k eq_refl) as [_ Hk].
    by replace (k <? 1)%nat with false by (symmetry; apply Nat.ltb_ge; lia).
  - change (pretty (Zpos p)) with (pretty_N_go (Npos p) ""). rewrite pretty_go_app, string_app_empty_l.
    destruct (read_digits_go (Npos p) 0 rest) as (k & -> & Hpos & Hk).
    rewrite read_digits_end by done. cbn [Z.of_N Nat.add].
    replace (k =? 0)%nat with false by (symmetry; apply Nat.eqb_neq; lia).
    destruct (pretty_go_first (Npos p) rest) as (d & s' & Hd & ->); [lia|].
    assert (starts_with "0" (String (pretty_N_char d) s') = false) as ->.
    { assert (d = 1 \/ d = 2 \/ d = 3 \/ d = 4 \/ d = 5 \/ d = 6 \/ d = 7 \/ d = 8 \/ d = 9)%N as H by lia.
      by destruct_or! H; subst d. }
    rewrite andb_false_r. replace (2 ^ w <=? Z.pos p) with false by (symmetry; apply Z.leb_gt; lia).
    destruct m as [m|]; [|done]. destruct (Hm m eq_refl) as [Hb _].
    assert (k <= m)%nat as Hkm by (apply Hk; lia).
    by replace (m <? k)%nat with false by (symmetry; apply Nat.ltb_ge; lia).
Qed.

Definition ipv4_ok (a : Ipv4Addr) : Prop :=
  let '(a, b, c, d) := a in is_byte a /\ is_byte b /\ is_byte c /\ is_byte d.

Lemma read_print_octet i z rest :
  is_byte z -> ends_number rest ->
  read_octet i ((match i with O => EmptyString | _ => "." end) +:+ pretty z +:+ rest) = Some (z, rest).
Proof.
  intros [Hz Hb] Hr. unfold read_octet, read_separator.
  destruct i as [|i]; cbn [read_given]; [rewrite string_app_empty_l|rewrite string_app_cons, string_app_empty_l];
    cbn [read_given]; rewrite ?decide_True by done; cbn [mbind option_bind];
    (apply read_pretty; [unfold in_u; lia | | done]); intros k [= <-]; lia.
Qed.

Lemma read_print_ipv4 a rest :
  ipv4_ok a -> ends_number rest -> read_ipv4_addr (print_ipv4 a +:+ rest) = Some (a, rest).
Proof.
  destruct a as [[[a b] c] d]. intros (Ha & Hb & Hc & Hd) Hr. unfold read_ipv4_addr, print_ipv4.
  rewrite !string_app_assoc.
  pose proof (read_print_octet 0 a) as H0. pose proof (read_print_octet 1 b) as H1.
  pose proof (read_print_octet 2 c) as H2. pose proof (read_print_octet 3 d) as H3.
  cbn iota in H0, H1, H2, H3. setoid_rewrite string_app_empty_l in H0.
  rewrite H0 by done. cbn [mbind option_bind]. rewrite H1 by done. cbn [mbind option_bind].
  rewrite H2 by done. cbn [mbind option_bind]. rewrite H3 by done. done.
Qed.

Lemma string_length_app (s t : string) : String.length (s +:+ t) = (String.length s + String.length t)%nat.
Proof. induction s as [|a s IH]; [done|]. rewrite string_app_cons. cbn. by rewrite IH. Qed.

Lemma parse_print_socket_v4 a p :
  ipv4_ok a -> in_u 16 p ->
  let addr := {| ip := V4 a; port := p |} in parse_socket_addr (print_socket_addr addr) = Some addr.
Proof.
  intros Ha Hp addr. unfold parse_socket_addr, parse_with, read_socket_addr, print_socket_addr, addr. cbn [ip port].
  rewrite read_print_ipv4 by done. cbn [mbind option_bind]. unfold read_port.
  rewrite string_app_cons, string_app_empty_l. cbn [read_given]. rewrite decide_True by done.
  cbn [mbind option_bind].
  pose proof (read_pretty 16 None true p EmptyString Hp ltac:(done) I) as Hr.
  rewrite string_app_empty_r in Hr. by rewrite Hr.
Qed.

(** A host without a colon, and a host in brackets, with its port. *)
Lemma rsplit_once_app c s t : no_char c t = true -> rsplit_once c (s +:+ String c t) = Some (s, t).
Proof.
  intros Ht. assert (Hn : forall t, no_char c t = true -> rsplit_once c t = None).
  { clear. induction t as [|a t IH]; [done|]. cbn. case_bool_decide; cbn; [done|].
    intros Ht. rewrite IH by done. by rewrite decide_False. }
  induction s as [|a s IH]; cbn [rsplit_once].
  - rewrite string_app_empty_l. cbn [rsplit_once]. rewrite Hn by done. by rewrite decide_True.
  - rewrite string_app_cons. cbn [rsplit_once]. by rewrite IH.
Qed.
