(* ===== verification/NetworkRuntime.v ===== *)
(** The network set-up of the server in TUN mode ([src/crates/bonded-server/src/network_runtime.rs]):
    the address arithmetic of the TUN network, the choice of the outgoing interface, and the changes to
    the host (packet filter rules, forwarding switch, interface) with their reversal when the runtime is
    dropped. *)

From stdpp Require Import base tactics list gmap strings pretty.
From Stdlib Require Import ZArith Lia Ascii.
From S2P Require Import Prelude Words Text Packet NetAddr.
Open Scope Z_scope.

(** * Definitions *)

(** ** Networks *)

(** [u32::from(Ipv4Addr)] and back *)
Definition ipv4_to_u32 (a : Ipv4Addr) : Z :=
  let '(a, b, c, d) := a in ((a * 256 + b) * 256 + c) * 256 + d.
Definition u32_to_ipv4 (z : Z) : Ipv4Addr :=
  (z / 2 ^ 24 mod 256, z / 2 ^ 16 mod 256, z / 2 ^ 8 mod 256, z mod 256).

Inductive NetError := BadCidr | NoTunDevice | ToolMissing | CommandFailed | NoEgress | ForwardSwitch.

Definition parse_cidr (cidr : string) : outcome NetError (Ipv4Addr * Z) :=
  '(addr_str, prefix_str) ← ok_or BadCidr (split_once "/" cidr);
  addr ← ok_or BadCidr (parse_ipv4 addr_str);
  prefix ← ok_or BadCidr (parse_unsigned 8 prefix_str);
  if 32 <? prefix then Err BadCidr else Ok (addr, prefix).

(** [u32::MAX << (32 - prefix)]: bits shifted out are lost. *)
Definition prefix_mask (prefix : Z) : Z := cast_u 32 (Z.shiftl (2 ^ 32 - 1) (32 - prefix)).

Definition prefix_to_netmask (prefix : Z) : Ipv4Addr :=
  if prefix =? 0 then (0, 0, 0, 0) else u32_to_ipv4 (prefix_mask prefix).

Definition cidr_network (addr : Ipv4Addr) (prefix : Z) : Ipv4Addr :=
  if prefix =? 0 then (0, 0, 0, 0)
  else u32_to_ipv4 (Z.land (ipv4_to_u32 addr) (prefix_mask prefix)).

(** ** The outgoing interface *)

Definition default_route (line : string) : option string :=
  match split_whitespace line with
  | iface :: dest :: _ => if bool_decide (dest = "00000000") then Some iface else None
  | _ => None
  end.

(** The contents of [/proc/net/route], when it can be read. *)
Definition detect_default_egress_interface (route : option string) : outcome NetError (option string) :=
  contents ← ok_or NoEgress route;
  Ok (find_map default_route (drop 1 (lines contents))).

(** ** The host *)

Abbreviation rule := (string * list string)%type.

(** What the runtime changes: the filter rules, in order; the forwarding switch; whether the interface
    is up.  [tick] counts the commands that were run. *)
Record Host := {
  rules : list rule;
  ip_forward : string;
  iface_up : bool;
  tick : nat
}.

(** The surroundings of a run: whether the [n]-th command can be run, whether the files can be read and
    written, and what is installed. *)
Record Surroundings := {
  fails : nat -> bool;
  tun_available : bool;
  tools_available : bool;
  device_created : bool;
  forward_readable : bool;
  forward_writable : bool;
  route_file : option string
}.

Section host.
Variable env : Surroundings.

(** A command that changes the host by [f]. *)
Definition run_command (f : Host -> Host) (h : Host) : outcome NetError unit * Host :=
  let h' := {| rules := rules h; ip_forward := ip_forward h; iface_up := iface_up h; tick := S (tick h) |} in
  if fails env (tick h) then (Err CommandFailed, h') else (Ok tt, f h').

Definition set_rules (rs : list rule) (h : Host) : Host :=
  {| rules := rs; ip_forward := ip_forward h; iface_up := iface_up h; tick := tick h |}.
Definition set_up (up : bool) (h : Host) : Host :=
  {| rules := rules h; ip_forward := ip_forward h; iface_up := up; tick := tick h |}.
Definition write_forward (v : string) (h : Host) : outcome NetError unit * Host :=
  if forward_writable env then
    (Ok tt, {| rules := rules h; ip_forward := v; iface_up := iface_up h; tick := tick h |})
  else (Err ForwardSwitch, h).

(** [iptables -D]: the first rule that matches. *)
Fixpoint delete_first (r : rule) (rs : list rule) : list rule :=
  match rs with
  | [] => []
  | r' :: rs => if decide (r' = r) then rs else r' :: delete_first r rs
  end.

Definition rule_exists (r : rule) (h : Host) : outcome NetError bool * Host :=
  let (res, h') := run_command id h in
  (_ ← res; Ok (bool_decide (r ∈ rules h)), h').

Definition ensure_rule (r : rule) (h : Host) : outcome NetError bool * Host :=
  match rule_exists r h with
  | (Ok true, h) => (Ok false, h)
  | (Ok false, h) =>
      let (res, h) := run_command (fun h => set_rules (rules h ++ [r]) h) h in (_ ← res; Ok true, h)
  | (Err e, h) => (Err e, h)
  | (Panic, h) => (Panic, h)
  end.

Definition remove_rule (r : rule) (h : Host) : Host :=
  match rule_exists r h with
  | (Ok true, h) => (run_command (fun h => set_rules (delete_first r (rules h)) h) h).2
  | (_, h) => h
  end.

(** ** The runtime *)

Record NetworkRuntime := {
  rt_tun_name : string;
  original_ip_forward : option string;
  masquerade_rule_installed : bool;
  forward_out_rule_installed : bool;
  forward_in_rule_installed : bool;
  forwarding_mode_tun : bool;
  tun_subnet : option string;
  egress_interface : option string
}.

Definition masquerade_rule (subnet egress : string) : rule :=
  ("nat", ["POSTROUTING"; "-s"; subnet; "-o"; egress; "-j"; "MASQUERADE"]).
Definition forward_out_rule (tun egress : string) : rule :=
  ("filter", ["FORWARD"; "-i"; tun; "-o"; egress; "-j"; "ACCEPT"]).
Definition forward_in_rule (tun egress : string) : rule :=
  ("filter", ["FORWARD"; "-i"; egress; "-o"; tun; "-m"; "state"; "--state"; "RELATED,ESTABLISHED";
              "-j"; "ACCEPT"]).

(** The settings of [ServerSection] that are used. *)
Record TunSettings := {
  ts_forwarding_mode : string;
  ts_tun_name : string;
  ts_tun_cidr : string;
  ts_egress : string
}.

Definition with_flags (m o i : bool) (rt : NetworkRuntime) : NetworkRuntime :=
  {| rt_tun_name := rt_tun_name rt; original_ip_forward := original_ip_forward rt;
     masquerade_rule_installed := m; forward_out_rule_installed := o; forward_in_rule_installed := i;
     forwarding_mode_tun := forwarding_mode_tun rt; tun_subnet := tun_subnet rt;
     egress_interface := egress_interface rt |}.

(** [ensure_iptables_rules]: the result, the runtime with the flags set so far, and the host. *)
Definition ensure_iptables_rules (subnet egress : string) (rt : NetworkRuntime) (h : Host)
  : outcome NetError unit * NetworkRuntime * Host :=
  match ensure_rule (masquerade_rule subnet egress) h with
  | (Ok m, h) =>
      match ensure_rule (forward_out_rule (rt_tun_name rt) egress) h with
      | (Ok o, h) =>
          match ensure_rule (forward_in_rule (rt_tun_name rt) egress) h with
          | (Ok i, h) => (Ok tt, with_flags m o i rt, h)
          | (Err e, h) => (Err e, with_flags m o false rt, h)
          | (Panic, h) => (Panic, with_flags m o false rt, h)
          end
      | (Err e, h) => (Err e, with_flags m false false rt, h)
      | (Panic, h) => (Panic, with_flags m false false rt, h)
      end
  | (Err e, h) => (Err e, rt, h)
  | (Panic, h) => (Panic, rt, h)
  end.

(** [Drop for NetworkRuntime] *)
Definition drop_runtime (rt : NetworkRuntime) (h : Host) : Host :=
  if negb (forwarding_mode_tun rt) then h
  else
    let h :=
      match egress_interface rt with
      | Some egress =>
          let h := if forward_in_rule_installed rt
                   then remove_rule (forward_in_rule (rt_tun_name rt) egress) h else h in
          if forward_out_rule_installed rt
          then remove_rule (forward_out_rule (rt_tun_name rt) egress) h else h
      | None => h
      end in
    let h :=
      match masquerade_rule_installed rt, tun_subnet rt, egress_interface rt with
      | true, Some subnet, Some egress => remove_rule (masquerade_rule subnet egress) h
      | _, _, _ => h
      end in
    let h :=
      match original_ip_forward rt with
      | Some v => (write_forward (v +:+ newline) h).2
      | None => h
      end in
    (run_command (set_up false) h).2.

(** The part of [setup] after the interface is configured. *)
Definition finish_setup (cfg : TunSettings) (subnet egress : string) (h : Host)
  : outcome NetError NetworkRuntime * Host :=
  let original := if forward_readable env then Some (trim (ip_forward h)) else None in
  match write_forward ("1" +:+ newline) h with
  | (Ok _, h) =>
      let rt := {| rt_tun_name := ts_tun_name cfg; original_ip_forward := original;
                   masquerade_rule_installed := false; forward_out_rule_installed := false;
                   forward_in_rule_installed := false; forwarding_mode_tun := true;
                   tun_subnet := Some subnet; egress_interface := Some egress |} in
      match ensure_iptables_rules subnet egress rt h with
      | (Ok _, rt, h) => (Ok rt, h)
      | (Err e, rt, h) => (Err e, drop_runtime rt h)
      | (Panic, rt, h) => (Panic, drop_runtime rt h)
      end
  | (Err e, h) => (Err e, h)
  | (Panic, h) => (Panic, h)
  end.

Definition setup (cfg : TunSettings) (h : Host) : outcome NetError NetworkRuntime * Host :=
  if negb (eq_ignore_ascii_case (ts_forwarding_mode cfg) "tun") then
    (Ok {| rt_tun_name := ts_tun_name cfg; original_ip_forward := None;
           masquerade_rule_installed := false; forward_out_rule_installed := false;
           forward_in_rule_installed := false; forwarding_mode_tun := false;
           tun_subnet := None; egress_interface := None |}, h)
  else if negb (tun_available env) then (Err NoTunDevice, h)
  else if negb (tools_available env) then (Err ToolMissing, h)
  else
    match parse_cidr (ts_tun_cidr cfg) with
    | Ok (tun_addr, prefix) =>
        let subnet := print_ipv4 (cidr_network tun_addr prefix) +:+ "/" +:+ pretty prefix in
        if negb (device_created env) then (Err NoTunDevice, h)
        else
          match run_command (set_up true) h with
          | (Ok _, h) =>
              let egress :=
                if is_empty (trim (ts_egress cfg)) then
                  r ← detect_default_egress_interface (route_file env); ok_or NoEgress r
                else Ok (ts_egress cfg) in
              match egress with
              | Ok egress => finish_setup cfg subnet egress h
              | Err e => (Err e, h)
              | Panic => (Panic, h)
              end
          | (Err e, h) => (Err e, h)
          | (Panic, h) => (Panic, h)
          end
    | Err e => (Err e, h)
    | Panic => (Panic, h)
    end.
End host.

(** * Lemmas *)

(** ** Networks *)

Lemma ipv4_to_u32_range a : ipv4_ok a -> 0 <= ipv4_to_u32 a < 2 ^ 32.
Proof. destruct a as [[[a b] c] d]. unfold ipv4_ok, is_byte, ipv4_to_u32. lia. Qed.

Lemma u32_to_ipv4_ok z : ipv4_ok (u32_to_ipv4 z).
Proof.
  unfold ipv4_ok, u32_to_ipv4, is_byte.
  split_and!; apply Z.mod_pos_bound; lia.
Qed.

Lemma ipv4_u32_round z : 0 <= z < 2 ^ 32 -> ipv4_to_u32 (u32_to_ipv4 z) = z.
Proof.
  intros Hz. unfold ipv4_to_u32, u32_to_ipv4.
  change (2 ^ 24) with (256 * 256 * 256). change (2 ^ 16) with (256 * 256). change (2 ^ 8) with 256.
  rewrite <- !Z.div_div by lia. change (2 ^ 32) with (256 * 256 * 256 * 256) in Hz.
  pose proof (Z.div_mod z 256 ltac:(lia)). pose proof (Z.div_mod (z / 256) 256 ltac:(lia)).
  pose proof (Z.div_mod (z / 256 / 256) 256 ltac:(lia)).
  rewrite (Z.mod_small (z / 256 / 256 / 256)); [lia|].
  split; [repeat apply Z.div_pos; lia|]. repeat (apply Z.div_lt_upper_bound; [lia|]). lia.
Qed.

(** The bits of the mask: the upper [prefix] ones. *)
Lemma prefix_mask_bits prefix n :
  0 <= prefix <= 32 -> 0 <= n -> Z.testbit (prefix_mask prefix) n = (32 - prefix <=? n) && (n <? 32).
Proof.
  intros Hp Hn. unfold prefix_mask, cast_u.
  destruct (Z.ltb_spec n 32); [|by rewrite andb_false_r, Z.mod_pow2_bits_high by lia].
  rewrite Z.mod_pow2_bits_low, andb_true_r, Z.shiftl_spec by lia. change (2 ^ 32 - 1) with (Z.ones 32).
  destruct (Z.leb_spec (32 - prefix) n).
  - apply Z.ones_spec_low. lia.
  - by apply Z.testbit_neg_r; lia.
Qed.

Lemma prefix_mask_range prefix : 0 <= prefix_mask prefix < 2 ^ 32.
Proof. apply Z.mod_pos_bound. lia. Qed.

Lemma land_range a b : 0 <= a < 2 ^ 32 -> 0 <= Z.land a b < 2 ^ 32.
Proof.
  intros Ha. split; [apply Z.land_nonneg; lia|].
  rewrite <- (Z.mod_small a (2 ^ 32)), <- Z.land_ones, <- Z.land_assoc, (Z.land_comm (Z.ones 32)),
    Z.land_assoc, Z.land_ones by lia.
  apply Z.mod_pos_bound. lia.
Qed.

(** The bits of the network address: those of the address under the mask. *)
Lemma cidr_network_bits addr prefix n :
  ipv4_ok addr -> 0 < prefix <= 32 -> 0 <= n ->
  Z.testbit (ipv4_to_u32 (cidr_network addr prefix)) n =
    Z.testbit (ipv4_to_u32 addr) n && ((32 - prefix <=? n) && (n <? 32)).
Proof.
  intros Ha Hp Hn. unfold cidr_network. destruct (Z.eqb_spec prefix 0); [lia|].
  rewrite ipv4_u32_round by (by apply land_range, ipv4_to_u32_range).
  by rewrite Z.land_spec, prefix_mask_bits by lia.
Qed.

Lemma parse_cidr_no_panic cidr : parse_cidr cidr <> Panic.
Proof.
  unfold parse_cidr. destruct (split_once "/" cidr) as [[a p]|]; [|done]. cbn [ok_or mbind outcome_bind].
  destruct (parse_ipv4 a) as [addr|]; [|done]. cbn [ok_or mbind outcome_bind].
  destruct (parse_unsigned 8 p) as [n|]; [|done]. cbn [ok_or mbind outcome_bind]. by destruct (32 <? n).
Qed.

(** ** Rules *)

Lemma delete_first_app r rs rest : r ∉ rs -> delete_first r (rs ++ r :: rest) = rs ++ rest.
Proof.
  induction rs as [|r' rs IH]; intros Hn; cbn [app delete_first]; [by rewrite decide_True|].
  apply not_elem_of_cons in Hn as [Hne Hn]. rewrite decide_False by congruence. by rewrite IH.
Qed.

Section host_lemmas.
Context (env : Surroundings).

Definition no_fail_from (n : nat) : Prop := forall m, (n <= m)%nat -> fails env m = false.

(** What [ensure_rule] does to the rules. *)
Lemma ensure_rule_spec r h res h' :
  ensure_rule env r h = (res, h') ->
  (tick h <= tick h')%nat /\ ip_forward h' = ip_forward h /\
  match res with
  | Ok true => r ∉ rules h /\ rules h' = rules h ++ [r]
  | Ok false => rules h' = rules h
  | Err _ => rules h' = rules h /\ exists n, (n < tick h')%nat /\ fails env n = true
  | Panic => False
  end.
Proof.
  unfold ensure_rule, rule_exists, run_command. destruct (fails env (tick h)) eqn:Hf;
    cbn [mbind outcome_bind].
  { intros [= <- <-]. simpl. split_and!; [lia|done|done|]. exists (tick h). split; [lia|done]. }
  destruct (bool_decide_reflect (r ∈ rules h)) as [Hin|Hin]; cbn [id tick].
  { intros [= <- <-]. simpl. split_and!; [lia|done|done]. }
  destruct (fails env (S (tick h))) eqn:Hf2; cbn [mbind outcome_bind]; intros [= <- <-]; simpl.
  - split_and!; [lia|done|done|]. exists (S (tick h)). split; [lia|done].
  - split_and!; [lia|done|done|done].
Qed.

Lemma remove_rule_spec r h rs :
  rules h = rs ++ [r] -> r ∉ rs -> no_fail_from (tick h) ->
  rules (remove_rule env r h) = rs /\ ip_forward (remove_rule env r h) = ip_forward h /\
  (tick h <= tick (remove_rule env r h))%nat.
Proof.
  intros Hr Hn Hf. unfold remove_rule, rule_exists, run_command.
  rewrite (Hf (tick h)) by lia. cbn [mbind outcome_bind id tick rules].
  rewrite bool_decide_eq_true_2 by (rewrite Hr; set_solver). rewrite (Hf (S (tick h))) by lia.
  cbn. rewrite Hr, delete_first_app, app_nil_r by done. split_and!; [done|done|lia].
Qed.

(** The rules that were installed. *)
Definition installed (b : bool) (r : rule) : list rule := if b then [r] else [].

Lemma remove_installed b r h rs :
  rules h = rs ++ installed b r -> (b = true -> r ∉ rs) -> no_fail_from (tick h) ->
  let h' := if b then remove_rule env r h else h in
  rules h' = rs /\ ip_forward h' = ip_forward h /\ (tick h <= tick h')%nat.
Proof.
  intros Hr Hn Hf. destruct b; cbn [installed] in Hr; [by apply remove_rule_spec; auto|].
  rewrite app_nil_r in Hr. split_and!; [done|done|lia].
Qed.

(** What dropping the runtime undoes. *)
Lemma drop_runtime_spec rt h base subnet egress :
  forwarding_mode_tun rt = true -> tun_subnet rt = Some subnet -> egress_interface rt = Some egress ->
  let m := masquerade_rule subnet egress in
  let o := forward_out_rule (rt_tun_name rt) egress in
  let i := forward_in_rule (rt_tun_name rt) egress in
  rules h = ((base ++ installed (masquerade_rule_installed rt) m) ++
    installed (forward_out_rule_installed rt) o) ++ installed (forward_in_rule_installed rt) i ->
  (masquerade_rule_installed rt = true -> m ∉ base) ->
  (forward_out_rule_installed rt = true -> o ∉ base ++ installed (masquerade_rule_installed rt) m) ->
  (forward_in_rule_installed rt = true -> i ∉ (base ++ installed (masquerade_rule_installed rt) m) ++
    installed (forward_out_rule_installed rt) o) ->
  no_fail_from (tick h) ->
  rules (drop_runtime env rt h) = base /\
  (forward_writable env = true -> ip_forward (drop_runtime env rt h) =
     match original_ip_forward rt with Some v => v +:+ newline | None => ip_forward h end).
Proof.
  intros Hmode Hsub Heg m o i Hr Hm Ho Hi Hf. unfold drop_runtime. rewrite Hmode, Heg, Hsub. cbn [negb].
  fold m o i.
  destruct (remove_installed _ i h _ Hr Hi Hf) as (R1 & F1 & T1).
  set (h1 := if forward_in_rule_installed rt then _ else _) in *.
  destruct (remove_installed _ o h1 _ R1 Ho) as (R2 & F2 & T2); [intros n Hn; apply Hf; lia|].
  set (h2 := if forward_out_rule_installed rt then _ else _) in *.
  destruct (remove_installed _ m h2 _ R2 Hm) as (R3 & F3 & T3); [intros n Hn; apply Hf; lia|].
  set (h3 := if masquerade_rule_installed rt then _ else _) in *.
  unfold write_forward, run_command.
  destruct (original_ip_forward rt) as [v|]; destruct (forward_writable env); cbn [snd tick];
    rewrite Hf by lia; cbn; (split; [done|]); intros; congruence.
Qed.

Lemma ensure_iptables_rules_spec subnet egress rt h res rt' h' :
  ensure_iptables_rules env subnet egress rt h = (res, rt', h') ->
  masquerade_rule_installed rt = false -> forward_out_rule_installed rt = false ->
  forward_in_rule_installed rt = false ->
  let m := masquerade_rule subnet egress in
  let o := forward_out_rule (rt_tun_name rt) egress in
  let i := forward_in_rule (rt_tun_name rt) egress in
  (exists a b c, rt' = with_flags a b c rt /\
    rules h' = ((rules h ++ installed a m) ++ installed b o) ++ installed c i /\
    (a = true -> m ∉ rules h) /\ (b = true -> o ∉ rules h ++ installed a m) /\
    (c = true -> i ∉ (rules h ++ installed a m) ++ installed b o)) /\
  ip_forward h' = ip_forward h /\
  match res with
  | Ok _ => True
  | Err _ => exists n, (n < tick h')%nat /\ fails env n = true
  | Panic => False
  end.
Proof.
  intros He F1 F2 F3 m o i. unfold ensure_iptables_rules in He. fold m o i in He.
  assert (Hrt : rt = with_flags false false false rt) by (destruct rt; simpl in *; by subst).
  destruct (ensure_rule env m h) as [r1 h1] eqn:E1. apply ensure_rule_spec in E1 as (T1 & P1 & R1).
  destruct r1 as [a|e|]; [|injection He as <- <- <-|done].
  2: { destruct R1 as [R1 Hf]. split_and!; [|done|done]. exists false, false, false. cbn [installed].
       rewrite !app_nil_r. split_and!; done. }
  assert (Ha : rules h1 = rules h ++ installed a m /\ (a = true -> m ∉ rules h)).
  { destruct a; [split; [apply R1|intros _; apply R1]|]. cbn [installed]. rewrite app_nil_r. done. }
  destruct Ha as [Ra Na].
  destruct (ensure_rule env o h1) as [r2 h2] eqn:E2. apply ensure_rule_spec in E2 as (T2 & P2 & R2).
  destruct r2 as [b|e|]; [|injection He as <- <- <-|done].
  2: { destruct R2 as [R2 Hf]. split_and!; [|congruence|done]. exists a, false, false. cbn [installed].
       rewrite !app_nil_r. split_and!; [done|congruence|done|done|done]. }
  assert (Hb : rules h2 = (rules h ++ installed a m) ++ installed b o /\ (b = true -> o ∉ rules h ++ installed a m)).
  { rewrite <- Ra. destruct b; [split; [apply R2|intros _; apply R2]|]. cbn [installed]. rewrite app_nil_r. done. }
  destruct Hb as [Rb Nb].
  destruct (ensure_rule env i h2) as [r3 h3] eqn:E3. apply ensure_rule_spec in E3 as (T3 & P3 & R3).
  destruct r3 as [c|e|]; [injection He as <- <- <-|injection He as <- <- <-|done].
  - split_and!; [|congruence|done]. exists a, b, c. rewrite <- Rb.
    destruct c; cbn [installed]; rewrite ?app_nil_r; split_and!; try done; apply R3 || (intros _; apply R3).
  - destruct R3 as [R3 Hf]. split_and!; [|congruence|done]. exists a, b, false. cbn [installed].
    rewrite app_nil_r, <- Rb. split_and!; done.
Qed.
End host_lemmas.

(** What set-up did is undone, by itself when it fails and by dropping the runtime. *)
Lemma setup_restores (env : Surroundings) (cfg : TunSettings) (h h' : Host)
    (res : outcome NetError NetworkRuntime) :
  (forall n m, fails env n = true -> fails env m = true -> n = m) ->
  forward_readable env = true -> forward_writable env = true ->
  ip_forward h ∈ ["0" +:+ newline; "1" +:+ newline] ->
  setup env cfg h = (res, h') ->
  match res with
  | Err _ => rules h' = rules h /\ ip_forward h' = ip_forward h
  | Ok rt => no_fail_from env (tick h') ->
      rules (drop_runtime env rt h') = rules h /\ ip_forward (drop_runtime env rt h') = ip_forward h
  | Panic => False
  end.
Proof.
  intros Hone Hread Hwrite Hfwd. unfold setup.
  destruct (negb (eq_ignore_ascii_case _ _)); [by intros [= <- <-]|].
  destruct (negb (tun_available env)); [by intros [= <- <-]|].
  destruct (negb (tools_available env)); [by intros [= <- <-]|].
  destruct (parse_cidr _) as [[addr prefix]|e|] eqn:Hcidr; [|by intros [= <- <-]|by apply parse_cidr_no_panic in Hcidr].
  destruct (negb (device_created env)); [by intros [= <- <-]|].
  unfold run_command at 1. destruct (fails env (tick h)); [by intros [= <- <-]|].
  destruct (if is_empty _ then _ else _) as [egress|e|] eqn:Heg; [|by intros [= <- <-]|].
  2: { exfalso. destruct (is_empty _); [|done]. unfold detect_default_egress_interface in Heg.
       destruct (route_file env); [|done]. cbn [ok_or mbind outcome_bind] in Heg.
       by destruct (find_map _ _). }
  set (subnet := _ +:+ "/" +:+ _). unfold finish_setup. rewrite Hread. unfold write_forward at 1. rewrite Hwrite.
  cbn [set_up ip_forward]. set (rt := {| rt_tun_name := _ |}). set (h1 := {| rules := _ |}).
  destruct (ensure_iptables_rules env subnet egress rt h1) as [[r rt'] h2] eqn:He.
  apply ensure_iptables_rules_spec in He as ((a & b & c & -> & Hr & Ha & Hb & Hc) & Hp & Hres); [|done..].
  assert (Hback : no_fail_from env (tick h2) ->
    rules (drop_runtime env (with_flags a b c rt) h2) = rules h /\
    ip_forward (drop_runtime env (with_flags a b c rt) h2) = ip_forward h).
  { intros Hnf. destruct (drop_runtime_spec env (with_flags a b c rt) h2 (rules h) subnet egress)
      as [Hd Hdf]; try done. split; [done|]. rewrite Hdf by done. cbn [original_ip_forward with_flags rt].
    rewrite !elem_of_cons, elem_of_nil in Hfwd. by destruct Hfwd as [->|[->|[]]]. }
  destruct r as [[]|e|]; [intros [= <- <-]; exact Hback| |done].
  destruct Hres as (n & Hn & Hfn). intros [= <- <-]. apply Hback. intros k Hk.
  destruct (fails env k) eqn:Hfk; [|done]. pose proof (Hone n k Hfn Hfk). lia.
Qed.

(** * Properties *)

(** The host is put back.  If set-up fails at any single command, the filter rules and the
    forwarding switch are as before; if it succeeds, dropping the runtime puts them back exactly, in
    the same order: rules that were there before are neither added twice nor removed. *)
Theorem network_runtime_restores (env : Surroundings) (cfg : TunSettings) (h h' : Host)
    (res : outcome NetError NetworkRuntime) :
  (forall n m, fails env n = true -> fails env m = true -> n = m) ->
  forward_readable env = true -> forward_writable env = true ->
  ip_forward h ∈ ["0" +:+ newline; "1" +:+ newline] ->
  setup env cfg h = (res, h') ->
  match res with
  | Err _ => rules h' = rules h /\ ip_forward h' = ip_forward h
  | Ok rt => no_fail_from env (tick h') ->
      rules (drop_runtime env rt h') = rules h /\ ip_forward (drop_runtime env rt h') = ip_forward h
  | Panic => False
  end.
Proof. apply setup_restores. Qed.

Definition sample_env (bad : nat) : Surroundings :=
  {| fails n := Nat.eqb n bad; tun_available := true; tools_available := true; device_created := true;
     forward_readable := true; forward_writable := true; route_file := None |}.
Definition sample_cfg : TunSettings :=
  {| ts_forwarding_mode := "TUN"; ts_tun_name := "bonded0"; ts_tun_cidr := "100.64.0.1/24";
     ts_egress := "eth0" |}.
(** The masquerade rule is there already. *)
Definition sample_host : Host :=
  {| rules := [masquerade_rule "100.64.0.0/24" "eth0"; ("filter", ["INPUT"])];
     ip_forward := "0" +:+ newline; iface_up := false; tick := 1 |}.

Lemma network_runtime_restores_witness :
  rules (setup (sample_env 5) sample_cfg sample_host).2 = rules sample_host /\
  exists rt h', setup (sample_env 0) sample_cfg sample_host = (Ok rt, h') /\
    length (rules h') = 4%nat /\ rules (drop_runtime (sample_env 0) rt h') = rules sample_host.
Proof.
  assert (Hone : forall bad n m, fails (sample_env bad) n = true -> fails (sample_env bad) m = true -> n = m).
  { intros bad n m Hn Hm. apply Nat.eqb_eq in Hn, Hm. congruence. }
  split.
  - destruct (setup (sample_env 5) sample_cfg sample_host) as [res h'] eqn:Hs.
    pose proof (network_runtime_restores (sample_env 5) sample_cfg sample_host h' res (Hone 5%nat)
      eq_refl eq_refl ltac:(left) Hs) as Hr.
    destruct res as [rt|e|]; [by vm_compute in Hs|apply Hr|done].
  - destruct (setup (sample_env 0) sample_cfg sample_host) as [res h'] eqn:Hs.
    pose proof (network_runtime_restores (sample_env 0) sample_cfg sample_host h' res (Hone 0%nat)
      eq_refl eq_refl ltac:(left) Hs) as Hr.
    destruct res as [rt|e|]; [|by vm_compute in Hs|done].
    exists rt, h'. split; [done|]. split; [vm_compute in Hs; by injection Hs as <- <-|].
    apply Hr. intros m Hm. apply Nat.eqb_neq. intros ->.
    vm_compute in Hs. injection Hs as <- <-. cbn [tick] in Hm. lia.
Defined.

(** The network of the TUN device.  The network address agrees with the configured address on the
    prefix and is zero elsewhere, the netmask is the prefix in ones; so the rules cover exactly the
    addresses that share the prefix. *)
Theorem tun_network_correct (addr other : Ipv4Addr) (prefix : Z) :
  ipv4_ok addr -> ipv4_ok other -> 0 < prefix <= 32 ->
  (forall n, 0 <= n -> Z.testbit (ipv4_to_u32 (prefix_to_netmask prefix)) n = (32 - prefix <=? n) && (n <? 32)) /\
  (cidr_network other prefix = cidr_network addr prefix <->
     forall n, 32 - prefix <= n < 32 -> Z.testbit (ipv4_to_u32 other) n = Z.testbit (ipv4_to_u32 addr) n) /\
  cidr_network (cidr_network addr prefix) prefix = cidr_network addr prefix.
Proof.
  intros Ha Ho Hp.
  assert (Heq : forall x y, ipv4_ok x -> ipv4_ok y -> (cidr_network x prefix = cidr_network y prefix <->
    forall n, 32 - prefix <= n < 32 -> Z.testbit (ipv4_to_u32 x) n = Z.testbit (ipv4_to_u32 y) n)).
  { intros x y Hx Hy. split.
    - intros He n Hn. pose proof (cidr_network_bits x prefix n Hx Hp ltac:(lia)) as H1.
      pose proof (cidr_network_bits y prefix n Hy Hp ltac:(lia)) as H2. rewrite He in H1.
      destruct (Z.leb_spec (32 - prefix) n), (Z.ltb_spec n 32); try lia. cbn in H1, H2.
      rewrite andb_true_r in H1, H2. congruence.
    - intros Hb. unfold cidr_network. destruct (prefix =? 0); [done|]. f_equal.
      apply Z.bits_inj'. intros n Hn. rewrite !Z.land_spec, prefix_mask_bits by lia.
      destruct (Z.leb_spec (32 - prefix) n), (Z.ltb_spec n 32); cbn; rewrite ?andb_false_r; try done.
      rewrite Hb by lia. done. }
  split_and!.
  - intros n Hn. unfold prefix_to_netmask. destruct (Z.eqb_spec prefix 0); [lia|].
    rewrite ipv4_u32_round by apply prefix_mask_range. apply prefix_mask_bits; lia.
  - by apply Heq.
  - assert (Hok : ipv4_ok (cidr_network addr prefix)).
    { unfold cidr_network. destruct (Z.eqb_spec prefix 0); [lia|]. apply u32_to_ipv4_ok. }
    apply Heq; [done|done|]. intros n Hn. rewrite cidr_network_bits by (done || lia).
    destruct (Z.leb_spec (32 - prefix) n), (Z.ltb_spec n 32); try lia. by rewrite andb_true_r.
Qed.

Lemma tun_network_correct_witness :
  cidr_network (100, 64, 0, 77) 24 = cidr_network (100, 64, 0, 1) 24 /\
  cidr_network (100, 64, 0, 0) 24 = cidr_network (100, 64, 0, 1) 24 /\
  cidr_network (100, 64, 1, 1) 24 <> cidr_network (100, 64, 0, 1) 24.
Proof.
  assert (Hok : forall c d, 0 <= c < 256 -> 0 <= d < 256 -> ipv4_ok (100, 64, c, d)) by
    (intros c d Hc Hd; unfold ipv4_ok, is_byte; repeat split; lia).
  pose proof (tun_network_correct (100, 64, 0, 1) (100, 64, 0, 77) 24
    (Hok 0 1 ltac:(lia) ltac:(lia)) (Hok 0 77 ltac:(lia) ltac:(lia)) ltac:(lia)) as (Hmask & Heq & Hnet).
  split_and!; [|exact Hnet|by vm_compute].
  apply Heq. intros n Hn. rewrite <- (Z.sub_add 8 n), <- !Z.shiftr_spec by lia. reflexivity.
Defined.
