(* ===== verification/Client.v ===== *)
(** The client's paths and its packet loop ([src/crates/bonded-client/src/lib.rs]): which protocols are
    tried for which path and in which order, and the loop between the TUN device and the active path
    with its fail-over. *)

From stdpp Require Import base tactics list gmap strings.
From Stdlib Require Import ZArith Lia.
From S2P Require Import Prelude Words Text Json Session Transport AuthHandshake Packet TcpForwarder.
Open Scope Z_scope.

(** * Definitions *)

(** ** Protocols *)

Definition DEFAULT_PROTOCOLS : list string := ["wss"; "h3"; "wireguard"].

Definition sanitize_preferred_protocols (protocols : list string) (allow_insecure_debug_transports : bool)
  : list string :=
  let source := match protocols with [] => DEFAULT_PROTOCOLS | _ => protocols end in
  let filtered :=
    List.filter (fun p => allow_insecure_debug_transports
                          || negb (eq_ignore_ascii_case p "naive_tcp")) source in
  match filtered with [] => DEFAULT_PROTOCOLS | _ => filtered end.

(** [protocols[(start + offset) % len]] for each offset *)
Definition rotated_protocols (protocols : list string) (start : nat) : list string :=
  match protocols with
  | [] => []
  | _ =>
      let n := length protocols in
      (fun offset => protocols !!! ((start + offset) mod n)%nat) <$> seq 0 n
  end.

(** The transports [establish_transport_paths] can dial, by the names it knows. *)
Definition transport_of_protocol (protocol : string) : option TransportKind :=
  if bool_decide (protocol = "naive_tcp") then Some NaiveTcp
  else if bool_decide (protocol = "wss") || bool_decide (protocol = "websocket_tls")
       then Some WebSocketTls
  else if bool_decide (protocol = "h3") || bool_decide (protocol = "quic") then Some Quic
  else if bool_decide (protocol = "wireguard") || bool_decide (protocol = "wg") then Some WireGuard
  else None.

Inductive PathsError := NoFirstPath.

Section paths.
(** A dialled path, and what dialling the [index]-th path over a transport from a bind address gives
    within the time limit. *)
Context {Path : Type}.
Variable dial : nat -> TransportKind -> option string -> option Path.

(** The attempts for one path, in order; unknown names are passed over. *)
Fixpoint connect_path (index : nat) (bind : option string) (protocols : list string)
  : option (string * Path) :=
  match protocols with
  | [] => None
  | protocol :: protocols =>
      match transport_of_protocol protocol with
      | None => connect_path index bind protocols
      | Some kind =>
          match dial index kind bind with
          | Some path => Some (protocol, path)
          | None => connect_path index bind protocols
          end
      end
  end.

(** The paths from [index] on, [n] of them: a later path that fails ends the loop, the first one is an
    error. *)
Fixpoint establish_loop (protocols bind_addresses : list string) (n index : nat)
    (paths : list (string * Path)) : outcome PathsError (list (string * Path)) :=
  match n with
  | O => Ok paths
  | S n =>
      match connect_path index (bind_addresses !! index) (rotated_protocols protocols index) with
      | Some path => establish_loop protocols bind_addresses n (S index) (paths ++ [path])
      | None => if Nat.eqb index 0 then Err NoFirstPath else Ok paths
      end
  end.

Definition establish_transport_paths (preferred_protocols bind_addresses : list string)
    (allow_insecure_debug_transports : bool) (count : nat)
  : outcome PathsError (list (string * Path)) :=
  let protocols := sanitize_preferred_protocols preferred_protocols allow_insecure_debug_transports in
  let target := Nat.max count 1 in
  establish_loop protocols bind_addresses target 0 [].
End paths.

(** ** The packet loop *)

Inductive LoopError := LoopTun | LoopTransport | LoopSession (e : SessionStateError).

Section packet_loop.
Context {Path : Type}.

(** [tun_in]: the packets handed to the device; [attempted]: the frames given to a path, with the
    result. *)
Record ClientLoop := {
  transports : list Path;
  active_index : nat;
  session : SessionState;
  tun_in : list (list Z);
  attempted : list (Path * SessionFrame * bool)
}.

(** One branch of the [select!]; a [send] or [recv] carries its result. *)
Inductive loop_event :=
  | TunRead (packet : option (list Z)) (sent : bool)
  | PeerTransport (t : option Path)
  | FrameResult (r : option SessionFrame) (tun_ok : bool).

Definition packet_loop_new (ts : list Path) : ClientLoop :=
  {| transports := ts; active_index := 0; session := SessionState_new 1; tun_in := [];
     attempted := [] |}.

Definition with_transports (ts : list Path) (active : nat) (s : ClientLoop) : ClientLoop :=
  {| transports := ts; active_index := active; session := session s; tun_in := tun_in s;
     attempted := attempted s |}.

(** The active path failed: it is removed unless it is the last one. *)
Definition drop_active (s : ClientLoop) : outcome LoopError ClientLoop :=
  if Nat.eqb (length (transports s)) 1 then Err LoopTransport
  else
    let ts := delete (active_index s) (transports s) in
    let active := if (length ts <=? active_index s)%nat then 0%nat else active_index s in
    Ok (with_transports ts active s).

Definition packet_loop_step (s : ClientLoop) (e : loop_event) : outcome LoopError ClientLoop :=
  match e with
  | TunRead None _ => Err LoopTun
  | TunRead (Some []) _ => Ok s
  | TunRead (Some packet) sent =>
      let (frame, st) := create_outbound_frame (session s) packet 0 in
      path ← index (transports s) (active_index s);
      let s := {| transports := transports s; active_index := active_index s; session := st;
                  tun_in := tun_in s; attempted := attempted s ++ [(path, frame, sent)] |} in
      if sent then Ok s else drop_active s
  | PeerTransport None => Ok s
  | PeerTransport (Some t) => Ok (with_transports (transports s ++ [t]) (active_index s) s)
  | FrameResult None _ => drop_active s
  | FrameResult (Some frame) tun_ok =>
      match ingest_inbound (session s) frame with
      | (Ok ready, st) =>
          let s := {| transports := transports s; active_index := active_index s; session := st;
                      tun_in := tun_in s ++ (payload <$> ready); attempted := attempted s |} in
          match ready with
          | [] => Ok s
          | _ => if tun_ok then Ok s else Err LoopTun
          end
      | (Err e, _) => Err (LoopSession e)
      | (Panic, _) => Panic
      end
  end.

(** [run_linux_packet_loop] over the events of a run; it returns only with an error. *)
Fixpoint run_linux_packet_loop (s : ClientLoop) (evs : list loop_event) : outcome LoopError ClientLoop :=
  match evs with
  | [] => Ok s
  | e :: evs => s ← packet_loop_step s e; run_linux_packet_loop s evs
  end.
End packet_loop.
Arguments ClientLoop : clear implicits.
Arguments loop_event : clear implicits.

(** ** Pairing *)

(** The fields of [ClientConfig] that pairing writes. *)
Record PairedServer := {
  server_public_address : string;
  server_websocket_address : string;
  paired_server_key : string;
  invite_token : string
}.

(** [PairingPayload], as serde reads it *)
Definition pairing_of_json (j : json) : option (string * string * string) :=
  match j with
  | JObj fs =>
      a ← field_str "server_public_address" fs;
      t ← field_str "invite_token" fs;
      k ← field_str "server_public_key" fs;
      Some (a, t, k)
  | JArr [JStr a; JStr t; JStr k] => Some (a, t, k)
  | _ => None
  end.

Definition apply_pairing_payload `{JsonText} (payload_json : string) (config : PairedServer)
  : outcome unit PairedServer :=
  match from_str pairing_of_json payload_json with
  | None => Err tt
  | Some (address, token, key) =>
      Ok {| server_public_address := address; server_websocket_address := address;
            paired_server_key := key; invite_token := token |}
  end.

(** * Lemmas *)

(** ** Protocols *)

Lemma sanitize_nonempty l allow : sanitize_preferred_protocols l allow <> [].
Proof. unfold sanitize_preferred_protocols. by destruct (List.filter _ _). Qed.

Lemma sanitize_secure l p :
  p ∈ sanitize_preferred_protocols l false -> eq_ignore_ascii_case p "naive_tcp" = false.
Proof.
  unfold sanitize_preferred_protocols. cbn [orb].
  destruct (List.filter _ _) as [|q qs] eqn:Hf.
  - unfold DEFAULT_PROTOCOLS. rewrite !elem_of_cons, elem_of_nil. naive_solver.
  - rewrite <- Hf, list_elem_of_In, filter_In. intros [_ Hn]. by apply negb_true_iff in Hn.
Qed.

Lemma naive_only p : transport_of_protocol p = Some NaiveTcp -> p = "naive_tcp".
Proof. unfold transport_of_protocol. case_bool_decide; [done|]. by repeat case_match. Qed.

Lemma rotated_seq l start :
  l <> [] -> rotated_protocols l start =
    (fun offset => l !!! ((start + offset) mod length l)%nat) <$> seq 0 (length l).
Proof. by destruct l. Qed.

(** Rotating is cutting the list once and swapping the halves. *)
Lemma rotated_cut l start :
  l <> [] -> rotated_protocols l start =
    drop (start mod length l) l ++ take (start mod length l) l.
Proof.
  intros Hl. rewrite rotated_seq by done.
  set (n := length l). assert (Hn : (0 < n)%nat) by (unfold n; destruct l; [done|simpl; lia]).
  set (k := (start mod n)%nat). assert (Hk : (k < n)%nat) by (apply Nat.mod_upper_bound; lia).
  apply list_eq_same_length with n.
  - rewrite length_app, length_drop, length_take. fold n. lia.
  - by rewrite length_fmap, length_seq.
  - intros i x y Hi Hx Hy. rewrite list_lookup_fmap, lookup_seq_lt in Hx by done. simpl in Hx.
    injection Hx as <-. apply list_lookup_total_correct.
    rewrite <- (Nat.Div0.add_mod_idemp_l start i n). fold k.
    destruct (decide (k + i < n)%nat) as [Hlt|Hge].
    + rewrite Nat.mod_small by done. rewrite lookup_app_l, lookup_drop in Hy; [done|].
      rewrite length_drop. fold n. lia.
    + rewrite <- (Nat.mod_unique (k + i) n 1 (k + i - n)) by lia.
      rewrite lookup_app_r, length_drop in Hy by (rewrite length_drop; fold n; lia). fold n in Hy.
      rewrite lookup_take_lt in Hy by lia. rewrite <- Hy. f_equal. lia.
Qed.

Lemma rotated_perm l start : rotated_protocols l start ≡ₚ l.
Proof.
  destruct (decide (l = [])) as [->|Hl]; [done|]. rewrite rotated_cut by done.
  by rewrite Permutation_app_comm, take_drop.
Qed.

(** ** Paths *)

Section path_lemmas.
Context {Path : Type} (dial : nat -> TransportKind -> option string -> option Path).

(** A protocol that gives no path: its name is unknown or dialling fails. *)
Definition gives_none (i : nat) (bind : option string) (protocol : string) : Prop :=
  forall kind, transport_of_protocol protocol = Some kind -> dial i kind bind = None.

(** How a path came about: over the first protocol of the list that gives one. *)
Definition first_path (i : nat) (bind : option string) (protocols : list string) (r : string * Path)
  : Prop :=
  exists l1 l2 kind, protocols = l1 ++ r.1 :: l2 /\ Forall (gives_none i bind) l1 /\
    transport_of_protocol r.1 = Some kind /\ dial i kind bind = Some r.2.

Lemma connect_path_Some i bind l r : connect_path dial i bind l = Some r -> first_path i bind l r.
Proof.
  induction l as [|p l IH]; [done|]. cbn [connect_path].
  assert (Hnext : connect_path dial i bind l = Some r -> gives_none i bind p ->
    first_path i bind (p :: l) r).
  { intros (l1 & l2 & kind & -> & Hall & Ht & Hd)%IH Hp. exists (p :: l1), l2, kind.
    split_and!; try done. by constructor. }
  destruct (transport_of_protocol p) as [kind|] eqn:Ht.
  - destruct (dial i kind bind) as [path|] eqn:Hd.
    + intros [= <-]. by exists [], l, kind.
    + intros Hc. apply Hnext; [done|]. intros kind'. congruence.
  - intros Hc. apply Hnext; [done|]. intros kind'. congruence.
Qed.

Lemma connect_path_None i bind l : connect_path dial i bind l = None -> Forall (gives_none i bind) l.
Proof.
  induction l as [|p l IH]; [constructor|]. cbn [connect_path].
  destruct (transport_of_protocol p) as [kind|] eqn:Ht.
  - destruct (dial i kind bind) as [path|] eqn:Hd; [done|]. intros Hc.
    constructor; [intros kind'; congruence | by apply IH].
  - intros Hc. constructor; [intros kind'; congruence | by apply IH].
Qed.

(** What the loop promises of the paths it adds from [i] on. *)
Definition paths_ok (protocols binds : list string) (i n : nat) (new : list (string * Path)) : Prop :=
  (length new <= n)%nat /\
  (forall j r, new !! j = Some r ->
     first_path (i + j) (binds !! (i + j)%nat) (rotated_protocols protocols (i + j)) r) /\
  ((length new < n)%nat ->
     Forall (gives_none (i + length new) (binds !! (i + length new)%nat)) protocols).

Lemma establish_loop_spec protocols binds n i paths :
  match establish_loop dial protocols binds n i paths with
  | Ok paths' => exists new, paths' = paths ++ new /\ paths_ok protocols binds i n new /\
      (i = 0%nat -> (0 < n)%nat -> new <> [])
  | Err _ => i = 0%nat /\ Forall (gives_none 0 (binds !! 0%nat)) protocols
  | Panic => False
  end.
Proof.
  revert i paths. induction n as [|n IH]; intros i paths; cbn [establish_loop].
  { exists []. rewrite app_nil_r. split_and!; [done| |lia]. split_and!; [done|done|simpl; lia]. }
  destruct (connect_path dial i (binds !! i) _) as [r|] eqn:Hc.
  - specialize (IH (S i) (paths ++ [r])).
    destruct (establish_loop dial protocols binds n (S i) (paths ++ [r])) as [paths'|e|]; [|naive_solver|done].
    destruct IH as (new & -> & (Hn & Hall & Hend) & _). exists (r :: new). rewrite <- app_assoc.
    split_and!; [done| |done]. split_and!.
    + simpl. lia.
    + intros [|j] r' Hj; simpl in Hj.
      * injection Hj as <-. rewrite Nat.add_0_r. by apply connect_path_Some.
      * replace (i + S j)%nat with (S i + j)%nat by lia. by apply Hall.
    + cbn [length]. intros Hlt. replace (i + S (length new))%nat with (S i + length new)%nat by lia.
      apply Hend. lia.
  - apply connect_path_None in Hc. rewrite rotated_perm in Hc.
    destruct (Nat.eqb_spec i 0) as [->|Hi]; [done|]. exists [].
    rewrite app_nil_r. split_and!; [done| |done]. split_and!; [simpl; lia|done|].
    intros _. cbn [length]. by rewrite Nat.add_0_r.
Qed.

(** Without the debug switch no path runs over plain TCP. *)
Lemma first_path_secure i bind l protocols (r : string * Path) :
  protocols ≡ₚ sanitize_preferred_protocols l false -> first_path i bind protocols r ->
  transport_of_protocol r.1 <> Some NaiveTcp.
Proof.
  intros Hp (l1 & l2 & kind & -> & _) Ht%naive_only.
  assert (Hin : r.1 ∈ sanitize_preferred_protocols l false).
  { rewrite <- Hp. apply elem_of_app. right. left. }
  apply sanitize_secure in Hin. by rewrite Ht in Hin.
Qed.
End path_lemmas.

(** ** The loop *)

Section loop_lemmas.
Context {Path : Type}.

(** There is a path, the active one exists, and the session is the client's. *)
Record loop_ok (s : ClientLoop Path) : Prop := {
  ok_active : (active_index s < length (transports s))%nat;
  ok_session : st_connection_id (session s) = 1
}.

Lemma drop_active_ok s s' : loop_ok s -> drop_active s = Ok s' -> loop_ok s'.
Proof.
  intros [Ha Hs]. unfold drop_active. destruct (Nat.eqb_spec (length (transports s)) 1); [done|].
  intros [= <-].
  assert (Hd : length (delete (active_index s) (transports s)) = (length (transports s) - 1)%nat)
    by (apply length_delete; by apply lookup_lt_is_Some_2).
  split; [|done]. cbn [transports active_index with_transports]. rewrite Hd.
  destruct (Nat.leb_spec (length (transports s) - 1) (active_index s)); lia.
Qed.

Lemma ingest_session_id s f : st_connection_id (ingest_inbound s f).2 = st_connection_id s.
Proof.
  unfold ingest_inbound. destruct (negb _); [done|]. destruct (_ <? _); [done|].
  by destruct (drain _ _ _ _) as [[[]]|].
Qed.

Lemma ingest_no_panic s f : (ingest_inbound s f).1 <> Panic.
Proof.
  destruct (ingest_cases s f) as [[Hc Hq]|Hr].
  - by destruct (ingest_accept s f Hc Hq) as (rx & buf' & ready & _ & ->).
  - by destruct (ingest_reject s f Hr) as [e ->].
Qed.

Lemma loop_step_ok s e :
  loop_ok s -> packet_loop_step s e <> Panic /\ forall s', packet_loop_step s e = Ok s' -> loop_ok s'.
Proof.
  intros Hok. pose proof Hok as [Ha Hs]. destruct e as [[[|b packet]|] sent|[t|]|[f|] tun_ok];
    cbn [packet_loop_step]; try (split; [done|]; intros s' [= <-]; done).
  - destruct (lookup_lt_is_Some_2 _ _ Ha) as [path Hp]. unfold index. rewrite Hp.
    cbn [create_outbound_frame expect_some mbind outcome_bind]. destruct sent.
    + split; [done|]. by intros s' [= <-].
    + split; [|intros s'; by apply drop_active_ok].
      unfold drop_active. by destruct (Nat.eqb _ _).
  - split; [done|]. intros s' [= <-]. split; [|done]. simpl. rewrite length_app. lia.
  - pose proof (ingest_no_panic (session s) f) as Hnp. pose proof (ingest_session_id (session s) f) as Hid.
    destruct (ingest_inbound (session s) f) as [[ready|e|] st]; [..|done]; [|split; done].
    simpl in Hid. destruct ready, tun_ok; try (split; done); (split; [done|]); intros s' [= <-];
      (split; [done|]); simpl; congruence.
  - split; [|intros s'; by apply drop_active_ok]. unfold drop_active. by destruct (Nat.eqb _ _).
Qed.

Lemma loop_run_ok s evs :
  loop_ok s -> run_linux_packet_loop s evs <> Panic /\
    forall s', run_linux_packet_loop s evs = Ok s' -> loop_ok s'.
Proof.
  revert s. induction evs as [|e evs IH]; intros s Hok; cbn [run_linux_packet_loop].
  { split; [done|]. by intros s' [= <-]. }
  destruct (loop_step_ok s e Hok) as [Hnp Hnext].
  destruct (packet_loop_step s e) as [s1|err|]; cbn [mbind outcome_bind]; [|split; done|done].
  by apply IH, Hnext.
Qed.

Lemma loop_run_app (s : ClientLoop Path) (evs evs' : list (loop_event Path)) :
  run_linux_packet_loop s (evs ++ evs') =
    (s' ← run_linux_packet_loop s evs; run_linux_packet_loop s' evs').
Proof.
  revert s. induction evs as [|e evs IH]; intros s; [done|]. cbn [app run_linux_packet_loop].
  destruct (packet_loop_step s e); cbn [mbind outcome_bind]; [apply IH|done|done].
Qed.

Lemma drop_active_error (s : ClientLoop Path) : drop_active s = Err LoopTransport -> length (transports s) = 1%nat.
Proof. unfold drop_active. by destruct (Nat.eqb_spec (length (transports s)) 1). Qed.

(** A failing path is an error only when it is the last one. *)
Lemma transport_error_last (s : ClientLoop Path) e :
  packet_loop_step s e = Err LoopTransport -> length (transports s) = 1%nat.
Proof.
  destruct e as [[[|b packet]|] sent|[t|]|[f|] tun_ok]; cbn [packet_loop_step]; try done.
  - unfold index. destruct (transports s !! active_index s) as [path|];
      cbn [create_outbound_frame expect_some mbind outcome_bind]; [|done].
    destruct sent; [done|]. apply (drop_active_error {| transports := transports s |}).
  - by destruct (ingest_inbound _ _) as [[[|? ?]|?|] ?]; destruct tun_ok.
  - apply drop_active_error.
Qed.

Lemma packet_loop_new_ok ts : ts <> [] -> loop_ok (packet_loop_new ts).
Proof. intros Hts. split; [|done]. simpl. destruct ts; [done | simpl; lia]. Qed.
End loop_lemmas.

(** ** Frames of the server's TCP forwarder *)

Lemma transmit_frames {N} `{Stack N} pkts (st st' : PollState N) :
  drain_tx pkts st = Ok st' ->
  exists new, outbound_frames st' = outbound_frames st ++ new /\
    Forall (fun f => connection_id (header f) = 0) new.
Proof.
  revert st. induction pkts as [|p pkts IH]; intros st; cbn [drain_tx].
  { intros [= <-]. exists []. by rewrite app_nil_r. }
  destruct (transmit_packet p st) as [st1|e|] eqn:Hc; simpl; [|done..].
  intros (new & Ho & Hall)%IH. destruct (transmit_packet_spec _ _ _ Hc) as (_ & [[Hf _]|(q & Hf & _)]).
  - rewrite Hf in Ho. eauto.
  - rewrite Hf, <- app_assoc in Ho. eexists. split; [exact Ho|]. by constructor.
Qed.

Lemma foreign_frame_ends_loop {Path} (s : ClientLoop Path) f tun_ok :
  loop_ok s -> connection_id (header f) <> 1 ->
  packet_loop_step s (FrameResult (Some f) tun_ok) =
    Err (LoopSession (ConnectionMismatch 1 (connection_id (header f)))).
Proof.
  intros [_ Hs] Hf. cbn [packet_loop_step]. unfold ingest_inbound. rewrite Hs.
  by destruct (Z.eqb_spec (connection_id (header f)) 1).
Qed.

(** * Properties *)

(** C23: establishing paths.  The result has at least one path and at most the number asked for; path
    [i] was dialled from the [i]-th bind address over the first protocol of the sanitised list,
    rotated by [i], that gives a path; fewer paths than asked for means that for the next index every
    protocol failed, and an error that every protocol failed for the first path; without the debug
    switch no path is plain TCP. *)
Theorem paths_established {Path : Type} (dial : nat -> TransportKind -> option string -> option Path)
    (preferred binds : list string) (allow : bool) (count : nat) :
  let protocols := sanitize_preferred_protocols preferred allow in
  match establish_transport_paths dial preferred binds allow count with
  | Ok paths =>
      (1 <= length paths <= Nat.max count 1)%nat /\
      (forall i r, paths !! i = Some r ->
         rotated_protocols protocols i ≡ₚ protocols /\
         first_path dial i (binds !! i) (rotated_protocols protocols i) r /\
         (allow = false -> transport_of_protocol r.1 <> Some NaiveTcp)) /\
      ((length paths < Nat.max count 1)%nat ->
         Forall (gives_none dial (length paths) (binds !! length paths)) protocols)
  | Err NoFirstPath => Forall (gives_none dial 0 (binds !! 0%nat)) protocols
  | Panic => False
  end.
Proof.
  intros protocols. unfold establish_transport_paths. fold protocols.
  pose proof (establish_loop_spec dial protocols binds (Nat.max count 1) 0 []) as Hl.
  destruct (establish_loop _ _ _ _ _ _) as [paths|[]|]; [|by destruct Hl|done].
  destruct Hl as (new & -> & (Hn & Hall & Hend) & Hne). cbn [app] in *.
  assert (new <> []) by (apply Hne; lia). split_and!; [destruct new; simpl; [done|lia]|done| |done].
  intros i r Hr. specialize (Hall i r Hr). cbn [Nat.add] in Hall.
  split_and!; [apply rotated_perm|done|]. intros ->. eapply first_path_secure; [|done]. apply rotated_perm.
Qed.

(** C22: the client's loop never panics, whatever packets, frames, failures and added paths it meets:
    while it runs there is an active path, and it stops only with an error, a failing path being an
    error only when it is the last one. *)
Theorem packet_loop_safe {Path : Type} (ts : list Path) (evs : list (loop_event Path)) :
  ts <> [] ->
  match run_linux_packet_loop (packet_loop_new ts) evs with
  | Ok s =>
      (active_index s < length (transports s))%nat /\
      (forall e, packet_loop_step s e = Err LoopTransport -> length (transports s) = 1%nat)
  | Err _ => True
  | Panic => False
  end.
Proof.
  intros Hts. destruct (loop_run_ok _ evs (packet_loop_new_ok ts Hts)) as [Hnp Hok].
  destruct (run_linux_packet_loop _ evs) as [s|e|]; [|done|done].
  specialize (Hok s eq_refl). split; [apply Hok|]. intros e. by apply transport_error_last.
Qed.

Definition sample_packet : list Z := [69; 0; 0; 1].

Lemma packet_loop_safe_witness :
  exists s, run_linux_packet_loop (packet_loop_new ["a"; "b"])
    [TunRead (Some sample_packet) true; FrameResult None true; TunRead (Some sample_packet) true;
     PeerTransport (Some "c")] = Ok s /\
    transports s = ["b"; "c"] /\ (active_index s < length (transports s))%nat.
Proof.
  pose proof (packet_loop_safe ["a"; "b"]
    [TunRead (Some sample_packet) true; FrameResult None true; TunRead (Some sample_packet) true;
     PeerTransport (Some "c")] ltac:(done)) as Hsafe.
  eexists. split; [reflexivity|]. split; [reflexivity|]. apply Hsafe.
Defined.

(** Any frame the server's TCP forwarder puts together ends the client's loop: the forwarder
    writes connection id 0, the client's session has id 1, and the mismatch is returned with [?]. *)
Theorem tcp_reply_ends_client_loop {Path N : Type} `{Stack N} (ts : list Path)
    (evs : list (loop_event Path)) (s : ClientLoop Path) (pkts : list (list Z)) (st st' : PollState N) :
  ts <> [] -> run_linux_packet_loop (packet_loop_new ts) evs = Ok s -> drain_tx pkts st = Ok st' ->
  exists new, outbound_frames st' = outbound_frames st ++ new /\
    forall f tun_ok, f ∈ new ->
      run_linux_packet_loop (packet_loop_new ts) (evs ++ [FrameResult (Some f) tun_ok]) =
        Err (LoopSession (ConnectionMismatch 1 0)).
Proof.
  intros Hts Hrun (new & Ho & Hall)%transmit_frames. exists new. split; [done|].
  intros f tun_ok Hf. rewrite loop_run_app, Hrun. cbn [mbind outcome_bind run_linux_packet_loop].
  rewrite Forall_forall in Hall. specialize (Hall f Hf).
  rewrite foreign_frame_ends_loop, Hall; [done| |by rewrite Hall].
  by apply (loop_run_ok _ evs (packet_loop_new_ok ts Hts)).
Qed.

(** A segment of the connection of [toy_connected] as the stack puts it on its ring. *)
Definition sample_segment : list Z :=
  [69; 0; 0; 40; 0; 0; 0; 0; 64; 6; 0; 0; 10; 255; 0; 1; 10; 8; 0; 2] ++
  [1; 187; 19; 136; 0; 0; 0; 0; 0; 0; 0; 0; 80; 16; 0; 0; 0; 0; 0; 0].

Lemma tcp_reply_ends_client_loop_witness :
  exists st' f, drain_tx [sample_segment] toy_connected = Ok st' /\
    outbound_frames st' = outbound_frames toy_connected ++ [f] /\
    run_linux_packet_loop (packet_loop_new ["a"; "b"])
      ([TunRead (Some sample_packet) true] ++ [FrameResult (Some f) true]) =
        Err (LoopSession (ConnectionMismatch 1 0)).
Proof.
  destruct (drain_tx [sample_segment] toy_connected) as [st'|e|] eqn:Hd; [|by vm_compute in Hd..].
  destruct (run_linux_packet_loop (packet_loop_new ["a"; "b"]) [TunRead (Some sample_packet) true])
    as [s|e|] eqn:Hs; [|by vm_compute in Hs..].
  destruct (tcp_reply_ends_client_loop ["a"; "b"] [TunRead (Some sample_packet) true] s
    [sample_segment] toy_connected st') as (new & Ho & Hall); [done|exact Hs|exact Hd|].
  assert (Hn : exists f, new = [f]).
  { vm_compute in Hd. injection Hd as <-. apply (f_equal length) in Ho as Hlen.
    rewrite length_app in Hlen. vm_compute in Hlen. destruct new as [|f [|]]; [done|by exists f|done]. }
  destruct Hn as [f ->]. exists st', f. split; [done|]. split; [exact Ho|]. apply Hall. left.
Defined.
