(* ===== verification/Tunnel.v ===== *)
(** A client and a server over one connection, from TUN device to TUN device: the packet loop of
    [src/crates/bonded-client/src/lib.rs], the task of the connection in [src/crates/bonded-server/src/main.rs]
    and the TUN bridge of [src/crates/bonded-server/src/tun_bridge.rs], with other clients on the same server.
    The connection carries whole frames in order (Transport.v shows that it does). *)

From stdpp Require Import base tactics list gmap strings.
From Stdlib Require Import ZArith Lia.
From S2P Require Import Prelude Words Text Json Auth Session Packet PeerShare Client Routing.
Open Scope Z_scope.

(** * Definitions *)

(** [tn_up]: frames on their way to the server; [tn_taken]: how many of the frames the server has sent on the
    connection the client has received; [tn_device]: what the bridge wrote to the server's TUN device, with the
    session it came from; [tn_routed]: the packets from that device which the bridge routed to the connection. *)
Record Tunnel := {
  tn_client : ClientLoop unit;
  tn_up : list SessionFrame;
  tn_server : Server;
  tn_taken : nat;
  tn_device : list (Z * list Z);
  tn_routed : list (list Z)
}.

Inductive tunnel_event :=
  (** the client reads a packet from its TUN device and sends it *)
  | ClientReads (packet : list Z)
  (** the client receives the next frame and writes its packets to its TUN device *)
  | ClientReceives
  (** a cycle of the connection's task that ends at the transport, or at the queue of the bridge; [n] frames
      were queued at its start *)
  | TaskReceives (n : nat)
  | TaskReturns (n : nat)
  (** the two tasks of the bridge *)
  | BridgeWrites
  | BridgeReads (packet : list Z)
  (** other connections *)
  | OtherOpens (q : path_id) (b : SessionBinding) (websocket : bool)
  | OtherCycles (q : path_id) (quic : bool) (n : nat) (oks : list bool) (ok : bool) (b : branch)
  | OtherForwards (q : path_id) (f : SessionFrame).

Definition set_server (sv : Server) (s : Tunnel) : Tunnel :=
  {| tn_client := tn_client s; tn_up := tn_up s; tn_server := sv; tn_taken := tn_taken s;
     tn_device := tn_device s; tn_routed := tn_routed s |}.

(** Every send of a cycle succeeds. *)
Definition all_sent : list bool := replicate MAX_RESPONSE_DRAIN_PER_CYCLE true.

(** The bridge's writer takes the next packet off its queue. *)
Definition bridge_writes (s : Tunnel) : option Tunnel :=
  match outbound (tn_server s) with
  | pkt :: rest =>
      let sv := tn_server s in
      let (w, b) := tun_write pkt (bridge sv) in
      Some {| tn_client := tn_client s; tn_up := tn_up s;
              tn_server := set_outbound b (writer_alive sv) rest sv;
              tn_taken := tn_taken s;
              tn_device := tn_device s ++ match w with Some p => [(out_session_id pkt, p)] | None => [] end;
              tn_routed := tn_routed s |}
  | [] => None
  end.

(** The bridge's reader has a packet from the device. *)
Definition bridge_reads (p : path_id) (packet : list Z) (s : Tunnel) : Tunnel :=
  let sv := tn_server s in
  let (r, b) := tun_return (fun q => bool_decide (is_Some (paths sv !! q))) packet (bridge sv) in
  {| tn_client := tn_client s; tn_up := tn_up s;
     tn_server := match r with Some (q, f) => push_tun q f (set_bridge b sv) | None => set_bridge b sv end;
     tn_taken := tn_taken s; tn_device := tn_device s;
     tn_routed := tn_routed s ++
       match r with Some (q, f) => if Nat.eqb q p then [packet] else [] | None => [] end |}.

(** The frame the client makes of a packet *)
Definition client_frame (s : Tunnel) (packet : list Z) : list SessionFrame :=
  match packet with [] => [] | _ => [(create_outbound_frame (session (tn_client s)) packet 0).1] end.

Definition client_step (e : loop_event unit) (up : list SessionFrame) (taken : nat) (s : Tunnel) : option Tunnel :=
  match packet_loop_step (tn_client s) e with
  | Ok c =>
      Some {| tn_client := c; tn_up := up; tn_server := tn_server s; tn_taken := taken;
              tn_device := tn_device s; tn_routed := tn_routed s |}
  | _ => None
  end.

Section tunnel.
Context (p : path_id) (sid : Z).
Implicit Types s : Tunnel.

Definition tunnel_exec (e : tunnel_event) s : option Tunnel :=
  match e with
  | ClientReads packet => client_step (TunRead (Some packet) true) (tn_up s ++ client_frame s packet) (tn_taken s) s
  | ClientReceives =>
      t ← paths (tn_server s) !! p;
      f ← client_out t !! tn_taken s;
      client_step (FrameResult (Some f) true) (tn_up s) (S (tn_taken s)) s
  | TaskReceives n =>
      t ← paths (tn_server s) !! p;
      match pending_frame t, tn_up s with
      | Some _, _ => sv ← cycle p n all_sent true (OnRecv None true) (tn_server s); Some (set_server sv s)
      | None, f :: up =>
          sv ← cycle p n all_sent true (OnRecv (Some f) true) (tn_server s);
          Some {| tn_client := tn_client s; tn_up := up; tn_server := sv; tn_taken := tn_taken s;
                  tn_device := tn_device s; tn_routed := tn_routed s |}
      | None, [] => None
      end
  | TaskReturns n => sv ← cycle p n all_sent true (OnTun true) (tn_server s); Some (set_server sv s)
  | BridgeWrites => bridge_writes s
  | BridgeReads packet => Some (bridge_reads p packet s)
  | OtherOpens q b websocket =>
      match paths (tn_server s) !! q with
      | Some _ => None
      | None =>
          if bool_decide ((register_client (client_public_key b) (registry (tn_server s))).1 = sid) then None
          else Some (set_server ((if websocket then websocket_session_open else tcp_session_open) q b (tn_server s)) s)
      end
  | OtherCycles q quic n oks ok b =>
      t ← paths (tn_server s) !! q;
      if Nat.eqb q p || (path_session t =? sid) || (quic && use_tun_bridge t) then None
      else sv ← (if quic then quic_session_cycle else cycle) q n oks ok b (tn_server s); Some (set_server sv s)
  | OtherForwards q f => if Nat.eqb q p then None else Some (set_server (push_forward q f (tn_server s)) s)
  end.

Fixpoint tunnel_run (es : list tunnel_event) s : option Tunnel :=
  match es with
  | [] => Some s
  | e :: es => s ← tunnel_exec e s; tunnel_run es s
  end.
End tunnel.

(** An authenticated client has sent its first packet, which the server has received and bound the session with. *)
Definition tunnel_start `{Crypto} `{JsonText} (now : option Z) (identity : DeviceKeypair) (key : string) (p : path_id)
    (first : list Z) (sv : Server) : option Tunnel :=
  let c := packet_loop_new [()] in
  match packet_loop_step c (TunRead (Some first) true) with
  | Ok c' =>
      match resolve_session_binding now (snd <$> (fst <$> head (attempted c'))) key identity with
      | Ok b =>
          Some {| tn_client := c'; tn_up := []; tn_server := tcp_session_open p b sv; tn_taken := 0;
                  tn_device := []; tn_routed := [] |}
      | _ => None
      end
  | _ => None
  end.

(** * Lemmas *)

(** ** What the connection sees of the server *)

Lemma drain_all k m queue out :
  (k <= m)%nat ->
  exists oks, drain_queue k (replicate m true) queue out = (drop k queue, out ++ take k queue, oks).
Proof.
  revert m queue out. induction k as [|k IH]; intros m queue out Hk.
  - exists (replicate m true). destruct queue; cbn; by rewrite app_nil_r.
  - destruct queue as [|f queue]; [exists (replicate m true); cbn; by rewrite app_nil_r|].
    destruct m as [|m]; [lia|]. cbn [drain_queue replicate]. destruct (IH m queue (out ++ [f])) as [oks ->]; [lia|].
    exists oks. cbn. by rewrite <- app_assoc.
Qed.

Lemma drain_sent n t :
  use_tun_bridge t = true ->
  exists k, drain_responses n all_sent t =
    with_queues (drop k (tun_rx t)) (forward_rx t) (client_out t ++ take k (tun_rx t)) t.
Proof.
  intros Hu. exists (Nat.min MAX_RESPONSE_DRAIN_PER_CYCLE n). unfold drain_responses, all_sent.
  destruct (drain_all (Nat.min MAX_RESPONSE_DRAIN_PER_CYCLE n) MAX_RESPONSE_DRAIN_PER_CYCLE (tun_rx t) (client_out t))
    as [oks ->]; [lia|]. by rewrite Hu.
Qed.

Section steps.
Context (p : path_id) (sid : Z).
Implicit Types (sv : Server) (t : PathTask).

(** The packets of the session that wait for the writer *)
Definition own_queue sv : list OutboundPacket := List.filter (fun pkt => out_session_id pkt =? sid) (outbound sv).

(** A step that is not the connection's *)
Record bystander sv sv' : Prop := {
  by_path : paths sv' !! p = paths sv !! p;
  by_route : sessions (bridge sv') !! sid = sessions (bridge sv) !! sid;
  by_writer : writer_alive sv' = writer_alive sv;
  by_queue : own_queue sv' = own_queue sv
}.

Lemma handle_outbound q f ok t sv :
  exists new, outbound (handle_client_frame q f ok t sv).2 = outbound sv ++ new /\
    Forall (fun pkt => out_session_id pkt = path_session t) new.
Proof.
  unfold handle_client_frame. destruct (_ && _); [|destruct (use_tun_bridge t); [destruct (writer_alive sv)|]].
  - exists []. destruct (send_or_break _ _ _). cbn. by rewrite app_nil_r.
  - eexists. split; [done|]. by repeat constructor.
  - exists []. cbn. by rewrite app_nil_r.
  - exists []. cbn. by rewrite app_nil_r.
Qed.

Lemma select_outbound q b t sv c sv' :
  select_step q b t sv = Some (c, sv') ->
  exists new, outbound sv' = outbound sv ++ new /\ Forall (fun pkt => out_session_id pkt = path_session t) new.
Proof.
  assert (Hnone : exists new, outbound sv = outbound sv ++ new /\ Forall (fun pkt => out_session_id pkt = path_session t) new)
    by (exists []; by rewrite app_nil_r).
  destruct b as [ok|ok|[f|] ok]; cbn [select_step].
  - destruct (tun_rx t); [destruct (tun_tx_alive q t sv)|destruct (send_or_break _ _ _)]; by intros [= <- <-].
  - destruct (forward_rx t); [done|]. destruct (use_tun_bridge _); [|destruct (send_or_break _ _ _)]; by intros [= <- <-].
  - intros [= Heq]. pose proof (handle_outbound q f ok t sv) as Ho. by rewrite Heq in Ho.
  - by intros [= <- <-].
Qed.

(** Either kind of cycle leaves the queue of other sessions. *)
Lemma cycle_outbound (quic : bool) q n oks ok b t sv sv' :
  (if quic then quic_session_cycle else cycle) q n oks ok b sv = Some sv' -> paths sv !! q = Some t ->
  exists new, outbound sv' = outbound sv ++ new /\ Forall (fun pkt => out_session_id pkt = path_session t) new.
Proof.
  intros Hc Ht. assert (Hend : forall c sv1, match c with Continue => Some sv1
    | Break => t ← paths sv1 !! q; Some (close_path q t sv1) end = Some sv' -> outbound sv' = outbound sv1).
  { intros [] sv1; [by intros [= <-]|]. destruct (paths sv1 !! q); [by intros [= <-]|done]. }
  assert (Hh : forall f ok u sv1 c, path_session u = path_session t -> handle_client_frame q f ok u sv = (c, sv1) ->
    exists new, outbound sv1 = outbound sv ++ new /\ Forall (fun pkt => out_session_id pkt = path_session t) new).
  { intros f ok0 u sv1 c Hu Hf. pose proof (handle_outbound q f ok0 u sv) as Ho. rewrite Hf, Hu in Ho. done. }
  assert (Hs : forall u b c sv1, path_session u = path_session t -> select_step q b u sv = Some (c, sv1) ->
    exists new, outbound sv1 = outbound sv ++ new /\ Forall (fun pkt => out_session_id pkt = path_session t) new).
  { intros u b0 c sv1 Hu Hf%select_outbound. by rewrite Hu in Hf. }
  destruct quic; unfold quic_session_cycle, cycle in Hc; rewrite Ht in Hc; cbn [mbind option_bind] in Hc.
  - destruct (quic_drain _ _ _ _) as [[fwd out] c0].
    destruct (match c0 with Continue => _ | Break => _ end) as [[c sv1]|] eqn:Hm; [|done]. cbn in Hc.
    rewrite (Hend _ _ Hc). destruct c0; [|injection Hm as _ <-; exists []; cbn; by rewrite app_nil_r].
    destruct (pending_frame _) as [f|]; [injection Hm as Hm; by eapply Hh, Hm|].
    destruct b; [done|by eapply Hs, Hm|by eapply Hs, Hm].
  - pose proof (drain_responses_same n oks t) as (Hsame & _ & _).
    destruct (match pending_frame _ with Some _ => _ | None => _ end) as [[c sv1]|] eqn:Hm; [|done]. cbn in Hc.
    rewrite (Hend _ _ Hc). destruct (pending_frame _) as [f|]; [injection Hm as Hm; by eapply Hh, Hm|by eapply Hs, Hm].
Qed.
Lemma own_queue_app sv sv' new :
  outbound sv' = outbound sv ++ new -> Forall (fun pkt => out_session_id pkt <> sid) new -> own_queue sv' = own_queue sv.
Proof.
  intros Ho Hn. unfold own_queue. rewrite Ho, List.filter_app.
  assert (Hnil : List.filter (fun pkt => out_session_id pkt =? sid) new = []).
  { clear Ho. induction Hn as [|x l Hx _ IH]; [done|]. cbn. by rewrite (proj2 (Z.eqb_neq _ _) Hx). }
  by rewrite Hnil, app_nil_r.
Qed.

Lemma other_cycle (quic : bool) q n oks ok b t sv sv' :
  (if quic then quic_session_cycle else cycle) q n oks ok b sv = Some sv' -> paths sv !! q = Some t ->
  q <> p -> path_session t <> sid -> bystander sv sv'.
Proof.
  intros Hc Ht Hq Hs.
  assert (Hcy : path_cycle q sv sv') by (destruct quic; [by eapply quic_cycle_cases|by eapply cycle_cases]).
  destruct (cycle_outbound quic q n oks ok b t sv sv' Hc Ht) as (new & Ho & Hn).
  destruct Hcy as (t0 & s1 & Ht0 & [[_ Hw] Hb (t' & Hps & Hsame)] & Hend).
  assert (t0 = t) as -> by congruence.
  assert (Hown : own_queue sv' = own_queue sv).
  { eapply own_queue_app; [exact Ho|]. eapply Forall_impl; [exact Hn|]. cbn. congruence. }
  destruct Hend as [->|(t1 & Ht1 & (Hs1 & _ & Hu1) & ->)]; split; try done; cbn.
  - by rewrite Hps, lookup_insert_ne.
  - by rewrite Hb.
  - by rewrite lookup_delete_ne, Hps, lookup_insert_ne.
  - rewrite Hb. destruct (use_tun_bridge t1); [|done]. cbn. rewrite lookup_delete_ne; [done|]. congruence.
Qed.

Lemma other_open u q b sv :
  q <> p -> (register_client (client_public_key b) (registry sv)).1 <> sid -> bystander sv (open_path u q b sv).
Proof.
  intros Hq Hs. unfold open_path. destruct (register_client _ _) as [i reg]. cbn in Hs. split; cbn; [|destruct u; [|done]|done|done].
  - by rewrite lookup_insert_ne.
  - cbn. by rewrite lookup_insert_ne.
Qed.

Lemma other_forward q f sv : q <> p -> bystander sv (push_forward q f sv).
Proof.
  intros Hq. unfold push_forward. destruct (paths sv !! q) as [t|]; [|done].
  destruct (use_tun_bridge t); [done|]. split; [cbn; by rewrite lookup_insert_ne|done..].
Qed.

(** ** The connection's own steps *)

(** A frame of the client's packet loop *)
Definition up_frame (f : SessionFrame) : Prop := connection_id (header f) = 1 /\ flags (header f) = 0.

Definition queue_packet (f : SessionFrame) : OutboundPacket :=
  {| out_session_id := sid; out_connection_id := 1; out_payload := payload f |}.

Lemma handle_up f t sv :
  up_frame f -> use_tun_bridge t = true -> path_session t = sid -> writer_alive sv = true ->
  handle_client_frame p f true t sv =
  (Continue, set_path p t (set_outbound (bridge sv) true (outbound sv ++ [queue_packet f]) sv)).
Proof.
  intros [Hc Hf] Hu Hs Hw. unfold handle_client_frame, queue_packet. by rewrite Hf, Hu, Hs, Hc, Hw.
Qed.

(** A cycle that takes frame [f], from the binding or from the transport *)
Lemma receive_cycle n f b t sv :
  paths sv !! p = Some t -> use_tun_bridge t = true -> path_session t = sid -> writer_alive sv = true ->
  up_frame f -> pending_frame t = Some f \/ pending_frame t = None /\ b = OnRecv (Some f) true ->
  exists k, let u := with_pending None
      (with_queues (drop k (tun_rx t)) (forward_rx t) (client_out t ++ take k (tun_rx t)) t) in
    cycle p n all_sent true b sv =
    Some (set_path p u (set_outbound (bridge sv) true (outbound sv ++ [queue_packet f]) sv)).
Proof.
  intros Ht Hu Hs Hw Hf Hp. destruct (drain_sent n t Hu) as [k Hd]. exists k. unfold cycle. rewrite Ht.
  cbn [mbind option_bind]. rewrite Hd. destruct Hp as [Hp|[Hp ->]]; cbn [pending_frame with_queues]; rewrite Hp.
  - rewrite handle_up by done. done.
  - cbn [select_step]. rewrite handle_up by done. cbn [mbind option_bind].
    assert (Hq : forall a b c, with_pending None (with_queues a b c t) = with_queues a b c t)
      by (intros; destruct t; cbn in *; by subst). by rewrite Hq.
Qed.

(** A cycle that sends the next frame of the bridge *)
Lemma return_cycle n t sv sv' :
  paths sv !! p = Some t -> use_tun_bridge t = true -> pending_frame t = None -> tun_tx_alive p t sv = true ->
  cycle p n all_sent true (OnTun true) sv = Some sv' ->
  exists k, (length (drop k (tun_rx t)) <> 0)%nat /\ sv' = set_path p
    (with_queues (drop (S k) (tun_rx t)) (forward_rx t) (client_out t ++ take (S k) (tun_rx t)) t) sv.
Proof.
  intros Ht Hu Hp Ha. destruct (drain_sent n t Hu) as [k Hd]. unfold cycle. rewrite Ht.
  cbn [mbind option_bind]. rewrite Hd. cbn [pending_frame with_queues]. rewrite Hp. cbn [select_step tun_rx with_queues].
  destruct (drop k (tun_rx t)) as [|f q] eqn:Hq.
  - change (tun_tx_alive p _ sv) with (tun_tx_alive p t sv). by rewrite Ha.
  - intros [= <-]. exists k. split; [by rewrite Hq|].
    assert (Hl : tun_rx t !! k = Some f) by (rewrite <- (Nat.add_0_r k), <- lookup_drop, Hq; done).
    erewrite (take_S_r _ k) by exact Hl. replace (drop (S k) (tun_rx t)) with q; [by rewrite app_assoc|].
    rewrite <- Nat.add_1_r, <- drop_drop, Hq. done.
Qed.
(** ** The invariant *)

(** A packet the bridge takes for IPv4 *)
Definition valid (packet : list Z) : bool := match src_dst packet with Some _ => true | None => false end.

Definition down_frame (i : nat) (packet : list Z) : SessionFrame :=
  {| header := {| connection_id := 1; sequence := Z.of_nat i; flags := 0 |}; payload := packet |}.

(** The packets the client has sent, those of them the bridge has written, and those in between *)
Definition sent (c : ClientLoop unit) : list (list Z) := (fun x => payload x.1.2) <$> attempted c.
Definition arrived (s : Tunnel) : list (list Z) := snd <$> List.filter (fun x => x.1 =? sid) (tn_device s).
Definition in_transit (t : PathTask) (s : Tunnel) : list (list Z) :=
  (out_payload <$> own_queue (tn_server s)) ++ from_option (fun f => [payload f]) [] (pending_frame t)
    ++ (payload <$> tn_up s).

(** The client has received [taken] of the packets routed to it. *)
Record loop_inv (c : ClientLoop unit) (taken : nat) (routed : list (list Z)) : Prop := {
  li_paths : transports c = [()] /\ active_index c = 0%nat;
  li_id : st_connection_id (session c) = 1;
  li_next : next_rx_sequence (session c) = Z.of_nat taken;
  li_buffer : reorder_buffer (session c) = ∅;
  li_tun : tun_in c = take taken routed
}.

Record conn_inv (s : Tunnel) (t : PathTask) (r : SessionRoute) : Prop := {
  ci_path : paths (tn_server s) !! p = Some t /\ sessions (bridge (tn_server s)) !! sid = Some r;
  ci_writer : writer_alive (tn_server s) = true;
  ci_task : path_session t = sid /\ use_tun_bridge t = true;
  ci_route : tx r = p /\ route_connection_id r = 1 /\ next_server_sequence r = Z.of_nat (length (tn_routed s));
  ci_frames : Forall up_frame (tn_up s) /\ (forall f, pending_frame t = Some f -> up_frame f) /\
    Forall (fun pkt => out_connection_id pkt = 1) (own_queue (tn_server s));
  ci_up : arrived s ++ List.filter valid (in_transit t s) = List.filter valid (sent (tn_client s));
  ci_down : client_out t ++ tun_rx t = imap down_frame (tn_routed s);
  ci_taken : (tn_taken s <= length (client_out t))%nat;
  ci_client : loop_inv (tn_client s) (tn_taken s) (tn_routed s)
}.

Definition tunnel_inv (s : Tunnel) : Prop := server_ok (tn_server s) /\ exists t r, conn_inv s t r.

Lemma bystander_inv s sv : bystander (tn_server s) sv -> server_ok sv -> tunnel_inv s -> tunnel_inv (set_server sv s).
Proof.
  intros [B1 B2 Bw B3] Hok (_ & t & r & [[C1 C1'] W C2 C3 C4 C5 C6 C7 C8]). split; [done|]. exists t, r.
  split; cbn; try done.
  - by rewrite B1, B2.
  - by rewrite Bw.
  - by rewrite B3.
  - unfold in_transit in *. cbn. by rewrite B3.
Qed.

(** *** The client *)

Lemma ingest_next s f :
  connection_id (header f) = st_connection_id s -> sequence (header f) = next_rx_sequence s -> reorder_buffer s = ∅ ->
  0 <= next_rx_sequence s -> next_rx_sequence s + 1 < 2 ^ 64 ->
  ingest_inbound s f = (Ok [f], {| st_connection_id := st_connection_id s; next_tx_sequence := next_tx_sequence s;
                                   next_rx_sequence := next_rx_sequence s + 1; reorder_buffer := ∅ |}).
Proof.
  intros Hc Hs Hb H0 H1. unfold ingest_inbound. rewrite Hc, Hs, Hb, Z.eqb_refl, Z.ltb_irrefl. cbn [negb].
  unfold or_insert. rewrite lookup_empty, insert_empty, map_size_singleton. cbn [drain].
  rewrite lookup_singleton_eq. rewrite delete_singleton_eq, lookup_empty.
  rewrite wrapping_add_small by (unfold in_u; lia). done.
Qed.

Lemma client_reads_inv s s' packet :
  tunnel_exec p sid (ClientReads packet) s = Some s' -> tunnel_inv s -> tunnel_inv s'.
Proof.
  intros He (Hok & t & r & [C1 W C2 C3 (C4 & C4' & C4'') C5 C6 C7 [[L1 L1'] L2 L3 L4 L5]]).
  cbn [tunnel_exec] in He. unfold client_step in He.
  destruct packet as [|x packet]; cbn [packet_loop_step] in He.
  - injection He as <-. split; [done|]. exists t, r. cbn [client_frame]. rewrite app_nil_r. by split.
  - cbn [create_outbound_frame] in He. rewrite L1, L1' in He. cbn in He. injection He as <-.
    split; [done|]. exists t, r. split; cbn; try done.
    + split_and!; [|done|done]. apply Forall_app. split; [done|]. repeat constructor; cbn. done.
    + unfold sent, in_transit in *. cbn. rewrite !fmap_app, !List.filter_app, <- C5, <- !app_assoc. cbn.
      rewrite !List.filter_app. by rewrite <- !app_assoc.
Qed.

Lemma client_receives_inv s s' :
  Z.of_nat (length (tn_routed s)) < 2 ^ 64 ->
  tunnel_exec p sid ClientReceives s = Some s' -> tunnel_inv s -> tunnel_inv s'.
Proof.
  intros Hlen He (Hok & t & r & [[C1 C1'] W C2 C3 C4 C5 C6 C7 [L1 L2 L3 L4 L5]]).
  cbn [tunnel_exec] in He. rewrite C1 in He. cbn [mbind option_bind] in He.
  destruct (client_out t !! tn_taken s) as [f|] eqn:Hf; [|done]. cbn [mbind option_bind] in He.
  assert (Hd : (client_out t ++ tun_rx t) !! tn_taken s = Some f) by by apply lookup_app_l_Some.
  rewrite C6, list_lookup_imap in Hd. destruct (tn_routed s !! tn_taken s) as [packet|] eqn:Hp; [|done].
  injection Hd as <-. assert (Hlt := lookup_lt_Some _ _ _ Hp). unfold client_step in He. cbn [packet_loop_step] in He.
  rewrite ingest_next in He by (cbn; rewrite ?L3; lia || done). cbn in He. injection He as <-.
  split; [done|]. exists t, r. split; cbn; try done.
  - apply lookup_lt_Some in Hf. lia.
  - split; cbn; try done; [rewrite L3; lia|]. by rewrite L5, (take_S_r _ _ _ Hp).
Qed.
(** *** The connection's task *)

Lemma own_queue_push sv sv' f : outbound sv' = outbound sv ++ [queue_packet f] -> own_queue sv' = own_queue sv ++ [queue_packet f].
Proof. intros Ho. unfold own_queue. rewrite Ho, List.filter_app. cbn. by rewrite Z.eqb_refl. Qed.

(** Frame [f] goes from the binding or the wire to the bridge's queue. *)
Lemma receive_inv n f b up s sv t r :
  conn_inv s t r -> server_ok (tn_server s) -> up_frame f -> Forall up_frame up ->
  pending_frame t = Some f /\ up = tn_up s \/
    pending_frame t = None /\ b = OnRecv (Some f) true /\ tn_up s = f :: up ->
  cycle p n all_sent true b (tn_server s) = Some sv ->
  tunnel_inv {| tn_client := tn_client s; tn_up := up; tn_server := sv; tn_taken := tn_taken s;
                tn_device := tn_device s; tn_routed := tn_routed s |}.
Proof.
  intros [[C1 C1'] W [C2 C2'] C3 (C4 & C4' & C4'') C5 C6 C7 C8] Hok Hf Hup Hp Hc.
  assert (Hp' : pending_frame t = Some f \/ pending_frame t = None /\ b = OnRecv (Some f) true) by naive_solver.
  destruct (receive_cycle n f b t _ C1 C2' C2 W Hf Hp') as [k Hc']. cbv zeta in Hc'. rewrite Hc in Hc'. injection Hc' as ->.
  split; [eapply path_cycle_ok; [by eapply cycle_cases|done]|].
  exists (with_pending None (with_queues (drop k (tun_rx t)) (forward_rx t) (client_out t ++ take k (tun_rx t)) t)), r.
  match goal with |- conn_inv ?x _ _ => assert (Hq : own_queue (tn_server x) = own_queue (tn_server s) ++ [queue_packet f])
    by by apply own_queue_push end.
  split; cbn [tn_client tn_up tn_server tn_taken tn_device tn_routed] in *; try done.
  - split; [apply lookup_insert_eq|done].
  - split_and!; [done|done|]. rewrite Hq. apply Forall_app. by split; [|repeat constructor].
  - rewrite <- C5. unfold arrived, in_transit. cbn [tn_device tn_server tn_up]. rewrite Hq, fmap_app. cbn.
    rewrite <- app_assoc. do 3 f_equal. destruct Hp as [[-> ->]|(-> & _ & ->)]; done.
  - cbn. by rewrite <- C6, <- app_assoc, take_drop.
  - cbn. rewrite length_app. lia.
Qed.

Lemma task_receives_inv n s s' :
  tunnel_exec p sid (TaskReceives n) s = Some s' -> tunnel_inv s -> tunnel_inv s'.
Proof.
  intros He (Hok & t & r & Hi). pose proof Hi as [[C1 _] W [C2 C2'] C3 (C4 & C4' & C4'') C5 C6 C7 C8].
  cbn [tunnel_exec] in He. rewrite C1 in He. cbn [mbind option_bind] in He.
  destruct (pending_frame t) as [f|] eqn:Hp.
  - destruct (cycle p n all_sent true _ (tn_server s)) as [sv|] eqn:Hc; [|done]. injection He as <-.
    eapply (receive_inv n f _ (tn_up s)); eauto.
  - destruct (tn_up s) as [|f up] eqn:Hup; [done|]. apply Forall_cons in C4 as [Hf Hup'].
    destruct (cycle p n all_sent true _ (tn_server s)) as [sv|] eqn:Hc; [|done]. injection He as <-.
    eapply (receive_inv n f _ up); eauto 6.
Qed.

Lemma own_alive s t r : conn_inv s t r -> tun_tx_alive p t (tn_server s) = true.
Proof.
  intros [[_ C1] _ [_ C2] [C3 _] _ _ _ _ _]. apply tun_tx_alive_spec; [done|]. eauto.
Qed.

Lemma task_returns_inv n s s' :
  tunnel_exec p sid (TaskReturns n) s = Some s' -> tunnel_inv s -> tunnel_inv s'.
Proof.
  intros He (Hok & t & r & Hi). pose proof (own_alive s t r Hi) as Ha.
  pose proof Hi as [[C1 C1'] W [C2 C2'] C3 (C4 & C4' & C4'') C5 C6 C7 C8].
  cbn [tunnel_exec] in He. destruct (cycle p n all_sent true _ (tn_server s)) as [sv|] eqn:Hc; [|done].
  injection He as <-. destruct (pending_frame t) as [f|] eqn:Hp; [eapply (receive_inv n f _ (tn_up s)); eauto|].
  destruct (return_cycle n t _ sv C1 C2' Hp Ha Hc) as (k & _ & ->).
  split; [eapply path_cycle_ok; [by eapply cycle_cases|done]|].
  exists (with_queues (drop (S k) (tun_rx t)) (forward_rx t) (client_out t ++ take (S k) (tun_rx t)) t), r.
  split; cbn; try done.
  - split; [apply lookup_insert_eq|done].
  - split_and!; [done| |done]. intros f. congruence.
  - by rewrite <- C6, <- app_assoc, take_drop.
  - rewrite length_app. lia.
Qed.

(** *** The bridge *)

Lemma bridge_writes_inv s s' :
  tunnel_exec p sid BridgeWrites s = Some s' -> tunnel_inv s -> tunnel_inv s'.
Proof.
  intros He (Hok & t & r & [[C1 C1'] W C2 (C3 & C3' & C3'') (C4 & C4' & C4'') C5 C6 C7 C8]).
  cbn [tunnel_exec] in He. unfold bridge_writes in He.
  destruct (outbound (tn_server s)) as [|pkt rest] eqn:Ho; [done|].
  pose proof (server_step_ok _ _ (StepWrite _ _ _ W Ho) Hok) as Hok'.
  destruct (tun_write pkt (bridge (tn_server s))) as [w b] eqn:Hw. cbn [snd] in Hok'. injection He as <-.
  split; [cbn; by rewrite W|]. unfold tun_write in Hw.
  assert (Hq : own_queue (tn_server s) = (if out_session_id pkt =? sid then [pkt] else []) ++
    List.filter (fun pkt => out_session_id pkt =? sid) rest)
    by (unfold own_queue; rewrite Ho; cbn; by destruct (out_session_id pkt =? sid)).
  assert (Hw' : w = (if valid (out_payload pkt) then Some (out_payload pkt) else None) /\
    exists r', sessions b !! sid = Some r' /\ tx r' = p /\ route_connection_id r' = 1 /\
      next_server_sequence r' = next_server_sequence r).
  { unfold valid. destruct (src_dst (out_payload pkt)) as [[src dst]|]; [|injection Hw as <- <-; eauto 6].
    injection Hw as <- <-. split; [done|]. destruct (decide (out_session_id pkt = sid)) as [Hs|Hs].
    - rewrite Hs, C1'. cbn. rewrite lookup_insert_eq. eexists. split; [done|]. cbn.
      rewrite Hq, (proj2 (Z.eqb_eq _ _) Hs) in C4''. by inversion C4''.
    - destruct (sessions (bridge (tn_server s)) !! out_session_id pkt); cbn; [rewrite lookup_insert_ne by done|]; eauto. }
  destruct Hw' as (-> & r' & Hr' & R1 & R2 & R3).
  exists t, r'. split; cbn; try done.
  - by rewrite R3.
  - split_and!; [done|done|]. unfold own_queue. cbn. rewrite Hq in C4''. by apply Forall_app in C4'' as [_ ?].
  - rewrite <- C5. unfold arrived, in_transit, own_queue. cbn. rewrite List.filter_app, fmap_app.
    change (List.filter (fun pkt => out_session_id pkt =? sid) (outbound (tn_server s))) with (own_queue (tn_server s)).
    rewrite Hq, fmap_app, <- !app_assoc. f_equal. rewrite !List.filter_app.
    destruct (valid (out_payload pkt)) eqn:Hv, (out_session_id pkt =? sid) eqn:Hs; cbn; rewrite ?Hs, ?Hv; done.
Qed.
(** The reader routes a packet to the connection, or does something that does not concern it. *)
Lemma tun_return_own s t r packet x b :
  conn_inv s t r -> server_ok (tn_server s) ->
  tun_return (fun q => bool_decide (is_Some (paths (tn_server s) !! q))) packet (bridge (tn_server s)) = (x, b) ->
  x = Some (p, down_frame (length (tn_routed s)) packet) /\
    sessions b !! sid = Some {| tx := p; route_connection_id := 1;
                                next_server_sequence := wrapping_add 64 (Z.of_nat (length (tn_routed s))) 1 |} \/
  match x with Some (q, _) => q <> p | None => True end /\ sessions b !! sid = Some r.
Proof.
  intros [[C1 C1'] W [C2 C2'] (C3 & C3' & C3'') _ _ _ _ _] [Hro _]. unfold tun_return.
  destruct (src_dst packet) as [[src dst]|]; [|intros [= <- <-]; auto].
  destruct (ip_to_session (bridge (tn_server s)) !! dst) as [i|]; [|intros [= <- <-]; auto].
  destruct (sessions (bridge (tn_server s)) !! i) as [route|] eqn:Hr; [|intros [= <- <-]; auto].
  destruct (decide (i = sid)) as [->|Hne].
  - replace route with r by congruence. rewrite C3, bool_decide_eq_true_2 by eauto. intros [= <- <-]. left.
    unfold down_frame. cbn. rewrite C3', C3'', lookup_insert_eq. done.
  - destruct (Hro _ _ Hr) as (u & Hu & Hus & _). case_bool_decide; intros [= <- <-]; right.
    + split; [congruence|]. cbn. by rewrite lookup_insert_ne.
    + split; [done|]. cbn. by rewrite lookup_delete_ne, lookup_insert_ne by done.
Qed.

Lemma bridge_reads_inv packet s :
  Z.of_nat (length (tn_routed (bridge_reads p packet s))) < 2 ^ 64 -> tunnel_inv s -> tunnel_inv (bridge_reads p packet s).
Proof.
  intros Hlen (Hok & t & r & Hi). unfold bridge_reads in *.
  destruct (tun_return _ packet (bridge (tn_server s))) as [x b] eqn:Hr.
  pose proof (server_step_ok _ _ (StepReturn _ _ _ _ Hr) Hok) as Hok'.
  pose proof Hi as [[C1 C1'] W C2 C3 C4 C5 C6 C7 C8].
  split; [by destruct x as [[q f]|]|]. cbn in Hlen.
  destruct (tun_return_own s t r packet x b Hi Hok Hr) as [[-> Hb]|[Hx Hb]].
  - rewrite Nat.eqb_refl, length_app in Hlen. cbn in Hlen. unfold push_tun. cbn [set_bridge paths]. rewrite C1.
    rewrite wrapping_add_small in Hb by (unfold in_u; lia).
    exists (with_queues (tun_rx t ++ [down_frame (length (tn_routed s)) packet]) (forward_rx t) (client_out t) t),
      {| tx := p; route_connection_id := 1; next_server_sequence := Z.of_nat (length (tn_routed s)) + 1 |}.
    split; cbn; rewrite ?Nat.eqb_refl; try done.
    + split; [apply lookup_insert_eq|exact Hb].
    + split_and!; [done..|]. cbn. rewrite length_app. cbn. lia.
    + rewrite app_assoc, C6, imap_app. cbn. by rewrite Nat.add_0_r.
    + destruct C8 as [L1 L2 L3 L4 L5]. split; try done. rewrite L5, take_app_le; [done|].
      apply (f_equal length) in C6. rewrite length_app, length_imap in C6. lia.
  - exists t, r. assert (Hroute : match x with Some (q, f) => if Nat.eqb q p then [packet] else [] | None => [] end = []).
    { destruct x as [[q f]|]; [|done]. by rewrite (proj2 (Nat.eqb_neq _ _) Hx). }
    rewrite Hroute, app_nil_r.
    assert (Hv : forall sv, sv = match x with Some (q, f) => push_tun q f (set_bridge b (tn_server s))
      | None => set_bridge b (tn_server s) end -> paths sv !! p = Some t /\ sessions (bridge sv) !! sid = Some r /\
        outbound sv = outbound (tn_server s) /\ writer_alive sv = writer_alive (tn_server s)).
    { intros sv ->. destruct x as [[q f]|]; [|done]. unfold push_tun. cbn.
      destruct (paths (tn_server s) !! q); [|done]. cbn. by rewrite lookup_insert_ne. }
    destruct (Hv _ eq_refl) as (V1 & V2 & V3 & V4).
    split; cbn; try done; [by rewrite V4|..]; unfold in_transit, own_queue in *; cbn; rewrite V3; done.
Qed.

Lemma tunnel_exec_inv e s s' :
  Z.of_nat (length (tn_routed s')) < 2 ^ 64 -> tunnel_exec p sid e s = Some s' -> tunnel_inv s -> tunnel_inv s'.
Proof.
  intros Hlen He Hi. pose proof Hi as (Hok & t & r & Hc). pose proof Hc as [[C1 _] _ _ _ _ _ _ _ _].
  destruct e as [packet| | | | |packet|q b ws|q quic n oks ok b|q f].
  - by eapply client_reads_inv.
  - eapply client_receives_inv; [|exact He|exact Hi]. cbn [tunnel_exec] in He. rewrite C1 in He. cbn in He.
    destruct (client_out t !! tn_taken s); [|done]. cbn in He. unfold client_step in He.
    destruct (packet_loop_step _ _); [|done..]. by injection He as <-.
  - by eapply task_receives_inv.
  - by eapply task_returns_inv.
  - by eapply bridge_writes_inv.
  - cbn in He. injection He as <-. by apply bridge_reads_inv.
  - cbn [tunnel_exec] in He. destruct (paths (tn_server s) !! q) eqn:Hq; [done|]. case_bool_decide; [done|].
    injection He as <-. assert (q <> p) by congruence.
    apply bystander_inv; [|destruct ws; by apply open_path_ok|done]. destruct ws; by apply other_open.
  - cbn [tunnel_exec] in He. destruct (paths (tn_server s) !! q) as [u|] eqn:Hq; [|done]. cbn [mbind option_bind] in He.
    destruct (_ || _) eqn:Hg; [done|]. apply orb_false_iff in Hg as [[Hqp%Nat.eqb_neq Hs%Z.eqb_neq]%orb_false_iff _].
    destruct ((if quic then quic_session_cycle else cycle) q n oks ok b (tn_server s)) as [sv|] eqn:Hcy; [|done].
    injection He as <-. apply bystander_inv; [by eapply other_cycle| |done].
    eapply path_cycle_ok; [|done]. destruct quic; [by eapply quic_cycle_cases|by eapply cycle_cases].
  - cbn [tunnel_exec] in He. destruct (Nat.eqb_spec q p); [done|]. injection He as <-.
    apply bystander_inv; [by apply other_forward|by apply push_forward_ok|done].
Qed.

Lemma client_step_routed e up k s s' : client_step e up k s = Some s' -> tn_routed s' = tn_routed s.
Proof. unfold client_step. by destruct (packet_loop_step _ _); intros [= <-]. Qed.

Lemma tunnel_exec_routed e s s' : tunnel_exec p sid e s = Some s' -> (length (tn_routed s) <= length (tn_routed s'))%nat.
Proof.
  destruct e as [packet| |n|n| |packet|q b ws|q quic n oks ok b|q f]; cbn [tunnel_exec].
  - by intros ->%client_step_routed.
  - destruct (paths _ !! p) as [t|]; [|done]. cbn [mbind option_bind].
    destruct (client_out t !! _); [|done]. by intros ->%client_step_routed.
  - destruct (paths _ !! p) as [t|]; [|done]. cbn [mbind option_bind].
    destruct (pending_frame t), (tn_up s); try done; destruct (cycle _ _ _ _ _ _); try done; by intros [= <-].
  - destruct (cycle _ _ _ _ _ _); [by intros [= <-]|done].
  - unfold bridge_writes. destruct (outbound _); [done|]. destruct (tun_write _ _). by intros [= <-].
  - intros [= <-]. unfold bridge_reads. destruct (tun_return _ _ _) as [[[q f]|] b]; cbn; rewrite length_app; lia.
  - destruct (paths _ !! q); [done|]. case_bool_decide; [done|]. by intros [= <-].
  - destruct (paths _ !! q); [|done]. cbn [mbind option_bind]. destruct (_ || _); [done|].
    destruct ((if quic then quic_session_cycle else cycle) q n oks ok b (tn_server s)); [by intros [= <-]|done].
  - destruct (Nat.eqb q p); [done|]. by intros [= <-].
Qed.

Lemma tunnel_run_routed es s s' : tunnel_run p sid es s = Some s' -> (length (tn_routed s) <= length (tn_routed s'))%nat.
Proof.
  revert s. induction es as [|e es IH]; intros s; cbn [tunnel_run]; [by intros [= <-]|].
  destruct (tunnel_exec p sid e s) as [s1|] eqn:He; [|done]. cbn. intros Hr%IH. apply tunnel_exec_routed in He. lia.
Qed.

Lemma tunnel_run_inv es s s' :
  Z.of_nat (length (tn_routed s')) < 2 ^ 64 -> tunnel_run p sid es s = Some s' -> tunnel_inv s -> tunnel_inv s'.
Proof.
  intros Hlen. revert s. induction es as [|e es IH]; intros s; cbn [tunnel_run]; [by intros [= <-]|].
  destruct (tunnel_exec p sid e s) as [s1|] eqn:He; [|done]. cbn [mbind option_bind]. intros Hr Hi.
  apply (IH s1 Hr). eapply tunnel_exec_inv; [|exact He|exact Hi]. apply tunnel_run_routed in Hr. lia.
Qed.

(** ** Progress *)

Lemma return_ready t sv :
  paths sv !! p = Some t -> use_tun_bridge t = true -> pending_frame t = None -> tun_rx t <> [] ->
  is_Some (cycle p 0 all_sent true (OnTun true) sv).
Proof.
  intros Ht Hu Hp Hq. unfold cycle. rewrite Ht. cbn [mbind option_bind].
  assert (Hd : drain_responses 0 all_sent t = with_queues (tun_rx t) (forward_rx t) (client_out t) t)
    by (unfold drain_responses; rewrite Nat.min_0_r, Hu; by destruct (tun_rx t)).
  rewrite Hd. cbn [pending_frame with_queues]. rewrite Hp. cbn. by destruct (tun_rx t).
Qed.

Lemma client_ready s t r :
  conn_inv s t r -> Z.of_nat (length (tn_routed s)) < 2 ^ 64 -> (tn_taken s < length (client_out t))%nat ->
  is_Some (tunnel_exec p sid ClientReceives s).
Proof.
  intros [[C1 _] _ _ _ _ _ C6 _ [_ L2 L3 L4 _]] Hlen Hlt. cbn [tunnel_exec]. rewrite C1. cbn [mbind option_bind].
  apply lookup_lt_is_Some in Hlt as [f Hf]. rewrite Hf. cbn [mbind option_bind].
  assert (Hd : (client_out t ++ tun_rx t) !! tn_taken s = Some f) by by apply lookup_app_l_Some.
  rewrite C6, list_lookup_imap in Hd. destruct (tn_routed s !! tn_taken s) as [packet|] eqn:Hp; [|done].
  injection Hd as <-. assert (Hlt := lookup_lt_Some _ _ _ Hp). unfold client_step. cbn [packet_loop_step].
  rewrite ingest_next by (cbn; rewrite ?L3; lia || done). by eexists.
Qed.

(** Whatever is on its way can go on. *)
Lemma tunnel_progress s t r :
  conn_inv s t r -> Z.of_nat (length (tn_routed s)) < 2 ^ 64 ->
  (is_Some (pending_frame t) \/ tn_up s <> [] -> is_Some (tunnel_exec p sid (TaskReceives 0) s)) /\
  (outbound (tn_server s) <> [] -> is_Some (tunnel_exec p sid BridgeWrites s)) /\
  (tun_rx t <> [] -> is_Some (tunnel_exec p sid (TaskReturns 0) s)) /\
  ((tn_taken s < length (client_out t))%nat -> is_Some (tunnel_exec p sid ClientReceives s)).
Proof.
  intros Hi Hlen. pose proof Hi as [[C1 _] W [C2 C2'] _ (C4 & C4' & _) _ _ _ _].
  assert (Hpend : forall f b, pending_frame t = Some f -> is_Some (cycle p 0 all_sent true b (tn_server s))).
  { intros f b Hp. destruct (receive_cycle 0 f b t _ C1 C2' C2 W (C4' f Hp) (or_introl Hp)) as [k ->]. by eexists. }
  split_and!; cbn [tunnel_exec]; rewrite ?C1; cbn [mbind option_bind].
  - intros Hup. destruct (pending_frame t) as [f|] eqn:Hp.
    + destruct (Hpend f (OnRecv None true) eq_refl) as [sv ->]. by eexists.
    + destruct (tn_up s) as [|f up]; [by destruct Hup as [[? ?]|?]|]. inversion C4 as [|? ? Hf]; subst.
      destruct (receive_cycle 0 f (OnRecv (Some f) true) t _ C1 C2' C2 W Hf (or_intror (conj Hp eq_refl))) as [k ->].
      by eexists.
  - intros Ho. unfold bridge_writes. destruct (outbound (tn_server s)); [done|]. destruct (tun_write _ _). by eexists.
  - intros Hq. destruct (pending_frame t) as [f|] eqn:Hp.
    + destruct (Hpend f (OnTun true) eq_refl) as [sv ->]. by eexists.
    + destruct (return_ready t _ C1 C2' Hp Hq) as [sv ->]. by eexists.
  - intros Hlt. destruct (client_ready s t r Hi Hlen Hlt) as [s' Hs]. cbn [tunnel_exec] in Hs. rewrite C1 in Hs. by eexists.
Qed.
End steps.

Lemma tunnel_start_inv `{Crypto} `{JsonText} now identity key p first sv s :
  let sid := (register_client key (registry sv)).1 in
  server_ok sv -> tun_mode sv = true -> paths sv !! p = None ->
  Forall (fun pkt => out_session_id pkt <> sid) (outbound sv) ->
  writer_alive sv = true -> tunnel_start now identity key p first sv = Some s -> tunnel_inv p sid s.
Proof.
  intros sid Hok Hm Hp Hout Hw. unfold tunnel_start. destruct first as [|x first]; [done|]. cbn.
  intros [= <-]. set (f := {| header := _; payload := _ |}).
  split; [by apply open_path_ok|]. unfold tcp_session_open. rewrite Hm. unfold open_path.
  cbn [client_public_key initial_frame]. subst sid. destruct (register_client key (registry sv)) as [sid reg]. cbn in Hout.
  exists {| use_tun_bridge := true; path_key := key; path_session := sid; tun_rx := []; forward_rx := [];
            pending_frame := Some f; client_out := []; ingested := [] |},
    {| tx := p; route_connection_id := 1; next_server_sequence := 0 |}.
  match goal with |- conn_inv _ _ ?y _ _ => assert (Hq : own_queue sid (tn_server y) = []) end.
  { by rewrite (own_queue_app sid (set_outbound (bridge sv) true [] sv) _ (outbound sv)). }
  cbn [fst]. split; cbn [tn_client tn_up tn_server tn_taken tn_device tn_routed] in *; try done.
  - cbn. by rewrite !lookup_insert_eq.
  - split_and!; [done|by intros f' [= <-]|by rewrite Hq].
  - unfold arrived, in_transit. cbn [tn_device tn_server tn_up]. by rewrite Hq.
Qed.

Lemma payload_imap routed : payload <$> imap down_frame routed = routed.
Proof.
  apply list_eq. intros i. rewrite list_lookup_fmap, list_lookup_imap. by destruct (routed !! i).
Qed.

(** * Properties *)

(** C2: the tunnel of a client.  A device that is authenticated on a TCP connection to a server with a TUN
    device, whatever other connections of other sessions do, and for as long as the connection holds: the IPv4
    packets of the client come out of the server's device once, in the order in which they were sent, and those that
    have not are in the bridge's queue or on their way, in order; the packets from the server's device that the bridge
    routes to the client come out of the client's device once, in order, and those that have not are on their way; no
    step of the way can fail or block: whatever is on its way can go on. *)
Theorem tunnel_end_to_end `{Crypto} `{JsonText} (now : option Z) (identity : DeviceKeypair) (key : string)
    (p : path_id) (first : list Z) (sv : Server) (s0 s : Tunnel) (es : list tunnel_event) :
  let sid := (register_client key (registry sv)).1 in
  Routing.reachable true sv -> paths sv !! p = None ->
  Forall (fun pkt => out_session_id pkt <> sid) (outbound sv) -> writer_alive sv = true ->
  tunnel_start now identity key p first sv = Some s0 -> tunnel_run p sid es s0 = Some s ->
  Z.of_nat (length (tn_routed s)) < 2 ^ 64 ->
  exists t, paths (tn_server s) !! p = Some t /\
    List.filter valid (sent (tn_client s)) = arrived sid s ++ List.filter valid (in_transit sid t s) /\
    tn_routed s = tun_in (tn_client s) ++ (payload <$> drop (tn_taken s) (client_out t) ++ tun_rx t) /\
    (is_Some (pending_frame t) \/ tn_up s <> [] -> is_Some (tunnel_exec p sid (TaskReceives 0) s)) /\
    (outbound (tn_server s) <> [] -> is_Some (tunnel_exec p sid BridgeWrites s)) /\
    (tun_rx t <> [] -> is_Some (tunnel_exec p sid (TaskReturns 0) s)) /\
    ((tn_taken s < length (client_out t))%nat -> is_Some (tunnel_exec p sid ClientReceives s)).
Proof.
  intros sid Hreach Hp Hout Hw Hstart Hrun Hlen.
  assert (Hi : tunnel_inv p sid s).
  { eapply tunnel_run_inv; [done|exact Hrun|]. eapply tunnel_start_inv; try done.
    - by eapply server_reachable_ok.
    - by eapply reachable_mode. }
  destruct Hi as (_ & t & r & Hc). destruct (tunnel_progress p sid s t r Hc Hlen) as (P1 & P2 & P3 & P4).
  destruct Hc as [[C1 _] _ _ _ _ C5 C6 C7 [_ _ _ _ L5]]. exists t. split_and!; try done.
  rewrite L5. rewrite <- (take_drop (tn_taken s) (tn_routed s)) at 1. f_equal.
  by rewrite <- (payload_imap (tn_routed s)), <- C6, <- fmap_drop, drop_app_le.
Qed.

(** ** Witness *)

Module Sample.
#[local] Existing Instances AuthHandshake.Sample.crypto Json.Sample.json_text.

(** An IPv4 packet from 10.0.0.1 to 10.0.0.2 and one back *)
Definition ping : list Z := [69; 0; 0; 20; 0; 0; 0; 0; 0; 0; 0; 0; 10; 0; 0; 1; 10; 0; 0; 2].
Definition answer : list Z := [69; 0; 0; 20; 0; 0; 0; 0; 0; 0; 0; 0; 10; 0; 0; 2; 10; 0; 0; 1].

Definition device : DeviceKeypair := from_signing_key (replicate 32 7).

(** The first packet is written to the server's device, an answer comes back; meanwhile another client connects and
    a second packet is sent. *)
Definition sample_events : list tunnel_event :=
  [TaskReceives 0; BridgeWrites;
   OtherOpens 2 {| client_public_key := "other"; initial_frame := None; relayed_via_provider := true |} false;
   ClientReads ping; BridgeReads answer; TaskReturns 0; ClientReceives; TaskReceives 0].

Definition started : Tunnel :=
  default {| tn_client := packet_loop_new []; tn_up := []; tn_server := server_new true; tn_taken := 0;
             tn_device := []; tn_routed := [] |} (tunnel_start (Some 0) device "key" 1 ping (server_new true)).
Definition sampled : Tunnel := default started (tunnel_run 1 0 sample_events started).

Lemma tunnel_end_to_end_witness :
  exists t, paths (tn_server sampled) !! 1%nat = Some t /\
    [ping; ping] = arrived 0 sampled ++ List.filter valid (in_transit 0 t sampled) /\
    [answer] = tun_in (tn_client sampled) ++ (payload <$> drop (tn_taken sampled) (client_out t) ++ tun_rx t).
Proof.
  destruct (tunnel_end_to_end (Some 0) device "key" 1 ping (server_new true) started sampled sample_events)
    as (t & Ht & Hup & Hdown & _).
  - apply ReachNew.
  - reflexivity.
  - constructor.
  - reflexivity.
  - vm_compute. reflexivity.
  - vm_compute. reflexivity.
  - vm_compute. reflexivity.
  - change (register_client "key" (registry (server_new true))).1 with 0 in Hup.
    exists t. split; [exact Ht|]. rewrite <- Hup, <- Hdown. split; vm_compute; reflexivity.
Defined.
End Sample.
