(* ===== verification/Android.v ===== *)
(** The session of the Android application ([src/crates/bonded-ffi/src/lib.rs]): the slot with the
    current session, the calls of the application on it, the worker thread with its paths, its
    heartbeat and its fail-over, the status snapshot and its JSON text. *)

From stdpp Require Import base tactics list gmap strings pretty.
From Stdlib Require Import ZArith Lia Ascii.
From S2P Require Import Prelude Words Text Json Session Transport Client.
Open Scope Z_scope.

(** * Definitions *)

(** ** Parameters of a session *)

Definition normalize_optional_string (value : string) : option string :=
  let trimmed := trim value in if is_empty trimmed then None else Some trimmed.

Definition parse_protocol_list (raw : string) : list string :=
  List.filter (fun p => negb (is_empty p)) (trim <$> split_char "," raw).

(** [serde_json::from_str::<Vec<String>>] *)
Definition strings_of_json (j : json) : option (list string) :=
  match j with JArr l => mapM as_str l | _ => None end.

Definition parse_bind_address_list `{JsonText} (raw : string) : list string :=
  List.filter (fun a => negb (is_empty a)) (trim <$> default [] (json_parse raw ≫= strings_of_json)).

(** The fields of [ClientConfig] the session writes. *)
Record AndroidConfig := {
  cfg_public_address : string;
  cfg_websocket_address : string;
  cfg_resolved_address : string;
  cfg_server_key : string;
  preferred_protocols : list string;
  allow_insecure_debug_transports : bool;
  path_bind_addresses : list string;
  peer_share_enabled : bool;
  peer_share_bind_address : string;
  peer_share_advertise_ip : string;
  private_key_path : string;
  public_key_path : string
}.

(** [PathBuf::join] of a file name *)
Fixpoint ends_with_slash (dir : string) : bool :=
  match dir with
  | EmptyString => false
  | String a EmptyString => bool_decide (a = "/"%char)
  | String _ dir => ends_with_slash dir
  end.
Definition path_join (dir name : string) : string :=
  if is_empty dir || ends_with_slash dir then dir +:+ name else dir +:+ "/" +:+ name.

(** [android_client_config], over [ClientConfig::default()] *)
Definition android_client_config (server_address resolved_server_address server_public_key storage_dir
    : string) : AndroidConfig :=
  {| cfg_public_address := server_address; cfg_websocket_address := server_address;
     cfg_resolved_address := resolved_server_address; cfg_server_key := server_public_key;
     preferred_protocols := ["wss"; "h3"; "wireguard"]; allow_insecure_debug_transports := false;
     path_bind_addresses := []; peer_share_enabled := false;
     peer_share_bind_address := "0.0.0.0:54443"; peer_share_advertise_ip := EmptyString;
     private_key_path := path_join storage_dir "bonded-device-key.pem";
     public_key_path := path_join storage_dir "bonded-device-key.pub" |}.

(** The part of [start_android_session] that fills in the configuration. *)
Definition session_config `{JsonText} (base : AndroidConfig) (protocol_csv bind_addresses_json : string)
    (share : bool) (share_bind share_ip : string) : AndroidConfig :=
  let protocols := parse_protocol_list protocol_csv in
  let bind_addresses := parse_bind_address_list bind_addresses_json in
  {| cfg_public_address := cfg_public_address base; cfg_websocket_address := cfg_websocket_address base;
     cfg_resolved_address := cfg_resolved_address base; cfg_server_key := cfg_server_key base;
     preferred_protocols := match protocols with [] => preferred_protocols base | _ => protocols end;
     allow_insecure_debug_transports :=
       match protocols with
       | [] => allow_insecure_debug_transports base
       | _ => existsb (fun p => eq_ignore_ascii_case p "naive_tcp") protocols
       end;
     path_bind_addresses :=
       match bind_addresses with [] => path_bind_addresses base | _ => bind_addresses end;
     peer_share_enabled := share;
     peer_share_bind_address :=
       default (peer_share_bind_address base) (normalize_optional_string share_bind);
     peer_share_advertise_ip :=
       default (peer_share_advertise_ip base) (normalize_optional_string share_ip);
     private_key_path := private_key_path base; public_key_path := public_key_path base |}.

(** ** The snapshot *)

Record AndroidSessionSnapshot := {
  state : string;
  server_address : string;
  active_transport : string;
  transport_count : Z;
  peer_relay_count : Z;
  accepted_peer_relay_count : Z;
  outbound_packets : Z;
  inbound_packets : Z;
  outbound_bytes : Z;
  inbound_bytes : Z;
  connected_at_ms : Z;
  last_error : option string
}.

Definition quote : ascii := "034".
Definition backslash : ascii := "092".
Definition quoted (s : string) : string := String quote (s +:+ String quote EmptyString).

Definition escape_json (value : string) : string :=
  replace_char "013" (String backslash "r")
    (replace_char "010" (String backslash "n")
      (replace_char quote (String backslash (String quote EmptyString))
        (replace_char backslash (String backslash (String backslash EmptyString)) value))).

Definition snapshot_json (s : AndroidSessionSnapshot) : string :=
  let last_error := match last_error s with Some v => quoted (escape_json v) | None => "null" end in
  "{" +:+ quoted "state" +:+ ":" +:+ quoted (escape_json (state s)) +:+ "," +:+
  quoted "serverAddress" +:+ ":" +:+ quoted (escape_json (server_address s)) +:+ "," +:+
  quoted "activeTransport" +:+ ":" +:+ quoted (escape_json (active_transport s)) +:+ "," +:+
  quoted "transportCount" +:+ ":" +:+ pretty (transport_count s) +:+ "," +:+
  quoted "peerRelayCount" +:+ ":" +:+ pretty (peer_relay_count s) +:+ "," +:+
  quoted "outboundPackets" +:+ ":" +:+ pretty (outbound_packets s) +:+ "," +:+
  quoted "inboundPackets" +:+ ":" +:+ pretty (inbound_packets s) +:+ "," +:+
  quoted "outboundBytes" +:+ ":" +:+ pretty (outbound_bytes s) +:+ "," +:+
  quoted "inboundBytes" +:+ ":" +:+ pretty (inbound_bytes s) +:+ "," +:+
  quoted "connectedAtMs" +:+ ":" +:+ pretty (connected_at_ms s) +:+ "," +:+
  quoted "lastError" +:+ ":" +:+ last_error +:+ "}".

Definition new_snapshot (address : string) : AndroidSessionSnapshot :=
  {| state := "connecting"; server_address := address; active_transport := "Connecting";
     transport_count := 0; peer_relay_count := 0; accepted_peer_relay_count := 0;
     outbound_packets := 0; inbound_packets := 0; outbound_bytes := 0; inbound_bytes := 0;
     connected_at_ms := 0; last_error := None |}.

Definition set_state (st : string) (err : option string) (s : AndroidSessionSnapshot)
  : AndroidSessionSnapshot :=
  {| state := st; server_address := server_address s; active_transport := active_transport s;
     transport_count := transport_count s; peer_relay_count := peer_relay_count s;
     accepted_peer_relay_count := accepted_peer_relay_count s; outbound_packets := outbound_packets s;
     inbound_packets := inbound_packets s; outbound_bytes := outbound_bytes s;
     inbound_bytes := inbound_bytes s; connected_at_ms := connected_at_ms s; last_error := err |}.
Definition set_connected_at (now : Z) (s : AndroidSessionSnapshot) : AndroidSessionSnapshot :=
  {| state := state s; server_address := server_address s; active_transport := active_transport s;
     transport_count := transport_count s; peer_relay_count := peer_relay_count s;
     accepted_peer_relay_count := accepted_peer_relay_count s; outbound_packets := outbound_packets s;
     inbound_packets := inbound_packets s; outbound_bytes := outbound_bytes s;
     inbound_bytes := inbound_bytes s; connected_at_ms := now; last_error := last_error s |}.
Definition set_transports (active : string) (count relays : Z) (s : AndroidSessionSnapshot)
  : AndroidSessionSnapshot :=
  {| state := state s; server_address := server_address s; active_transport := active;
     transport_count := count; peer_relay_count := relays;
     accepted_peer_relay_count := accepted_peer_relay_count s; outbound_packets := outbound_packets s;
     inbound_packets := inbound_packets s; outbound_bytes := outbound_bytes s;
     inbound_bytes := inbound_bytes s; connected_at_ms := connected_at_ms s; last_error := last_error s |}.
Definition set_accepted (n relays : Z) (s : AndroidSessionSnapshot) : AndroidSessionSnapshot :=
  {| state := state s; server_address := server_address s; active_transport := active_transport s;
     transport_count := transport_count s; peer_relay_count := relays; accepted_peer_relay_count := n;
     outbound_packets := outbound_packets s; inbound_packets := inbound_packets s;
     outbound_bytes := outbound_bytes s; inbound_bytes := inbound_bytes s;
     connected_at_ms := connected_at_ms s; last_error := last_error s |}.
Definition count_outbound (n : Z) (s : AndroidSessionSnapshot) : AndroidSessionSnapshot :=
  {| state := state s; server_address := server_address s; active_transport := active_transport s;
     transport_count := transport_count s; peer_relay_count := peer_relay_count s;
     accepted_peer_relay_count := accepted_peer_relay_count s;
     outbound_packets := saturating_add 64 (outbound_packets s) 1; inbound_packets := inbound_packets s;
     outbound_bytes := saturating_add 64 (outbound_bytes s) n; inbound_bytes := inbound_bytes s;
     connected_at_ms := connected_at_ms s; last_error := last_error s |}.
Definition count_inbound (n : Z) (s : AndroidSessionSnapshot) : AndroidSessionSnapshot :=
  {| state := state s; server_address := server_address s; active_transport := active_transport s;
     transport_count := transport_count s; peer_relay_count := peer_relay_count s;
     accepted_peer_relay_count := accepted_peer_relay_count s; outbound_packets := outbound_packets s;
     inbound_packets := saturating_add 64 (inbound_packets s) 1; outbound_bytes := outbound_bytes s;
     inbound_bytes := saturating_add 64 (inbound_bytes s) n;
     connected_at_ms := connected_at_ms s; last_error := last_error s |}.

(** ** Paths *)

(** [ClientTransport]; the argument is the connection. *)
Inductive ClientTransport (P : Type) :=
  | CNaiveTcp (p : P) | CWebSocket (p : P) | CQuic (p : P) | CPeerRelay (p : P) | CWireGuard (p : P).
Arguments CNaiveTcp {P} p.
Arguments CWebSocket {P} p.
Arguments CQuic {P} p.
Arguments CPeerRelay {P} p.
Arguments CWireGuard {P} p.

Definition client_transport_kind {P} (t : ClientTransport P) : string :=
  match t with
  | CNaiveTcp _ => "NaiveTCP"
  | CWebSocket _ => "WebSocketTLS"
  | CQuic _ => "QUIC"
  | CPeerRelay _ => "PeerRelay"
  | CWireGuard _ => "WireGuard"
  end.

Definition is_peer_relay {P} (t : ClientTransport P) : bool :=
  match t with CPeerRelay _ => true | _ => false end.

Definition sync_transport_snapshot {P} (ts : list (ClientTransport P)) (active : nat)
    (s : AndroidSessionSnapshot) : AndroidSessionSnapshot :=
  let name := match ts !! active with Some t => client_transport_kind t | None => "Unknown" end in
  let relays := cast_u 32 (Z.of_nat (length (List.filter is_peer_relay ts))) in
  set_transports name (cast_u 32 (Z.of_nat (length ts)))
    (Z.max relays (accepted_peer_relay_count s)) s.

(** ** The worker *)

Record WorkerLoop (P : Type) := {
  w_transports : list (ClientTransport P);
  w_active : nat;
  w_session : SessionState;
  ping_sequence : Z;
  last_ping_sent_ms : option Z
}.
Arguments w_transports {P} _.
Arguments w_active {P} _.
Arguments w_session {P} _.
Arguments ping_sequence {P} _.
Arguments last_ping_sent_ms {P} _.
Arguments Build_WorkerLoop {P} _ _ _ _ _.

(** Where the thread is: establishing paths, starting the peer-sharing runtime, in its loop, done. *)
Inductive worker_phase (P : Type) :=
  | Establishing
  | StartingPeers (ts : list (ClientTransport P))
  | Looping (w : WorkerLoop P)
  | Exited.
Arguments Establishing {P}.
Arguments StartingPeers {P} ts.
Arguments Looping {P} w.
Arguments Exited {P}.

(** A session with its worker.  The last three fields record what happened: the packets the
    application queued, the frames given to a path with the result of the send, the payloads received
    with whether they went to the TUN device, and the packets the application polled. *)
Record AndroidSession (P : Type) := {
  config : AndroidConfig;
  outbound : list (list Z);
  inbound_queue : list (list Z);
  snapshot : AndroidSessionSnapshot;
  cancelled : bool;
  worker : worker_phase P;
  queued : list (list Z);
  attempts : list (SessionFrame * bool);
  received : list (list Z * bool);
  polled : list (list Z)
}.
Arguments config {P} _.
Arguments outbound {P} _.
Arguments inbound_queue {P} _.
Arguments snapshot {P} _.
Arguments cancelled {P} _.
Arguments worker {P} _.
Arguments queued {P} _.
Arguments attempts {P} _.
Arguments received {P} _.
Arguments polled {P} _.
Arguments Build_AndroidSession {P} _ _ _ _ _ _ _ _ _ _.

Section session.
Context {P : Type}.

Definition with_snapshot (f : AndroidSessionSnapshot -> AndroidSessionSnapshot) (s : AndroidSession P)
  : AndroidSession P :=
  Build_AndroidSession (config s) (outbound s) (inbound_queue s) (f (snapshot s)) (cancelled s)
    (worker s) (queued s) (attempts s) (received s) (polled s).
Definition with_worker (w : worker_phase P) (s : AndroidSession P) : AndroidSession P :=
  Build_AndroidSession (config s) (outbound s) (inbound_queue s) (snapshot s) (cancelled s) w
    (queued s) (attempts s) (received s) (polled s).
Definition channel_send (packet : list Z) (s : AndroidSession P) : AndroidSession P :=
  Build_AndroidSession (config s) (outbound s ++ [packet]) (inbound_queue s) (snapshot s) (cancelled s)
    (worker s) (queued s ++ [packet]) (attempts s) (received s) (polled s).
Definition cancel (s : AndroidSession P) : AndroidSession P :=
  Build_AndroidSession (config s) (outbound s) (inbound_queue s) (snapshot s) true
    (worker s) (queued s) (attempts s) (received s) (polled s).
(** The head of the channel was made into a frame and given to a path. *)
Definition attempted_send (rest : list (list Z)) (f : SessionFrame) (ok : bool) (s : AndroidSession P)
  : AndroidSession P :=
  Build_AndroidSession (config s) rest (inbound_queue s) (snapshot s) (cancelled s)
    (worker s) (queued s) (attempts s ++ [(f, ok)]) (received s) (polled s).
Definition receive_payload (payload : list Z) (delivered_to_tun : bool) (s : AndroidSession P)
  : AndroidSession P :=
  Build_AndroidSession (config s) (outbound s)
    (if delivered_to_tun then inbound_queue s else inbound_queue s ++ [payload])
    (snapshot s) (cancelled s) (worker s) (queued s) (attempts s)
    (received s ++ [(payload, delivered_to_tun)]) (polled s).
Definition pop_inbound (payload : list Z) (rest : list (list Z)) (s : AndroidSession P) : AndroidSession P :=
  Build_AndroidSession (config s) (outbound s) rest (snapshot s) (cancelled s) (worker s) (queued s)
    (attempts s) (received s) (polled s ++ [payload]).

(** The TUN writer: whether native code holds the descriptor, and what was written. *)
Record Tun := { tun_open : bool; tun_written : list (list Z) }.

(** [write_inbound_packet_to_tun], with the result of the write *)
Definition write_inbound_packet_to_tun (payload : list Z) (write_ok : bool) (t : Tun) : bool * Tun :=
  if tun_open t && write_ok then (true, {| tun_open := true; tun_written := tun_written t ++ [payload] |})
  else (false, t).

(** A frame that is not a pong: its payload goes to the TUN device or to the queue. *)
Definition deliver (frame : SessionFrame) (write_ok : bool) (st : AndroidSession P * Tun)
  : AndroidSession P * Tun :=
  let (s, t) := st in
  match payload frame with
  | [] => (s, t)
  | p =>
      let (delivered, t) := write_inbound_packet_to_tun p write_ok t in
      (with_snapshot (count_inbound (Z.of_nat (length p))) (receive_payload p delivered s), t)
  end.

Definition is_pong (f : SessionFrame) : bool := negb (Z.land (flags (header f)) FLAG_PONG =? 0).

(** The inner loop over frames that are already there. *)
Fixpoint drain_frames (frames : list (SessionFrame * bool)) (st : AndroidSession P * Tun)
  : AndroidSession P * Tun :=
  match frames with
  | [] => st
  | (f, ok) :: frames => drain_frames frames (if is_pong f then st else deliver f ok st)
  end.

(** The active path failed. *)
Definition failover (err : string) (w : WorkerLoop P) (s : AndroidSession P) : AndroidSession P :=
  if Nat.eqb (length (w_transports w)) 1 then
    with_worker Exited (with_snapshot (set_state "error" (Some err)) s)
  else
    let ts := delete (w_active w) (w_transports w) in
    let active := if (length ts <=? w_active w)%nat then 0%nat else w_active w in
    with_worker (Looping (Build_WorkerLoop ts active (w_session w) (ping_sequence w) (last_ping_sent_ms w)))
      (with_snapshot (sync_transport_snapshot ts active) s).

Definition ping_frame (seq : Z) : SessionFrame :=
  {| header := {| connection_id := 0; sequence := seq; flags := FLAG_PING |}; payload := [] |}.

(** What can happen to the worker; an event that does not fit its phase is not possible.  A result
    [Some err] is a failure; [panic] is the text of the panic, if establishing ended in one. *)
Inductive worker_event :=
  | RuntimeFailed (err : string)
  | Established (r : option (outcome string (list (ClientTransport P)))) (now_ms : Z) (panic : string)
  | PeersStarted (err : option string)
  | PeerLog (message : string)
  | SawCancel
  | PeerTransportAdded (t : option (ClientTransport P))
  | OutboundPacket (err : option string)
  | FrameReceived (r : sum string (SessionFrame * bool)) (more : list (SessionFrame * bool))
  | HeartbeatTick (now_ms : Z) (sent : bool).

Definition establish_timeout_message : string :=
  "timed out after 30s while establishing transport paths".

Definition enter_loop (ts : list (ClientTransport P)) (s : AndroidSession P) : AndroidSession P :=
  with_worker (Looping (Build_WorkerLoop ts 0 (SessionState_new 1) 0 None)) s.

(** What [catch_unwind] around the worker makes of a panic *)
Definition worker_panicked (panic : string) (s : AndroidSession P) : AndroidSession P :=
  with_worker Exited (with_snapshot (set_state "error" (Some ("worker panicked: " +:+ panic))) s).

(** Establishing ended. *)
Definition established (r : option (outcome string (list (ClientTransport P)))) (now_ms : Z) (panic : string)
    (s : AndroidSession P) : AndroidSession P :=
  match r with
  | Some (Ok ts) =>
      let s := with_snapshot (fun sn =>
        set_connected_at now_ms (set_state "connected" None (sync_transport_snapshot ts 0 sn))) s in
      if peer_share_enabled (config s) then with_worker (StartingPeers ts) s else enter_loop ts s
  | Some (Err err) => with_worker Exited (with_snapshot (set_state "error" (Some err)) s)
  | Some Panic => worker_panicked panic s
  | None => with_worker Exited (with_snapshot (set_state "error" (Some establish_timeout_message)) s)
  end.

(** The peer-sharing runtime reports through its logger. *)
Definition peer_logged (message : string) (sn : AndroidSessionSnapshot) : AndroidSessionSnapshot :=
  let n := accepted_peer_relay_count sn in
  let n :=
    if bool_decide (message = "registered upstream relay session") then saturating_add 32 n 1
    else if starts_with "relay loop terminated:" message then Z.max 0 (n - 1)
    else n in
  set_accepted n (Z.max (peer_relay_count sn) n) sn.

(** One branch of the worker's [select!]. *)
Definition loop_branch (w : WorkerLoop P) (e : worker_event) (s : AndroidSession P) (t : Tun)
  : option (outcome Empty_set (AndroidSession P * Tun)) :=
  match e with
  | SawCancel => if cancelled s then Some (Ok (with_worker Exited s, t)) else None
  | PeerTransportAdded None => Some (Ok (s, t))
  | PeerTransportAdded (Some c) =>
      let ts := w_transports w ++ [c] in
      Some (Ok (with_worker (Looping (Build_WorkerLoop ts (w_active w) (w_session w) (ping_sequence w)
                                        (last_ping_sent_ms w)))
                 (with_snapshot (sync_transport_snapshot ts (w_active w)) s), t))
  | OutboundPacket err =>
      match outbound s with
      | [] => if cancelled s then Some (Ok (with_worker Exited s, t)) else None
      | packet :: rest =>
          if bool_decide (packet = []) && cancelled s then Some (Ok (with_worker Exited s, t))
          else
            let (frame, st) := create_outbound_frame (w_session w) packet 0 in
            Some (_ ← index (w_transports w) (w_active w);
                  let w := Build_WorkerLoop (w_transports w) (w_active w) st (ping_sequence w)
                             (last_ping_sent_ms w) in
                  let s := with_worker (Looping w)
                             (attempted_send rest frame (bool_decide (err = None)) s) in
                  Ok (match err with
                      | Some err => failover err w s
                      | None => with_snapshot (count_outbound (Z.of_nat (length packet))) s
                      end, t))
      end
  | FrameReceived (inl err) _ => Some (_ ← index (w_transports w) (w_active w); Ok (failover err w s, t))
  | FrameReceived (inr (f, ok)) more =>
      Some (_ ← index (w_transports w) (w_active w);
            Ok (if is_pong f then (s, t) else drain_frames more (deliver f ok (s, t))))
  | HeartbeatTick now_ms sent =>
      Some (_ ← index (w_transports w) (w_active w);
            Ok (if sent then
                  with_worker (Looping (Build_WorkerLoop (w_transports w) (w_active w) (w_session w)
                    (wrapping_add 64 (ping_sequence w) 1) (Some now_ms))) s
                else s, t))
  | _ => None
  end.

Definition worker_step (e : worker_event) (s : AndroidSession P) (t : Tun)
  : option (outcome Empty_set (AndroidSession P * Tun)) :=
  match worker s, e with
  | Exited, _ => None
  | Establishing, RuntimeFailed err =>
      Some (Ok (with_worker Exited (with_snapshot (set_state "error" (Some err)) s), t))
  | Establishing, Established r now_ms panic => Some (Ok (established r now_ms panic s, t))
  | Establishing, _ => None
  | _, PeerLog message =>
      if peer_share_enabled (config s) then Some (Ok (with_snapshot (peer_logged message) s, t)) else None
  | StartingPeers ts, PeersStarted None => Some (Ok (enter_loop ts s, t))
  | StartingPeers ts, PeersStarted (Some err) =>
      Some (Ok (with_worker Exited (with_snapshot (set_state "error" (Some err)) s), t))
  | StartingPeers _, _ => None
  | Looping w, e => loop_branch w e s t
  end.

(** [catch_unwind] around the worker *)
Definition worker_step_caught (panic : string) (e : worker_event) (s : AndroidSession P) (t : Tun)
  : option (AndroidSession P * Tun) :=
  match worker_step e s t with
  | None => None
  | Some (Ok st) => Some st
  | Some _ => Some (worker_panicked panic s, t)
  end.

(** ** The slot *)

(** All sessions that were started; the slot holds the number of the current one. *)
Record Android := { sessions : list (AndroidSession P); slot : option nat; tun : Tun }.

Definition android_new : Android :=
  {| sessions := []; slot := None; tun := {| tun_open := false; tun_written := [] |} |}.

Definition set_android_tun_fd (fd : Z) (dup_ok : bool) (a : Android) : bool * Android :=
  if fd <? 0 then
    (true, {| sessions := sessions a; slot := slot a;
              tun := {| tun_open := false; tun_written := tun_written (tun a) |} |})
  else if dup_ok then
    (true, {| sessions := sessions a; slot := slot a;
              tun := {| tun_open := true; tun_written := tun_written (tun a) |} |})
  else (false, a).

Definition with_session (i : nat) (f : AndroidSession P -> AndroidSession P) (a : Android) : Android :=
  {| sessions := alter f i (sessions a); slot := slot a; tun := tun a |}.

(** [stop_android_session], which does not wait longer than its time limit for the worker *)
Definition stop_android_session (a : Android) : Android :=
  let a :=
    match slot a with
    | None => a
    | Some i =>
        let a := with_session i (fun s => channel_send [] (cancel (with_snapshot (set_state "stopped" None) s))) a in
        {| sessions := sessions a; slot := None; tun := tun a |}
    end in
  (set_android_tun_fd (-1) true a).2.

Definition start_android_session (c : AndroidConfig) (a : Android) : Android :=
  let a := stop_android_session a in
  let s := Build_AndroidSession c [] [] (new_snapshot (cfg_public_address c)) false Establishing [] [] [] [] in
  {| sessions := sessions a ++ [s]; slot := Some (length (sessions a)); tun := tun a |}.

Definition current (a : Android) : option (AndroidSession P) := slot a ≫= fun i => sessions a !! i.

Definition get_session_snapshot_json (a : Android) : option string :=
  (fun s => snapshot_json (snapshot s)) <$> current a.

Definition channel_closed_message : string := "Failed to queue outbound packet: channel closed".

Definition queue_outbound_packet (packet : list Z) (a : Android) : bool * Android :=
  match slot a, current a with
  | Some i, Some s =>
      match worker s with
      | Exited =>
          (false, with_session i (with_snapshot (fun sn =>
             set_state "error" (match last_error sn with
                                | Some e => Some e
                                | None => Some channel_closed_message
                                end) sn)) a)
      | _ => (true, with_session i (channel_send packet) a)
      end
  | _, _ => (false, a)
  end.

Definition poll_inbound_packet (a : Android) : option (list Z) * Android :=
  match slot a, current a with
  | Some i, Some s =>
      match inbound_queue s with
      | [] => (None, a)
      | p :: rest => (Some p, with_session i (pop_inbound p rest) a)
      end
  | _, _ => (None, a)
  end.

(** The calls of the application and the steps of the workers, in any order. *)
Inductive android_step : Android -> Android -> Prop :=
  | step_start c a : android_step a (start_android_session c a)
  | step_stop a : android_step a (stop_android_session a)
  | step_fd fd ok a : android_step a (set_android_tun_fd fd ok a).2
  | step_queue p a : android_step a (queue_outbound_packet p a).2
  | step_poll a : android_step a (poll_inbound_packet a).2
  | step_worker panic i s e s' t' a :
      sessions a !! i = Some s -> worker_step_caught panic e s (tun a) = Some (s', t') ->
      match e with Established (Some (Ok ts)) _ _ => ts <> [] | _ => True end ->
      android_step a {| sessions := <[i := s']> (sessions a); slot := slot a; tun := t' |}.

Inductive android_reachable : Android -> Prop :=
  | reach_new : android_reachable android_new
  | reach_step a a' : android_reachable a -> android_step a a' -> android_reachable a'.
End session.
Arguments Android : clear implicits.
Arguments worker_event : clear implicits.

(** ** Frame metadata *)

Definition BONDED_FFI_OK : Z := 0.
Definition BONDED_FFI_ERR_NULL_POINTER : Z := 1.
Definition BONDED_FFI_ERR_DECODE : Z := 2.

Record BondedFrameMetadata := {
  m_connection_id : Z; m_sequence : Z; m_flags : Z; payload_len : Z
}.

Definition decode_frame_metadata (raw : list Z) : outcome Z BondedFrameMetadata :=
  frame ← map_err (fun _ => BONDED_FFI_ERR_DECODE) (decode raw);
  Ok {| m_connection_id := connection_id (header frame); m_sequence := sequence (header frame);
        m_flags := flags (header frame); payload_len := Z.of_nat (length (payload frame)) |}.

(** A null pointer is [None]; the result code and what the caller's struct holds afterwards. *)
Definition bonded_ffi_decode_frame_metadata (raw : option (list Z)) (out : option BondedFrameMetadata)
  : Z * option BondedFrameMetadata :=
  match raw, out with
  | Some raw, Some old =>
      match decode_frame_metadata raw with
      | Ok m => (BONDED_FFI_OK, Some m)
      | Err code => (code, Some old)
      | Panic => (BONDED_FFI_ERR_DECODE, Some old)
      end
  | _, _ => (BONDED_FFI_ERR_NULL_POINTER, out)
  end.

(** ** Time to establish the paths *)

(** The time limit of one attempt and of all of them, in seconds. *)
Definition PATH_ESTABLISH_TIMEOUT : Z := 8.
Definition ANDROID_PATH_ESTABLISH_TIMEOUT : Z := 30.

Section establish_time.
Context {Path : Type}.
Variable dial : nat -> TransportKind -> option string -> option Path.
(** How long each attempt takes; it is cut off at its limit. *)
Variable duration : nat -> TransportKind -> Z.

Definition attempt_time (index : nat) (kind : TransportKind) : Z :=
  Z.min PATH_ESTABLISH_TIMEOUT (duration index kind).

(** The time [connect_path] takes. *)
Fixpoint connect_time (index : nat) (bind : option string) (protocols : list string) : Z :=
  match protocols with
  | [] => 0
  | protocol :: protocols =>
      match transport_of_protocol protocol with
      | None => connect_time index bind protocols
      | Some kind =>
          attempt_time index kind +
          match dial index kind bind with
          | Some _ => 0
          | None => connect_time index bind protocols
          end
      end
  end.

(** The time [establish_loop] takes for [n] paths from [index] on. *)
Fixpoint establish_loop_time (protocols bind_addresses : list string) (n index : nat) : Z :=
  match n with
  | O => 0
  | S n =>
      let bind := bind_addresses !! index in
      connect_time index bind (rotated_protocols protocols index) +
      match connect_path dial index bind (rotated_protocols protocols index) with
      | Some _ => establish_loop_time protocols bind_addresses n (S index)
      | None => 0
      end
  end.

(** What the worker gets: the result of establishing, or nothing after the outer limit. *)
Definition establish_with_timeout (preferred bind_addresses : list string) (allow : bool) (count : nat)
  : option (outcome PathsError (list (string * Path))) :=
  let protocols := sanitize_preferred_protocols preferred allow in
  if establish_loop_time protocols bind_addresses (Nat.max count 1) 0 <? ANDROID_PATH_ESTABLISH_TIMEOUT
  then Some (establish_transport_paths dial preferred bind_addresses allow count)
  else None.
End establish_time.

(** * Lemmas *)

(** ** The invariant of a session *)

Section invariant.
Context {P : Type}.

(** A counter of 64 bits that stays at its largest value. *)
Definition sat64 (n : Z) : Z := Z.min (2 ^ 64 - 1) n.

Lemma sat64_add n m : 0 <= m -> saturating_add 64 (sat64 n) m = sat64 (n + m).
Proof. unfold saturating_add, sat64. intros. lia. Qed.

(** What the counters count: the packets a path took, the payloads received, and their bytes. *)
Definition sent_payloads (s : AndroidSession P) : list (list Z) :=
  payload <$> (List.filter snd (attempts s)).*1.
Definition total_bytes (l : list (list Z)) : Z := foldr (fun p n => Z.of_nat (length p) + n) 0 l.

(** The queue gets the payloads that did not go to the TUN device. *)
Definition queue_payloads (s : AndroidSession P) : list (list Z) :=
  (List.filter (fun r => negb r.2) (received s)).*1.

(** The snapshot's description of the paths. *)
Definition paths_shown (ts : list (ClientTransport P)) (active : nat) (sn : AndroidSessionSnapshot) : Prop :=
  (exists t, ts !! active = Some t /\ active_transport sn = client_transport_kind t) /\
  transport_count sn = cast_u 32 (Z.of_nat (length ts)) /\
  cast_u 32 (Z.of_nat (length (List.filter is_peer_relay ts))) <= peer_relay_count sn.

(** What holds of the worker in each phase. *)
Definition phase_ok (s : AndroidSession P) : Prop :=
  match worker s with
  | Establishing => attempts s = []
  | StartingPeers ts => attempts s = [] /\ paths_shown ts 0 (snapshot s)
  | Looping w =>
      paths_shown (w_transports w) (w_active w) (snapshot s) /\
      st_connection_id (w_session w) = 1 /\
      next_tx_sequence (w_session w) = Z.of_nat (length (attempts s)) mod 2 ^ 64
  | Exited => True
  end.

(** The status reported for a phase. *)
Definition status_ok (ph : worker_phase P) (sn : AndroidSessionSnapshot) : Prop :=
  match ph with
  | Establishing => state sn = "connecting" /\ last_error sn = None
  | StartingPeers _ | Looping _ => state sn = "connected" /\ last_error sn = None
  | Exited => state sn = "error" /\ is_Some (last_error sn)
  end.

Record session_inv (s : AndroidSession P) : Prop := {
  inv_status : cancelled s = false -> status_ok (worker s) (snapshot s);
  inv_phase : phase_ok s;
  inv_queued : (payload <$> (attempts s).*1) ++ outbound s = queued s;
  inv_frames : forall i f ok, attempts s !! i = Some (f, ok) ->
    header f = {| connection_id := 1; sequence := Z.of_nat i mod 2 ^ 64; flags := 0 |};
  inv_polled : polled s ++ inbound_queue s = queue_payloads s;
  inv_out_packets : outbound_packets (snapshot s) = sat64 (Z.of_nat (length (sent_payloads s)));
  inv_out_bytes : outbound_bytes (snapshot s) = sat64 (total_bytes (sent_payloads s));
  inv_in_packets : inbound_packets (snapshot s) = sat64 (Z.of_nat (length (received s)));
  inv_in_bytes : inbound_bytes (snapshot s) = sat64 (total_bytes (received s).*1)
}.

Lemma total_bytes_snoc l p : total_bytes (l ++ [p]) = total_bytes l + Z.of_nat (length p).
Proof. unfold total_bytes. rewrite foldr_app. induction l as [|q l IH]; simpl in *; lia. Qed.

Lemma sync_shown (ts : list (ClientTransport P)) active sn :
  (active < length ts)%nat -> paths_shown ts active (sync_transport_snapshot ts active sn).
Proof.
  intros [t Ht]%lookup_lt_is_Some_2. unfold sync_transport_snapshot, paths_shown. rewrite Ht.
  cbn [set_transports active_transport transport_count peer_relay_count]. split_and!; [eauto|done|lia].
Qed.

(** The worker ends with an error. *)
Lemma inv_error s err :
  session_inv s -> session_inv (with_worker Exited (with_snapshot (set_state "error" (Some err)) s)).
Proof. intros [? ? ? ? ? ? ? ? ?]. by split. Qed.

(** The worker ends after the session was stopped. *)
Lemma inv_exit s : session_inv s -> cancelled s = true -> session_inv (with_worker Exited s).
Proof. intros [? ? ? ? ? ? ? ? ?] Hc. split; try done. cbn. congruence. Qed.

Lemma inv_established s r now panic :
  session_inv s -> worker s = Establishing -> match r with Some (Ok ts) => ts <> [] | _ => True end ->
  session_inv (established r now panic s).
Proof.
  intros Hs Hw Hts. destruct r as [[ts|err|]|]; cbn [established]; try by apply inv_error.
  destruct Hs as [Hst Hph ? ? ? ? ? ? ?]. unfold phase_ok in Hph. rewrite Hw in Hph.
  assert (Hsync : forall sn, paths_shown ts 0 (sync_transport_snapshot ts 0 sn)).
  { intros sn. apply sync_shown. destruct ts; [done|simpl; lia]. }
  destruct (peer_share_enabled _); split; try done; unfold phase_ok, enter_loop; cbn.
  - split; [done|]. apply (Hsync (snapshot s)).
  - split; [apply (Hsync (snapshot s))|]. split; [done|]. by rewrite Hph.
Qed.

Lemma inv_enter_loop s ts : session_inv s -> worker s = StartingPeers ts -> session_inv (enter_loop ts s).
Proof.
  intros [Hst Hph ? ? ? ? ? ? ?] Hw. unfold phase_ok in Hph. rewrite Hw in Hph. destruct Hph as [Ha Hp].
  split; try done.
  - cbn. intros Hc. specialize (Hst Hc). by rewrite Hw in Hst.
  - unfold phase_ok. cbn. by rewrite Ha.
Qed.

Lemma inv_peer_logged s m : session_inv s -> session_inv (with_snapshot (peer_logged m) s).
Proof.
  intros [Hst Hph ? ? ? ? ? ? ?]. split; try done.
  unfold phase_ok in *. cbn [worker with_snapshot attempts snapshot].
  assert (Hp : forall ts i, paths_shown ts i (snapshot s) -> paths_shown ts i (peer_logged m (snapshot s))).
  { intros ts i (H1 & H2 & H3). split_and!; [done|done|]. unfold peer_logged. cbn. lia. }
  destruct (worker s); naive_solver.
Qed.

Lemma inv_loop_same s w w' :
  session_inv s -> worker s = Looping w -> w_transports w' = w_transports w -> w_active w' = w_active w ->
  w_session w' = w_session w -> session_inv (with_worker (Looping w') s).
Proof.
  intros [Hst Hph ? ? ? ? ? ? ?] Hw H1 H2 H3. unfold phase_ok in Hph. rewrite Hw in Hph.
  split; try done.
  - cbn. intros Hc. specialize (Hst Hc). by rewrite Hw in Hst.
  - unfold phase_ok. cbn. by rewrite H1, H2, H3.
Qed.

(** Other paths, shown in the snapshot. *)
Lemma inv_paths s w ts active :
  session_inv s -> worker s = Looping w -> (active < length ts)%nat ->
  session_inv (with_worker (Looping (Build_WorkerLoop ts active (w_session w) (ping_sequence w)
    (last_ping_sent_ms w))) (with_snapshot (sync_transport_snapshot ts active) s)).
Proof.
  intros [Hst Hph ? ? ? ? ? ? ?] Hw Ha. unfold phase_ok in Hph. rewrite Hw in Hph.
  split; try done.
  - cbn. intros Hc. specialize (Hst Hc). by rewrite Hw in Hst.
  - unfold phase_ok. cbn. split; [|apply Hph]. by apply (sync_shown ts active (snapshot s)).
Qed.

Lemma inv_failover s w err :
  session_inv s -> worker s = Looping w -> session_inv (failover err w s).
Proof.
  intros Hs Hw. unfold failover. destruct (Nat.eqb_spec (length (w_transports w)) 1) as [|Hne];
    [by apply inv_error|].
  apply inv_paths; [done|done|]. pose proof (inv_phase s Hs) as Hph. unfold phase_ok in Hph.
  rewrite Hw in Hph. destruct Hph as [((t & Ht & _) & _) _]. pose proof (lookup_lt_Some _ _ _ Ht).
  rewrite length_delete by eauto.
  destruct (Nat.leb_spec (length (w_transports w) - 1) (w_active w)); lia.
Qed.

Lemma inv_deliver s t f ok : session_inv s -> session_inv (deliver f ok (s, t)).1.
Proof.
  intros [Hst Hph ? ? Hpoll ? ? Hip Hib]. unfold deliver. destruct (payload f) as [|b p] eqn:Hp; [by split|].
  destruct (write_inbound_packet_to_tun (b :: p) ok t) as [d t']. cbn [fst].
  split; try done.
  - unfold queue_payloads in *. cbn [polled inbound_queue received with_snapshot receive_payload].
    rewrite List.filter_app, fmap_app, <- Hpoll. destruct d; cbn; [by rewrite !app_nil_r|by rewrite app_assoc].
  - cbn [snapshot with_snapshot count_inbound inbound_packets received receive_payload].
    rewrite Hip, sat64_add by lia. f_equal. rewrite length_app. simpl. lia.
  - cbn [snapshot with_snapshot count_inbound inbound_bytes received receive_payload].
    rewrite Hib, sat64_add, fmap_app by lia. cbn [fmap list_fmap fst]. by rewrite total_bytes_snoc.
Qed.

Lemma deliver_same (s : AndroidSession P) t f ok :
  worker (deliver f ok (s, t)).1 = worker s /\ cancelled (deliver f ok (s, t)).1 = cancelled s.
Proof.
  unfold deliver. destruct (payload f) as [|b p]; [done|].
  by destruct (write_inbound_packet_to_tun (b :: p) ok t).
Qed.

Lemma inv_drain frames s t :
  session_inv s -> session_inv (drain_frames frames (s, t)).1.
Proof.
  revert s t. induction frames as [|[f ok] frames IH]; intros s t Hs; [done|]. cbn [drain_frames].
  destruct (is_pong f); [by apply IH|]. pose proof (inv_deliver s t f ok Hs) as Hd.
  destruct (deliver f ok (s, t)) as [s' t']. by apply IH.
Qed.

Lemma drain_same frames (s : AndroidSession P) t : cancelled (drain_frames frames (s, t)).1 = cancelled s.
Proof.
  revert s t. induction frames as [|[f ok] frames IH]; intros s t; [done|]. cbn [drain_frames].
  destruct (is_pong f); [done|]. pose proof (deliver_same s t f ok) as [_ Hc].
  destruct (deliver f ok (s, t)) as [s' t']. by rewrite IH.
Qed.

(** A packet of the channel became a frame that was given to the active path. *)
Lemma inv_attempt s w packet rest ok :
  session_inv s -> worker s = Looping w -> outbound s = packet :: rest ->
  let (f, st) := create_outbound_frame (w_session w) packet 0 in
  let w' := Build_WorkerLoop (w_transports w) (w_active w) st (ping_sequence w) (last_ping_sent_ms w) in
  let s' := with_worker (Looping w') (attempted_send rest f ok s) in
  session_inv (if ok then with_snapshot (count_outbound (Z.of_nat (length packet))) s' else s').
Proof.
  intros [Hst Hph Hq Hf ? Hop Hob ? ?] Hw Hout. unfold phase_ok in Hph. rewrite Hw in Hph.
  destruct Hph as (Hp & Hid & Hnext). cbn [create_outbound_frame].
  set (f := {| header := _ |}). set (w' := Build_WorkerLoop _ _ _ _ _).
  assert (Hst' : cancelled s = false -> state (snapshot s) = "connected" /\ last_error (snapshot s) = None).
  { intros Hc. specialize (Hst Hc). by rewrite Hw in Hst. }
  assert (Hph' : phase_ok (with_worker (Looping w') (attempted_send rest f ok s))).
  { unfold phase_ok. cbn. split; [done|]. split; [done|]. rewrite Hnext. unfold wrapping_add.
    rewrite Zplus_mod_idemp_l, length_app. f_equal. simpl. lia. }
  assert (Hq' : (payload <$> (attempts s ++ [(f, ok)]).*1) ++ rest = queued s).
  { rewrite !fmap_app, <- app_assoc. cbn. by rewrite <- Hout. }
  assert (Hf' : forall i g ok', (attempts s ++ [(f, ok)]) !! i = Some (g, ok') ->
    header g = {| connection_id := 1; sequence := Z.of_nat i mod 2 ^ 64; flags := 0 |}).
  { intros i g ok' [Hi|[Hlen Hi]]%lookup_app_Some; [by eapply Hf|].
    apply list_lookup_singleton_Some in Hi as [Hi0 [= <- _]]. unfold f. cbn [header].
    rewrite Hid, Hnext. do 2 f_equal. lia. }
  assert (Hsent : sent_payloads (with_worker (Looping w') (attempted_send rest f ok s)) =
    sent_payloads s ++ (if ok then [packet] else [])).
  { unfold sent_payloads. cbn [attempts with_worker attempted_send]. rewrite List.filter_app, !fmap_app.
    by destruct ok. }
  destruct ok; split; try done.
  - change (outbound_packets _) with (saturating_add 64 (outbound_packets (snapshot s)) 1).
    change (sent_payloads (with_snapshot _ ?x)) with (sent_payloads x).
    rewrite Hsent, Hop, sat64_add by lia. f_equal. rewrite length_app. simpl. lia.
  - change (outbound_bytes _) with (saturating_add 64 (outbound_bytes (snapshot s)) (Z.of_nat (length packet))).
    change (sent_payloads (with_snapshot _ ?x)) with (sent_payloads x).
    by rewrite Hsent, Hob, sat64_add, total_bytes_snoc by lia.
  - by rewrite Hsent, app_nil_r.
  - by rewrite Hsent, app_nil_r.
Qed.

Lemma looping_index s w :
  session_inv s -> worker s = Looping w -> exists t, index (E:=Empty_set) (w_transports w) (w_active w) = Ok t.
Proof.
  intros Hs Hw. pose proof (inv_phase s Hs) as Hph. unfold phase_ok in Hph. rewrite Hw in Hph.
  destruct Hph as [((t & Ht & _) & _) _]. exists t. unfold index. by rewrite Ht.
Qed.

(** What a step promises: no panic, the invariant, and only [stop] cancels. *)
Definition step_post (s : AndroidSession P) (r : option (outcome Empty_set (AndroidSession P * Tun))) : Prop :=
  match r with
  | None => True
  | Some (Ok (s', _)) => session_inv s' /\ cancelled s' = cancelled s
  | Some _ => False
  end.

Lemma failover_same err w (s : AndroidSession P) : cancelled (failover err w s) = cancelled s.
Proof. unfold failover. by destruct (Nat.eqb _ _). Qed.

Lemma loop_branch_inv w e s t : session_inv s -> worker s = Looping w -> step_post s (loop_branch w e s t).
Proof.
  intros Hs Hw. destruct (looping_index s w Hs Hw) as [ti Hti].
  destruct e as [err|r now|err|m| |[c|]|err|[err|[f ok]] more|now sent]; cbn [loop_branch step_post]; try done;
    rewrite ?Hti; cbn [mbind outcome_bind].
  - destruct (cancelled s) eqn:Hc; [|done]. split; [by apply inv_exit|done].
  - split; [|done]. apply inv_paths; [done|done|]. rewrite length_app.
    pose proof (inv_phase s Hs) as Hph. unfold phase_ok in Hph. rewrite Hw in Hph.
    destruct Hph as [((u & Hu & _) & _) _]. apply lookup_lt_Some in Hu. lia.
  - destruct (outbound s) as [|packet rest] eqn:Hout.
    { destruct (cancelled s) eqn:Hc; [|done]. split; [by apply inv_exit|done]. }
    destruct (bool_decide (packet = []) && cancelled s) eqn:Hb.
    { apply andb_true_iff in Hb as [_ Hc]. split; [by apply inv_exit|done]. }
    pose proof (inv_attempt s w packet rest (bool_decide (err = None)) Hs Hw Hout) as Ha.
    cbn [create_outbound_frame] in *. rewrite ?Hti. cbn [mbind outcome_bind].
    destruct err as [err|]; cbn in Ha |- *.
    + split; [|by rewrite failover_same]. by apply inv_failover.
    + done.
  - split; [by apply inv_failover|apply failover_same].
  - destruct (is_pong f); [done|]. pose proof (inv_deliver s t f ok Hs) as Hd.
    pose proof (deliver_same s t f ok) as [_ Hc].
    destruct (deliver f ok (s, t)) as [s1 t1]. cbn [fst] in *.
    pose proof (inv_drain more s1 t1 Hd) as Hdr. pose proof (drain_same more s1 t1) as Hdc.
    destruct (drain_frames more (s1, t1)) as [s2 t2]. cbn [fst] in *. split; [done|congruence].
  - destruct sent; [|done]. split; [|done]. by eapply inv_loop_same.
Qed.

Lemma worker_step_inv e s t :
  session_inv s -> match e with Established (Some (Ok ts)) _ _ => ts <> [] | _ => True end ->
  step_post s (worker_step e s t).
Proof.
  intros Hs He. unfold worker_step. destruct (worker s) as [|ts|w|] eqn:Hw; [..|done].
  - destruct e; try done; cbn [step_post].
    + split; [by apply inv_error|done].
    + split; [apply inv_established; [done|done|by destruct r as [[]|]]|].
      destruct r as [[ts|err|]|]; try done. cbn [established]. by destruct (peer_share_enabled _).
  - destruct e as [| |[err|]|m| | | | |]; try done; cbn [step_post].
    + split; [by apply inv_error|done].
    + split; [by apply inv_enter_loop|done].
    + destruct (peer_share_enabled _); [|done]. split; [by apply inv_peer_logged|done].
  - destruct e as [| | |m| | | | |]; try (by apply loop_branch_inv).
    destruct (peer_share_enabled _); [|done]. split; [by apply inv_peer_logged|done].
Qed.

(** ** The invariant of the slot *)

(** Every session keeps its invariant, and the one in the slot was not stopped. *)
Record android_inv (a : Android P) : Prop := {
  inv_sessions : forall i s, sessions a !! i = Some s -> session_inv s;
  inv_slot : forall i, slot a = Some i -> exists s, sessions a !! i = Some s /\ cancelled s = false
}.

Lemma inv_new c : session_inv (Build_AndroidSession (P:=P) c [] [] (new_snapshot (cfg_public_address c)) false
  Establishing [] [] [] []).
Proof. by split. Qed.

Lemma inv_queue s packet : session_inv s -> session_inv (channel_send packet s).
Proof.
  intros [? ? Hq ? ? ? ? ? ?]. split; try done. cbn [attempts outbound queued channel_send].
  by rewrite app_assoc, Hq.
Qed.

Lemma inv_stop s :
  session_inv s -> session_inv (channel_send [] (cancel (with_snapshot (set_state "stopped" None) s))).
Proof. intros [? ? ? ? ? ? ? ? ?]. apply inv_queue. by split. Qed.

Lemma inv_poll s packet rest :
  session_inv s -> inbound_queue s = packet :: rest -> session_inv (pop_inbound packet rest s).
Proof.
  intros [? ? ? ? Hp ? ? ? ?] Hin. split; try done. cbn [polled inbound_queue pop_inbound].
  rewrite <- app_assoc. cbn [app]. rewrite <- Hin. exact Hp.
Qed.

(** Queueing on a session whose worker is gone keeps the first error. *)
Lemma inv_closed s :
  session_inv s -> worker s = Exited ->
  session_inv (with_snapshot (fun sn => set_state "error"
    (match last_error sn with Some e => Some e | None => Some channel_closed_message end) sn) s).
Proof.
  intros [? ? ? ? ? ? ? ? ?] Hw. split; try done.
  cbn. rewrite Hw. split; [done|]. by destruct (last_error (snapshot s)).
Qed.

Lemma inv_with_session a i f :
  android_inv a ->
  (forall s, sessions a !! i = Some s -> session_inv (f s) /\ cancelled (f s) = cancelled s) ->
  android_inv (with_session i f a).
Proof.
  intros [Hall Hslot] Hf. split; cbn [sessions slot with_session].
  - intros j s Hj. destruct (decide (i = j)) as [->|Hne].
    + rewrite list_lookup_alter_eq in Hj. destruct (sessions a !! j) as [s0|] eqn:Hs; [|done].
      injection Hj as <-. by apply Hf.
    + rewrite list_lookup_alter_ne in Hj by done. eauto.
  - intros j Hj. destruct (Hslot j Hj) as (s & Hs & Hc). destruct (decide (i = j)) as [->|Hne].
    + exists (f s). rewrite list_lookup_alter_eq, Hs. split; [done|]. by rewrite (proj2 (Hf s Hs)).
    + exists s. by rewrite list_lookup_alter_ne.
Qed.

Lemma android_inv_stop (a : Android P) :
  android_inv a -> android_inv (stop_android_session a) /\ slot (stop_android_session a) = None.
Proof.
  intros [Hall Hslot]. unfold stop_android_session. cbn [set_android_tun_fd Z.ltb Z.compare snd].
  destruct (slot a) as [i|] eqn:Hi; (split; [|done]); split; cbn [sessions slot with_session]; try done.
  - intros j s Hj. destruct (decide (i = j)) as [->|Hne].
    + rewrite list_lookup_alter_eq in Hj. destruct (sessions a !! j) as [s0|] eqn:Hs; [|done].
      injection Hj as <-. apply inv_stop. eauto.
    + rewrite list_lookup_alter_ne in Hj by done. eauto.
  - by rewrite Hi.
Qed.

Lemma android_inv_start (a : Android P) c : android_inv a -> android_inv (start_android_session c a).
Proof.
  intros [Hstop _]%android_inv_stop. destruct Hstop as [Hall _]. split; cbn [sessions slot start_android_session].
  - intros i s [Hi|[_ Hi]]%lookup_app_Some; [eauto|].
    apply list_lookup_singleton_Some in Hi as [_ <-]. apply inv_new.
  - intros i [= <-]. eexists. rewrite list_lookup_middle by done. by split.
Qed.

Lemma android_inv_queue (a : Android P) packet : android_inv a -> android_inv (queue_outbound_packet packet a).2.
Proof.
  intros Ha. unfold queue_outbound_packet, current. destruct (slot a) as [i|]; [|done].
  cbn [mbind option_bind]. destruct (sessions a !! i) as [s|] eqn:Hs; [|done].
  pose proof (inv_sessions a Ha i s Hs) as Hinv.
  destruct (worker s) eqn:Hw; cbn [snd]; apply inv_with_session; try done;
    intros s' [= <-]%(eq_trans (eq_sym Hs)); (split; [|done]);
    [by apply inv_queue..|by apply inv_closed].
Qed.

Lemma android_inv_poll (a : Android P) : android_inv a -> android_inv (poll_inbound_packet a).2.
Proof.
  intros Ha. unfold poll_inbound_packet, current. destruct (slot a) as [i|]; [|done].
  cbn [mbind option_bind]. destruct (sessions a !! i) as [s|] eqn:Hs; [|done].
  destruct (inbound_queue s) as [|packet rest] eqn:Hq; [done|]. cbn [snd].
  apply inv_with_session; [done|]. intros s' [= <-]%(eq_trans (eq_sym Hs)). split; [|done].
  apply inv_poll; [by eapply inv_sessions|done].
Qed.

Lemma caught_ok panic e s t st :
  session_inv s -> match e with Established (Some (Ok ts)) _ _ => ts <> [] | _ => True end ->
  worker_step_caught panic e s t = Some st -> worker_step e s t = Some (Ok st) /\
    session_inv st.1 /\ cancelled st.1 = cancelled s.
Proof.
  intros Hs He Hc. pose proof (worker_step_inv e s t Hs He) as Hp. unfold worker_step_caught in Hc.
  destruct (worker_step e s t) as [[[s' t']|[]|]|]; cbn [step_post] in Hp; [|done..].
  injection Hc as <-. done.
Qed.

Lemma android_step_inv (a a' : Android P) : android_inv a -> android_step a a' -> android_inv a'.
Proof.
  intros Ha Hst. revert Ha. destruct Hst as [c a|a|fd ok a|p a|a|panic i s e s' t' a Hs Hstep He]; intros Ha.
  - by apply android_inv_start.
  - by apply android_inv_stop.
  - unfold set_android_tun_fd. destruct (fd <? 0); [|destruct ok; [|done]]; destruct Ha; by split.
  - by apply android_inv_queue.
  - by apply android_inv_poll.
  - destruct (caught_ok panic e s _ _ (inv_sessions _ Ha i s Hs) He Hstep) as (_ & Hinv & Hc).
    cbn [fst] in Hinv, Hc. destruct Ha as [Hall Hslot]. split; cbn [sessions slot].
    + intros j u Hj. destruct (decide (i = j)) as [->|Hne].
      * rewrite list_lookup_insert_eq in Hj by (by eapply lookup_lt_Some). by injection Hj as <-.
      * rewrite list_lookup_insert_ne in Hj by done. eauto.
    + intros j Hj. destruct (Hslot j Hj) as (u & Hu & Huc). destruct (decide (i = j)) as [->|Hne].
      * exists s'. rewrite list_lookup_insert_eq by (by eapply lookup_lt_Some). split; [done|congruence].
      * exists u. by rewrite list_lookup_insert_ne.
Qed.

Lemma android_reachable_inv (a : Android P) : android_reachable a -> android_inv a.
Proof. induction 1; [by split | by eapply android_step_inv]. Qed.
End invariant.

(** ** JSON strings *)

(** Reading a JSON string after its opening quote, with the escapes the snapshot uses: the text and what
    follows the closing quote. *)
Definition unescape (c : ascii) : option ascii :=
  if decide (c = quote) then Some quote
  else if decide (c = backslash) then Some backslash
  else if decide (c = "n"%char) then Some "010"%char
  else if decide (c = "r"%char) then Some "013"%char
  else None.

Fixpoint read_string (s : string) : option (string * string) :=
  match s with
  | EmptyString => None
  | String a s =>
      if decide (a = quote) then Some (EmptyString, s)
      else if decide (a = backslash) then
        match s with
        | EmptyString => None
        | String c s =>
            c ← unescape c; (fun '(text, rest) => (String c text, rest)) <$> read_string s
        end
      else (fun '(text, rest) => (String a text, rest)) <$> read_string s
  end.

(** The escape of one character. *)
Definition escape_char (a : ascii) : string := escape_json (String a EmptyString).

Lemma escape_json_cons a s : escape_json (String a s) = escape_char a +:+ escape_json s.
Proof.
  change (String a s) with (String a EmptyString +:+ s). unfold escape_char, escape_json.
  by rewrite !replace_char_app.
Qed.

Lemma escape_char_cases a :
  (exists c, escape_char a = String backslash (String c EmptyString) /\ unescape c = Some a) \/
  (escape_char a = String a EmptyString /\ a <> quote /\ a <> backslash).
Proof.
  destruct (decide (a = backslash)) as [->|H1]; [by left; eexists|].
  destruct (decide (a = quote)) as [->|H2]; [by left; eexists|].
  destruct (decide (a = "010"%char)) as [->|H3]; [by left; eexists|].
  destruct (decide (a = "013"%char)) as [->|H4]; [by left; eexists|].
  right. split; [|done]. unfold escape_char, escape_json. cbn [replace_char].
  rewrite (decide_False (P := a = backslash)) by done. cbn [replace_char].
  rewrite (decide_False (P := a = quote)) by done. cbn [replace_char].
  rewrite (decide_False (P := a = "010"%char)) by done. cbn [replace_char].
  by rewrite (decide_False (P := a = "013"%char)) by done.
Qed.

(** ** Time *)

Section time_lemmas.
Context {Path : Type} (dial : nat -> TransportKind -> option string -> option Path).
Context (duration : nat -> TransportKind -> Z).

Lemma connect_time_bound i bind l :
  connect_time dial duration i bind l <= PATH_ESTABLISH_TIMEOUT * Z.of_nat (length l).
Proof.
  induction l as [|p l IH]; [done|]. cbn [connect_time length].
  assert (Hmin : forall k, attempt_time duration i k <= PATH_ESTABLISH_TIMEOUT)
    by (intros; unfold attempt_time; lia).
  unfold PATH_ESTABLISH_TIMEOUT in *. destruct (transport_of_protocol p) as [k|]; [|lia].
  specialize (Hmin k). destruct (dial i k bind); lia.
Qed.

Lemma establish_time_bound protocols binds n i :
  establish_loop_time dial duration protocols binds n i <=
    PATH_ESTABLISH_TIMEOUT * Z.of_nat (length protocols) * Z.of_nat n.
Proof.
  revert i. induction n as [|n IH]; intros i; cbn [establish_loop_time]; [lia|].
  pose proof (connect_time_bound i (binds !! i) (rotated_protocols protocols i)) as Hc.
  rewrite (Permutation_length (rotated_perm protocols i)) in Hc. specialize (IH (S i)).
  unfold PATH_ESTABLISH_TIMEOUT in *. destruct (connect_path _ _ _ _); lia.
Qed.
End time_lemmas.

(** * Properties *)

(** C24: the status the application sees is the state of the worker, in every state any order of calls
    and worker steps can reach: "connecting" exactly while paths are being established, "connected"
    exactly while the worker has paths, "error" (with a message, and only then) exactly when it ended;
    the active transport and the number of transports shown are those of the worker's list, whose
    active index is valid; and no step of the worker itself panics (a panic while it dials, which
    [catch_unwind] turns into an error with the text of the panic, is one of the ways it can end). *)
Theorem android_status_faithful {P : Type} (a : Android P) (s : AndroidSession P) :
  android_reachable a -> current a = Some s ->
  (state (snapshot s) = "connecting" <-> worker s = Establishing) /\
  (state (snapshot s) = "connected" <-> exists ts, worker s = StartingPeers ts \/
     exists w, worker s = Looping w /\ w_transports w = ts) /\
  (state (snapshot s) = "error" <-> worker s = Exited) /\
  (is_Some (last_error (snapshot s)) <-> worker s = Exited) /\
  (forall w, worker s = Looping w ->
     exists t, w_transports w !! w_active w = Some t /\
       active_transport (snapshot s) = client_transport_kind t /\
       transport_count (snapshot s) = cast_u 32 (Z.of_nat (length (w_transports w)))) /\
  (forall e, match e with Established (Some (Ok ts)) _ _ => ts <> [] | _ => True end ->
     worker_step e s (tun a) <> Some Panic).
Proof.
  intros [Hall Hslot]%android_reachable_inv Hcur. unfold current in Hcur.
  destruct (slot a) as [i|] eqn:Hi; [|done]. cbn [mbind option_bind] in Hcur.
  destruct (Hslot i eq_refl) as (s' & Hs' & Hc). rewrite Hs' in Hcur. injection Hcur as ->.
  pose proof (Hall i s Hs') as Hinv. pose proof (inv_status s Hinv Hc) as Hst.
  pose proof (inv_phase s Hinv) as Hph. unfold status_ok in Hst. unfold phase_ok in Hph.
  split_and!.
  1-4: destruct (worker s); destruct Hst as [Hs1 Hle]; try rewrite Hs1; try rewrite Hle; naive_solver.
  - intros w Hw. rewrite Hw in Hph. destruct Hph as [((t & Ht & Hk) & Hn & _) _]. eauto.
  - intros e He Hp. pose proof (worker_step_inv e s (tun a) Hinv He) as Hpost. by rewrite Hp in Hpost.
Qed.

(** Packets of a session.  Every packet the application queues becomes one frame, in the order of
    queueing, numbered consecutively from 0 (modulo 2^64) on connection 1, or is still in the channel;
    the packets the application polls are, in the order of arrival, the payloads received that were not
    written to the TUN device, and the rest of them is still in the queue. *)
Theorem android_packets {P : Type} (a : Android P) (i : nat) (s : AndroidSession P) :
  android_reachable a -> sessions a !! i = Some s ->
  (payload <$> (attempts s).*1) ++ outbound s = queued s /\
  (forall k f ok, attempts s !! k = Some (f, ok) ->
     header f = {| connection_id := 1; sequence := Z.of_nat k mod 2 ^ 64; flags := 0 |}) /\
  polled s ++ inbound_queue s = queue_payloads s.
Proof.
  intros [Hall _]%android_reachable_inv Hs. pose proof (Hall i s Hs) as Hinv.
  split_and!; [apply Hinv | apply (inv_frames s Hinv) | apply Hinv].
Qed.

(** The counters of the snapshot are the numbers and byte totals of the packets a path took and of
    the payloads received, capped at 2^64 - 1; they never wrap. *)
Theorem android_counters {P : Type} (a : Android P) (i : nat) (s : AndroidSession P) :
  android_reachable a -> sessions a !! i = Some s ->
  outbound_packets (snapshot s) = Z.min (2 ^ 64 - 1) (Z.of_nat (length (sent_payloads s))) /\
  outbound_bytes (snapshot s) = Z.min (2 ^ 64 - 1) (total_bytes (sent_payloads s)) /\
  inbound_packets (snapshot s) = Z.min (2 ^ 64 - 1) (Z.of_nat (length (received s))) /\
  inbound_bytes (snapshot s) = Z.min (2 ^ 64 - 1) (total_bytes (received s).*1).
Proof.
  intros [Hall _]%android_reachable_inv Hs. pose proof (Hall i s Hs) as [? ? ? ? ? ? ? ? ?].
  split_and!; done.
Qed.

(** The text of a snapshot field cannot break out of its quotes: whatever the text, reading the
    escaped text with a closing quote after it gives the text back and stops at that quote. *)
Theorem escape_json_reads_back (v rest : string) :
  read_string (escape_json v +:+ String quote rest) = Some (v, rest).
Proof.
  induction v as [|a v IH]; [done|]. rewrite escape_json_cons, string_app_assoc.
  destruct (escape_char_cases a) as [(c & -> & Hc)|(-> & Hq & Hb)].
  - rewrite !string_app_cons, string_app_empty_l. cbn [read_string].
    rewrite decide_False, decide_True by done. rewrite Hc. cbn [mbind option_bind]. by rewrite IH.
  - rewrite string_app_cons, string_app_empty_l. cbn [read_string].
    rewrite !decide_False by done. by rewrite IH.
Qed.

(** The time limits.  Establishing takes at most 8 seconds per protocol and path, so with one path
    and at most three protocols the worker always gets the result itself.  With two paths and the
    default protocols it can take longer than the worker's 30 seconds although the first path was
    established, and that path is then given up with a timeout. *)
Theorem establish_time_limits :
  (forall (Path : Type) (dial : nat -> TransportKind -> option string -> option Path) duration
      preferred binds allow count,
     let protocols := sanitize_preferred_protocols preferred allow in
     (length protocols <= 3)%nat -> (count <= 1)%nat ->
     establish_with_timeout dial duration preferred binds allow count =
       Some (establish_transport_paths dial preferred binds allow count)) /\
  (exists (dial : nat -> TransportKind -> option string -> option unit) duration path,
     establish_transport_paths dial [] [] false 2 = Ok [path] /\
     establish_with_timeout dial duration [] [] false 2 = None).
Proof.
  split.
  - intros Path dial duration preferred binds allow count protocols Hlen Hcount.
    unfold establish_with_timeout. fold protocols.
    pose proof (establish_time_bound dial duration protocols binds (Nat.max count 1) 0) as Hb.
    replace (Nat.max count 1) with 1%nat in * by lia. unfold PATH_ESTABLISH_TIMEOUT in Hb.
    unfold ANDROID_PATH_ESTABLISH_TIMEOUT.
    by destruct (Z.ltb_spec (establish_loop_time dial duration protocols binds 1 0) 30); [|lia].
  - exists (fun i k _ => match i, k with 0%nat, WireGuard => Some tt | _, _ => None end), (fun _ _ => 8),
      ("wireguard", tt). split; vm_compute; reflexivity.
Qed.

Module Sample.
Definition cfg : AndroidConfig := android_client_config "vpn.example:443" "" "key" "/data".
Definition reply : SessionFrame :=
  {| header := {| connection_id := 0; sequence := 5; flags := 0 |}; payload := [7; 8] |}.

(** Start, two paths, a packet out over the first path, which fails, a second packet, a reply. *)
Definition a1 : Android nat := start_android_session cfg android_new.
Definition worker_on (e : worker_event nat) (a : Android nat) : Android nat :=
  match sessions a !! 0%nat with
  | Some s =>
      match worker_step_caught EmptyString e s (tun a) with
      | Some (s', t') => {| sessions := <[0%nat := s']> (sessions a); slot := slot a; tun := t' |}
      | None => a
      end
  | None => a
  end.
Definition a2 : Android nat := worker_on (Established (Some (Ok [CWebSocket 1%nat; CQuic 2%nat])) 1000 EmptyString) a1.
Definition a3 : Android nat := (queue_outbound_packet [2; 2; 2] (queue_outbound_packet [1] a2).2).2.
Definition a4 : Android nat := worker_on (OutboundPacket None) (worker_on (OutboundPacket (Some "broken")) a3).
Definition a5 : Android nat := (poll_inbound_packet (worker_on (FrameReceived (inr (reply, true)) []) a4)).2.

Lemma worker_on_reachable e a :
  android_reachable a -> match e with Established (Some (Ok ts)) _ _ => ts <> [] | _ => True end ->
  android_reachable (worker_on e a).
Proof.
  intros Ha He. unfold worker_on. destruct (sessions a !! 0%nat) as [s|] eqn:Hs; [|done].
  destruct (worker_step_caught EmptyString e s (tun a)) as [[s' t']|] eqn:Hw; [|done].
  eapply reach_step; [exact Ha|]. by eapply step_worker.
Qed.

Lemma a5_reachable : android_reachable a5.
Proof.
  eapply reach_step; [|apply step_poll]. apply worker_on_reachable; [|done].
  do 2 (apply worker_on_reachable; [|done]).
  eapply reach_step; [|apply step_queue]. eapply reach_step; [|apply step_queue].
  apply worker_on_reachable; [|done]. eapply reach_step; [apply reach_new|apply step_start].
Qed.

Lemma android_status_faithful_witness :
  exists s, current a5 = Some s /\ state (snapshot s) = "connected" /\
    active_transport (snapshot s) = "QUIC" /\ worker s <> Exited.
Proof.
  destruct (current a5) as [s|] eqn:Hs; [|by vm_compute in Hs].
  pose proof (android_status_faithful a5 s a5_reachable Hs) as (_ & _ & He & _).
  exists s. split; [done|]. vm_compute in Hs. injection Hs as <-.
  split; [reflexivity|]. split; [reflexivity|]. intros Hw. by apply He in Hw.
Defined.

Lemma android_packets_witness :
  exists s, sessions a5 !! 0%nat = Some s /\ polled s = [[7; 8]] /\
    (payload <$> (attempts s).*1) ++ outbound s = [[1]; [2; 2; 2]].
Proof.
  destruct (sessions a5 !! 0%nat) as [s|] eqn:Hs; [|by vm_compute in Hs].
  pose proof (android_packets a5 0 s a5_reachable Hs) as (Hq & _).
  exists s. split; [done|]. rewrite Hq. vm_compute in Hs. injection Hs as <-. split; reflexivity.
Defined.

Lemma android_counters_witness :
  exists s, sessions a5 !! 0%nat = Some s /\ outbound_packets (snapshot s) = 1 /\
    outbound_bytes (snapshot s) = 3 /\ inbound_bytes (snapshot s) = 2.
Proof.
  destruct (sessions a5 !! 0%nat) as [s|] eqn:Hs; [|by vm_compute in Hs].
  pose proof (android_counters a5 0 s a5_reachable Hs) as (Hp & Hb & _ & Hi).
  exists s. split; [done|]. rewrite Hp, Hb, Hi. vm_compute in Hs. injection Hs as <-.
  split_and!; reflexivity.
Defined.

(** Control characters other than line feed and carriage return are left as they are, which JSON does
    not allow inside a string. *)
Example escape_json_tab : escape_json (String "009" EmptyString) = String "009" EmptyString.
Proof. reflexivity. Qed.
End Sample.
