(* ===== verification/PeerRuntime.v ===== *)
(** Peer sharing at run time: discovery over mDNS
    ([src/crates/bonded-client/src/peer_discovery.rs]), the dialling end of a relay
    ([connect_peer_relay] of [src/crates/bonded-client/src/peer_listener.rs]) and the two tasks of
    [src/crates/bonded-client/src/peer_runtime.rs], which accept consumers and look for providers.
    The mDNS daemon, QUIC and the clock are arguments of the definitions. *)

From stdpp Require Import base tactics list gmap strings pretty.
From Stdlib Require Import ZArith Lia.
From S2P Require Import Prelude Words Android Text Json Auth Stores AuthHandshake Session PeerShare NetAddr Bootstrap.
Open Scope Z_scope.

(** * Definitions *)

(** ** Discovery *)

Inductive DiscoveryError := BadRecords (e : TxtError) | NoServiceAddress | BadEndpoint.

(** A service the mDNS daemon has resolved: its TXT records, its addresses in the order they are
    iterated, its port. *)
Record ResolvedService := {
  property : string -> option string;
  addresses : list string;
  service_port : Z
}.

Definition txt_keys : list string :=
  ["version"; "device_key"; "server_key"; "instance_nonce"; "endpoint"; "cert_fingerprint";
   "capabilities"].

Definition collect_records (r : ResolvedService) : gmap string string :=
  foldl (fun records key =>
    match property r key with
    | Some value => <[key := value]> records
    | None => records
    end) ∅ txt_keys.

Definition advertisement_from_resolved_service (r : ResolvedService)
  : outcome DiscoveryError PeerShareAdvertisement :=
  let records := collect_records r in
  records ←
    match records !! "endpoint" with
    | Some _ => Ok records
    | None =>
        address ← ok_or NoServiceAddress (head (addresses r));
        Ok (<["endpoint" := address +:+ ":" +:+ pretty (service_port r)]> records)
    end;
  map_err BadRecords (from_txt_record_map records).

Record ServiceInfo := {
  service_type : string;
  instance_name : string;
  hostname : string;
  service_addr : SocketAddr;
  txt : gmap string string
}.

Section discovery.
Context `{!Sha256}.

Definition service_instance_name (a : PeerShareAdvertisement) : string :=
  let hash := sha256 (string_bytes (device_public_key a +:+ ":" +:+ instance_nonce a)) in
  "bonded-" +:+ hex_string (take 4 hash).

Definition service_info_from_advertisement (a : PeerShareAdvertisement)
  : outcome DiscoveryError ServiceInfo :=
  endpoint ← ok_or BadEndpoint (parse_socket_addr (endpoint a));
  let name := service_instance_name a in
  Ok {| service_type := "_bonded-peer._udp.local."; instance_name := name;
        hostname := name +:+ ".local."; service_addr := endpoint;
        txt := list_to_map (txt_records a) |}.
End discovery.

(** ** Settings *)

(** The fields of [ClientSection] that are used. *)
Record PeerSettings := {
  ps_server_public_key : string;
  ps_server_public_address : string;
  ps_server_websocket_address : string;
  ps_preferred_protocols : list string;
  ps_bind_address : string;
  ps_advertise_ip : string
}.

Inductive RuntimeError :=
  | BadBindAddr
  | BadAdvertiseIp
  | NoAdvertiseIp
  | BindFailed
  | NoListenerTransport
  | AddressRequired
  | RequestFailed
  | BadIntroduction
  | SigningFailed (e : AuthError).

(** The addresses of the interfaces, in order. *)
Definition resolve_advertise_ip (cfg : PeerSettings) (interfaces : list IpAddr) (listen : SocketAddr)
  : outcome RuntimeError IpAddr :=
  if negb (is_empty (trim (ps_advertise_ip cfg))) then
    ok_or BadAdvertiseIp (parse_ip_addr (ps_advertise_ip cfg))
  else if negb (is_unspecified (ip listen)) then Ok (ip listen)
  else ok_or NoAdvertiseIp
         (List.find (fun a => negb (is_loopback a) && negb (is_unspecified a)) interfaces).

Definition peer_relay_bind_ip (cfg : PeerSettings) : outcome RuntimeError (option IpAddr) :=
  let bind_ip := trim (ps_advertise_ip cfg) in
  if is_empty bind_ip then Ok None
  else a ← ok_or BadAdvertiseIp (parse_ip_addr bind_ip); Ok (Some a).

(** [establish_peer_upstream_paths]: the protocols it tries. *)
Definition relay_protocol (p : string) : bool :=
  eq_ignore_ascii_case p "wss" || eq_ignore_ascii_case p "websocket_tls"
  || eq_ignore_ascii_case p "h3" || eq_ignore_ascii_case p "quic".

Definition peer_upstream_protocols (cfg : PeerSettings) : list string :=
  match List.filter relay_protocol (ps_preferred_protocols cfg) with
  | [] => ["wss"; "h3"]
  | filtered => filtered
  end.

Section runtime.
Context `{Crypto} `{JsonText} `{!Sha256}.

(** [build_listener_runtime]: [bind] is the port the socket gets when it is bound. *)
Definition build_listener_runtime (cfg : PeerSettings) (interfaces : list IpAddr) (keypair : DeviceKeypair)
    (cert_der : list Z) (random : list Z) (bind : SocketAddr -> option Z)
  : outcome RuntimeError (SocketAddr * PeerListenerIdentity * PeerShareAdvertisement) :=
  let fingerprint := compute_fingerprint cert_der in
  bind_addr ← ok_or BadBindAddr (parse_socket_addr (ps_bind_address cfg));
  advertise_ip ← resolve_advertise_ip cfg interfaces bind_addr;
  let listener_bind_addr :=
    if is_unspecified (ip bind_addr) then {| ip := advertise_ip; port := port bind_addr |}
    else bind_addr in
  listen_port ← ok_or BindFailed (bind listener_bind_addr);
  let nonce := create_auth_challenge random in
  Ok (listener_bind_addr,
      {| li_provider := public_key_b64 keypair; li_nonce := nonce; li_transport := "quic";
         li_fingerprint := fingerprint |},
      {| version := 1; device_public_key := public_key_b64 keypair;
         server_public_key := ps_server_public_key cfg; instance_nonce := nonce;
         endpoint := print_socket_addr {| ip := advertise_ip; port := listen_port |};
         listener_cert_fingerprint := fingerprint; capabilities := ["relay"; "quic"] |}).

(** ** Introductions *)

Definition advertised_listener_transport (a : PeerShareAdvertisement) : outcome RuntimeError string :=
  if existsb (fun c => eq_ignore_ascii_case c "quic") (capabilities a) then Ok "quic"
  else Err NoListenerTransport.

Definition build_peer_introduction_request (consumer : DeviceKeypair) (a : PeerShareAdvertisement)
  : outcome RuntimeError PeerShareIntroductionRequest :=
  transport ← advertised_listener_transport a;
  let request signature :=
    {| rq_consumer := public_key_b64 consumer; rq_provider := device_public_key a;
       rq_nonce := instance_nonce a; rq_endpoint := endpoint a; rq_transport := transport;
       rq_fingerprint := listener_cert_fingerprint a; rq_signature := signature |} in
  signature ← map_err SigningFailed (sign_bytes consumer (signed_payload (request EmptyString)));
  Ok (request signature).

(** [#[derive(Serialize)]] of the request *)
Definition request_json (r : PeerShareIntroductionRequest) : json :=
  flat [("consumer_device_public_key", rq_consumer r); ("provider_device_public_key", rq_provider r);
        ("provider_instance_nonce", rq_nonce r); ("provider_endpoint", rq_endpoint r);
        ("listener_transport", rq_transport r); ("listener_cert_fingerprint", rq_fingerprint r);
        ("consumer_signature", rq_signature r)].

Inductive BootstrapScheme := H3 | Http | Https.

Definition bootstrap_scheme_candidates (cfg : PeerSettings) : list BootstrapScheme :=
  let websocket_address := to_ascii_lowercase (trim (ps_server_websocket_address cfg)) in
  if starts_with "ws://" websocket_address then [Http; Https]
  else if starts_with "wss://" websocket_address then [H3; Https; Http]
  else [H3; Https; Http].

(** [ask scheme body]: what [request_bootstrap_json] returns, if it succeeds.  The first answer is
    used, readable or not. *)
Definition request_peer_share_introduction (cfg : PeerSettings) (consumer : DeviceKeypair)
    (a : PeerShareAdvertisement) (ask : BootstrapScheme -> string -> option string)
  : outcome RuntimeError SignedPeerShareIntroduction :=
  return_if is_empty (trim (ps_server_public_address cfg)) with Err AddressRequired ;;
  request ← build_peer_introduction_request consumer a;
  let request_body := json_print (request_json request) in
  response ← ok_or RequestFailed
    (find_map (fun scheme => ask scheme request_body) (bootstrap_scheme_candidates cfg));
  ok_or BadIntroduction (from_str signed_of_json response).

Definition should_accept_discovered_peer (a : PeerShareAdvertisement)
    (expected_server_public_key self_public_key : string) : bool :=
  bool_decide (server_public_key a = expected_server_public_key)
  && negb (bool_decide (device_public_key a = self_public_key)).

(** ** The dialling end of a relay *)

(** [dial address]: the certificate the peer at the address presents, if it can be reached; the pinned
    verifier of the TLS configuration sees it first. *)
Definition connect_peer_relay (now : option Z) (server_public_key expected_provider : string)
    (i : SignedPeerShareIntroduction) (dial : SocketAddr -> option (list Z)) : proc unit unit :=
  match verify_consumer_introduction now server_public_key expected_provider i with
  | Ok _ =>
      let claims := introduction i in
      if negb (eq_ignore_ascii_case (cl_transport claims) "quic") then Done (Err HsUnauthorized) tt
      else
        match parse_socket_addr (cl_endpoint claims) with
        | None => Done (Err HsUnauthorized) tt
        | Some addr =>
            match dial addr with
            | None => Done (Err HsIo) tt
            | Some cert =>
                if negb (pinned_accepts (cl_fingerprint claims) cert) then Done (Err HsIo) tt
                else if negb (bool_decide (compute_fingerprint cert = cl_fingerprint claims))
                then Done (Err HsUnauthorized) tt
                else
                  Send (json_print (signed_json i) +:+ newline) tt (Recv tt (fun line =>
                    match from_str ServerAuthResult line with
                    | Some status =>
                        if bool_decide (status = "ok") then Done (Ok tt) tt
                        else Done (Err (HsRejected status)) tt
                    | None => Done (Err HsJson) tt
                    end))
            end
        end
  | Err _ => Done (Err HsUnauthorized) tt
  | Panic => Done Panic tt
  end.

(** ** Looking for providers: the browse task *)

Inductive service_event := ServiceResolved (is_valid : bool) (r : ResolvedService) | OtherEvent | StreamEnded.

(** What an attempt at a discovered peer meets: the answers of the server, the clock, the peer's
    certificate, the texts received from it and how many sends succeed, and whether the client still
    takes paths. *)
Record Attempt := {
  at_ask : BootstrapScheme -> string -> option string;
  at_now : option Z;
  at_dial : SocketAddr -> option (list Z);
  at_ins : list (option string);
  at_sends : nat;
  at_taken : bool
}.

(** The task with what it shares with the paths it has handed over: [relays] are those that have not
    reported their end, [closed_rx] the reports on their way. *)
Record Browse := {
  browsing : bool;
  connected_peers : gset string;
  relays : list string;
  closed_rx : list string
}.

Definition init_browse : Browse :=
  {| browsing := true; connected_peers := ∅; relays := []; closed_rx := [] |}.

Definition peer_id (a : PeerShareAdvertisement) : string :=
  device_public_key a +:+ ":" +:+ instance_nonce a.

(** The introduction and the relay connection to a discovered peer. *)
Definition reach_peer (cfg : PeerSettings) (self : DeviceKeypair) (a : PeerShareAdvertisement) (e : Attempt)
  : bool :=
  match request_peer_share_introduction cfg self a (at_ask e) with
  | Ok i =>
      match run (at_ins e) (at_sends e)
              (connect_peer_relay (at_now e) (ps_server_public_key cfg) (device_public_key a) i (at_dial e)) with
      | (_, Ok _, _) => true
      | _ => false
      end
  | _ => false
  end.

Definition stop_browsing (b : Browse) : Browse :=
  {| browsing := false; connected_peers := connected_peers b; relays := relays b; closed_rx := closed_rx b |}.

Definition discovered (cfg : PeerSettings) (self : DeviceKeypair) (a : PeerShareAdvertisement) (e : Attempt)
    (b : Browse) : Browse :=
  return_if negb (should_accept_discovered_peer a (ps_server_public_key cfg) (public_key_b64 self)) with b ;;
  return_if bool_decide (peer_id a ∈ connected_peers b) with b ;;
  return_if negb (reach_peer cfg self a e) with b ;;
  return_if negb (at_taken e) with stop_browsing b ;;
  {| browsing := true; connected_peers := {[ peer_id a ]} ∪ connected_peers b;
     relays := peer_id a :: relays b; closed_rx := closed_rx b |}.

Inductive browse_event :=
  | Seen (s : service_event) (e : Attempt)
  | ClosedNotice
  | RelayFails (k : nat).

(** One event; [RelayFails] is [notify_peer_relay_closed] of a path, whose notifier is taken. *)
Definition browse_step (cfg : PeerSettings) (self : DeviceKeypair) (ev : browse_event) (b : Browse) : Browse :=
  match ev with
  | RelayFails k =>
      match relays b !! k with
      | Some id =>
          {| browsing := browsing b; connected_peers := connected_peers b; relays := delete k (relays b);
             closed_rx := closed_rx b ++ [id] |}
      | None => b
      end
  | ClosedNotice =>
      match browsing b, closed_rx b with
      | true, id :: rest =>
          {| browsing := true; connected_peers := connected_peers b ∖ {[ id ]}; relays := relays b;
             closed_rx := rest |}
      | _, _ => b
      end
  | Seen s e =>
      if negb (browsing b) then b
      else
        match s with
        | ServiceResolved true r =>
            match advertisement_from_resolved_service r with
            | Ok a => discovered cfg self a e b
            | _ => stop_browsing b
            end
        | StreamEnded => stop_browsing b
        | _ => b
        end
  end.

Definition browse_run (cfg : PeerSettings) (self : DeviceKeypair) (evs : list browse_event) (b : Browse)
  : Browse := foldl (fun b ev => browse_step cfg self ev b) b evs.

(** ** Accepting consumers: the accept task *)

(** One incoming connection and what happens to it: whether QUIC accepts it, the clock, the texts
    received and how many sends succeed, the paths to the server (if they can be established), whether
    the registration is sent, the frames of the relay, and the texts of errors. *)
Record Incoming := {
  in_accepted : bool;
  in_now : option Z;
  in_lines : list (option string);
  in_sends : nat;
  in_upstreams : option (list string);
  in_registered : bool;
  in_relay : list relay_event;
  in_error : string
}.

(** A relay: for whom, over which path, and the frames sent in each direction. *)
Record Relay := {
  relay_introduction : SignedPeerShareIntroduction;
  relay_path : string;
  frames_up : list SessionFrame;
  frames_down : list SessionFrame
}.

(** The body of the accept loop: the messages for the logger, the relay, whether it is still running. *)
Definition serve_consumer (server_key : string) (identity : PeerListenerIdentity) (c : Incoming)
  : list string * option Relay * bool :=
  return_if negb (in_accepted c) with (["QUIC accept failed: " +:+ in_error c], None, false) ;;
  match run (in_lines c) (in_sends c) (accept_peer_relay (in_now c) server_key identity) with
  | (_, Ok i, _) =>
      let claims := introduction i in
      let m1 := "accepted relay for consumer=" +:+ cl_consumer claims +:+ " provider_nonce=" +:+ cl_nonce claims in
      match in_upstreams c with
      | None => ([m1; "failed to establish upstream path: " +:+ in_error c], None, false)
      | Some [] => ([m1; "relay accept produced no upstream transport paths"], None, false)
      | Some (upstream :: _) =>
          return_if negb (in_registered c)
            with ([m1; "failed to register upstream relay session: " +:+ in_error c], None, false) ;;
          let m2 := "registered upstream relay session" in
          let '(down, up, running) := relay_peer_frames (in_relay c) [] [register_peer_relay_upstream i] in
          (m1 :: m2 :: (if running then [] else ["relay loop terminated: " +:+ in_error c]),
           Some {| relay_introduction := i; relay_path := upstream; frames_up := up; frames_down := down |},
           running)
      end
  | _ => (["introduction verification failed: " +:+ in_error c], None, false)
  end.

(** The loop takes the next connection when it is done with the one before. *)
Fixpoint accept_loop (server_key : string) (identity : PeerListenerIdentity) (cs : list Incoming)
  : list string * list Relay * bool :=
  match cs with
  | [] => ([], [], false)
  | c :: cs =>
      let '(ms, r, running) := serve_consumer server_key identity c in
      if running then (ms, option_list r, true)
      else
        let '(ms', rs, running') := accept_loop server_key identity cs in
        (ms ++ ms', option_list r ++ rs, running')
  end.
End runtime.

(** * Lemmas *)

Lemma collect_records_map (r : ResolvedService) (m : gmap string string) :
  (forall key, property r key = m !! key) -> (forall key, is_Some (m !! key) -> key ∈ txt_keys) ->
  collect_records r = m.
Proof.
  intros Hp Hk. unfold collect_records.
  assert (Hf : forall keys (acc : gmap string string) key,
    foldl (fun records key => match property r key with Some value => <[key := value]> records
                              | None => records end) acc keys !! key =
    if decide (key ∈ keys) then (match m !! key with Some v => Some v | None => acc !! key end)
    else acc !! key).
  { induction keys as [|k keys IH]; intros acc key; cbn [foldl].
    { by rewrite decide_False by apply not_elem_of_nil. }
    rewrite IH, Hp. destruct (decide (key = k)) as [->|Hne].
    - rewrite (decide_True _ _ (proj2 (elem_of_cons keys k k) (or_introl eq_refl))).
      destruct (decide (k ∈ keys)), (m !! k) eqn:Hm; rewrite ?lookup_insert_eq; done.
    - assert (Hacc : (match m !! k with Some value => <[k:=value]> acc | None => acc end) !! key = acc !! key)
        by (destruct (m !! k); rewrite ?lookup_insert_ne by done; done).
      rewrite Hacc. destruct (decide (key ∈ keys)).
      + by rewrite (decide_True _ _ (proj2 (elem_of_cons keys key k) (or_intror e))).
      + rewrite (decide_False (P := key ∈ k :: keys)); [done|]. by intros [?|?]%elem_of_cons. }
  apply map_eq. intros key. rewrite Hf, lookup_empty. destruct (m !! key) eqn:Hm.
  - rewrite decide_True; [done|]. apply Hk. by eexists.
  - by destruct (decide _).
Qed.

Lemma txt_records_keys a key :
  is_Some ((list_to_map (txt_records a) : gmap string string) !! key) -> key ∈ txt_keys.
Proof.
  intros [v Hv]. apply elem_of_list_to_map_2 in Hv. unfold txt_records in Hv. unfold txt_keys.
  rewrite !elem_of_cons, elem_of_nil in Hv. rewrite !elem_of_cons. naive_solver.
Qed.

(** A resolved service that carries the TXT records of an advertisement reads back as it. *)
Lemma resolved_reads a r :
  in_u 16 (version a) -> forallb capability_ok (capabilities a) = true ->
  (forall key, property r key = (list_to_map (txt_records a) : gmap string string) !! key) ->
  advertisement_from_resolved_service r = Ok a.
Proof.
  intros Hv Hc Hp. unfold advertisement_from_resolved_service.
  rewrite (collect_records_map r _ Hp (txt_records_keys a)).
  assert (Hend : (list_to_map (txt_records a) : gmap string string) !! "endpoint" = Some (endpoint a)).
  { unfold txt_records. cbn [list_to_map foldr uncurry fst snd].
    repeat (rewrite lookup_insert_eq || rewrite lookup_insert_ne by done); done. }
  rewrite Hend. cbn [mbind outcome_bind]. by rewrite (txt_records_read a).
Qed.

Section introduction_lemmas.
Context `{CryptoLaws} `{JsonLaws} `{!Sha256}.

Lemma request_reads r : from_str request_of_json (trim (json_print (request_json r))) = Some r.
Proof.
  rewrite json_trim. unfold from_str. rewrite json_round.
  - cbn [mbind option_bind]. by destruct r.
  - apply flat_wf. by apply (bool_decide_unpack (NoDup _)).
Qed.

(** The request for an advertised QUIC listener: signed by the consumer, and nothing in it is empty. *)
Lemma request_built ck a :
  bytes_ok ck -> length ck = 32%nat -> capabilities a = ["relay"; "quic"] ->
  is_empty (device_public_key a) = false -> is_empty (instance_nonce a) = false ->
  is_empty (endpoint a) = false -> is_empty (listener_cert_fingerprint a) = false ->
  exists q, build_peer_introduction_request (from_signing_key ck) a = Ok q /\ any_empty q = false /\
    verify_signature (rq_consumer q) (signed_payload q) (rq_signature q) = Ok tt /\
    claims_of_request q = fun x =>
      {| cl_consumer := public_key_b64 (from_signing_key ck); cl_provider := device_public_key a;
         cl_nonce := instance_nonce a; cl_endpoint := endpoint a; cl_transport := "quic";
         cl_fingerprint := listener_cert_fingerprint a; cl_expires_at := x |}.
Proof.
  intros Hck Hl Hcap Hd Hn He Hf. unfold build_peer_introduction_request, advertised_listener_transport.
  rewrite Hcap. cbn [existsb]. change (eq_ignore_ascii_case "relay" "quic" || (eq_ignore_ascii_case "quic" "quic" || false))
    with true. cbn [mbind outcome_bind].
  match goal with |- context [sign_bytes _ ?m] =>
    destruct (signed_bytes_verify ck m Hck Hl) as (sig & Hs & Hv) end.
  rewrite Hs. cbn [map_err mbind outcome_bind]. eexists. split; [done|].
  split_and!; [|exact Hv|done].
  destruct (verify_signature_nonempty _ _ _ Hv) as [Hk Hsig]. unfold any_empty.
  cbn [rq_consumer rq_provider rq_nonce rq_endpoint rq_transport rq_fingerprint rq_signature].
  by rewrite Hk, Hd, Hn, He, Hf, Hsig.
Qed.

Lemma status_ok_reads : from_str ServerAuthResult (json_print (status_msg "ok") +:+ newline) = Some "ok".
Proof.
  unfold from_str. rewrite json_round_line; [done|]. apply flat_wf. by apply (bool_decide_unpack (NoDup _)).
Qed.

(** What the provider announces is what its listener checks. *)
Lemma listener_built pcfg interfaces keypair cert random bind listen identity adv :
  build_listener_runtime pcfg interfaces keypair cert random bind = Ok (listen, identity, adv) ->
  exists endpoint,
    identity = {| li_provider := public_key_b64 keypair; li_nonce := create_auth_challenge random;
                  li_transport := "quic"; li_fingerprint := compute_fingerprint cert |} /\
    adv = {| version := 1; device_public_key := public_key_b64 keypair;
             server_public_key := ps_server_public_key pcfg; instance_nonce := create_auth_challenge random;
             endpoint := endpoint; listener_cert_fingerprint := compute_fingerprint cert;
             capabilities := ["relay"; "quic"] |}.
Proof.
  unfold build_listener_runtime. destruct (parse_socket_addr (ps_bind_address pcfg)) as [ba|]; [|done].
  cbn [ok_or mbind outcome_bind]. destruct (resolve_advertise_ip pcfg interfaces ba) as [aip| |]; [|done..].
  cbn [mbind outcome_bind]. destruct (bind _) as [lp|]; [|done]. cbn [ok_or mbind outcome_bind].
  intros [= _ <- <-]. by eexists.
Qed.

Lemma ask_reachable (reachable : BootstrapScheme -> bool) (x : string) l :
  existsb reachable l = true ->
  find_map (fun scheme => if reachable scheme && true then Some x else None) l = Some x.
Proof. induction l as [|s l IH]; [done|]. cbn. by destruct (reachable s). Qed.

(** The two ends of a relay connection under an introduction the server signed. *)
Lemma relay_linked sk i sig listener cert addr dial now1 now2 :
  let k := public_key_b64 (from_signing_key sk) in
  let s := {| introduction := i; server_signature := sig |} in
  verify_signature k (signing_payload i) sig = Ok tt -> in_u 64 (cl_expires_at i) ->
  cl_transport i = "quic" -> parse_socket_addr (cl_endpoint i) = Some addr -> dial addr = Some cert ->
  cl_fingerprint i = compute_fingerprint cert ->
  listener = {| li_provider := cl_provider i; li_nonce := cl_nonce i; li_transport := cl_transport i;
                li_fingerprint := cl_fingerprint i |} ->
  link 9 [] [] (connect_peer_relay (Some now1) k (cl_provider i) s dial)
    (accept_peer_relay (Some now2) k listener) =
  Some (if cl_expires_at i <=? now1 then (Err HsUnauthorized, Err HsIo, tt)
        else if cl_expires_at i <=? now2 then (Err HsIo, Err HsUnauthorized, tt)
        else (Ok tt, Ok s, tt)).
Proof.
  intros k s Hv Hu Ht Ha Hd Hf Hl. unfold connect_peer_relay, k, s.
  rewrite (consumer_accepts sk i sig now1 Hv). destruct (cl_expires_at i <=? now1); [done|].
  cbn [introduction]. rewrite Ht. change (eq_ignore_ascii_case "quic" "quic") with true. cbn [negb].
  rewrite Ha, Hd. unfold pinned_accepts. rewrite bool_decide_eq_true_2 by done. cbn [negb].
  unfold accept_peer_relay. cbn [link app].
  rewrite (proj2 (signed_reads {| introduction := i; server_signature := sig |} Hu)).
  rewrite (provider_accepts sk i sig now2 listener Hv Hl).
  destruct (cl_expires_at i <=? now2); [done|]. cbn [link app].
  rewrite status_ok_reads. cbn iota. by rewrite bool_decide_eq_true_2.
Qed.
End introduction_lemmas.

(** ** The browse task *)

Section browse_lemmas.
Context `{Crypto} `{JsonText} `{!Sha256}.
Variables (cfg : PeerSettings) (self : DeviceKeypair).

(** Every peer the task counts as connected has exactly one path that is in use or whose end has been
    reported, and the other way round. *)
Definition browse_inv (b : Browse) : Prop :=
  NoDup (relays b ++ closed_rx b) /\
  forall id, id ∈ connected_peers b <-> id ∈ relays b ++ closed_rx b.

Lemma browse_inv_stop b : browse_inv b -> browse_inv (stop_browsing b).
Proof. done. Qed.

Lemma browse_inv_discovered a e b : browse_inv b -> browse_inv (discovered cfg self a e b).
Proof.
  intros [Hnd Hin]. unfold discovered. destruct (should_accept_discovered_peer _ _ _); [|done].
  cbn [negb]. case_bool_decide as Hc; [done|]. destruct (reach_peer cfg self a e); [|done].
  cbn [negb]. destruct (at_taken e); [|done]. cbn [negb]. split; cbn [relays closed_rx connected_peers app].
  - apply NoDup_cons. split; [|done]. by rewrite <- Hin.
  - intros id. rewrite elem_of_union, elem_of_singleton, elem_of_cons, Hin. done.
Qed.

Lemma browse_inv_step ev b : browse_inv b -> browse_inv (browse_step cfg self ev b).
Proof.
  intros Hb. destruct ev as [s e| |k]; cbn [browse_step].
  - destruct (browsing b); cbn [negb]; [|done]. destruct s as [[] r| |]; try done.
    destruct (advertisement_from_resolved_service r); try done. by apply browse_inv_discovered.
  - destruct b as [[] cp rs [|id rest]]; try done. destruct Hb as [Hnd Hin].
    cbn [browsing connected_peers relays closed_rx] in *.
    split; cbn [browsing connected_peers relays closed_rx].
    + apply NoDup_app in Hnd as (HX1 & HX2 & [_ HX3]%NoDup_cons). apply NoDup_app. split_and!; [done| |done].
      intros x Hx Hr. apply (HX2 x Hx). by right.
    + intros x. rewrite elem_of_difference, elem_of_singleton, Hin, !elem_of_app, elem_of_cons.
      apply NoDup_app in Hnd as (_ & HX2 & [HX3 _]%NoDup_cons).
      split; [naive_solver|]. intros [Hx|Hx].
      * split; [by left|]. intros ->. by apply (HX2 id Hx); left.
      * split; [by right; right|]. by intros ->.
  - destruct (relays b !! k) as [id|] eqn:Hk; [|done]. destruct Hb as [Hnd Hin].
    pose proof (delete_Permutation _ _ _ Hk) as Hperm.
    assert (Hp : delete k (relays b) ++ closed_rx b ++ [id] ≡ₚ relays b ++ closed_rx b).
    { etransitivity; [|symmetry; apply Permutation_app_tail; exact Hperm].
      rewrite (assoc_L app), (Permutation_app_comm _ [id]). done. }
    split; cbn [relays closed_rx connected_peers].
    + by rewrite Hp.
    + intros x. by rewrite Hin, Hp.
Qed.

Lemma browse_inv_run evs b : browse_inv b -> browse_inv (browse_run cfg self evs b).
Proof. revert b. induction evs as [|ev evs IH]; intros b Hb; [done|]. apply IH. by apply browse_inv_step. Qed.

Lemma browse_stopped ev b :
  browsing b = false ->
  browsing (browse_step cfg self ev b) = false /\ (length (relays (browse_step cfg self ev b)) <= length (relays b))%nat.
Proof.
  intros Hb. destruct ev as [s e| |k]; cbn [browse_step]; rewrite ?Hb; cbn [negb]; [by split| |].
  - by split.
  - destruct (relays b !! k) as [id|] eqn:Hk; [|by split]. cbn [browsing relays]. split; [done|].
    rewrite length_delete by (by eexists). lia.
Qed.

Lemma browse_stopped_run evs b :
  browsing b = false ->
  browsing (browse_run cfg self evs b) = false /\
  (length (relays (browse_run cfg self evs b)) <= length (relays b))%nat.
Proof.
  revert b. induction evs as [|ev evs IH]; intros b Hb; [by split|].
  destruct (browse_stopped ev b Hb) as [Hs Hl]. destruct (IH _ Hs) as [HX1 HX2].
  split; [exact HX1|]. cbn [browse_run foldl] in *. unfold browse_run in HX2. lia.
Qed.

(** What was checked before a peer counts as reached. *)
Lemma reach_peer_sound a e :
  reach_peer cfg self a e = true ->
  exists i now addr cert, request_peer_share_introduction cfg self a (at_ask e) = Ok i /\
    at_now e = Some now /\ now < cl_expires_at (introduction i) /\
    cl_provider (introduction i) = device_public_key a /\
    verify_server_signature (ps_server_public_key cfg) i = Ok tt /\
    parse_socket_addr (cl_endpoint (introduction i)) = Some addr /\ at_dial e addr = Some cert /\
    compute_fingerprint cert = cl_fingerprint (introduction i).
Proof.
  unfold reach_peer. destruct (request_peer_share_introduction cfg self a (at_ask e)) as [i| |]; [|done..].
  unfold connect_peer_relay, verify_consumer_introduction.
  destruct (verify_server_signature _ _) as [[]| |] eqn:Hv; [|done..]. cbn [mbind outcome_bind].
  case_bool_decide as Hp; [|done]. cbn [negb]. unfold ensure_not_expired.
  destruct (at_now e) as [now|] eqn:Hn; [|done]. cbn [ok_or mbind outcome_bind].
  destruct (Z.leb_spec (cl_expires_at (introduction i)) now); [done|]. cbn [mbind outcome_bind].
  destruct (negb _); [done|]. destruct (parse_socket_addr _) as [addr|] eqn:Ha; [|done].
  destruct (at_dial e addr) as [cert|] eqn:Hd; [|done].
  destruct (negb (pinned_accepts _ _)); [done|]. case_bool_decide as Hf; [|done]. intros _.
  exists i, now, addr, cert. by split_and!.
Qed.
End browse_lemmas.

(** ** The accept task *)

Lemma relay_peer_frames_spec evs down up down' up' running :
  relay_peer_frames evs down up = (down', up', running) ->
  exists fs gs, down' = down ++ fs /\ up' = up ++ gs.
Proof.
  revert down up. induction evs as [|ev evs IH]; intros down up; cbn [relay_peer_frames].
  { intros [= <- <- <-]. exists [], []. by rewrite !app_nil_r. }
  assert (Hend : forall b, (down, up, b) = (down', up', running) ->
    exists fs gs, down' = down ++ fs /\ up' = up ++ gs).
  { intros b [= <- <- <-]. exists [], []. by rewrite !app_nil_r. }
  destruct ev as [[f|] []|[f|] []]; try apply Hend; intros (fs & gs & -> & ->)%IH.
  - exists fs, ([f] ++ gs). by rewrite (assoc_L app).
  - exists ([f] ++ fs), gs. by rewrite (assoc_L app).
Qed.

(** What the snapshot of the Android session makes of the messages. *)
Definition log_messages (ms : list string) (sn : AndroidSessionSnapshot) : AndroidSessionSnapshot :=
  foldl (fun sn m => peer_logged m sn) sn ms.

Lemma peer_logged_other m sn :
  m <> "registered upstream relay session" -> starts_with "relay loop terminated:" m = false ->
  accepted_peer_relay_count (peer_logged m sn) = accepted_peer_relay_count sn.
Proof. intros Hm Hs. unfold peer_logged. rewrite bool_decide_eq_false_2, Hs by done. done. Qed.

Lemma peer_logged_registered sn :
  accepted_peer_relay_count sn = 0 ->
  accepted_peer_relay_count (peer_logged "registered upstream relay session" sn) = 1.
Proof. intros Hc. unfold peer_logged. rewrite bool_decide_eq_true_2 by done. cbn. by rewrite Hc. Qed.

Lemma peer_logged_terminated t sn :
  accepted_peer_relay_count sn = 1 ->
  accepted_peer_relay_count (peer_logged ("relay loop terminated: " +:+ t) sn) = 0.
Proof.
  intros Hc. unfold peer_logged. rewrite bool_decide_eq_false_2.
  - change (starts_with _ _) with true. cbn. by rewrite Hc.
  - intros He. apply (f_equal (take 3 ∘ string_bytes)) in He. discriminate He.
Qed.

(** A message with a prefix that is neither of the two the snapshot looks for. *)
Ltac other_message :=
  rewrite peer_logged_other; [| let He := fresh in intros He; apply (f_equal (take 3 ∘ string_bytes)) in He; discriminate He | reflexivity].

Section accept_lemmas.
Context `{Crypto} `{JsonText} `{!Sha256}.
Variables (server_key : string) (identity : PeerListenerIdentity).

Lemma accept_run_sound now ins n out i :
  run ins n (accept_peer_relay now server_key identity) = (out, Ok i, tt) ->
  verify_provider_introduction now server_key identity i = Ok tt.
Proof.
  unfold accept_peer_relay. cbn [run]. destruct ins as [|[line|] ins]; [done| |done].
  destruct (from_str signed_of_json line) as [j|]; [|done].
  destruct (verify_provider_introduction _ _ _ j) as [[]| |] eqn:Hv; [|done..].
  cbn [run]. destruct n; [done|]. by intros [= _ <-].
Qed.

(** A connection that ends up relayed was introduced by the server to this very listener; its path to
    the server starts with the registration. *)
Definition relay_ok (r : Relay) : Prop :=
  exists now rest, verify_provider_introduction now server_key identity (relay_introduction r) = Ok tt /\
    frames_up r = register_peer_relay_upstream (relay_introduction r) :: rest.

Lemma serve_consumer_spec c ms r running sn :
  serve_consumer server_key identity c = (ms, r, running) ->
  accepted_peer_relay_count sn = 0 ->
  accepted_peer_relay_count (log_messages ms sn) = (if running then 1 else 0) /\
  Forall relay_ok (option_list r) /\ (running = true -> is_Some r).
Proof.
  intros Hs Hc. revert Hs. unfold serve_consumer. destruct (in_accepted c); cbn [negb].
  2: { intros [= <- <- <-]. cbn [log_messages foldl option_list]. other_message. by split_and!. }
  destruct (run _ _ _) as [[out res] []] eqn:Hr. destruct res as [i|e|].
  2,3: intros [= <- <- <-]; cbn [log_messages foldl option_list]; other_message; by split_and!.
  apply accept_run_sound in Hr. cbn zeta.
  destruct (in_upstreams c) as [[|up ups]|].
  1,3: intros [= <- <- <-]; cbn [log_messages foldl option_list]; do 2 other_message; by split_and!.
  destruct (in_registered c); cbn [negb].
  2: { intros [= <- <- <-]. cbn [log_messages foldl option_list]. do 2 other_message. by split_and!. }
  destruct (relay_peer_frames _ _ _) as [[down up'] run'] eqn:Hf.
  apply relay_peer_frames_spec in Hf as (fs & gs & -> & ->). intros [= <- <- <-].
  split_and!.
  - unfold log_messages. cbn [foldl]. destruct run'; cbn [foldl].
    + apply peer_logged_registered. by other_message.
    + apply peer_logged_terminated, peer_logged_registered. by other_message.
  - cbn [option_list]. apply Forall_singleton. by exists (in_now c), gs.
  - intros _. by eexists.
Qed.

Lemma accept_loop_spec cs ms rs running sn :
  accept_loop server_key identity cs = (ms, rs, running) ->
  accepted_peer_relay_count sn = 0 ->
  accepted_peer_relay_count (log_messages ms sn) = (if running then 1 else 0) /\ Forall relay_ok rs.
Proof.
  revert ms rs running sn. induction cs as [|c cs IH]; intros ms rs running sn; cbn [accept_loop].
  { by intros [= <- <- <-]. }
  destruct (serve_consumer server_key identity c) as [[ms1 r] run1] eqn:Hc. intros Hs Hz.
  destruct (serve_consumer_spec c ms1 r run1 sn Hc Hz) as (Hn & Hr & _). destruct run1.
  - injection Hs as <- <- <-. by split.
  - destruct (accept_loop server_key identity cs) as [[ms2 rs2] run2]. injection Hs as <- <- <-.
    destruct (IH _ _ _ (log_messages ms1 sn) eq_refl Hn) as [Hn2 Hr2].
    split; [|by apply Forall_app]. unfold log_messages in *. by rewrite foldl_app.
Qed.

(** While a consumer is served, nobody else is. *)
Lemma accept_loop_busy cs c cs' ms rs :
  (accept_loop server_key identity (cs ++ [c])) = (ms, rs, true) ->
  (accept_loop server_key identity (cs ++ c :: cs')) = (ms, rs, true).
Proof.
  revert ms rs. induction cs as [|d cs IH]; intros ms rs; cbn [app accept_loop].
  - destruct (serve_consumer server_key identity c) as [[ms1 r] []]; [done|]. by intros [= _ _ ?].
  - destruct (serve_consumer server_key identity d) as [[ms1 r] []]; [done|].
    destruct (accept_loop server_key identity (cs ++ [c])) as [[ms2 rs2] run2] eqn:He.
    intros [= <- <- ->]. by rewrite (IH ms2 rs2).
Qed.
End accept_lemmas.

(** * Properties *)

(** C18: peer sharing from end to end.  A provider's listener is advertised; a consumer with the same
    server, to which the resolved service carries the records, reads the advertisement back and accepts
    it; if the server can be asked and has both devices authorized, it issues an introduction; with it
    the consumer and the provider connect, and the server binds the provider's connection to the
    consumer's session, each as long as the 300 seconds last on its own clock, and no longer. *)
Theorem peer_share_end_to_end `{CryptoLaws} `{JsonLaws} `{!Sha256} (sk ck vk : list Z)
    (pcfg ccfg : PeerSettings) (interfaces : list IpAddr) (cert random : list Z)
    (bind : SocketAddr -> option Z) (listen addr : SocketAddr) (identity : PeerListenerIdentity)
    (adv : PeerShareAdvertisement) (r : ResolvedService) (keys : AuthorizedKeysStore) (t0 : Z)
    (reachable : BootstrapScheme -> bool) (dial : SocketAddr -> option (list Z)) :
  let server := from_signing_key sk in
  let consumer := from_signing_key ck in
  let provider := from_signing_key vk in
  let ask scheme body :=
    let (status, answer) := peer_share_introduction_response server keys (Some t0) body in
    if reachable scheme && (status =? 200) then Some answer else None in
  bytes_ok sk -> length sk = 32%nat -> bytes_ok ck -> length ck = 32%nat ->
  bytes_ok vk -> length vk = 32%nat -> bytes_ok random -> random <> [] ->
  0 <= t0 -> t0 + 300 < 2 ^ 64 ->
  build_listener_runtime pcfg interfaces provider cert random bind = Ok (listen, identity, adv) ->
  ps_server_public_key pcfg = public_key_b64 server -> ps_server_public_key ccfg = public_key_b64 server ->
  public_key_b64 provider <> public_key_b64 consumer ->
  is_authorized (public_key_b64 consumer) keys = true -> is_authorized (public_key_b64 provider) keys = true ->
  is_empty (trim (ps_server_public_address ccfg)) = false ->
  existsb reachable (bootstrap_scheme_candidates ccfg) = true ->
  (forall key, property r key = (list_to_map (txt_records adv) : gmap string string) !! key) ->
  parse_socket_addr (endpoint adv) = Some addr -> dial addr = Some cert ->
  advertisement_from_resolved_service r = Ok adv /\
  should_accept_discovered_peer adv (public_key_b64 server) (public_key_b64 consumer) = true /\
  exists i, request_peer_share_introduction ccfg consumer adv ask = Ok i /\
    forall now1 now2 now3,
      link 9 [] [] (connect_peer_relay (Some now1) (public_key_b64 server) (device_public_key adv) i dial)
        (accept_peer_relay (Some now2) (public_key_b64 server) identity) =
      Some (if t0 + 300 <=? now1 then (Err HsUnauthorized, Err HsIo, tt)
            else if t0 + 300 <=? now2 then (Err HsIo, Err HsUnauthorized, tt)
            else (Ok tt, Ok i, tt)) /\
      resolve_session_binding (Some now3) (Some (register_peer_relay_upstream i)) (public_key_b64 provider)
        server =
      if t0 + 300 <=? now3 then Err Expired
      else Ok {| client_public_key := public_key_b64 consumer; initial_frame := None;
                 relayed_via_provider := true |}.
Proof.
  intros server consumer provider ask Hsk Hlsk Hck Hlck Hvk Hlvk Hrand Hrne Ht0 Hmax Hbuild Hps Hcs Hne
    Hac Hap Haddr Hreach Hprop Hparse Hdial.
  apply listener_built in Hbuild as (ep & -> & ->). cbn [endpoint] in Hparse.
  assert (Hend : is_empty ep = false) by (by destruct ep). split_and!.
  { by apply resolved_reads. }
  { unfold should_accept_discovered_peer. cbn [server_public_key device_public_key].
    rewrite Hps, bool_decide_eq_true_2, bool_decide_eq_false_2 by done. done. }
  match goal with |- context [request_peer_share_introduction _ _ ?a _] => set (adv := a) in * end.
  destruct (request_built ck adv) as (q & Hq & Hqe & Hqv & Hqc); try done.
  { by apply public_key_nonempty. }
  { by apply challenge_nonempty. }
  assert (Hcl : claims_of_request q (t0 + 300) = {|
    cl_consumer := public_key_b64 consumer; cl_provider := public_key_b64 provider;
    cl_nonce := create_auth_challenge random; cl_endpoint := endpoint adv; cl_transport := "quic";
    cl_fingerprint := compute_fingerprint cert; cl_expires_at := t0 + 300 |}) by (by rewrite Hqc).
  assert (Hrq : rq_consumer q = public_key_b64 consumer /\ rq_provider q = public_key_b64 provider)
    by (unfold claims_of_request in Hcl; by injection Hcl).
  destruct Hrq as [Hqk Hqp].
  destruct (introduction_issued sk keys q (json_print (request_json q)) t0) as (sig & Hr & Hv & Hu); try done.
  { apply request_reads. }
  { by rewrite Hqk. }
  { by rewrite Hqp. }
  set (claims := claims_of_request q (t0 + 300)) in *.
  exists {| introduction := claims; server_signature := sig |}. split.
  - unfold request_peer_share_introduction. rewrite Haddr. cbn iota. fold consumer in Hq. rewrite Hq.
    cbn [mbind outcome_bind]. unfold ask. fold server in Hr. rewrite Hr. cbn [Z.eqb Pos.eqb].
    rewrite ask_reachable by done. cbn [ok_or mbind outcome_bind].
    by rewrite (proj1 (signed_reads {| introduction := claims; server_signature := sig |} Hu)).
  - intros now1 now2 now3. clearbody claims. subst claims. split.
    + by apply (relay_linked sk _ sig _ cert addr dial now1 now2 Hv Hu).
    + by apply (server_rebinds sk _ sig now3 Hu Hv).
Qed.

(** C19: the paths to peers.  Whatever services appear, whatever the attempts meet and whenever paths
    end, no peer ever has two paths in use, and a peer counts as connected exactly as long as its path
    is in use or its end not yet seen, so that it can be found again afterwards.  A path that is added is
    to another device of the same server, under an unexpired introduction to that device signed by the
    server, over a connection with the certificate the introduction names. *)
Theorem browse_paths `{Crypto} `{JsonText} `{!Sha256} (cfg : PeerSettings) (self : DeviceKeypair)
    (evs : list browse_event) (ev : browse_event) :
  let b := browse_run cfg self evs init_browse in
  let b' := browse_step cfg self ev b in
  NoDup (relays b') /\
  (forall id, id ∈ connected_peers b' <-> id ∈ relays b' \/ id ∈ closed_rx b') /\
  (forall id, id ∈ relays b' -> id ∉ relays b -> exists a e i now addr cert,
     id = peer_id a /\ server_public_key a = ps_server_public_key cfg /\
     device_public_key a <> public_key_b64 self /\
     request_peer_share_introduction cfg self a (at_ask e) = Ok i /\
     verify_server_signature (ps_server_public_key cfg) i = Ok tt /\
     cl_provider (introduction i) = device_public_key a /\
     at_now e = Some now /\ now < cl_expires_at (introduction i) /\
     parse_socket_addr (cl_endpoint (introduction i)) = Some addr /\ at_dial e addr = Some cert /\
     compute_fingerprint cert = cl_fingerprint (introduction i)).
Proof.
  intros b b'. assert (Hb : browse_inv b) by (apply browse_inv_run; split; [constructor|set_solver]).
  pose proof (browse_inv_step cfg self ev b Hb) as [Hnd Hin]. fold b' in Hnd, Hin. split_and!.
  - by apply NoDup_app in Hnd as (Hn & _).
  - intros id. by rewrite Hin, elem_of_app.
  - intros id Hid Hold. unfold b' in Hid. destruct ev as [s e| |k]; cbn [browse_step] in Hid.
    + destruct (browsing b); cbn [negb] in Hid; [|done]. destruct s as [[] r| |]; try done.
      destruct (advertisement_from_resolved_service r) as [a| |]; try done.
      unfold discovered in Hid. destruct (should_accept_discovered_peer _ _ _) eqn:Hacc; cbn [negb] in Hid; [|done].
      case_bool_decide; [done|]. destruct (reach_peer cfg self a e) eqn:Hr; cbn [negb] in Hid; [|done].
      destruct (at_taken e); cbn [negb] in Hid; [|done]. cbn [relays] in Hid.
      apply elem_of_cons in Hid as [->|Hid]; [|done].
      apply andb_prop in Hacc as [Hs Hd]. apply bool_decide_eq_true in Hs.
      apply negb_true_iff, bool_decide_eq_false in Hd.
      apply reach_peer_sound in Hr as (i & now & addr & cert & ? & ? & ? & ? & ? & ? & ? & ?).
      exists a, e, i, now, addr, cert. by split_and!.
    + destruct (browsing b), (closed_rx b); done.
    + destruct (relays b !! k) as [x|] eqn:Hk; [|done]. cbn [relays] in Hid. exfalso. apply Hold.
      rewrite (delete_Permutation _ _ _ Hk). by right.
Qed.

(** One resolved service whose records do not make an advertisement ends the search for peers: no
    path is added any more, whatever happens later. *)
Theorem malformed_service_ends_browsing `{Crypto} `{JsonText} `{!Sha256} (cfg : PeerSettings)
    (self : DeviceKeypair) (b : Browse) (r : ResolvedService) (e : Attempt) (err : DiscoveryError)
    (evs : list browse_event) :
  advertisement_from_resolved_service r = Err err ->
  let b' := browse_run cfg self (Seen (ServiceResolved true r) e :: evs) b in
  browsing b' = false /\ (length (relays b') <= length (relays b))%nat.
Proof.
  intros Hr b'. unfold b'. cbn [browse_run foldl browse_step].
  destruct (browsing b) eqn:Hb; cbn [negb].
  - rewrite Hr. by apply (browse_stopped_run cfg self evs (stop_browsing b)).
  - by apply (browse_stopped_run cfg self evs b).
Qed.

(** The provider's side.  Every relay the accept loop makes is for an introduction that verifies for
    this listener, and starts with its registration; while one is running no further connection is
    served, and the count of relays the Android session keeps from the messages is 1 then, and 0 when
    none is. *)
Theorem accept_loop_relays `{Crypto} `{JsonText} `{!Sha256} (server_key : string)
    (identity : PeerListenerIdentity) (cs : list Incoming) (sn : AndroidSessionSnapshot) :
  accepted_peer_relay_count sn = 0 ->
  let '(ms, rs, running) := accept_loop server_key identity cs in
  accepted_peer_relay_count (log_messages ms sn) = (if running then 1 else 0) /\
  Forall (fun r => exists now rest,
    verify_provider_introduction now server_key identity (relay_introduction r) = Ok tt /\
    frames_up r = register_peer_relay_upstream (relay_introduction r) :: rest) rs /\
  (running = true -> forall more, accept_loop server_key identity (cs ++ more) = (ms, rs, true)).
Proof.
  intros Hsn. destruct (accept_loop server_key identity cs) as [[ms rs] running] eqn:Ha.
  destruct (accept_loop_spec server_key identity cs ms rs running sn Ha Hsn) as [Hc Hr].
  split_and!; [done|done|]. intros -> more. destruct cs as [|c cs _] using rev_ind; [done|].
  rewrite <- (assoc_L app). by apply accept_loop_busy.
Qed.

(** ** Witnesses *)

Module Sample.
#[local] Existing Instances AuthHandshake.Sample.crypto AuthHandshake.Sample.crypto_laws
  Json.Sample.json_text Json.Sample.json_laws.
#[local] Instance sha : Sha256 := fun l => take 4 l.

Definition sk : list Z := replicate 32 65.
Definition ck : list Z := replicate 32 66.
Definition vk : list Z := replicate 32 67.
Definition cert : list Z := [1; 2; 3; 4].
Definition cfg : PeerSettings :=
  {| ps_server_public_key := public_key_b64 (from_signing_key sk); ps_server_public_address := "bonded.example:443";
     ps_server_websocket_address := "wss://bonded.example"; ps_preferred_protocols := ["naive_tcp"];
     ps_bind_address := "0.0.0.0:0"; ps_advertise_ip := EmptyString |}.
Definition interfaces : list IpAddr := [V4 (127, 0, 0, 1); V4 (192, 168, 1, 20)].
Definition listener :=
  build_listener_runtime cfg interfaces (from_signing_key vk) cert [1; 2; 3] (fun _ => Some 54443).
Definition adv : PeerShareAdvertisement :=
  match listener with Ok (_, _, a) => a | _ => {| version := 0; device_public_key := ""; server_public_key := "";
    instance_nonce := ""; endpoint := ""; listener_cert_fingerprint := ""; capabilities := [] |} end.
Definition identity : PeerListenerIdentity :=
  {| li_provider := public_key_b64 (from_signing_key vk); li_nonce := create_auth_challenge [1; 2; 3];
     li_transport := "quic"; li_fingerprint := compute_fingerprint cert |}.
Definition service : ResolvedService :=
  {| property key := (list_to_map (txt_records adv) : gmap string string) !! key; addresses := [];
     service_port := 1 |}.
Definition device (k : list Z) : AuthorizedDevice :=
  {| device_id := "d"; public_key := public_key_b64 (from_signing_key k); added_at := None |}.
Definition keys : AuthorizedKeysStore :=
  {| store_path := "k"; devices := <[public_key (device ck) := device ck]>
       {[ public_key (device vk) := device vk ]} |}.
Definition here : SocketAddr := {| ip := V4 (192, 168, 1, 20); port := 54443 |}.
Definition dial (a : SocketAddr) : option (list Z) := if parse_socket_addr (print_socket_addr a) then Some cert else None.

Lemma peer_share_end_to_end_witness :
  endpoint adv = "192.168.1.20:54443" /\
  exists i, request_peer_share_introduction cfg (from_signing_key ck) adv
      (fun scheme body => let (status, answer) :=
         peer_share_introduction_response (from_signing_key sk) keys (Some 1000) body in
         if (match scheme with Https => true | _ => false end) && (status =? 200) then Some answer else None) = Ok i /\
    link 9 [] [] (connect_peer_relay (Some 1001) (public_key_b64 (from_signing_key sk)) (device_public_key adv) i dial)
      (accept_peer_relay (Some 1299) (public_key_b64 (from_signing_key sk)) identity) = Some (Ok tt, Ok i, tt).
Proof.
  split; [vm_compute; reflexivity|].
  destruct (peer_share_end_to_end sk ck vk cfg cfg interfaces cert [1; 2; 3] (fun _ => Some 54443)
    {| ip := V4 (192, 168, 1, 20); port := 0 |} here identity adv service keys 1000
    (fun scheme => match scheme with Https => true | _ => false end) dial) as (_ & _ & i & Hi & Hl).
  - apply (bool_decide_unpack _). vm_compute. exact I.
  - reflexivity.
  - apply (bool_decide_unpack _). vm_compute. exact I.
  - reflexivity.
  - apply (bool_decide_unpack _). vm_compute. exact I.
  - reflexivity.
  - apply (bool_decide_unpack _). vm_compute. exact I.
  - discriminate.
  - lia.
  - vm_compute. reflexivity.
  - vm_compute. reflexivity.
  - reflexivity.
  - reflexivity.
  - vm_compute. discriminate.
  - vm_compute. reflexivity.
  - vm_compute. reflexivity.
  - vm_compute. reflexivity.
  - vm_compute. reflexivity.
  - intros key. reflexivity.
  - vm_compute. reflexivity.
  - vm_compute. reflexivity.
  - exists i. split; [exact Hi|]. destruct (Hl 1001 1299 0) as [Hlink _]. exact Hlink.
Defined.

(** A service without records: any device of the local network can announce one. *)
Definition nothing : Attempt :=
  {| at_ask _ _ := None; at_now := None; at_dial _ := None; at_ins := []; at_sends := 0; at_taken := true |}.
Lemma malformed_service_ends_browsing_witness :
  let r := {| property _ := None; addresses := ["192.168.1.9"]; service_port := 5 |} in
  browsing (browse_run cfg (from_signing_key ck)
    (Seen (ServiceResolved true r) nothing :: [Seen (ServiceResolved true service) nothing]) init_browse) = false.
Proof.
  intros r. apply (malformed_service_ends_browsing cfg (from_signing_key ck) init_browse r nothing
    (BadRecords (MissingRecord "version")) [Seen (ServiceResolved true service) nothing]).
  vm_compute. reflexivity.
Defined.

(** The introduction of the end-to-end example, relayed; another consumer waits. *)
Definition relayed_consumer : Incoming :=
  {| in_accepted := true; in_now := Some 1100;
     in_lines := [match request_peer_share_introduction cfg (from_signing_key ck) adv (fun _ body =>
        Some (peer_share_introduction_response (from_signing_key sk) keys (Some 1000) body).2) with
        | Ok i => Some (json_print (signed_json i)) | _ => None end];
     in_sends := 1; in_upstreams := Some ["wss"]; in_registered := true;
     in_relay := []; in_error := "closed" |}.
Lemma accept_loop_relays_witness :
  exists ms rs, accept_loop (public_key_b64 (from_signing_key sk)) identity [relayed_consumer] = (ms, rs, true) /\
    length rs = 1%nat /\ accepted_peer_relay_count (log_messages ms (new_snapshot EmptyString)) = 1.
Proof.
  pose proof (accept_loop_relays (public_key_b64 (from_signing_key sk)) identity [relayed_consumer]
    (new_snapshot EmptyString) eq_refl) as Hall.
  assert (Hv : (let '(_, rs, running) :=
    accept_loop (public_key_b64 (from_signing_key sk)) identity [relayed_consumer] in (length rs, running)) = (1%nat, true))
    by (vm_compute; reflexivity).
  revert Hall Hv. destruct (accept_loop _ identity [relayed_consumer]) as [[ms rs] running].
  intros (Hc & _ & _) [= Hl ->]. exists ms, rs. split; [reflexivity|]. split; [exact Hl|exact Hc].
Defined.
End Sample.
