(* ===== verification/UdpIcmp.v ===== *)
(** UDP flows and ICMP probes of a session's forwarder, and their trackers:
    [src/crates/bonded-server/src/smoltcp_forwarder.rs].  Flow handles are shared ([Arc]) between the
    map and the flow's task, so the model keeps a store of flow states and the map holds references
    into it.  Each locked section of the source is one step; tasks interleave between steps. *)

From stdpp Require Import base tactics list gmap strings pretty.
From Stdlib Require Import ZArith Lia.
From S2P Require Import Prelude Words Session Checksum Packet.
Open Scope Z_scope.

(** * Definitions *)

(** ** The UDP tracker *)

(** [UdpFlowKey]: source and destination address, source and destination port. *)
Definition UdpFlowKey : Type := Ipv4Addr * Ipv4Addr * Z * Z.

Record UdpFlowStatus := {
  us_bound_socket : string;
  us_created_at : Z;
  us_last_client_packet_at : Z;
  us_last_remote_packet_at : option Z;
  us_client_to_remote_packets : Z;
  us_remote_to_client_packets : Z
}.

Definition UdpSessionTracker : Type := gmap (Z * UdpFlowKey) UdpFlowStatus.

Definition register_flow (now session_id : Z) (key : UdpFlowKey) (bound_socket : string)
    (t : UdpSessionTracker) : UdpSessionTracker :=
  <[(session_id, key) :=
      {| us_bound_socket := bound_socket; us_created_at := now; us_last_client_packet_at := now;
         us_last_remote_packet_at := None; us_client_to_remote_packets := 0;
         us_remote_to_client_packets := 0 |}]> t.

Definition touch_client (now session_id : Z) (key : UdpFlowKey) (t : UdpSessionTracker)
  : UdpSessionTracker :=
  alter (fun e =>
    {| us_bound_socket := us_bound_socket e; us_created_at := us_created_at e;
       us_last_client_packet_at := now; us_last_remote_packet_at := us_last_remote_packet_at e;
       us_client_to_remote_packets := saturating_add 64 (us_client_to_remote_packets e) 1;
       us_remote_to_client_packets := us_remote_to_client_packets e |}) (session_id, key) t.

Definition touch_remote (now session_id : Z) (key : UdpFlowKey) (t : UdpSessionTracker)
  : UdpSessionTracker :=
  alter (fun e =>
    {| us_bound_socket := us_bound_socket e; us_created_at := us_created_at e;
       us_last_client_packet_at := us_last_client_packet_at e; us_last_remote_packet_at := Some now;
       us_client_to_remote_packets := us_client_to_remote_packets e;
       us_remote_to_client_packets := saturating_add 64 (us_remote_to_client_packets e) 1 |})
    (session_id, key) t.

Definition remove_flow (session_id : Z) (key : UdpFlowKey) (t : UdpSessionTracker)
  : UdpSessionTracker := delete (session_id, key) t.

(** [retain(|(sid, _), _| *sid != session_id)] *)
Definition udp_clear_session (session_id : Z) (t : UdpSessionTracker) : UdpSessionTracker :=
  filter (fun kv => kv.1.1 <> session_id) t.

(** ** Flows *)

Record UdpFlowState := {
  fs_connection_id : Z;
  fs_next_sequence : Z;
  fs_identification : Z;
  fs_last_client_at : Z
}.

(** The state the tasks of one session share: the flow map, the flow states its handles refer to,
    the tracker, and the frames sent back. *)
Record UdpShared := {
  flow_map : gmap UdpFlowKey nat;
  flow_states : gmap nat UdpFlowState;
  udp_tracker : UdpSessionTracker;
  udp_outbound : list SessionFrame
}.

Definition IDLE_SECS : Z := 240.

(** Fast path of [ensure_flow]. *)
Definition ensure_flow_lookup (key : UdpFlowKey) (s : UdpShared) : option nat := flow_map s !! key.

(** The second locked section of [ensure_flow], with a socket just bound: the handle to use, and
    whether a task has to be started for it.  [fresh] is the new handle. *)
Definition ensure_flow_insert (fresh : nat) (now : Z) (key : UdpFlowKey) (pkt : Ipv4UdpPacket)
    (h : SessionHeader) (s : UdpShared) : nat * bool * UdpShared :=
  match flow_map s !! key with
  | Some existing => (existing, false, s)
  | None =>
      (fresh, true,
       {| flow_map := <[key := fresh]> (flow_map s);
          flow_states := <[fresh := {| fs_connection_id := connection_id h;
                                       fs_next_sequence := sequence h;
                                       fs_identification := udp_identification pkt;
                                       fs_last_client_at := now |}]> (flow_states s);
          udp_tracker := udp_tracker s; udp_outbound := udp_outbound s |})
  end.

Definition set_tracker (t : UdpSessionTracker) (s : UdpShared) : UdpShared :=
  {| flow_map := flow_map s; flow_states := flow_states s; udp_tracker := t;
     udp_outbound := udp_outbound s |}.

(** The update of a flow by a client packet, in [forward_udp_packet]. *)
Definition client_update (now : Z) (h : SessionHeader) (identification : Z) (st : UdpFlowState)
  : UdpFlowState :=
  {| fs_connection_id := connection_id h;
     fs_next_sequence := if fs_next_sequence st <? sequence h then sequence h else fs_next_sequence st;
     fs_identification := identification;
     fs_last_client_at := now |}.

Definition flow_key (pkt : Ipv4UdpPacket) : UdpFlowKey :=
  (udp_src_ip pkt, udp_dst_ip pkt, udp_src_port pkt, udp_dst_port pkt).

(** [forward_udp_packet] once [ensure_flow] gave it [handle]: the payload is then sent. *)
Definition forward_udp_packet (now session_id : Z) (handle : nat) (h : SessionHeader)
    (pkt : Ipv4UdpPacket) (s : UdpShared) : list Z * UdpShared :=
  (udp_payload pkt,
   {| flow_map := flow_map s;
      flow_states := alter (client_update now h (udp_identification pkt)) handle (flow_states s);
      udp_tracker := touch_client now session_id (flow_key pkt) (udp_tracker s);
      udp_outbound := udp_outbound s |}).

(** [last_client_at.elapsed() >= 240 s] *)
Definition flow_idle (now : Z) (st : UdpFlowState) : bool := IDLE_SECS <=? now - fs_last_client_at st.

(** The header of the next reply, and the advanced state. *)
Definition reply_header (st : UdpFlowState) : SessionHeader * UdpFlowState :=
  ({| connection_id := fs_connection_id st; sequence := fs_next_sequence st; flags := 0 |},
   {| fs_connection_id := fs_connection_id st;
      fs_next_sequence := wrapping_add 64 (fs_next_sequence st) 1;
      fs_identification := fs_identification st; fs_last_client_at := fs_last_client_at st |}).

(** The pump's handling of [n > 0] bytes received from the remote; [None] if the flow is unknown. *)
Definition pump_reply (now session_id : Z) (key : UdpFlowKey) (handle : nat) (data : list Z)
    (s : UdpShared) : option UdpShared :=
  match flow_states s !! handle with
  | None => None
  | Some st =>
      let (hdr, st') := reply_header st in
      let s := {| flow_map := flow_map s; flow_states := <[handle := st']> (flow_states s);
                  udp_tracker := udp_tracker s; udp_outbound := udp_outbound s |} in
      let '(src_ip, dst_ip, src_port, dst_port) := key in
      match build_ipv4_udp_packet dst_ip src_ip dst_port src_port (fs_identification st') data with
      | Ok response_pkt =>
          Some {| flow_map := flow_map s; flow_states := flow_states s;
                  udp_tracker := touch_remote now session_id key (udp_tracker s);
                  udp_outbound := udp_outbound s ++ [{| header := hdr; payload := response_pkt |}] |}
      | _ => Some s
      end
  end.

(** The end of a flow's task. *)
Definition pump_end (session_id : Z) (key : UdpFlowKey) (s : UdpShared) : UdpShared :=
  {| flow_map := delete key (flow_map s); flow_states := flow_states s;
     udp_tracker := remove_flow session_id key (udp_tracker s); udp_outbound := udp_outbound s |}.

(** ** ICMP *)

Record IcmpProbeStatus := {
  ip_session_id : Z;
  ip_src_ip : Ipv4Addr;
  ip_dst_ip : Ipv4Addr;
  ip_echo_identifier : Z;
  ip_echo_sequence : Z;
  ip_outcome : string;
  ip_observed_at : Z
}.

Definition MAX_EVENTS : nat := 256.

(** [while g.len() > MAX_EVENTS { g.pop_back() }] *)
Fixpoint pop_excess (fuel : nat) (g : list IcmpProbeStatus) : list IcmpProbeStatus :=
  match fuel with
  | O => g
  | S fuel => if decide (MAX_EVENTS < length g)%nat then pop_excess fuel (removelast g) else g
  end.

Definition record_probe (now session_id : Z) (pkt : Ipv4IcmpEchoPacket) (outcome : string)
    (g : list IcmpProbeStatus) : list IcmpProbeStatus :=
  let g :=
    {| ip_session_id := session_id; ip_src_ip := icmp_src_ip pkt; ip_dst_ip := icmp_dst_ip pkt;
       ip_echo_identifier := echo_identifier pkt; ip_echo_sequence := echo_sequence pkt;
       ip_outcome := outcome; ip_observed_at := now |} :: g in
  pop_excess (length g) g.

Definition icmp_clear_session (session_id : Z) (g : list IcmpProbeStatus) : list IcmpProbeStatus :=
  List.filter (fun e => negb (ip_session_id e =? session_id)) g.

(** What the socket of [forward_icmp] gave within its timeout; sending it may fail. *)
Inductive IcmpError := IcmpIo | IcmpBuild (e : BuildError).

Inductive icmp_answer := SocketFailed | TimedOut | Answer (datagram : list Z).

Definition forward_icmp (now session_id : Z) (pkt : Ipv4IcmpEchoPacket) (h : SessionHeader)
    (answer : icmp_answer) (tracker : list IcmpProbeStatus)
  : outcome IcmpError (option SessionFrame) * list IcmpProbeStatus :=
  match answer with
  | SocketFailed => (Err IcmpIo, tracker)
  | TimedOut => (Ok None, record_probe now session_id pkt "timeout" tracker)
  | Answer reply =>
      match restore_echo_reply (echo_identifier pkt) reply with
      | Ok None => (Ok None, record_probe now session_id pkt "no-echo-reply" tracker)
      | Ok (Some seg) =>
          match build_ipv4_icmp_packet (icmp_dst_ip pkt) (icmp_src_ip pkt)
                  (icmp_identification pkt) seg with
          | Ok response => (Ok (Some {| header := h; payload := response |}),
                            record_probe now session_id pkt "reply" tracker)
          | Err e => (Err (IcmpBuild e), tracker)
          | Panic => (Panic, tracker)
          end
      | _ => (Panic, tracker)
      end
  end.

(** [dispatch_icmp]: the task of an echo request, with what its socket gave; errors are only logged. *)
Definition dispatch_icmp (now session_id : Z) (f : SessionFrame) (answer : icmp_answer)
    (tracker : list IcmpProbeStatus) (out : list SessionFrame) : panicky (list IcmpProbeStatus * list SessionFrame) :=
  icmp_pkt ← parse_ipv4_icmp_echo_packet (payload f);
  match icmp_pkt with
  | None => Ok (tracker, out)
  | Some icmp_pkt =>
      match forward_icmp now session_id icmp_pkt (header f) answer tracker with
      | (Ok (Some response_frame), tracker) => Ok (tracker, out ++ [response_frame])
      | (_, tracker) => Ok (tracker, out)
      end
  end.

(** ** Formatting of ages *)

Definition decimal (z : Z) : string := pretty z.

Definition format_elapsed (now value : Z) : string :=
  if decide (now < value) then "just now"
  else
    let s := now - value in
    if decide (60 <= s) then (decimal (s / 60) +:+ "m " +:+ decimal (s mod 60) +:+ "s ago")%string
    else (decimal s +:+ "s ago")%string.

(** * Lemmas *)

(** ** Flows *)

(** A flow's life: client packets and replies, in the order its lock was taken. *)
Inductive flow_event := ClientPacket (now : Z) (h : SessionHeader) (identification : Z) | Reply.

(** The sequence numbers of the replies. *)
Fixpoint reply_sequences (st : UdpFlowState) (evs : list flow_event) : list Z :=
  match evs with
  | [] => []
  | ClientPacket now h i :: evs => reply_sequences (client_update now h i st) evs
  | Reply :: evs => let (hdr, st) := reply_header st in sequence hdr :: reply_sequences st evs
  end.

Fixpoint increasing_from (lo : Z) (l : list Z) : Prop :=
  match l with
  | [] => True
  | x :: l => lo <= x /\ increasing_from (x + 1) l
  end.

Lemma increasing_from_weaken lo lo' l : lo' <= lo -> increasing_from lo l -> increasing_from lo' l.
Proof. destruct l; simpl; [done|]. intros ? [? ?]. split; [lia|done]. Qed.

(** Enough room below the 64-bit limit for the events to come. *)
Fixpoint no_wrap (bound : Z) (evs : list flow_event) : Prop :=
  match evs with
  | [] => bound < 2 ^ 64
  | ClientPacket _ h _ :: evs => no_wrap (Z.max bound (sequence h)) evs
  | Reply :: evs => no_wrap (bound + 1) evs
  end.

Lemma no_wrap_bound bound evs : no_wrap bound evs -> bound < 2 ^ 64.
Proof.
  revert bound. induction evs as [|[now h i|] evs IH]; intros bound Hn; simpl in *; [done | |].
  - specialize (IH _ Hn). lia.
  - specialize (IH _ Hn). lia.
Qed.

Lemma reply_sequences_increasing st evs :
  0 <= fs_next_sequence st -> no_wrap (fs_next_sequence st) evs ->
  increasing_from (fs_next_sequence st) (reply_sequences st evs).
Proof.
  revert st. induction evs as [|[now h i|] evs IH]; intros st H0 Hn; simpl in *; [done| |].
  - assert (Hs : fs_next_sequence (client_update now h i st) = Z.max (fs_next_sequence st) (sequence h)).
    { simpl. destruct (Z.ltb_spec (fs_next_sequence st) (sequence h)); lia. }
    eapply increasing_from_weaken; [|apply IH]; rewrite Hs; [lia | lia | done].
  - split; [lia|]. apply no_wrap_bound in Hn as Hb.
    rewrite wrapping_add_small by (unfold in_u; lia).
    match goal with |- increasing_from _ (reply_sequences ?s _) => specialize (IH s) end.
    apply IH; simpl; [lia|done].
Qed.

(** ** The ICMP tracker *)

Lemma removelast_take {A} (l : list A) : removelast l = take (length l - 1) l.
Proof.
  induction l as [|x [|y l] IH]; [done..|].
  change (removelast (x :: y :: l)) with (x :: removelast (y :: l)).
  rewrite IH. simpl. by rewrite Nat.sub_0_r.
Qed.

Lemma pop_excess_take fuel g :
  (length g <= fuel + MAX_EVENTS)%nat -> pop_excess fuel g = take MAX_EVENTS g.
Proof.
  revert g. induction fuel as [|fuel IH]; intros g Hg; cbn [pop_excess]; [by rewrite take_ge by lia|].
  destruct (decide (MAX_EVENTS < length g)%nat) as [Hlt|Hge]; [|by rewrite take_ge by lia].
  rewrite IH.
  - rewrite removelast_take, take_take. f_equal. lia.
  - rewrite removelast_take, length_take. lia.
Qed.

(** * Properties *)

(** However client packets and replies interleave on a UDP flow, the replies carry strictly
    increasing sequence numbers, none below what the client has used (until the counter wraps). *)
Theorem udp_reply_sequences_increase (st : UdpFlowState) (evs : list flow_event) :
  0 <= fs_next_sequence st -> no_wrap (fs_next_sequence st) evs ->
  increasing_from (fs_next_sequence st) (reply_sequences st evs).
Proof. apply reply_sequences_increasing. Qed.

Definition sample_flow : UdpFlowState :=
  {| fs_connection_id := 1; fs_next_sequence := 4; fs_identification := 0; fs_last_client_at := 0 |}.

Lemma udp_reply_sequences_increase_witness :
  increasing_from 4 (reply_sequences sample_flow
    [Reply; ClientPacket 1 {| connection_id := 1; sequence := 9; flags := 0 |} 7; Reply; Reply]).
Proof. apply (udp_reply_sequences_increase sample_flow); simpl; lia. Defined.

(** The ICMP tracker keeps the newest 256 probes, newest first, and nothing else. *)
Theorem icmp_tracker_keeps_newest now session_id pkt outcome g :
  length (record_probe now session_id pkt outcome g) = Nat.min MAX_EVENTS (S (length g)) /\
  exists e, record_probe now session_id pkt outcome g = take MAX_EVENTS (e :: g) /\
    ip_session_id e = session_id /\ ip_outcome e = outcome.
Proof.
  unfold record_probe. rewrite pop_excess_take by lia. split; [by rewrite length_take|].
  eexists. by split_and!.
Qed.
