(* ===== verification/UdpTasks.v ===== *)
(** The tasks of UDP forwarding ([dispatch_udp], [UdpSessionManager] and the pump it starts for a flow in
    [src/crates/bonded-server/src/smoltcp_forwarder.rs]): each client packet has a task that looks its flow up
    or makes one, each flow has a task that returns what its socket receives.  The tasks interleave at every
    lock, channel and socket operation; the pieces are those of UdpIcmp.v. *)

From stdpp Require Import base tactics list gmap strings.
From Stdlib Require Import ZArith Lia.
From S2P Require Import Prelude Words Session Packet UdpIcmp.
Open Scope Z_scope.

(** * Definitions *)

(** Where the task of a packet is: before the look-up of its flow, before binding a socket, before the second
    look at the map with the socket it bound, before the registration of the flow, and, with the flow it uses,
    before the update of its state, of the tracker, and the send *)
Inductive forward_pc :=
  | ToLookup
  | ToBind
  | ToInsert (bound : string)
  | ToRegister (handle : nat) (bound : string)
  | ToUpdate (handle : nat)
  | ToTouch (handle : nat)
  | ToSend (handle : nat).

Record ForwardTask := { ft_header : SessionHeader; ft_packet : Ipv4UdpPacket; ft_pc : forward_pc }.

(** Where the task of a flow is: before the check for idleness, at the socket, and, when its loop has ended,
    before the flow is taken from the map and from the tracker *)
Inductive pump_pc := AtIdleCheck | AtRecv | AtMapRemove | AtTrackerRemove.

Record PumpTask := { pm_key : UdpFlowKey; pm_pc : pump_pc }.

(** The tasks of one session.  A socket has its number from the moment its flow is in the map.  [sock_peer]: the address each socket is connected to; [sent]: the datagrams sent,
    with the socket; [asked]: the flows of the packets the client has sent. *)
Record UdpTasks := {
  shared : UdpShared;
  next_handle : nat;
  sock_peer : gmap nat (Ipv4Addr * Z);
  forwards : gmap nat ForwardTask;
  pumps : gmap nat PumpTask;
  sent : list (nat * Ipv4UdpPacket);
  asked : list UdpFlowKey
}.

Definition udp_new : UdpTasks :=
  {| shared := {| flow_map := ∅; flow_states := ∅; udp_tracker := ∅; udp_outbound := [] |};
     next_handle := 0; sock_peer := ∅; forwards := ∅; pumps := ∅; sent := []; asked := [] |}.

Definition set_shared (sh : UdpShared) (s : UdpTasks) : UdpTasks :=
  {| shared := sh; next_handle := next_handle s; sock_peer := sock_peer s; forwards := forwards s;
     pumps := pumps s; sent := sent s; asked := asked s |}.

Definition set_forwards (f : gmap nat ForwardTask) (s : UdpTasks) : UdpTasks :=
  {| shared := shared s; next_handle := next_handle s; sock_peer := sock_peer s; forwards := f;
     pumps := pumps s; sent := sent s; asked := asked s |}.

Definition set_pumps (p : gmap nat PumpTask) (s : UdpTasks) : UdpTasks :=
  {| shared := shared s; next_handle := next_handle s; sock_peer := sock_peer s; forwards := forwards s;
     pumps := p; sent := sent s; asked := asked s |}.

(** The task [id] goes on at [pc]. *)
Definition goes_to (id : nat) (t : ForwardTask) (pc : forward_pc) (s : UdpTasks) : UdpTasks :=
  set_forwards (<[id := {| ft_header := ft_header t; ft_packet := ft_packet t; ft_pc := pc |}]> (forwards s)) s.

Definition pump_to (h : nat) (p : PumpTask) (pc : pump_pc) (s : UdpTasks) : UdpTasks :=
  set_pumps (<[h := {| pm_key := pm_key p; pm_pc := pc |}]> (pumps s)) s.

(** [dispatch_udp]: a packet that parses gets a task, [id]. *)
Definition dispatch_udp (id : nat) (f : SessionFrame) (s : UdpTasks) : panicky UdpTasks :=
  pkt ← parse_ipv4_udp_packet (payload f);
  match pkt with
  | None => Ok s
  | Some pkt =>
      Ok {| shared := shared s; next_handle := next_handle s; sock_peer := sock_peer s;
            forwards := <[id := {| ft_header := header f; ft_packet := pkt; ft_pc := ToLookup |}]> (forwards s);
            pumps := pumps s; sent := sent s; asked := asked s ++ [flow_key pkt] |}
  end.

(** The second look at the map, with a socket that is bound and connected to the packet's destination: it is
    used for a new flow, or dropped. *)
Definition insert_flow (now : Z) (id : nat) (t : ForwardTask) (bound : string) (s : UdpTasks) : UdpTasks :=
  let h := next_handle s in
  match ensure_flow_insert h now (flow_key (ft_packet t)) (ft_packet t) (ft_header t) (shared s) with
  | (_, true, sh) =>
      goes_to id t (ToRegister h bound)
        {| shared := sh; next_handle := S h;
           sock_peer := <[h := (udp_dst_ip (ft_packet t), udp_dst_port (ft_packet t))]> (sock_peer s);
           forwards := forwards s; pumps := pumps s; sent := sent s; asked := asked s |}
  | (existing, false, _) => goes_to id t (ToUpdate existing) s
  end.

(** The flow is registered with the tracker and its pump is spawned. *)
Definition register_and_spawn (now session_id : Z) (id : nat) (t : ForwardTask) (h : nat) (bound : string)
    (s : UdpTasks) : UdpTasks :=
  let key := flow_key (ft_packet t) in
  goes_to id t (ToUpdate h)
    (set_pumps (<[h := {| pm_key := key; pm_pc := AtIdleCheck |}]> (pumps s))
      (set_shared (set_tracker (register_flow now session_id key bound (udp_tracker (shared s))) (shared s)) s)).

(** The datagram is sent, or the send fails: the task is done either way. *)
Definition send_datagram (id : nat) (t : ForwardTask) (h : nat) (ok : bool) (s : UdpTasks) : UdpTasks :=
  {| shared := shared s; next_handle := next_handle s; sock_peer := sock_peer s;
     forwards := delete id (forwards s); pumps := pumps s;
     sent := if ok then sent s ++ [(h, ft_packet t)] else sent s; asked := asked s |}.

(** What a socket call returned: an address or success, or a failure *)
Inductive sock_result := SockOk (bound : string) | SockFailed.

(** The next step of the task of a packet *)
Definition forward_step (now session_id : Z) (id : nat) (r : sock_result) (s : UdpTasks) : option UdpTasks :=
  t ← forwards s !! id;
  let key := flow_key (ft_packet t) in
  match ft_pc t with
  | ToLookup =>
      Some (goes_to id t (match ensure_flow_lookup key (shared s) with Some h => ToUpdate h | None => ToBind end) s)
  | ToBind =>
      match r with
      | SockOk bound => Some (goes_to id t (ToInsert bound) s)
      | SockFailed => Some (set_forwards (delete id (forwards s)) s)
      end
  | ToInsert bound => Some (insert_flow now id t bound s)
  | ToRegister h bound => Some (register_and_spawn now session_id id t h bound s)
  | ToUpdate h =>
      let sh := shared s in
      Some (goes_to id t (ToTouch h) (set_shared
        {| flow_map := flow_map sh;
           flow_states := alter (client_update now (ft_header t) (udp_identification (ft_packet t))) h (flow_states sh);
           udp_tracker := udp_tracker sh; udp_outbound := udp_outbound sh |} s))
  | ToTouch h =>
      Some (goes_to id t (ToSend h)
        (set_shared (set_tracker (touch_client now session_id key (udp_tracker (shared s))) (shared s)) s))
  | ToSend h => Some (send_datagram id t h (match r with SockOk _ => true | SockFailed => false end) s)
  end.

(** What a pump gets from its socket: data, nothing for a second, or an error *)
Inductive pump_event := PumpData (data : list Z) | PumpTimeout | PumpError.

(** The frame is not sent if nobody receives any more, which ends the loop; a packet that cannot be built is
    skipped. *)
Definition pump_received (now session_id : Z) (closed : bool) (h : nat) (p : PumpTask) (data : list Z) (s : UdpTasks)
  : option UdpTasks :=
  sh ← pump_reply now session_id (pm_key p) h data (shared s);
  let built := bool_decide (length (udp_outbound (shared s)) < length (udp_outbound sh))%nat in
  if closed && built then
    Some (pump_to h p AtMapRemove (set_shared
      {| flow_map := flow_map sh; flow_states := flow_states sh; udp_tracker := udp_tracker sh;
         udp_outbound := udp_outbound (shared s) |} s))
  else Some (pump_to h p AtIdleCheck (set_shared sh s)).

(** The next step of the task of a flow *)
Definition pump_step (now session_id : Z) (closed : bool) (h : nat) (e : pump_event) (s : UdpTasks) : option UdpTasks :=
  p ← pumps s !! h;
  let sh := shared s in
  match pm_pc p with
  | AtIdleCheck =>
      st ← flow_states sh !! h;
      Some (pump_to h p (if flow_idle now st then AtMapRemove else AtRecv) s)
  | AtRecv =>
      match e with
      | PumpError => Some (pump_to h p AtMapRemove s)
      | PumpTimeout | PumpData [] => Some (pump_to h p AtIdleCheck s)
      | PumpData data => pump_received now session_id closed h p data s
      end
  | AtMapRemove =>
      Some (pump_to h p AtTrackerRemove (set_shared
        {| flow_map := delete (pm_key p) (flow_map sh); flow_states := flow_states sh; udp_tracker := udp_tracker sh;
           udp_outbound := udp_outbound sh |} s))
  | AtTrackerRemove =>
      Some (set_pumps (delete h (pumps s))
        (set_shared (set_tracker (remove_flow session_id (pm_key p) (udp_tracker sh)) sh) s))
  end.

Inductive udp_event :=
  | UdpPacket (id : nat) (f : SessionFrame)
  | ForwardStep (now : Z) (id : nat) (r : sock_result)
  | PumpStep (now : Z) (closed : bool) (h : nat) (e : pump_event)
  | ClearSession.

(** A step of any task; [None]: it cannot be taken. *)
Definition udp_exec (session_id : Z) (e : udp_event) (s : UdpTasks) : option UdpTasks :=
  match e with
  | UdpPacket id f =>
      match forwards s !! id, dispatch_udp id f s with
      | None, Ok s => Some s
      | _, _ => None
      end
  | ForwardStep now id r => forward_step now session_id id r s
  | PumpStep now closed h e => pump_step now session_id closed h e s
  | ClearSession =>
      Some (set_shared (set_tracker (udp_clear_session session_id (udp_tracker (shared s))) (shared s)) s)
  end.

Fixpoint udp_run (session_id : Z) (es : list udp_event) (s : UdpTasks) : option UdpTasks :=
  match es with
  | [] => Some s
  | e :: es => s ← udp_exec session_id e s; udp_run session_id es s
  end.

(** * Lemmas *)

Inductive udp_reachable (session_id : Z) : UdpTasks -> Prop :=
  | UdpNew : udp_reachable session_id udp_new
  | UdpStep s e s' : udp_reachable session_id s -> udp_exec session_id e s = Some s' -> udp_reachable session_id s'.

Definition serving (pc : pump_pc) : Prop := match pc with AtTrackerRemove => False | _ => True end.

(** The map and the pumps agree. *)
Record flows_inv (s : UdpTasks) : Prop := {
  fi_map : forall key h, flow_map (shared s) !! key = Some h -> (h < next_handle s)%nat /\
    ((exists p, pumps s !! h = Some p /\ pm_key p = key /\ serving (pm_pc p)) \/
     (exists id t bound, forwards s !! id = Some t /\ ft_pc t = ToRegister h bound /\ flow_key (ft_packet t) = key));
  fi_pump : forall h p, pumps s !! h = Some p -> (h < next_handle s)%nat /\
    (serving (pm_pc p) -> flow_map (shared s) !! pm_key p = Some h);
  fi_register : forall id t h bound, forwards s !! id = Some t -> ft_pc t = ToRegister h bound ->
    flow_map (shared s) !! flow_key (ft_packet t) = Some h /\ pumps s !! h = None /\
    forall id' t' bound', forwards s !! id' = Some t' -> ft_pc t' = ToRegister h bound' -> id' = id
}.

(** A task that goes on to a place other than the registration, with nothing else changed *)
Lemma flows_goes id t pc s sh :
  forwards s !! id = Some t -> flow_map sh = flow_map (shared s) ->
  (forall h b, pc <> ToRegister h b) -> (forall h b, ft_pc t <> ToRegister h b) ->
  flows_inv s -> flows_inv (goes_to id t pc (set_shared sh s)).
Proof.
  intros Ht Hm Hpc Hold [Hmap Hpump Hreg]. split; cbn [goes_to set_forwards set_shared shared next_handle pumps forwards];
    rewrite Hm.
  - intros key h Hk. destruct (Hmap key h Hk) as [Hlt [Hp|(id' & t' & b & Hf & Hb & Hkey)]]; split; auto.
    right. exists id', t', b. split_and!; [|done..]. rewrite lookup_insert_ne; [done|].
    intros ->. rewrite Ht in Hf. injection Hf as ->. by eapply Hold.
  - done.
  - intros id1 t1 h b [[<- <-]|[Hne H1]]%lookup_insert_Some Hb; [by destruct (Hpc _ _ Hb)|].
    destruct (Hreg id1 t1 h b H1 Hb) as (Hfm & Hp & Hu). split_and!; [done..|].
    intros id2 t2 b2 [[<- <-]|[_ H2]]%lookup_insert_Some Hb2; [by destruct (Hpc _ _ Hb2)|]. by eapply Hu.
Qed.

Lemma set_shared_id s : set_shared (shared s) s = s.
Proof. by destruct s. Qed.

(** The invariant looks at these parts only. *)
Lemma flows_same s s' :
  flow_map (shared s') = flow_map (shared s) -> next_handle s' = next_handle s -> forwards s' = forwards s ->
  pumps s' = pumps s -> flows_inv s -> flows_inv s'.
Proof. intros Hm Hn Hf Hp [H1 H2 H3]. split; rewrite Hm, ?Hn, ?Hf, ?Hp; auto. Qed.

(** A task that is not about to register ends. *)
Lemma flows_ends id t s :
  forwards s !! id = Some t -> (forall h b, ft_pc t <> ToRegister h b) -> flows_inv s ->
  flows_inv (set_forwards (delete id (forwards s)) s).
Proof.
  intros Ht Hold [Hmap Hpump Hreg]. split; cbn [set_forwards shared next_handle pumps forwards].
  - intros key h Hk. destruct (Hmap key h Hk) as [Hlt [Hp|(id' & t' & b & Hf & Hb & Hkey)]]; split; auto.
    right. exists id', t', b. split_and!; [|done..]. apply lookup_delete_Some. split; [|done].
    intros ->. rewrite Ht in Hf. injection Hf as ->. by eapply Hold.
  - done.
  - intros id1 t1 h b [_ H1]%lookup_delete_Some Hb. destruct (Hreg id1 t1 h b H1 Hb) as (Hfm & Hp & Hu).
    split_and!; [done..|]. intros id2 t2 b2 [_ H2]%lookup_delete_Some. by eapply Hu.
Qed.

(** A new flow, with a number that no flow has *)
Lemma flows_insert now id t bound s :
  forwards s !! id = Some t -> (forall h b, ft_pc t <> ToRegister h b) -> flows_inv s ->
  flows_inv (insert_flow now id t bound s).
Proof.
  intros Ht Hold Hinv. unfold insert_flow, ensure_flow_insert.
  destruct (flow_map (shared s) !! flow_key (ft_packet t)) as [h0|] eqn:Hk.
  { pose proof (flows_goes id t (ToUpdate h0) s (shared s)) as Hg. rewrite set_shared_id in Hg. by apply Hg. }
  destruct Hinv as [Hmap Hpump Hreg].
  assert (Hnew : pumps s !! next_handle s = None).
  { destruct (pumps s !! next_handle s) as [p|] eqn:Hp; [|done]. destruct (Hpump _ _ Hp). lia. }
  assert (Hneq : forall key h, flow_map (shared s) !! key = Some h -> key <> flow_key (ft_packet t)) by (intros; congruence).
  split; cbn [goes_to set_forwards shared next_handle pumps forwards flow_map].
  - intros key h [[<- <-]|[Hne Hf]]%lookup_insert_Some.
    + split; [lia|]. right. eexists id, _, bound. rewrite lookup_insert_eq. by split_and!.
    + destruct (Hmap key h Hf) as [Hlt Hcase]. split; [lia|].
      destruct Hcase as [Hp|(id' & t' & b & Hf' & Hb & Hkey)]; [by left|]. right. exists id', t', b.
      split_and!; [|done..]. rewrite lookup_insert_ne; [done|]. intros ->. rewrite Ht in Hf'. injection Hf' as ->. by eapply Hold.
  - intros h p Hp. destruct (Hpump h p Hp) as [Hlt Hs]. split; [lia|]. intros Hserve. specialize (Hs Hserve).
    rewrite lookup_insert_ne; [done|]. intros Heq. by apply (Hneq _ _ Hs).
  - intros id1 t1 h b [[<- <-]|[Hne H1]]%lookup_insert_Some Hb; cbn [ft_packet ft_pc] in *.
    + injection Hb as <- <-. rewrite lookup_insert_eq. split_and!; [done..|].
      intros id2 t2 b2 [[<- _]|[_ H2]]%lookup_insert_Some Hb2; [done|].
      destruct (Hreg id2 t2 _ b2 H2 Hb2) as (Hfm & _). destruct (Hmap _ _ Hfm). lia.
    + destruct (Hreg id1 t1 h b H1 Hb) as (Hfm & Hp & Hu). split_and!; [|done|].
      { rewrite lookup_insert_ne; [done|]. intros Heq. by apply (Hneq _ _ Hfm). }
      intros id2 t2 b2 [[<- <-]|[_ H2]]%lookup_insert_Some Hb2; [|by eapply Hu].
      cbn in Hb2. injection Hb2 as <- _. destruct (Hmap _ _ Hfm). lia.
Qed.

Lemma flows_spawn now sid id t h bound s :
  forwards s !! id = Some t -> ft_pc t = ToRegister h bound -> flows_inv s ->
  flows_inv (register_and_spawn now sid id t h bound s).
Proof.
  intros Ht Hpc [Hmap Hpump Hreg]. destruct (Hreg id t h bound Ht Hpc) as (Hfm & Hnone & Huniq).
  split; cbn [register_and_spawn goes_to set_forwards set_pumps set_shared set_tracker shared next_handle pumps forwards flow_map].
  - intros key h1 Hk. destruct (Hmap key h1 Hk) as [Hlt Hcase]. split; [done|].
    destruct (decide (h1 = h)) as [->|Hne].
    + left. eexists. rewrite lookup_insert_eq. split_and!; [done| |done]. cbn [pm_key].
      destruct Hcase as [(p & Hp & _)|(id' & t' & b & Hf & Hb & <-)]; [congruence|].
      assert (id' = id) as -> by (by eapply Huniq). congruence.
    + destruct Hcase as [(p & Hp & Hpk & Hs)|(id' & t' & b & Hf & Hb & Hkey)].
      * left. exists p. by rewrite lookup_insert_ne.
      * right. exists id', t', b. split_and!; [|done..]. rewrite lookup_insert_ne; [done|].
        intros ->. rewrite Ht in Hf. injection Hf as ->. congruence.
  - intros h1 p [[<- <-]|[Hne Hp]]%lookup_insert_Some; [|by apply Hpump]. cbn [pm_key]. destruct (Hmap _ _ Hfm). done.
  - intros id1 t1 h1 b [[<- <-]|[Hne H1]]%lookup_insert_Some Hb; [done|].
    destruct (Hreg id1 t1 h1 b H1 Hb) as (Hfm1 & Hp1 & Hu). split_and!; [done| |].
    { rewrite lookup_insert_ne; [done|]. intros <-. apply Hne. symmetry. by eapply Huniq. }
    intros id2 t2 b2 [[<- <-]|[_ H2]]%lookup_insert_Some Hb2; [done|]. by eapply Hu.
Qed.

(** A pump that goes on serving *)
Lemma flows_pump_to h p pc s sh :
  pumps s !! h = Some p -> serving (pm_pc p) -> serving pc -> flow_map sh = flow_map (shared s) ->
  flows_inv s -> flows_inv (pump_to h p pc (set_shared sh s)).
Proof.
  intros Hp Hold Hnew Hm [Hmap Hpump Hreg]. split;
    cbn [pump_to set_pumps set_shared shared next_handle pumps forwards flow_map]; rewrite ?Hm.
  - intros key h1 Hk. destruct (Hmap key h1 Hk) as [Hlt [(q & Hq & Hqk & Hs)|Hf]]; split; auto.
    left. destruct (decide (h1 = h)) as [->|Hne].
    + eexists. rewrite lookup_insert_eq. split_and!; [done| |done]. cbn. congruence.
    + exists q. by rewrite lookup_insert_ne.
  - intros h1 q [[<- <-]|[_ Hq]]%lookup_insert_Some; [|by apply Hpump]. cbn. destruct (Hpump h p Hp). auto.
  - intros id t h1 b Ht Hb. destruct (Hreg id t h1 b Ht Hb) as (Hfm & Hnone & Hu). split_and!; [done| |done].
    rewrite lookup_insert_ne; [done|]. intros ->. congruence.
Qed.

(** The end of a pump *)
Lemma flows_map_remove h p s sh :
  pumps s !! h = Some p -> serving (pm_pc p) -> flow_map sh = delete (pm_key p) (flow_map (shared s)) ->
  flows_inv s -> flows_inv (pump_to h p AtTrackerRemove (set_shared sh s)).
Proof.
  intros Hp Hserve Hm [Hmap Hpump Hreg]. destruct (Hpump h p Hp) as [Hlt Hkey]. specialize (Hkey Hserve).
  split; cbn [pump_to set_pumps set_shared shared next_handle pumps forwards flow_map]; rewrite ?Hm.
  - intros key h1 [Hne Hk]%lookup_delete_Some. destruct (Hmap key h1 Hk) as [Hlt1 [(q & Hq & Hqk & Hs)|Hf]]; split; auto.
    left. exists q. rewrite lookup_insert_ne; [done|]. intros ->. congruence.
  - intros h1 q [[<- <-]|[Hne Hq]]%lookup_insert_Some; [done|]. destruct (Hpump h1 q Hq) as [Hlt1 Hs]. split; [done|].
    intros Hsv. specialize (Hs Hsv). rewrite lookup_delete_ne; [done|]. intros Heq. congruence.
  - intros id t h1 b Ht Hb. destruct (Hreg id t h1 b Ht Hb) as (Hfm & Hnone & Hu). split_and!; [| |done].
    + rewrite lookup_delete_ne; [done|]. intros Heq. congruence.
    + rewrite lookup_insert_ne; [done|]. intros ->. congruence.
Qed.

Lemma flows_gone h p s sh :
  pumps s !! h = Some p -> pm_pc p = AtTrackerRemove -> flow_map sh = flow_map (shared s) ->
  flows_inv s -> flows_inv (set_pumps (delete h (pumps s)) (set_shared sh s)).
Proof.
  intros Hp Hpc Hm [Hmap Hpump Hreg]. split;
    cbn [set_pumps set_shared shared next_handle pumps forwards flow_map]; rewrite ?Hm.
  - intros key h1 Hk. destruct (Hmap key h1 Hk) as [Hlt [(q & Hq & Hqk & Hs)|Hf]]; split; auto.
    left. exists q. split; [|done]. apply lookup_delete_Some. split; [|done]. intros ->.
    rewrite Hp in Hq. injection Hq as ->. by rewrite Hpc in Hs.
  - intros h1 q [_ Hq]%lookup_delete_Some. by apply Hpump.
  - intros id t h1 b Ht Hb. destruct (Hreg id t h1 b Ht Hb) as (Hfm & Hnone & Hu). split_and!; [done| |done].
    by apply lookup_delete_None; right.
Qed.

Lemma pump_reply_map now sid key h data sh sh' : pump_reply now sid key h data sh = Some sh' -> flow_map sh' = flow_map sh.
Proof.
  unfold pump_reply. destruct (flow_states sh !! h) as [st|]; [|done]. destruct (reply_header st) as [hdr st'].
  destruct key as [[[a b] c] d]. destruct (build_ipv4_udp_packet _ _ _ _ _ _); by intros [= <-].
Qed.

Lemma flows_step sid e s s' : udp_exec sid e s = Some s' -> flows_inv s -> flows_inv s'.
Proof.
  intros Hstep Hinv. destruct e as [id f|now id r|now closed h ev|]; cbn [udp_exec] in Hstep.
  - destruct (forwards s !! id) eqn:Hid; [done|]. unfold dispatch_udp in Hstep.
    destruct (parse_ipv4_udp_packet _) as [[pkt|]| |]; cbn in Hstep; [|by simplify_eq|done..]. injection Hstep as <-.
    destruct Hinv as [Hmap Hpump Hreg]. split; cbn [shared next_handle pumps forwards].
    + intros key h Hk. destruct (Hmap key h Hk) as [Hlt [Hp|(id' & t' & b & Hf & Hb & Hkey)]]; split; auto.
      right. exists id', t', b. split_and!; [|done..]. rewrite lookup_insert_ne; [done|]. congruence.
    + done.
    + intros id1 t1 h b [[<- <-]|[Hne H1]]%lookup_insert_Some Hb; [done|].
      destruct (Hreg id1 t1 h b H1 Hb) as (Hfm & Hp & Hu). split_and!; [done..|].
      intros id2 t2 b2 [[<- <-]|[_ H2]]%lookup_insert_Some Hb2; [done|]. by eapply Hu.
  - unfold forward_step in Hstep. destruct (forwards s !! id) as [t|] eqn:Ht; [|done]. cbn [mbind option_bind] in Hstep.
    assert (Hgo : forall pc, (forall h b, pc <> ToRegister h b) -> (forall h b, ft_pc t <> ToRegister h b) ->
      flows_inv (goes_to id t pc s)).
    { intros pc Hpc Hold. rewrite <- (set_shared_id s). by apply flows_goes. }
    destruct (ft_pc t) eqn:Hpc.
    + injection Hstep as <-. destruct (ensure_flow_lookup _ _); apply Hgo; done.
    + destruct r; injection Hstep as <-; [by apply Hgo|]. eapply flows_ends; [done| |done]. by rewrite Hpc.
    + injection Hstep as <-. apply flows_insert; [done| |done]. by rewrite Hpc.
    + injection Hstep as <-. by apply flows_spawn.
    + injection Hstep as <-. apply flows_goes; try done. by rewrite Hpc.
    + injection Hstep as <-. apply flows_goes; try done. by rewrite Hpc.
    + injection Hstep as <-. eapply flows_same; [..|apply (flows_ends id t s Ht); [by rewrite Hpc|exact Hinv]]; done.
  - unfold pump_step in Hstep. destruct (pumps s !! h) as [p|] eqn:Hp; [|done]. cbn [mbind option_bind] in Hstep.
    assert (Hgo : forall pc, serving pc -> serving (pm_pc p) -> flows_inv (pump_to h p pc s)).
    { intros pc Hpc Hold. rewrite <- (set_shared_id s). by apply flows_pump_to. }
    destruct (pm_pc p) eqn:Hpc.
    + destruct (flow_states _ !! h) as [st|]; [|done]. injection Hstep as <-. destruct (flow_idle _ _); by apply Hgo.
    + destruct ev as [[|x data]| |]; try (injection Hstep as <-; by apply Hgo). unfold pump_received in Hstep.
      destruct (pump_reply _ _ _ _ _ _) as [sh|] eqn:Hr; [|done]. cbn [mbind option_bind] in Hstep.
      apply pump_reply_map in Hr. destruct (closed && _); injection Hstep as <-; apply flows_pump_to; try done; by rewrite Hpc.
    + injection Hstep as <-. apply flows_map_remove; [done| |done|done]. by rewrite Hpc.
    + injection Hstep as <-. by eapply flows_gone.
  - injection Hstep as <-. by apply (flows_same s).
Qed.

(** The peers of the sockets *)
Definition key_peer (key : UdpFlowKey) : Ipv4Addr * Z := let '(_, dst_ip, _, dst_port) := key in (dst_ip, dst_port).
Definition packet_peer (pkt : Ipv4UdpPacket) : Ipv4Addr * Z := (udp_dst_ip pkt, udp_dst_port pkt).

(** The flow a task has settled on *)
Definition pc_flow (pc : forward_pc) : option nat :=
  match pc with ToRegister h _ | ToUpdate h | ToTouch h | ToSend h => Some h | _ => None end.

Record peers_inv (s : UdpTasks) : Prop := {
  pi_map : forall key h, flow_map (shared s) !! key = Some h -> sock_peer s !! h = Some (key_peer key);
  pi_task : forall id t h, forwards s !! id = Some t -> pc_flow (ft_pc t) = Some h ->
    sock_peer s !! h = Some (packet_peer (ft_packet t));
  pi_sent : forall h pkt, (h, pkt) ∈ sent s -> sock_peer s !! h = Some (packet_peer pkt);
  pi_bound : forall h a, sock_peer s !! h = Some a -> (h < next_handle s)%nat
}.

Lemma peers_goes id t pc s sh :
  (forall h, pc_flow pc = Some h -> sock_peer s !! h = Some (packet_peer (ft_packet t))) ->
  flow_map sh ⊆ flow_map (shared s) -> peers_inv s -> peers_inv (goes_to id t pc (set_shared sh s)).
Proof.
  intros Hpc Hm [Hmap Htask Hsent Hb]. split; cbn [goes_to set_forwards set_shared shared next_handle forwards sock_peer sent]; try done.
  - intros key h Hk. apply Hmap. by eapply lookup_weaken.
  - intros id1 t1 h [[<- <-]|[_ H1]]%lookup_insert_Some; [apply Hpc | by eapply Htask].
Qed.

Lemma peers_same s s' :
  flow_map (shared s') ⊆ flow_map (shared s) -> next_handle s' = next_handle s -> sock_peer s' = sock_peer s ->
  forwards s' ⊆ forwards s -> sent s' = sent s -> peers_inv s -> peers_inv s'.
Proof.
  intros Hm Hn Hp Hf Hs [Hmap Htask Hsent Hb]. split; rewrite ?Hp, ?Hn, ?Hs; try done.
  - intros key h Hk. apply Hmap. by eapply lookup_weaken.
  - intros id t h Ht. apply Htask with id. by eapply lookup_weaken.
Qed.

Lemma peers_insert now id t bound s :
  peers_inv s -> peers_inv (insert_flow now id t bound s).
Proof.
  intros Hinv. unfold insert_flow, ensure_flow_insert.
  destruct (flow_map (shared s) !! flow_key (ft_packet t)) as [h0|] eqn:Hk.
  { rewrite <- (set_shared_id s). apply peers_goes; [|done|done]. intros h [= <-].
    rewrite (pi_map _ Hinv _ _ Hk). by destruct t as [? []]. }
  destruct Hinv as [Hmap Htask Hsent Hb].
  assert (Hold : forall h a, sock_peer s !! h = Some a -> h <> next_handle s) by (intros h a Ha; specialize (Hb h a Ha); lia).
  assert (Hkeep : forall h a b, sock_peer s !! h = Some a -> <[next_handle s := b]> (sock_peer s) !! h = Some a).
  { intros h a b Ha. rewrite lookup_insert_ne; [done|]. intros <-. by eapply Hold. }
  split; cbn [goes_to set_forwards shared next_handle forwards sock_peer sent flow_map].
  - intros key h [[<- <-]|[_ Hf]]%lookup_insert_Some; [|by apply Hkeep, Hmap].
    rewrite lookup_insert_eq. by destruct t as [? []].
  - intros id1 t1 h [[<- <-]|[_ H1]]%lookup_insert_Some Hpc; [|by eapply Hkeep, Htask].
    cbn in Hpc. injection Hpc as <-. by rewrite lookup_insert_eq.
  - intros h pkt Hin. by apply Hkeep, Hsent.
  - intros h a [[<- _]|[_ Ha]]%lookup_insert_Some; [lia|]. specialize (Hb h a Ha). lia.
Qed.

Lemma peers_step sid e s s' : udp_exec sid e s = Some s' -> peers_inv s -> peers_inv s'.
Proof.
  intros Hstep Hinv. destruct e as [id f|now id r|now closed h ev|]; cbn [udp_exec] in Hstep.
  - destruct (forwards s !! id) eqn:Hid; [done|]. unfold dispatch_udp in Hstep.
    destruct (parse_ipv4_udp_packet _) as [[pkt|]| |]; cbn in Hstep; [|by simplify_eq|done..]. injection Hstep as <-.
    destruct Hinv as [Hmap Htask Hsent Hb]. split; cbn; try done.
    intros id1 t1 h [[<- <-]|[_ H1]]%lookup_insert_Some; [done|]. by eapply Htask.
  - unfold forward_step in Hstep. destruct (forwards s !! id) as [t|] eqn:Ht; [|done]. cbn [mbind option_bind] in Hstep.
    pose proof (pi_task _ Hinv id t) as Hpeer.
    assert (Hgo : forall pc, (forall h, pc_flow pc = Some h -> sock_peer s !! h = Some (packet_peer (ft_packet t))) ->
      peers_inv (goes_to id t pc s)).
    { intros pc Hpc. rewrite <- (set_shared_id s). by apply peers_goes. }
    destruct (ft_pc t) eqn:Hpc; cbn [pc_flow] in Hpeer.
    + injection Hstep as <-. unfold ensure_flow_lookup. destruct (flow_map _ !! _) as [h|] eqn:Hk; apply Hgo; [|done].
      intros h' [= <-]. rewrite (pi_map _ Hinv _ _ Hk). by destruct t as [? []].
    + destruct r; injection Hstep as <-; [by apply Hgo|].
      apply (peers_same s); try done. cbn. apply delete_subseteq.
    + injection Hstep as <-. by apply peers_insert.
    + injection Hstep as <-. unfold register_and_spawn. apply (peers_same (goes_to id t (ToUpdate handle) s)); try done.
      apply Hgo. intros h' [= <-]. by apply Hpeer.
    + injection Hstep as <-. apply peers_goes; [|done|done]. intros h' [= <-]. by apply Hpeer.
    + injection Hstep as <-. apply peers_goes; [|done|done]. intros h' [= <-]. by apply Hpeer.
    + injection Hstep as <-. destruct Hinv as [Hmap Htask Hsent Hb]. split; cbn [send_datagram shared sock_peer forwards sent next_handle]; try done.
      * intros id1 t1 h1 [_ H1]%lookup_delete_Some. by eapply Htask.
      * destruct r; [|done]. intros h1 pkt [Hin|[= -> ->]%list_elem_of_singleton]%elem_of_app; [by apply Hsent|]. by apply Hpeer.
  - unfold pump_step in Hstep. destruct (pumps s !! h) as [p|] eqn:Hp; [|done]. cbn [mbind option_bind] in Hstep.
    assert (Hgo : forall pc sh, flow_map sh ⊆ flow_map (shared s) -> peers_inv (pump_to h p pc (set_shared sh s)))
      by (intros; by apply (peers_same s)).
    assert (Hgo' : forall pc, peers_inv (pump_to h p pc s)) by (intros; by apply (peers_same s)).
    destruct (pm_pc p).
    + destruct (flow_states _ !! h) as [st|]; [|done]. by injection Hstep as <-.
    + destruct ev as [[|x data]| |]; try (injection Hstep as <-; by apply Hgo'). unfold pump_received in Hstep.
      destruct (pump_reply _ _ _ _ _ _) as [sh|] eqn:Hr; [|done]. cbn [mbind option_bind] in Hstep.
      apply pump_reply_map in Hr. destruct (closed && _); injection Hstep as <-; apply Hgo; cbn; by rewrite Hr.
    + injection Hstep as <-. apply Hgo. cbn. apply delete_subseteq.
    + injection Hstep as <-. by apply (peers_same s).
  - injection Hstep as <-. by apply (peers_same s).
Qed.

(** A packet from the flow's destination to its source *)
Definition reply_on (key : UdpFlowKey) (f : SessionFrame) : Prop :=
  let '(src_ip, dst_ip, src_port, dst_port) := key in
  exists identification data, build_ipv4_udp_packet dst_ip src_ip dst_port src_port identification data = Ok (payload f).

Record asked_inv (s : UdpTasks) : Prop := {
  ai_task : forall id t, forwards s !! id = Some t -> flow_key (ft_packet t) ∈ asked s;
  ai_pump : forall h p, pumps s !! h = Some p -> pm_key p ∈ asked s;
  ai_out : forall f, f ∈ udp_outbound (shared s) -> exists key, key ∈ asked s /\ reply_on key f
}.

Lemma asked_goes id t pc s sh :
  forwards s !! id = Some t -> udp_outbound sh = udp_outbound (shared s) -> asked_inv s ->
  asked_inv (goes_to id t pc (set_shared sh s)).
Proof.
  intros Ht Ho [H1 H2 H3]. split; cbn [goes_to set_forwards set_shared shared forwards pumps asked]; rewrite ?Ho; try done.
  intros id1 t1 [[<- <-]|[_ Hf]]%lookup_insert_Some; cbn; by eapply H1.
Qed.

Lemma asked_pump h p pc s sh :
  pumps s !! h = Some p -> (forall f, f ∈ udp_outbound sh -> f ∈ udp_outbound (shared s) \/ reply_on (pm_key p) f) ->
  asked_inv s -> asked_inv (pump_to h p pc (set_shared sh s)).
Proof.
  intros Hp Ho [H1 H2 H3]. split; cbn [pump_to set_pumps set_shared shared forwards pumps asked]; try done.
  - intros h1 p1 [[<- <-]|[_ Hq]]%lookup_insert_Some; cbn; by eapply H2.
  - intros f [Hf|Hf]%Ho; [by apply H3|]. exists (pm_key p). split; [by eapply H2|done].
Qed.

Lemma pump_reply_out now sid key h data sh sh' f :
  pump_reply now sid key h data sh = Some sh' -> f ∈ udp_outbound sh' -> f ∈ udp_outbound sh \/ reply_on key f.
Proof.
  unfold pump_reply. destruct (flow_states sh !! h) as [st|]; [|done]. destruct (reply_header st) as [hdr st'].
  destruct key as [[[a b] c] d]. destruct (build_ipv4_udp_packet _ _ _ _ _ _) as [pkt| |] eqn:Hb; intros [= <-]; cbn; auto.
  intros [Hf|Hf%list_elem_of_singleton]%elem_of_app; [by left|]. right. subst f. eauto.
Qed.

Lemma asked_step sid e s s' : udp_exec sid e s = Some s' -> asked_inv s -> asked_inv s'.
Proof.
  intros Hstep Hinv. destruct e as [id f|now id r|now closed h ev|]; cbn [udp_exec] in Hstep.
  - destruct (forwards s !! id) eqn:Hid; [done|]. unfold dispatch_udp in Hstep.
    destruct (parse_ipv4_udp_packet _) as [[pkt|]| |]; cbn in Hstep; [|by simplify_eq|done..]. injection Hstep as <-.
    destruct Hinv as [H1 H2 H3]. split; cbn.
    + intros id1 t1 [[<- <-]|[_ Hf]]%lookup_insert_Some; apply elem_of_app; [right; by left|left; by eapply H1].
    + intros h p Hp. apply elem_of_app. left. by eapply H2.
    + intros f' (key & Hk & Hr)%H3. exists key. split; [|done]. apply elem_of_app. by left.
  - unfold forward_step in Hstep. destruct (forwards s !! id) as [t|] eqn:Ht; [|done]. cbn [mbind option_bind] in Hstep.
    assert (Hgo : forall pc, asked_inv (goes_to id t pc s)) by (intros pc; rewrite <- (set_shared_id s); by apply asked_goes).
    assert (Hend : forall s1, forwards s1 = delete id (forwards s) -> pumps s1 = pumps s -> asked s1 = asked s ->
      shared s1 = shared s -> asked_inv s1).
    { intros s1 Hf Hp Ha Hs. destruct Hinv as [H1 H2 H3]. split; rewrite ?Hf, ?Hp, ?Ha, ?Hs; try done.
      intros id1 t1 [_ Hf1]%lookup_delete_Some. by eapply H1. }
    destruct (ft_pc t).
    + by injection Hstep as <-.
    + destruct r; injection Hstep as <-; [done|]. by apply Hend.
    + injection Hstep as <-. unfold insert_flow, ensure_flow_insert. destruct (flow_map _ !! _); [done|].
      destruct Hinv as [H1 H2 H3]. split; cbn; try done.
      intros id1 t1 [[<- <-]|[_ Hf]]%lookup_insert_Some; cbn; by eapply H1.
    + injection Hstep as <-. destruct Hinv as [H1 H2 H3]. split; cbn; try done.
      * intros id1 t1 [[<- <-]|[_ Hf]]%lookup_insert_Some; cbn; by eapply H1.
      * intros h1 p1 [[<- <-]|[_ Hq]]%lookup_insert_Some; cbn; [by eapply H1|by eapply H2].
    + injection Hstep as <-. by apply asked_goes.
    + injection Hstep as <-. by apply asked_goes.
    + injection Hstep as <-. by apply Hend.
  - unfold pump_step in Hstep. destruct (pumps s !! h) as [p|] eqn:Hp; [|done]. cbn [mbind option_bind] in Hstep.
    assert (Hgo : forall pc, asked_inv (pump_to h p pc s))
      by (intros pc; rewrite <- (set_shared_id s); apply asked_pump; auto).
    destruct (pm_pc p).
    + destruct (flow_states _ !! h) as [st|]; [|done]. by injection Hstep as <-.
    + destruct ev as [[|x data]| |]; try (injection Hstep as <-; by apply Hgo). unfold pump_received in Hstep.
      destruct (pump_reply _ _ _ _ _ _) as [sh|] eqn:Hr; [|done]. cbn [mbind option_bind] in Hstep.
      pose proof (fun f => pump_reply_out _ _ _ _ _ _ _ f Hr) as Hout.
      destruct (closed && _); injection Hstep as <-; apply asked_pump; cbn; auto.
    + injection Hstep as <-. apply asked_pump; auto.
    + injection Hstep as <-. destruct Hinv as [H1 H2 H3]. split; cbn; try done.
      intros h1 p1 [_ Hq]%lookup_delete_Some. by eapply H2.
  - injection Hstep as <-. destruct Hinv as [H1 H2 H3]. by split.
Qed.

Lemma udp_reachable_inv sid s : udp_reachable sid s -> flows_inv s /\ peers_inv s /\ asked_inv s.
Proof.
  induction 1 as [|s e s' _ (Hf & Hp & Ha) Hstep].
  - split_and!; split; cbn; intros; try done; by apply elem_of_nil in H.
  - split_and!; [by eapply flows_step | by eapply peers_step | by eapply asked_step].
Qed.

Lemma udp_run_reachable sid es s s' : udp_reachable sid s -> udp_run sid es s = Some s' -> udp_reachable sid s'.
Proof.
  revert s. induction es as [|e es IH]; intros s Hr Hrun; cbn in Hrun; [by injection Hrun as <-|].
  destruct (udp_exec sid e s) as [s1|] eqn:He; [|done]. eapply IH; [by eapply UdpStep|done].
Qed.

(** * Properties *)

(** C13: UDP flows under every interleaving of the tasks.  Each flow in the map is served by one task, which is
    running or about to be started, and no two tasks that have not left the map serve the same source and
    destination, however many packets found no flow at the same time; every datagram leaves on a socket
    that is connected to the destination the client addressed; and every frame sent back is a UDP packet
    from a destination to the very source the client sent from. *)
Theorem udp_flows (sid : Z) (s : UdpTasks) :
  udp_reachable sid s ->
  (forall key h, flow_map (shared s) !! key = Some h ->
     (exists p, pumps s !! h = Some p /\ pm_key p = key) \/
     (exists id t bound, forwards s !! id = Some t /\ ft_pc t = ToRegister h bound /\ flow_key (ft_packet t) = key)) /\
  (forall h p h' p', pumps s !! h = Some p -> pumps s !! h' = Some p' -> pm_key p = pm_key p' ->
     pm_pc p <> AtTrackerRemove -> pm_pc p' <> AtTrackerRemove -> h = h') /\
  (forall h pkt, (h, pkt) ∈ sent s -> sock_peer s !! h = Some (udp_dst_ip pkt, udp_dst_port pkt)) /\
  (forall f, f ∈ udp_outbound (shared s) -> exists key, key ∈ asked s /\ reply_on key f).
Proof.
  intros ([Hmap Hpump Hreg] & Hp & Ha)%udp_reachable_inv.
  assert (Hs : forall pc, pc <> AtTrackerRemove -> serving pc) by (by intros []).
  split_and!.
  - intros key h Hk. destruct (Hmap key h Hk) as [_ [(p & ? & ? & _)|Hf]]; eauto.
  - intros h p h' p' H1 H2 Hkey N1 N2. destruct (Hpump h p H1) as [_ E1]. destruct (Hpump h' p' H2) as [_ E2].
    specialize (E1 (Hs _ N1)). specialize (E2 (Hs _ N2)). congruence.
  - apply Hp.
  - apply Ha.
Qed.

(** ** Witnesses *)

Module Sample.
(** A datagram of 10.8.0.2:4000 to 8.8.8.8:53 *)
Definition query : SessionFrame :=
  {| header := {| connection_id := 1; sequence := 0; flags := 0 |};
     payload := [69; 0; 0; 29; 0; 7; 0; 0; 64; 17; 0; 0; 10; 8; 0; 2; 8; 8; 8; 8; 15; 160; 0; 53; 0; 9; 0; 0; 42] |}.
Definition forward (n id : nat) : list udp_event := replicate n (ForwardStep 100 id (SockOk "0.0.0.0:50000")).

(** Two packets of a new flow at once: both look the flow up, one makes it. *)
Definition raced : UdpTasks :=
  default udp_new (udp_run 7 ([UdpPacket 0 query; UdpPacket 1 query] ++ forward 1 0 ++ forward 1 1 ++ forward 2 0 ++
    forward 2 1 ++ forward 4 0 ++ forward 3 1 ++
    [PumpStep 100 false 0 PumpTimeout; PumpStep 100 false 0 (PumpData [5])]) udp_new).

Lemma raced_reachable : udp_reachable 7 raced.
Proof.
  unfold raced. destruct (udp_run 7 _ udp_new) as [s|] eqn:Hs; [|apply UdpNew].
  by eapply udp_run_reachable; [apply UdpNew|].
Qed.

Lemma udp_flows_witness :
  length (sent raced) = 2%nat /\ length (udp_outbound (shared raced)) = 1%nat /\
  (forall h pkt, (h, pkt) ∈ sent raced -> sock_peer raced !! h = Some (udp_dst_ip pkt, udp_dst_port pkt)) /\
  (forall f, f ∈ udp_outbound (shared raced) -> exists key, key ∈ asked raced /\ reply_on key f).
Proof.
  split; [vm_compute; reflexivity|]. split; [vm_compute; reflexivity|].
  apply (udp_flows 7 raced raced_reachable).
Defined.

(** A flow that ends while the next packet of its source arrives: the new flow is registered between the two
    removals of the old one, whose second removal takes it from the tracker. *)
Definition forgotten : UdpTasks :=
  default udp_new (udp_run 7 ([UdpPacket 0 query] ++ forward 7 0 ++
    [PumpStep 340 false 0 PumpTimeout; PumpStep 340 false 0 PumpTimeout; UdpPacket 1 query] ++
    forward 7 1 ++ [PumpStep 340 false 0 PumpTimeout; PumpStep 101 false 1 PumpTimeout]) udp_new).

Example live_flow_not_shown :
  (exists p, pumps forgotten !! 1%nat = Some p /\ pm_pc p = AtRecv /\ flow_map (shared forgotten) !! pm_key p = Some 1%nat) /\
  udp_tracker (shared forgotten) = ∅.
Proof.
  split; [|vm_compute; reflexivity]. eexists. split; [vm_compute; reflexivity|]. split; vm_compute; reflexivity.
Qed.
End Sample.
