(* ===== verification/Status.v ===== *)
(** The health and the status endpoint of the server ([src/crates/bonded-server/src/health.rs] and
    [src/crates/bonded-server/src/status.rs]) and the snapshots the latter
    shows ([snapshot] of the trackers and [format_elapsed] of
    [src/crates/bonded-server/src/smoltcp_forwarder.rs]).  The fixed text of the page (style, script and
    headings) is left out: a page is its four counts and table bodies. *)

From stdpp Require Import base tactics list gmap strings pretty sorting.
From Stdlib Require Import ZArith Lia Ascii.
From S2P Require Import Prelude Words Text Json Packet NetAddr Routing Bootstrap UdpIcmp.
Open Scope Z_scope.

(** * Definitions *)

(** ** Snapshots *)

Record UdpFlowSnapshot := {
  u_session_id : Z;
  u_client_src : string;
  u_client_dst : string;
  u_bound_socket : string;
  u_created_ago : string;
  u_last_client_ago : string;
  u_last_remote_ago : option string;
  u_client_to_remote_packets : Z;
  u_remote_to_client_packets : Z
}.

Record TcpFlowSnapshot := {
  t_session_id : Z;
  t_client_src : string;
  t_client_dst : string;
  t_created_ago : string;
  t_last_activity_ago : string;
  t_client_to_remote_packets : Z;
  t_remote_to_client_packets : Z;
  t_bridge_read_chunks : Z;
  t_bridge_read_bytes : Z;
  t_bridge_read_avg_bytes : Z;
  t_bridge_to_smoltcp_chunks : Z;
  t_bridge_to_smoltcp_bytes : Z;
  t_bridge_to_smoltcp_avg_bytes : Z
}.

Record IcmpProbeSnapshot := {
  i_session_id : Z;
  i_client_src : string;
  i_client_dst : string;
  i_echo_identifier : Z;
  i_echo_sequence : Z;
  i_outcome : string;
  i_observed_ago : string
}.

Definition print_endpoint (a : Ipv4Addr) (p : Z) : string := print_ipv4 a +:+ ":" +:+ pretty p.

(** [sort_by], which is stable: [le a b] is [cmp(a, b) != Greater]. *)
Fixpoint insert_by {A} (le : A -> A -> bool) (x : A) (l : list A) : list A :=
  match l with
  | [] => [x]
  | y :: l => if le x y then x :: y :: l else y :: insert_by le x l
  end.
Definition sort_by {A} (le : A -> A -> bool) (l : list A) : list A := foldr (insert_by le) [] l.

Definition then_with (c d : comparison) : comparison := match c with Eq => d | _ => c end.
Definition not_greater (c : comparison) : bool := match c with Gt => false | _ => true end.

(** [UdpSessionTracker::snapshot] *)
Definition udp_snapshot (now : Z) (t : UdpSessionTracker) : list UdpFlowSnapshot :=
  sort_by (fun a b => not_greater
    (then_with (u_session_id a ?= u_session_id b) (String.compare (u_client_src a) (u_client_src b))))
  ((fun '((sid, (src, dst, src_port, dst_port)), e) =>
      {| u_session_id := sid; u_client_src := print_endpoint src src_port;
         u_client_dst := print_endpoint dst dst_port; u_bound_socket := us_bound_socket e;
         u_created_ago := format_elapsed now (us_created_at e);
         u_last_client_ago := format_elapsed now (us_last_client_packet_at e);
         u_last_remote_ago := format_elapsed now <$> us_last_remote_packet_at e;
         u_client_to_remote_packets := us_client_to_remote_packets e;
         u_remote_to_client_packets := us_remote_to_client_packets e |}) <$> map_to_list t).

(** [IcmpSessionTracker::snapshot] *)
Definition icmp_snapshot (now : Z) (g : list IcmpProbeStatus) : list IcmpProbeSnapshot :=
  (fun e =>
     {| i_session_id := ip_session_id e; i_client_src := print_ipv4 (ip_src_ip e);
        i_client_dst := print_ipv4 (ip_dst_ip e); i_echo_identifier := ip_echo_identifier e;
        i_echo_sequence := ip_echo_sequence e; i_outcome := ip_outcome e;
        i_observed_ago := format_elapsed now (ip_observed_at e) |}) <$> g.

(** ** The request *)

(** The reading loop: up to the end of the headers, the end of the stream, an error or 8192 bytes. *)
Fixpoint read_status_request (request : list Z) (rs : reads) : option (list Z) :=
  match rs with
  | [] => None
  | None :: _ | Some [] :: _ => Some request
  | Some d :: rs =>
      let request := request ++ d in
      if (if find_header_terminator request then true else false) || (8192 <=? Z.of_nat (length request))
      then Some request
      else read_status_request request rs
  end.

Definition parse_request_target (request : list Z) : option string :=
  text ← from_utf8 request;
  request_line ← head (lines text);
  match split_whitespace request_line with
  | _ :: target :: _ => Some target
  | _ => None
  end.

(** ** The page *)

Definition escape_html (value : string) : string :=
  replace_char "'" "&#x27;"
    (replace_char "034" "&quot;"
      (replace_char ">" "&gt;" (replace_char "<" "&lt;" (replace_char "&" "&amp;" value)))).

(** [&key[..12]] and [&key[key.len() - 8..]] panic inside a character. *)
Definition is_char_boundary (i : nat) (l : list Z) : bool :=
  match l !! i with
  | Some b => negb (cont b)
  | None => true
  end.

Definition abbreviate_key (key : string) : outcome Empty_set string :=
  let l := string_bytes key in
  let n := length l in
  if (n <=? 24)%nat then Ok key
  else if is_char_boundary 12 l && is_char_boundary (n - 8) l
  then Ok (bytes_string (take 12 l) +:+ "..." +:+ bytes_string (drop (n - 8) l))
  else Panic.

(** A table row; some cells have a unit after the escaped value. *)
Definition cell (c : string * string) : string := "<td>" +:+ escape_html c.1 +:+ c.2 +:+ "</td>".
Definition row (cells : list (string * string)) : string :=
  "<tr>" +:+ foldr (fun c s => cell c +:+ s) "</tr>" cells.

(** [join] *)
Fixpoint join_lines (rows : list string) : string :=
  match rows with
  | [] => EmptyString
  | [r] => r
  | r :: rows => r +:+ newline +:+ join_lines rows
  end.

(** The body of a table: a message in one cell when there are no rows *)
Definition table (columns : Z) (message : string) (rows : list string) : string :=
  let body := join_lines rows in
  if is_empty body then
    "<tr><td colspan=" +:+ String "034" (pretty columns) +:+ String "034" ">" +:+ message +:+ "</td></tr>"
  else body.

Definition plain (s : string) : string * string := (s, EmptyString).
Definition count (z : Z) : string * string := plain (pretty z).

Definition session_cells (e : string * Z) (abbreviated : string) : list (string * string) :=
  [count e.2; plain abbreviated].
Definition udp_cells (e : UdpFlowSnapshot) : list (string * string) :=
  [count (u_session_id e); plain (u_client_src e); plain (u_client_dst e); plain (u_bound_socket e);
   plain (u_created_ago e); plain (u_last_client_ago e); plain (default "never" (u_last_remote_ago e));
   count (u_client_to_remote_packets e); count (u_remote_to_client_packets e)].
Definition tcp_cells (e : TcpFlowSnapshot) : list (string * string) :=
  [count (t_session_id e); plain (t_client_src e); plain (t_client_dst e); plain (t_created_ago e);
   plain (t_last_activity_ago e); count (t_client_to_remote_packets e); count (t_remote_to_client_packets e);
   count (t_bridge_read_chunks e); (pretty (t_bridge_read_avg_bytes e), " B"); count (t_bridge_read_bytes e);
   (pretty (t_bridge_to_smoltcp_chunks e), " B"); count (t_bridge_to_smoltcp_avg_bytes e);
   (pretty (t_bridge_to_smoltcp_bytes e), " B")].
Definition icmp_cells (e : IcmpProbeSnapshot) : list (string * string) :=
  [count (i_session_id e); plain (i_client_src e); plain (i_client_dst e); count (i_echo_identifier e);
   count (i_echo_sequence e); plain (i_outcome e); plain (i_observed_ago e)].

(** The counts and the bodies of the four tables *)
Record StatusPage := {
  p_sessions : nat * string;
  p_udp : nat * string;
  p_tcp : nat * string;
  p_icmp : nat * string
}.

Fixpoint all_ok {E A B} (f : A -> outcome E B) (l : list A) : outcome E (list B) :=
  match l with
  | [] => Ok []
  | a :: l => b ← f a; bs ← all_ok f l; Ok (b :: bs)
  end.

Definition render_status_page (r : SessionRegistryInner) (udp : list UdpFlowSnapshot)
    (tcp : list TcpFlowSnapshot) (icmp : list IcmpProbeSnapshot) : outcome Empty_set StatusPage :=
  session_rows ← all_ok (fun e => k ← abbreviate_key e.1; Ok (row (session_cells e k))) (registry_snapshot r);
  Ok {| p_sessions := (active_sessions r, table 2 "No active authenticated sessions." session_rows);
        p_udp := (length udp, table 9 "No active UDP flows." ((fun e => row (udp_cells e)) <$> udp));
        p_tcp := (length tcp, table 13 "No active TCP flows." ((fun e => row (tcp_cells e)) <$> tcp));
        p_icmp := (length icmp, table 7 "No recent ICMP probes." ((fun e => row (icmp_cells e)) <$> take 64 icmp)) |}.

(** ** The JSON report *)

Definition render_status_json (r : SessionRegistryInner) (udp : list UdpFlowSnapshot)
    (tcp : list TcpFlowSnapshot) (icmp : list IcmpProbeSnapshot) : outcome Empty_set json :=
  sessions ← all_ok (fun e : string * Z => k ← abbreviate_key e.1;
    Ok (JObj [("client_key", JStr e.1); ("client_key_abbrev", JStr k); ("session_id", JNum e.2)]))
    (registry_snapshot r);
  let udp_flows := (fun e => JObj
    [("bound_socket", JStr (u_bound_socket e)); ("client_dst", JStr (u_client_dst e));
     ("client_src", JStr (u_client_src e)); ("client_to_remote_packets", JNum (u_client_to_remote_packets e));
     ("created_ago", JStr (u_created_ago e)); ("last_client_ago", JStr (u_last_client_ago e));
     ("last_remote_ago", match u_last_remote_ago e with Some s => JStr s | None => JNull end);
     ("remote_to_client_packets", JNum (u_remote_to_client_packets e));
     ("session_id", JNum (u_session_id e))]) <$> udp in
  let tcp_flows := (fun e => JObj
    [("bridge_read_avg_bytes", JNum (t_bridge_read_avg_bytes e)); ("bridge_read_bytes", JNum (t_bridge_read_bytes e));
     ("bridge_read_chunks", JNum (t_bridge_read_chunks e));
     ("bridge_to_smoltcp_avg_bytes", JNum (t_bridge_to_smoltcp_avg_bytes e));
     ("bridge_to_smoltcp_bytes", JNum (t_bridge_to_smoltcp_bytes e));
     ("bridge_to_smoltcp_chunks", JNum (t_bridge_to_smoltcp_chunks e)); ("client_dst", JStr (t_client_dst e));
     ("client_src", JStr (t_client_src e)); ("client_to_remote_packets", JNum (t_client_to_remote_packets e));
     ("created_ago", JStr (t_created_ago e)); ("last_activity_ago", JStr (t_last_activity_ago e));
     ("remote_to_client_packets", JNum (t_remote_to_client_packets e)); ("session_id", JNum (t_session_id e))])
    <$> tcp in
  let icmp_probes := (fun e => JObj
    [("client_dst", JStr (i_client_dst e)); ("client_src", JStr (i_client_src e));
     ("echo_identifier", JNum (i_echo_identifier e)); ("echo_sequence", JNum (i_echo_sequence e));
     ("observed_ago", JStr (i_observed_ago e)); ("outcome", JStr (i_outcome e));
     ("session_id", JNum (i_session_id e))]) <$> take 64 icmp in
  let size {A} (l : list A) := JNum (Z.of_nat (length l)) in
  Ok (JObj [("icmp_probes", JArr icmp_probes); ("icmp_probes_count", size icmp_probes);
            ("sessions", JArr sessions); ("sessions_count", size sessions);
            ("tcp_flows", JArr tcp_flows); ("tcp_flows_count", size tcp_flows);
            ("udp_flows", JArr udp_flows); ("udp_flows_count", size udp_flows)]).

(** ** The answer *)

Inductive status_body := Page (p : StatusPage) | Report (j : json) | NotFound.

(** The flows of all forwarders, collected and sorted. *)
Definition udp_order (a b : UdpFlowSnapshot) : bool :=
  not_greater (then_with (u_session_id a ?= u_session_id b)
    (then_with (String.compare (u_client_src a) (u_client_src b)) (String.compare (u_client_dst a) (u_client_dst b)))).
Definition tcp_order (a b : TcpFlowSnapshot) : bool :=
  not_greater (then_with (t_session_id a ?= t_session_id b)
    (then_with (String.compare (t_client_src a) (t_client_src b)) (String.compare (t_client_dst a) (t_client_dst b)))).

Definition status_answer (r : SessionRegistryInner)
    (forwarders : list (list UdpFlowSnapshot * list TcpFlowSnapshot * list IcmpProbeSnapshot))
    (request : list Z) : outcome Empty_set status_body :=
  let target := default "/" (parse_request_target request) in
  let udp := sort_by udp_order (concat ((fun f => f.1.1) <$> forwarders)) in
  let tcp := sort_by tcp_order (concat ((fun f => f.1.2) <$> forwarders)) in
  let icmp := concat ((fun f => f.2) <$> forwarders) in
  if bool_decide (target = "/") then p ← render_status_page r udp tcp icmp; Ok (Page p)
  else if bool_decide (target = "/api/status") then j ← render_status_json r udp tcp icmp; Ok (Report j)
  else Ok NotFound.

(** The status line and the content type of an answer, and the response around its text *)
Definition status_line (b : status_body) : string :=
  match b with Page _ | Report _ => "200 OK" | NotFound => "404 Not Found" end.
Definition content_type (b : status_body) : string :=
  match b with
  | Page _ => "text/html; charset=utf-8"
  | Report _ => "application/json; charset=utf-8"
  | NotFound => "text/plain; charset=utf-8"
  end.
Definition status_response (b : status_body) (body : string) : string :=
  "HTTP/1.1 " +:+ status_line b +:+ crlf +:+ "content-type: " +:+ content_type b +:+ crlf +:+
  "cache-control: no-store" +:+ crlf +:+
  "content-length: " +:+ pretty (Z.of_nat (String.length body)) +:+ crlf +:+
  "connection: close" +:+ crlf2 +:+ body.

(** ** The health endpoint ([src/crates/bonded-server/src/health.rs]) *)

Definition HEALTH_RESPONSE : string :=
  "HTTP/1.1 200 OK" +:+ crlf +:+ "content-type: text/plain" +:+ crlf +:+ "content-length: 2" +:+ crlf +:+
  "connection: close" +:+ crlf2 +:+ "OK".

(** Whatever is read, up to 1024 bytes or none; a read that fails ends the connection without an answer. *)
Definition handle_health_connection (read : option (list Z)) : option (list Z) :=
  match read with Some _ => Some (string_bytes HEALTH_RESPONSE) | None => None end.

(** ** Reading a table: what a browser makes of it *)

Fixpoint read_text (s : string) : string * string :=
  match s with
  | EmptyString => (EmptyString, EmptyString)
  | String "<" _ => (EmptyString, s)
  | String "&" (String "a" (String "m" (String "p" (String ";" s)))) =>
      let (t, rest) := read_text s in (String "&" t, rest)
  | String "&" (String "l" (String "t" (String ";" s))) =>
      let (t, rest) := read_text s in (String "<" t, rest)
  | String "&" (String "g" (String "t" (String ";" s))) =>
      let (t, rest) := read_text s in (String ">" t, rest)
  | String "&" (String "q" (String "u" (String "o" (String "t" (String ";" s))))) =>
      let (t, rest) := read_text s in (String "034" t, rest)
  | String "&" (String "#" (String "x" (String "2" (String "7" (String ";" s))))) =>
      let (t, rest) := read_text s in (String "'" t, rest)
  | String a s => let (t, rest) := read_text s in (String a t, rest)
  end.

Fixpoint read_cells (fuel : nat) (s : string) : option (list string * string) :=
  match strip_prefix "<td>" s, fuel with
  | Some s, S fuel =>
      let (t, s) := read_text s in
      s ← strip_prefix "</td>" s; '(ts, s) ← read_cells fuel s; Some (t :: ts, s)
  | _, _ => s ← strip_prefix "</tr>" s; Some ([], s)
  end.

(** The rows of a table body with at most [width] columns. *)
Fixpoint read_rows (fuel width : nat) (s : string) : option (list (list string)) :=
  match fuel with
  | O => None
  | S fuel =>
      s ← strip_prefix "<tr>" s;
      '(cells, s) ← read_cells width s;
      match s with
      | EmptyString => Some [cells]
      | _ => s ← strip_prefix newline s; rs ← read_rows fuel width s; Some (cells :: rs)
      end
  end.

(** What is shown in the cells of a row *)
Definition row_texts (cells : list (string * string)) : list string := (fun c => c.1 +:+ c.2) <$> cells.

(** * Lemmas *)

Lemma read_text_char a s :
  a <> "<"%char -> a <> "&"%char ->
  read_text (String a s) = let (t, rest) := read_text s in (String a t, rest).
Proof. intros Hlt Hamp. destruct a as [[] [] [] [] [] [] [] []]; done. Qed.

Definition escape_char (a : ascii) : string := escape_html (String a EmptyString).

Lemma escape_html_cons a s : escape_html (String a s) = escape_char a +:+ escape_html s.
Proof.
  change (String a s) with (String a EmptyString +:+ s). unfold escape_char, escape_html.
  by rewrite !replace_char_app.
Qed.

Lemma escape_char_other a :
  a <> "&"%char -> a <> "<"%char -> a <> ">"%char -> a <> "034"%char -> a <> "'"%char ->
  escape_char a = String a EmptyString.
Proof.
  intros HA HL HG HQ HS. unfold escape_char, escape_html. cbn [replace_char].
  rewrite (decide_False (P := a = "&"%char)) by done. cbn [replace_char].
  rewrite (decide_False (P := a = "<"%char)) by done. cbn [replace_char].
  rewrite (decide_False (P := a = ">"%char)) by done. cbn [replace_char].
  rewrite (decide_False (P := a = "034"%char)) by done. cbn [replace_char].
  by rewrite (decide_False (P := a = "'"%char)) by done.
Qed.

(** Escaped text reads as the text, and reading goes on after it. *)
Lemma read_escaped v rest :
  read_text (escape_html v +:+ rest) = let (t, r) := read_text rest in (v +:+ t, r).
Proof.
  induction v as [|a v IH].
  { change (escape_html EmptyString) with EmptyString. rewrite string_app_empty_l.
    destruct (read_text rest). by rewrite string_app_empty_l. }
  rewrite escape_html_cons, string_app_assoc.
  assert (Hstep : read_text (escape_char a +:+ (escape_html v +:+ rest)) =
    let (t, r) := read_text (escape_html v +:+ rest) in (String a t, r)).
  { destruct (decide (a = "&"%char)) as [->|HA]; [done|].
    destruct (decide (a = "<"%char)) as [->|HL]; [done|].
    destruct (decide (a = ">"%char)) as [->|HG]; [done|].
    destruct (decide (a = "034"%char)) as [->|HQ]; [done|].
    destruct (decide (a = "'"%char)) as [->|HS]; [done|].
    rewrite escape_char_other by done. rewrite string_app_cons, string_app_empty_l.
    by apply read_text_char. }
  rewrite Hstep, IH. destruct (read_text rest). by rewrite string_app_cons.
Qed.

(** Units in use *)
Definition unit_ok (c : string * string) : Prop := c.2 = EmptyString \/ c.2 = " B".

Lemma read_cells_row n cells rest :
  Forall unit_ok cells -> (length cells <= n)%nat ->
  read_cells n (foldr (fun c s => cell c +:+ s) "</tr>" cells +:+ rest) =
  Some (row_texts cells, rest).
Proof.
  intros Hc. revert n. induction Hc as [|c cells Hu _ IH]; intros n Hn.
  - cbn [foldr]. by destruct n.
  - destruct n as [|n]; [cbn in Hn; lia|]. cbn [foldr]. unfold cell at 1.
    rewrite !string_app_assoc. cbn [read_cells]. rewrite strip_prefix_app. rewrite read_escaped.
    set (more := foldr _ _ cells +:+ rest).
    assert (Ht : read_text (c.2 +:+ "</td>" +:+ more) = (c.2, "</td>" +:+ more))
      by (by destruct Hu as [->| ->]).
    rewrite Ht, strip_prefix_app. cbn [mbind option_bind]. unfold more.
    rewrite IH by (cbn in Hn; lia). done.
Qed.

Lemma table_rows columns message (rows : list (list (string * string))) :
  rows <> [] -> table columns message (row <$> rows) = join_lines (row <$> rows).
Proof. destruct rows as [|r [|r' rows]]; done. Qed.

(** A table body of rows reads back, whatever is in the cells. *)
Lemma read_rows_join width (rows : list (list (string * string))) :
  rows <> [] -> Forall (fun cells => Forall unit_ok cells /\ (length cells <= width)%nat) rows ->
  read_rows (length rows) width (join_lines (row <$> rows)) =
  Some (row_texts <$> rows).
Proof.
  induction rows as [|cells rows IH]; [done|]. intros _ [[Hu Hw] Hrows]%Forall_cons.
  destruct rows as [|next rows].
  - cbn [length read_rows fmap list_fmap join_lines]. unfold row. rewrite strip_prefix_app.
    cbn [mbind option_bind].
    rewrite <- (string_app_empty_r (foldr _ _ cells)), read_cells_row by done. done.
  - specialize (IH ltac:(done) Hrows). rewrite !fmap_cons in *. cbn [join_lines].
    change (length (cells :: next :: rows)) with (S (length (next :: rows))).
    set (body := join_lines (row next :: (row <$> rows))) in *.
    change (read_rows (S (length (next :: rows))) width (row cells +:+ newline +:+ body) =
      Some (row_texts cells :: row_texts next :: (row_texts <$> rows))).
    cbn [read_rows]. unfold row at 1. rewrite string_app_assoc, strip_prefix_app. cbn [mbind option_bind].
    rewrite read_cells_row by done. assert (Hnl : newline +:+ body = String "010" body) by reflexivity.
    rewrite Hnl. cbn [mbind option_bind]. rewrite <- Hnl.
    rewrite strip_prefix_app. cbn [mbind option_bind]. by rewrite IH.
Qed.

Lemma rows_read {A} (cells : A -> list (string * string)) width message (l : list A) :
  (forall x, Forall unit_ok (cells x) /\ (length (cells x) <= width)%nat) -> l <> [] ->
  read_rows (length l) width (table (Z.of_nat width) message ((fun e => row (cells e)) <$> l)) =
  Some ((fun x => row_texts (cells x)) <$> l).
Proof.
  intros Hc Hl. pose proof (read_rows_join width (cells <$> l)) as Hr. rewrite length_fmap in Hr.
  rewrite <- (table_rows (Z.of_nat width) message) in Hr by by destruct l.
  rewrite <- !list_fmap_compose in Hr. apply Hr.
  - by destruct l.
  - rewrite Forall_fmap. apply Forall_true. intros x. apply Hc.
Qed.

Lemma insert_by_perm {A} le (x : A) l : insert_by le x l ≡ₚ x :: l.
Proof.
  induction l as [|y l IH]; [done|]. cbn [insert_by]. destruct (le x y); [done|].
  rewrite IH. apply Permutation_swap.
Qed.

Lemma sort_by_perm {A} le (l : list A) : sort_by le l ≡ₚ l.
Proof. induction l as [|x l IH]; [done|]. cbn [sort_by foldr]. rewrite insert_by_perm. by f_equiv. Qed.

Lemma abbreviate_key_ascii key :
  Forall (fun b => b < 128) (string_bytes key) -> exists k, abbreviate_key key = Ok k.
Proof.
  intros Ha. unfold abbreviate_key. destruct (_ <=? _)%nat; [by eexists|].
  assert (Hb : forall i, is_char_boundary i (string_bytes key) = true).
  { intros i. unfold is_char_boundary. destruct (_ !! i) as [b|] eqn:Hi; [|done].
    rewrite Forall_lookup in Ha. specialize (Ha i b Hi). unfold cont, in_range.
    rewrite (proj2 (Z.leb_gt 0x80 b)) by lia. done. }
  rewrite !Hb. by eexists.
Qed.

Lemma all_ok_map {E A B} (f : A -> outcome E B) (l : list A) :
  (forall x, x ∈ l -> exists y, f x = Ok y) -> exists ys, all_ok f l = Ok ys /\ Forall2 (fun x y => f x = Ok y) l ys.
Proof.
  induction l as [|x l IH]; intros Hf; [by exists []|].
  destruct (Hf x ltac:(left)) as [y Hy]. destruct IH as (ys & Hys & H2); [intros z Hz; apply Hf; by right|].
  exists (y :: ys). cbn [all_ok]. rewrite Hy. cbn [mbind outcome_bind]. rewrite Hys. split; [done|by constructor].
Qed.

(** ** Responses *)

Definition status_headers (b : status_body) (body : string) : list string :=
  ["HTTP/1.1 " +:+ status_line b; "content-type: " +:+ content_type b; "cache-control: no-store";
   "content-length: " +:+ pretty (Z.of_nat (String.length body)); "connection: close"].

Lemma status_response_text b body :
  status_response b body = header_text (status_headers b body) +:+ crlf2 +:+ body.
Proof. unfold status_response. cbn [status_headers header_text]. by rewrite !string_app_assoc. Qed.

(** A client finds the text behind the headers, and its length among them. *)
Lemma status_response_read b body :
  split_once crlf2 (status_response b body) = Some (header_text (status_headers b body), body) /\
  lines (status_response b body) = status_headers b body ++ EmptyString :: lines body.
Proof.
  assert (Hplain : Forall Bootstrap.plain (status_headers b body)).
  { unfold status_headers. forall_list; [by destruct b..|].
    apply plain_app; [done|..]; apply digits_no_char; by (reflexivity || apply length_pretty_digits). }
  rewrite status_response_text. split; [by apply message_split | by apply message_lines].
Qed.

(** Every connection that can be read from gets the same healthy answer. *)
Lemma health_answer read response :
  handle_health_connection read = Some response -> extract_http_json_body response = Ok "OK".
Proof. destruct read; [|done]. intros [= <-]. vm_compute. reflexivity. Qed.

(** * Properties *)

(** The status page shows what it is given and nothing else: with keys in ASCII the page is rendered,
    and each of its non-empty tables, read as HTML, has one row per entry (the first 64 probes) whose
    cells are the entry's texts, whatever characters they contain. *)
Theorem status_page_reads_back (r : SessionRegistryInner) (udp : list UdpFlowSnapshot)
    (tcp : list TcpFlowSnapshot) (icmp : list IcmpProbeSnapshot) :
  (forall key id, (key, id) ∈ registry_snapshot r -> Forall (fun b => b < 128) (string_bytes key)) ->
  exists p, render_status_page r udp tcp icmp = Ok p /\
    (registry_snapshot r <> [] -> exists keys,
       Forall2 (fun e k => abbreviate_key e.1 = Ok k) (registry_snapshot r) keys /\
       read_rows (length keys) 2 (p_sessions p).2 =
         Some (zip_with (fun e k => row_texts (session_cells e k)) (registry_snapshot r) keys)) /\
    (udp <> [] -> read_rows (length udp) 9 (p_udp p).2 = Some ((fun e => row_texts (udp_cells e)) <$> udp)) /\
    (tcp <> [] -> read_rows (length tcp) 13 (p_tcp p).2 = Some ((fun e => row_texts (tcp_cells e)) <$> tcp)) /\
    (icmp <> [] -> read_rows (length (take 64 icmp)) 7 (p_icmp p).2 =
       Some ((fun e => row_texts (icmp_cells e)) <$> take 64 icmp)).
Proof.
  intros Hk. unfold render_status_page.
  assert (Hab : forall e, e ∈ registry_snapshot r -> exists k, abbreviate_key e.1 = Ok k)
    by (intros [key id] He; by eapply abbreviate_key_ascii, Hk).
  destruct (all_ok_map (fun e : string * Z => abbreviate_key e.1) (registry_snapshot r) Hab) as (keys & _ & Hkeys).
  assert (Hrows : all_ok (fun e : string * Z => k ← abbreviate_key e.1; Ok (row (session_cells e k)))
    (registry_snapshot r) = Ok (row <$> zip_with session_cells (registry_snapshot r) keys)).
  { clear -Hkeys. induction Hkeys as [|e k es ks Hek _ IH]; [done|]. cbn [all_ok zip_with fmap list_fmap].
    cbn beta in Hek. rewrite Hek. cbn [mbind outcome_bind]. by rewrite IH. }
  rewrite Hrows. cbn [mbind outcome_bind]. eexists. split; [reflexivity|].
  cbn [p_sessions p_udp p_tcp p_icmp snd]. split_and!.
  - intros Hne. exists keys. split; [done|]. pose proof (Forall2_length _ _ _ Hkeys) as Hlen.
    pose proof (read_rows_join 2 (zip_with session_cells (registry_snapshot r) keys)) as Hr.
    rewrite table_rows by by destruct Hkeys.
    rewrite length_zip_with_r_eq in Hr by done. rewrite Hr.
    + f_equal. clear. generalize (registry_snapshot r). intros l. revert keys.
      induction l as [|e l IH]; intros [|k ks]; [done..|]. cbn [zip_with fmap list_fmap]. f_equal. apply IH.
    + by destruct Hkeys.
    + clear. generalize (registry_snapshot r). intros l. revert keys.
      induction l as [|e l IH]; intros [|k ks]; constructor; [|apply IH].
      split; [|cbn; lia]. repeat constructor.
  - apply (rows_read _ 9). intros x. split; [|cbn; lia]. repeat constructor.
  - apply (rows_read _ 13). intros x. split; [|cbn; lia].
    repeat constructor; (by left) || (by right).
  - intros Hne. apply (rows_read _ 7); [|by destruct icmp]. intros x. split; [|cbn; lia]. repeat constructor.
Qed.

(** Which page is shown: the first two words of the request line decide, without a second word it is the
    page; the report counts at most 64 probes where the page counts all. *)
Theorem status_routes (r : SessionRegistryInner)
    (forwarders : list (list UdpFlowSnapshot * list TcpFlowSnapshot * list IcmpProbeSnapshot)) (request : list Z) :
  (forall key id, (key, id) ∈ registry_snapshot r -> Forall (fun b => b < 128) (string_bytes key)) ->
  match status_answer r forwarders request with
  | Ok (Page p) => default "/" (parse_request_target request) = "/" /\
      (p_udp p).1 = length (concat ((fun f => f.1.1) <$> forwarders)) /\
      (p_tcp p).1 = length (concat ((fun f => f.1.2) <$> forwarders)) /\
      (p_icmp p).1 = length (concat ((fun f => f.2) <$> forwarders))
  | Ok (Report j) => parse_request_target request = Some "/api/status" /\
      json_get "icmp_probes_count" j =
        Some (JNum (Z.of_nat (length (concat ((fun f => f.2) <$> forwarders)) `min` 64)))
  | Ok NotFound => exists t, parse_request_target request = Some t /\ t <> "/" /\ t <> "/api/status"
  | _ => False
  end.
Proof.
  intros Hk. unfold status_answer.
  assert (Hab : forall e, e ∈ registry_snapshot r -> exists k, abbreviate_key e.1 = Ok k)
    by (intros [key id] He; by eapply abbreviate_key_ascii, Hk).
  case_bool_decide as Hp.
  - unfold render_status_page. destruct (all_ok_map (fun e : string * Z => k ← abbreviate_key e.1;
      Ok (row (session_cells e k))) (registry_snapshot r)) as (rows & -> & _).
    { intros e He. destruct (Hab e He) as [k ->]. by eexists. }
    cbn [mbind outcome_bind p_udp p_tcp p_icmp fst]. rewrite !sort_by_perm. done.
  - destruct (parse_request_target request) as [t|]; [|done]. cbn [from_option id] in *.
    case_bool_decide as Ha; [|by exists t].
    unfold render_status_json. match goal with |- context [all_ok ?f _] =>
      destruct (all_ok_map f (registry_snapshot r)) as (ss & -> & _) end.
    { intros e He. destruct (Hab e He) as [k ->]. by eexists. }
    cbn [mbind outcome_bind]. split; [by rewrite Ha|]. cbn [json_get].
    match goal with |- head (rev (members _ ?l)) = _ => change (members "icmp_probes_count" l) with [snd (nth 1 l ("", JNull))] end.
    cbn [rev app head nth snd]. rewrite length_fmap, length_take. do 2 f_equal. lia.
Qed.

(** ** Witnesses *)

Module Sample.
Definition registry : SessionRegistryInner :=
  {| next_session_id := 8; sessions_by_client := {[ "AbCdEfGhIjKlMnOpQrStUvWxYz0123456789" := 7 ]} |}.
Definition hostile : UdpFlowSnapshot :=
  {| u_session_id := 7; u_client_src := "<script>alert('&lt;')</script>"; u_client_dst := "1.1.1.1:53";
     u_bound_socket := "0.0.0.0:9"; u_created_ago := format_elapsed 100 39; u_last_client_ago := format_elapsed 1 2;
     u_last_remote_ago := None; u_client_to_remote_packets := 3; u_remote_to_client_packets := 0 |}.

Lemma registry_ascii key id :
  (key, id) ∈ registry_snapshot registry -> Forall (fun b => b < 128) (string_bytes key).
Proof.
  intros Hk%elem_of_map_to_list. unfold registry in Hk. cbn [sessions_by_client] in Hk.
  apply lookup_singleton_Some in Hk as [<- <-]. apply (bool_decide_unpack _). vm_compute. exact I.
Qed.

Lemma status_page_reads_back_witness :
  exists p, render_status_page registry [hostile] [] [] = Ok p /\
    read_rows 1 9 (p_udp p).2 =
      Some [["7"; "<script>alert('&lt;')</script>"; "1.1.1.1:53"; "0.0.0.0:9"; "1m 1s ago"; "just now"; "never";
             "3"; "0"]].
Proof.
  destruct (status_page_reads_back registry [hostile] [] [] registry_ascii) as (p & Hp & _ & Hu & _ & _).
  exists p. split; [exact Hp|]. specialize (Hu ltac:(discriminate)). cbn [length] in Hu. rewrite Hu. vm_compute. reflexivity.
Defined.

Lemma status_routes_witness :
  default "/" (parse_request_target (string_bytes ("GET /other HTTP/1.1" +:+ newline))) = "/other" /\
  match status_answer registry [] (string_bytes ("GET /other HTTP/1.1" +:+ newline)) with
  | Ok NotFound => True
  | _ => False
  end.
Proof.
  split; [vm_compute; reflexivity|].
  pose proof (status_routes registry [] (string_bytes ("GET /other HTTP/1.1" +:+ newline)) registry_ascii) as Hr.
  assert (Ht : parse_request_target (string_bytes ("GET /other HTTP/1.1" +:+ newline)) = Some "/other")
    by (vm_compute; reflexivity).
  rewrite Ht in Hr. destruct (status_answer _ _ _) as [[| |]| |].
  - destruct Hr as [Hr _]. discriminate Hr.
  - destruct Hr as [Hr _]. discriminate Hr.
  - exact I.
  - destruct Hr.
  - destruct Hr.
Defined.

(** The unit stands after the number of writes to smoltcp, and not after their average size. *)
Example tcp_units e :
  (fun c => c.2) <$> drop 7 (tcp_cells e) = [""; " B"; ""; " B"; ""; " B"].
Proof. reflexivity. Qed.
End Sample.
