(* ===== verification/TcpFlows.v ===== *)
(** The bridge tasks of the forwarder's TCP connections and the statistics they share with the poll thread
    ([tcp_bridge_task], [TcpStats] and [snapshot] of [src/crates/bonded-server/src/smoltcp_forwarder.rs]).  A
    connection has a task that reads its remote stream, records what it read and sends it to the thread, until
    the stream, the connection or the task around it ends; tasks and rounds of the thread ([poll_round] of
    TcpForwarder.v) interleave. *)

From stdpp Require Import base tactics list gmap strings.
From Stdlib Require Import ZArith Lia.
From S2P Require Import Prelude Words Session Packet TcpForwarder UdpIcmp Status.
Open Scope Z_scope.

(** * Definitions *)

(** ** The bridge task *)

(** [bt_read]: the chunks the reading task has read so far; [bt_held]: the one it has recorded and not yet
    sent; [bt_reading]: it is still in its loop; [bt_alive]: so is the task that writes to the remote. *)
Record BridgeTask := {
  bt_read : list (list Z);
  bt_held : option (list Z);
  bt_reading : bool;
  bt_alive : bool
}.

Definition new_task : BridgeTask := {| bt_read := []; bt_held := None; bt_reading := true; bt_alive := true |}.

Definition READ_BUFFER : nat := 65535.

(** A chunk read: it is counted in the record of its connection, if there is still one. *)
Definition add_read (now n : Z) (r : TcpFlowRecord) : TcpFlowRecord :=
  {| r_conn_id := r_conn_id r; r_src_ip := r_src_ip r; r_src_port := r_src_port r; r_dst_ip := r_dst_ip r;
     r_dst_port := r_dst_port r; r_created_at := r_created_at r; r_last_activity_at := now;
     r_client_to_remote := r_client_to_remote r; r_remote_to_client := r_remote_to_client r;
     r_bridge_read_chunks := saturating_add 64 (r_bridge_read_chunks r) 1;
     r_bridge_read_bytes := saturating_add 64 (r_bridge_read_bytes r) n;
     r_bridge_to_smoltcp_chunks := r_bridge_to_smoltcp_chunks r;
     r_bridge_to_smoltcp_bytes := r_bridge_to_smoltcp_bytes r |}.

(** [stats.flows.values_mut().find(|r| r.conn_id == conn_id)] *)
Definition flow_of (id : Z) (fl : gmap nat TcpFlowRecord) : option nat :=
  (fun x : nat * (nat * TcpFlowRecord) => x.2.1) <$> list_find (fun hr => r_conn_id hr.2 = id) (map_to_list fl).

Definition record_read (id now n : Z) (fl : gmap nat TcpFlowRecord) : gmap nat TcpFlowRecord :=
  match flow_of id fl with Some h => alter (add_read now n) h fl | None => fl end.

Definition set_alive (alive : bool) (c : ActiveTcpConn) : ActiveTcpConn :=
  {| a_original_dst_ip := a_original_dst_ip c; a_dst_port := a_dst_port c;
     a_client_src_ip := a_client_src_ip c; a_client_src_port := a_client_src_port c;
     to_bridge := to_bridge c; bridge_alive := alive; from_bridge := from_bridge c;
     pending_from_bridge := pending_from_bridge c |}.

(** ** Thread and tasks *)

(** [created]: how many sockets the thread was told to create. *)
Record TcpFlows (N : Type) := { fl_poll : PollState N; fl_tasks : gmap Z BridgeTask; fl_created : nat }.
Arguments fl_poll {N}. Arguments fl_tasks {N}. Arguments fl_created {N}.

Inductive flow_step :=
  | ThreadRound (cs : list PollCommand)
  | ReaderRead (id : Z) (data : list Z) (now : Z)
  | ReaderSend (id : Z)
  (** the remote closed its side, or reading failed *)
  | ReaderEnds (id : Z)
  (** connecting or writing failed, or the connection is gone from the thread *)
  | BridgeEnds (id : Z).

Section flows.
Context {N : Type} `{Stack N}.
Implicit Types (s : TcpFlows N) (st : PollState N).

Definition task (s : TcpFlows N) (id : Z) : BridgeTask := default new_task (fl_tasks s !! id).

Definition is_create (c : PollCommand) : bool :=
  match c with CreateTcpSocket _ _ _ _ => true | InjectPacket _ => false end.

(** The connection a task was started for exists. *)
Definition spawned (id : Z) s : bool := (1 <=? id) && (id <? next_conn_id (fl_poll s)).

Definition put_task (id : Z) (t : BridgeTask) st s : TcpFlows N :=
  {| fl_poll := st; fl_tasks := <[id := t]> (fl_tasks s); fl_created := fl_created s |}.

(** The receiver of the task is dropped: what the thread sends to it is lost. *)
Definition end_bridge (id : Z) st : PollState N :=
  match flow_of id (flows st) with
  | Some h => set_conns (pending st) (alter (set_alive false) h (active st)) (promoted st) st
  | None => st
  end.

(** A step.  The channel of a task leads to the connection that was made with it, which is the one whose record
    has its number; once the connection is removed, sending fails. *)
Definition flow_exec (e : flow_step) s : option (TcpFlows N) :=
  match e with
  | ThreadRound cs =>
      match poll_round cs (fl_poll s) with
      | Some (Ok st) =>
          Some {| fl_poll := st; fl_tasks := fl_tasks s;
                  fl_created := fl_created s + length (List.filter is_create cs) |}
      | _ => None
      end
  | ReaderRead id data now =>
      let t := task s id in
      if spawned id s && bt_reading t && bool_decide (bt_held t = None) && bool_decide (data <> [])
           && bool_decide (length data <= READ_BUFFER)%nat
      then
        let st := fl_poll s in
        Some (put_task id {| bt_read := bt_read t ++ [data]; bt_held := Some data; bt_reading := true;
                             bt_alive := bt_alive t |}
                (set_flows (record_read id now (Z.of_nat (length data)) (flows st)) st) s)
      else None
  | ReaderSend id =>
      let t := task s id in
      let st := fl_poll s in
      match bt_held t with
      | Some data =>
          match flow_of id (flows st) with
          | Some h =>
              Some (put_task id {| bt_read := bt_read t; bt_held := None; bt_reading := bt_reading t;
                                   bt_alive := bt_alive t |} (bridge_push h data st) s)
          | None =>
              Some (put_task id {| bt_read := bt_read t; bt_held := None; bt_reading := false;
                                   bt_alive := bt_alive t |} st s)
          end
      | None => None
      end
  | ReaderEnds id =>
      let t := task s id in
      if spawned id s && bt_reading t && bool_decide (bt_held t = None) then
        Some (put_task id {| bt_read := bt_read t; bt_held := None; bt_reading := false; bt_alive := bt_alive t |}
                (fl_poll s) s)
      else None
  | BridgeEnds id =>
      let t := task s id in
      if spawned id s && bt_alive t then
        Some (put_task id {| bt_read := bt_read t; bt_held := bt_held t; bt_reading := false; bt_alive := false |}
                (end_bridge id (fl_poll s)) s)
      else None
  end.

Fixpoint flow_run (es : list flow_step) s : option (TcpFlows N) :=
  match es with
  | [] => Some s
  | e :: es => s ← flow_exec e s; flow_run es s
  end.

(** The steps in which a remote, or the way to it, is lost *)
Definition is_end (e : flow_step) : bool := match e with ReaderEnds _ | BridgeEnds _ => true | _ => false end.

Definition flow_start (n : N) : TcpFlows N := {| fl_poll := poll_init n; fl_tasks := ∅; fl_created := 0 |}.
End flows.

(** ** The snapshot *)

Definition average (bytes chunks : Z) : Z := if chunks =? 0 then 0 else bytes / chunks.

(** [tcp_flows] of [SmoltcpForwarder::snapshot] *)
Definition tcp_snapshot (session_id now : Z) (fl : gmap nat TcpFlowRecord) : list TcpFlowSnapshot :=
  (fun hr : nat * TcpFlowRecord =>
     let r := hr.2 in
     {| t_session_id := session_id;
        t_client_src := print_endpoint (r_src_ip r) (r_src_port r);
        t_client_dst := print_endpoint (r_dst_ip r) (r_dst_port r);
        t_created_ago := format_elapsed now (r_created_at r);
        t_last_activity_ago := format_elapsed now (r_last_activity_at r);
        t_client_to_remote_packets := r_client_to_remote r;
        t_remote_to_client_packets := r_remote_to_client r;
        t_bridge_read_chunks := r_bridge_read_chunks r;
        t_bridge_read_bytes := r_bridge_read_bytes r;
        t_bridge_read_avg_bytes := average (r_bridge_read_bytes r) (r_bridge_read_chunks r);
        t_bridge_to_smoltcp_chunks := r_bridge_to_smoltcp_chunks r;
        t_bridge_to_smoltcp_bytes := r_bridge_to_smoltcp_bytes r;
        t_bridge_to_smoltcp_avg_bytes := average (r_bridge_to_smoltcp_bytes r) (r_bridge_to_smoltcp_chunks r) |})
  <$> map_to_list fl.

(** * Lemmas *)

(** ** Saturated counts *)

Definition capped (n : nat) : Z := Z.min (Z.of_nat n) (2 ^ 64 - 1).

Lemma capped_add n m : saturating_add 64 (capped n) (Z.of_nat m) = capped (n + m).
Proof. unfold saturating_add, capped. lia. Qed.

Lemma capped_same n : saturating_add 64 (capped n) 0 = capped n.
Proof. unfold saturating_add, capped. lia. Qed.

Lemma capped_succ n : saturating_add 64 (capped n) 1 = capped (S n).
Proof. unfold saturating_add, capped. lia. Qed.

#[local] Hint Rewrite capped_add capped_same capped_succ : capped.

(** ** Sockets *)

(** Documented behaviour of smoltcp's [SocketSet] and of its sockets: a handle that is given out is not in use,
    the bytes a socket has accepted ([sock_tx]) belong to it alone, and only [send_slice] adds to them. *)
Class SocketSetLaws (N : Type) `{Stack N} (sock_tx : N -> nat -> list Z) (sock_in : N -> nat -> Prop) := {
  listen_fresh : forall n port h n', stack_listen n port = Some (h, n') ->
    ~ sock_in n h /\ sock_in n' h /\ sock_tx n' h = [];
  listen_others : forall n port h n' h', stack_listen n port = Some (h, n') -> h' <> h ->
    sock_tx n' h' = sock_tx n h' /\ (sock_in n h' -> sock_in n' h');
  poll_keeps : forall n rx h, let n' := (stack_poll n rx).2 in
    sock_tx n' h = sock_tx n h /\ (sock_in n h -> sock_in n' h);
  recv_keeps : forall n h h', let n' := (sock_recv n h).2 in
    sock_tx n' h' = sock_tx n h' /\ (sock_in n h' -> sock_in n' h');
  send_others : forall n h data h', let n' := (sock_send_slice n h data).2 in
    (h' <> h -> sock_tx n' h' = sock_tx n h') /\ (sock_in n h' -> sock_in n' h');
  remove_others : forall n h h', h' <> h -> let n' := sock_remove n h in
    sock_tx n' h' = sock_tx n h' /\ (sock_in n h' -> sock_in n' h')
}.

(** ** One connection and its record *)

Definition held_bytes (t : BridgeTask) : list Z := default [] (bt_held t).
Definition held_chunks (t : BridgeTask) : nat := if bt_held t then 1 else 0.

(** What a record says of its connection [c], whose socket has accepted [tx], and of its task *)
Record flow_ok (t : BridgeTask) (tx : list Z) (c : ActiveTcpConn) (r : TcpFlowRecord) : Prop := {
  ok_tuple : {| ct_client_ip := r_src_ip r; ct_client_port := r_src_port r; ct_server_port := r_dst_port r;
                ct_original := r_dst_ip r |} = active_tuple c;
  ok_stream : concat (bt_read t) = tx ++ outstanding c ++ held_bytes t;
  ok_read : r_bridge_read_chunks r = capped (length (bt_read t)) /\
            r_bridge_read_bytes r = capped (length (concat (bt_read t)));
  ok_written : r_bridge_to_smoltcp_bytes r = capped (length tx);
  ok_taken : exists k, length (bt_read t) = (k + length (from_bridge c) + held_chunks t)%nat /\
               r_bridge_to_smoltcp_chunks r = capped k /\ r_remote_to_client r = capped k;
  ok_sent : exists k, r_client_to_remote r = capped k /\ (length (to_bridge c) <= k)%nat /\
              (bridge_alive c = true -> k = length (to_bridge c));
  ok_nonempty : Forall (fun b => b <> []) (from_bridge c);
  ok_offset : pb_ok c
}.

Section service.
Context {N : Type} `{Stack N} `{!StackLaws N sock_tx} `{!SocketSetLaws N sock_tx sock_in}.
Implicit Types (n : N) (c : ActiveTcpConn) (fl : gmap nat TcpFlowRecord) (t : BridgeTask).

(** What servicing connection [h] does to the sockets and the records *)
Record serviced t h n c fl n' c' fl' : Prop := {
  sv_record : forall r, fl !! h = Some r -> flow_ok t (sock_tx n h) c r ->
    exists r', fl' !! h = Some r' /\ r_conn_id r' = r_conn_id r /\ flow_ok t (sock_tx n' h) c' r';
  sv_records : forall h', h' <> h -> fl' !! h' = fl !! h';
  sv_sockets : forall h', h' <> h -> sock_tx n' h' = sock_tx n h';
  sv_in : forall h', sock_in n h' -> sock_in n' h'
}.

Lemma serviced_refl t h n c fl : serviced t h n c fl n c fl.
Proof. split; eauto. Qed.

Lemma serviced_trans t h n c fl n1 c1 fl1 n2 c2 fl2 :
  serviced t h n c fl n1 c1 fl1 -> serviced t h n1 c1 fl1 n2 c2 fl2 -> serviced t h n c fl n2 c2 fl2.
Proof.
  intros [A1 A2 A3 A4] [B1 B2 B3 B4]. split; [|intros h' Hh; by rewrite B2, A2|intros h' Hh; by rewrite B3, A3|auto].
  intros r Hr Hok. destruct (A1 r Hr Hok) as (r1 & Hr1 & Hid1 & Hok1).
  destruct (B1 r1 Hr1 Hok1) as (r2 & ? & ? & ?). exists r2. split_and!; congruence.
Qed.

(** A move that adds to the counts of the record *)
Lemma serviced_count t h n c fl n' c' now a b k bs :
  (forall r, flow_ok t (sock_tx n h) c r -> flow_ok t (sock_tx n' h) c' (add_flow_counts now a b k bs r)) ->
  (forall h', h' <> h -> sock_tx n' h' = sock_tx n h') -> (forall h', sock_in n h' -> sock_in n' h') ->
  serviced t h n c fl n' c' (add_flow h now a b k bs fl).
Proof.
  intros Hok Htx Hin. split; [|intros h' Hh; by apply lookup_alter_ne|done|done].
  intros r Hr Hr0. exists (add_flow_counts now a b k bs r). unfold add_flow. rewrite lookup_alter_eq, Hr.
  split_and!; [done..|auto].
Qed.

(** A move that leaves the records *)
Lemma serviced_move t h n c fl n' c' :
  (forall r, flow_ok t (sock_tx n h) c r -> flow_ok t (sock_tx n' h) c' r) ->
  (forall h', h' <> h -> sock_tx n' h' = sock_tx n h') -> (forall h', sock_in n h' -> sock_in n' h') ->
  serviced t h n c fl n' c' fl.
Proof. intros Hok Htx Hin. split; [|done..]. intros r Hr Hr0. exists r. auto. Qed.

Lemma service_recv_serviced t h n c fl :
  let '(n', c', fl') := service_recv h n c fl in serviced t h n c fl n' c' fl'.
Proof.
  unfold service_recv. destruct (sock_can_recv n h); [|apply serviced_refl].
  pose proof (fun h' => recv_keeps n h h') as Hk. destruct (sock_recv n h) as [data n1]. cbn [snd] in Hk.
  destruct data as [|x data].
  - apply serviced_move; [|intros h' _; apply Hk|intros h'; apply Hk]. by rewrite (proj1 (Hk h)).
  - apply serviced_count; [|intros h' _; apply Hk|intros h'; apply Hk]. rewrite (proj1 (Hk h)).
    intros r [? ? [? ?] Hw (k & ? & Hk1 & Hk2) (m & Hm & Hle & Heq) ? ?].
    split; cbn; try done; [by rewrite Hw; autorewrite with capped| |].
    + exists k. rewrite Hk1, Hk2. by autorewrite with capped.
    + exists (S m). rewrite Hm. autorewrite with capped. destruct (bridge_alive c); cbn.
      * rewrite length_app. cbn. rewrite Heq by done. lia.
      * split_and!; [done|lia|done].
Qed.
(** Bytes accepted from the current chunk *)
Lemma accepted_ok t tx c p w now r :
  pending_from_bridge c = Some p -> (w <= length (pb_bytes p) - pb_offset p)%nat ->
  let p' := {| pb_bytes := pb_bytes p; pb_offset := pb_offset p + w |} in
  flow_ok t tx c r ->
  flow_ok t (tx ++ take w (drop (pb_offset p) (pb_bytes p)))
    (set_bridge (to_bridge c) (from_bridge c) (if pb_is_complete p' then None else Some p') c)
    (add_flow_counts now 0 0 0 (Z.of_nat w) r).
Proof.
  intros Hp Hw p' [Ht Hs [Hr1 Hr2] Hb (k & Hk & Hk1 & Hk2) (m & Hm & Hm') Hne Hoff].
  assert (Hle : (pb_offset p <= length (pb_bytes p))%nat) by (unfold pb_ok in Hoff; by rewrite Hp in Hoff).
  split; cbn.
  - exact Ht.
  - rewrite Hs. unfold outstanding at 1. rewrite Hp. unfold outstanding. cbn [pending_from_bridge from_bridge set_bridge].
    pose proof (advance_chunk p w ltac:(lia)) as Ha. fold p' in Ha. cbv zeta in Ha. rewrite Ha.
    by rewrite <- !app_assoc, (app_assoc (take w _)), take_drop.
  - done.
  - rewrite Hb. autorewrite with capped. f_equal. rewrite length_app, length_take, length_drop. lia.
  - exists k. rewrite Hk1, Hk2. by autorewrite with capped.
  - exists m. rewrite Hm. by autorewrite with capped.
  - done.
  - unfold pb_ok. cbn. destruct (pb_is_complete p'); cbn; [done|]. lia.
Qed.

(** A chunk taken from the channel *)
Lemma taken_ok t tx c b fb now r :
  pending_from_bridge c = None -> from_bridge c = b :: fb -> flow_ok t tx c r ->
  flow_ok t tx (set_bridge (to_bridge c) fb (Some {| pb_bytes := b; pb_offset := 0 |}) c)
    (add_flow_counts now 0 1 1 0 r).
Proof.
  intros Hp Hfb [Ht Hs [Hr1 Hr2] Hb (k & Hk & Hk1 & Hk2) (m & Hm & Hm') Hne Hoff].
  split; cbn.
  - exact Ht.
  - rewrite Hs. unfold outstanding. cbn. by rewrite Hp, Hfb.
  - done.
  - rewrite Hb. by autorewrite with capped.
  - exists (S k). rewrite Hk1, Hk2. autorewrite with capped. rewrite Hfb in Hk. cbn in Hk. split_and!; [lia|done..].
  - exists m. rewrite Hm. by autorewrite with capped.
  - rewrite Hfb in Hne. by inversion Hne.
  - lia.
Qed.

(** A finished chunk put away *)
Lemma cleared_ok t tx c p r :
  pending_from_bridge c = Some p -> pb_is_complete p = true -> flow_ok t tx c r ->
  flow_ok t tx (set_bridge (to_bridge c) (from_bridge c) None c) r.
Proof.
  intros Hp Hc [Ht Hs Hr Hb Hk Hm Hne Hoff]. split; cbn; try done.
  rewrite Hs. unfold outstanding. cbn. rewrite Hp.
  unfold pb_is_complete in Hc. apply bool_decide_eq_true in Hc. by rewrite drop_ge.
Qed.

Section send.
Context (t : BridgeTask) (h fuel : nat).
Hypothesis IH : forall n c fl n' c' fl',
  service_send fuel h n c fl = Some (Ok (n', c', fl')) -> serviced t h n c fl n' c' fl'.

Lemma service_chunk_serviced n c p fl n' c' fl' :
  pending_from_bridge c = Some p ->
  match pb_remaining p with
  | Ok data =>
      let (r, n) := sock_send_slice n h data in
      match r with
      | None | Some O => Some (Ok (n, c, fl))
      | Some written =>
          let p := {| pb_bytes := pb_bytes p; pb_offset := pb_offset p + written |} in
          let fl := add_flow h (sys_now n) 0 0 0 (Z.of_nat written) fl in
          service_send fuel h n
            (set_bridge (to_bridge c) (from_bridge c) (if pb_is_complete p then None else Some p) c) fl
      end
  | Err e => Some (Err e)
  | Panic => Some Panic
  end = Some (Ok (n', c', fl')) -> serviced t h n c fl n' c' fl'.
Proof.
  intros Hp. unfold pb_remaining, slice_from. case_decide as Hoff; [|done].
  set (data := drop (pb_offset p) (pb_bytes p)).
  pose proof (fun h' => send_others n h data h') as Ho.
  destruct (sock_send_slice n h data) as [r n1] eqn:Hs. cbn [snd] in Ho.
  assert (Hstop : sock_tx n1 h = sock_tx n h -> Some (Ok (E := Empty_set) (n1, c, fl)) = Some (Ok (n', c', fl')) ->
    serviced t h n c fl n' c' fl').
  { intros Htx [= <- <- <-]. apply serviced_move; [by rewrite Htx|intros h'; apply Ho|intros h'; apply Ho]. }
  destruct r as [[|w]|]; [apply Hstop| |apply Hstop; by eapply send_slice_none].
  - destruct (send_slice_some _ _ _ _ _ Hs) as [_ ->]. by rewrite take_0, app_nil_r.
  - destruct (send_slice_some _ _ _ _ _ Hs) as [Hw Htx]. intros Hrest%IH.
    eapply serviced_trans; [|exact Hrest].
    apply serviced_count; [|intros h'; apply Ho|intros h'; apply Ho].
    intros r Hr. rewrite Htx. apply accepted_ok; [done| |done]. unfold data in Hw. by rewrite length_drop in Hw.
Qed.
End send.

Lemma service_send_serviced t h fuel n c fl n' c' fl' :
  service_send fuel h n c fl = Some (Ok (n', c', fl')) -> serviced t h n c fl n' c' fl'.
Proof.
  revert n c fl n' c' fl'. induction fuel as [|fuel IH]; intros n c fl n' c' fl'; [done|].
  cbn [service_send]. destruct (sock_can_send n h); cbn [negb]; [|intros [= <- <- <-]; apply serviced_refl].
  destruct (pending_from_bridge c) as [p|] eqn:Hp.
  - destruct (pb_is_complete p) eqn:Hc.
    + intros Hrest%IH. eapply serviced_trans; [|exact Hrest].
      apply serviced_move; [|done..]. intros r. by apply cleared_ok with p.
    + assert (Hcc : set_bridge (to_bridge c) (from_bridge c) (Some p) c = c) by (destruct c; cbn in *; by rewrite Hp).
      rewrite Hcc. by apply service_chunk_serviced.
  - destruct (from_bridge c) as [|[|b0 b] fb] eqn:Hfb; [intros [= <- <- <-]; apply serviced_refl| |].
    + intros Hrest%IH. eapply serviced_trans; [|exact Hrest]. apply serviced_move; [|done..].
      intros r [? ? ? ? ? ? Hne ?]. rewrite Hfb in Hne. by inversion Hne.
    + change (pb_is_complete {| pb_bytes := b0 :: b; pb_offset := 0 |}) with false. cbv iota.
      set (p := {| pb_bytes := b0 :: b; pb_offset := 0 |}).
      intros Hrest. eapply serviced_trans;
        [|eapply (service_chunk_serviced t h fuel IH n (set_bridge (to_bridge c) fb (Some p) c) p); [done|exact Hrest]].
      apply serviced_count; [|done..]. intros r. by apply taken_ok.
Qed.

Lemma service_one_serviced t h st st' c :
  active st !! h = Some c -> service_one h st = Some (Ok st') ->
  exists c', active st' = <[h := c']> (active st) /\ pending st' = pending st /\
    next_conn_id st' = next_conn_id st /\ serviced t h (net st) c (flows st) (net st') c' (flows st').
Proof.
  intros Hc. unfold service_one. rewrite Hc.
  pose proof (service_recv_serviced t h (net st) c (flows st)) as Hr.
  destruct (service_recv h (net st) c (flows st)) as [[n1 c1] fl1].
  destruct (service_send _ h n1 c1 fl1) as [[[[n2 c2] fl2]| |]|] eqn:Hs; intros [= <-]. cbn.
  exists c2. split_and!; [done..|]. eapply serviced_trans; [exact Hr|]. by eapply service_send_serviced.
Qed.
End service.

(** ** All connections *)

Lemma flow_of_some id fl h : flow_of id fl = Some h -> exists r, fl !! h = Some r /\ r_conn_id r = id.
Proof.
  unfold flow_of. intros ([i [h' r]] & Hf & ->)%fmap_Some. cbn. apply list_find_Some in Hf as (Hl & Hid & _).
  exists r. split; [|done]. apply elem_of_map_to_list. by eapply list_elem_of_lookup_2.
Qed.

Lemma flow_of_none id fl h r : flow_of id fl = None -> fl !! h = Some r -> r_conn_id r <> id.
Proof.
  unfold flow_of. intros Hf%fmap_None Hr Hid. apply list_find_None in Hf.
  apply elem_of_map_to_list in Hr. rewrite Forall_forall in Hf. by apply (Hf _ Hr).
Qed.

Lemma alter_same {A} (m : gmap nat A) h : alter (fun x => x) h m = m.
Proof. by apply alter_id. Qed.

Section invariant.
Context {N : Type} `{Stack N} `{!StackLaws N sock_tx} `{!SocketSetLaws N sock_tx sock_in}.
Implicit Types (st : PollState N) (T : gmap Z BridgeTask) (k : nat).

(** The invariant of thread and tasks, [k] sockets having been asked for *)
Record flows_inv T k st : Prop := {
  fi_pending : NoDup (p_handle <$> pending st);
  fi_fresh : forall p, p ∈ pending st ->
    sock_in (net st) (p_handle p) /\ active st !! p_handle p = None /\ sock_tx (net st) (p_handle p) = [];
  fi_active : forall h, is_Some (active st !! h) -> sock_in (net st) h;
  fi_records : forall h, flows st !! h = None <-> active st !! h = None;
  fi_flow : forall h c r, active st !! h = Some c -> flows st !! h = Some r ->
    flow_ok (default new_task (T !! r_conn_id r)) (sock_tx (net st) h) c r;
  fi_id : forall h r, flows st !! h = Some r -> 1 <= r_conn_id r < next_conn_id st;
  fi_inj : forall h h' r r', flows st !! h = Some r -> flows st !! h' = Some r' -> r_conn_id r = r_conn_id r' -> h = h';
  fi_tasks : forall id t, T !! id = Some t -> id < next_conn_id st /\ bt_held t <> Some [];
  fi_count : 1 <= next_conn_id st /\ next_conn_id st + Z.of_nat (length (pending st)) <= 1 + Z.of_nat k
}.

Lemma flows_inv_core T k st st' : thread_core st' = thread_core st -> flows_inv T k st -> flows_inv T k st'.
Proof.
  unfold thread_core. intros E [A1 A2 A3 A4 A5 A6 A7 A8 A9]. injection E as E1 E2 E3 _ E5 E6.
  split; rewrite ?E1, ?E2, ?E3, ?E5, ?E6; done.
Qed.

Lemma flows_inv_net T k st n :
  (forall h, sock_tx n h = sock_tx (net st) h /\ (sock_in (net st) h -> sock_in n h)) ->
  flows_inv T k st -> flows_inv T k (set_net n st).
Proof.
  intros Hn [A1 A2 A3 A4 A5 A6 A7 A8 A9]. split; cbn; try done.
  - intros p Hp. destruct (A2 p Hp) as (B1 & B2 & B3). split_and!; [by apply Hn|done|]. by rewrite (proj1 (Hn _)).
  - intros h Hh. by apply Hn, A3.
  - intros h c r Hc Hr. rewrite (proj1 (Hn _)). by apply A5.
Qed.

Lemma poll_command_inv T k cmd st st' :
  poll_command cmd st = Ok st' -> flows_inv T k st -> flows_inv T (k + if is_create cmd then 1 else 0) st'.
Proof.
  destruct cmd as [pkt|port odst csrc cport]; cbn [is_create]; cbn [poll_command].
  - destruct (parse_ipv4_tcp_tuple_flags pkt) as [x| |]; cbn; [|done..]. intros [= <-] Hi. rewrite Nat.add_0_r.
    eapply flows_inv_core; [|exact Hi]. by destruct (is_rst x).
  - destruct (stack_listen (net st) port) as [[h n]|] eqn:Hl; intros [= <-] Hi;
      pose proof Hi as [A1 A2 A3 A4 A5 A6 A7 A8 A9];
      [|split; try done; split; [apply A9|destruct A9; lia]].
    destruct (listen_fresh _ _ _ _ Hl) as (Hnew & Hin & Htx).
    assert (Hoth : forall h', sock_in (net st) h' -> sock_tx n h' = sock_tx (net st) h' /\ sock_in n h').
    { intros h' Hh. destruct (listen_others _ _ _ _ h' Hl) as [? ?]; [by intros ->|auto]. }
    split; cbn; try done.
    + rewrite fmap_app. apply NoDup_app. split_and!; [done| |apply NoDup_singleton].
      intros x (p & -> & Hp)%list_elem_of_fmap Hx%list_elem_of_singleton. cbn in Hx.
      apply Hnew. rewrite <- Hx. apply (A2 p Hp).
    + intros p [Hp| ->%list_elem_of_singleton]%elem_of_app; cbn.
      * destruct (A2 p Hp) as (B1 & B2 & B3). destruct (Hoth _ B1) as [-> ?]. done.
      * split_and!; [done| |done]. apply eq_None_not_Some. intros Hs. by apply Hnew, A3.
    + intros h' Hh. by apply Hoth, A3.
    + intros h' c r Hc Hr. rewrite (proj1 (Hoth _ (A3 h' ltac:(eauto)))). eauto.
    + rewrite length_app. cbn. destruct A9. lia.
Qed.

Lemma drain_commands_inv T k cs st st' :
  drain_commands cs st = Ok st' -> flows_inv T k st -> flows_inv T (k + length (List.filter is_create cs)) st'.
Proof.
  revert k st. induction cs as [|c cs IH]; intros k st; cbn; [intros [= <-]; by rewrite Nat.add_0_r|].
  destruct (poll_command c st) as [st1| |] eqn:Hc; cbn; [|done..]. intros Hd Hi.
  pose proof (IH _ _ Hd (poll_command_inv _ _ _ _ _ Hc Hi)) as Hk.
  destruct (is_create c); cbn in *; by rewrite <- Nat.add_assoc in Hk.
Qed.

Lemma delete_pending (l : list PendingTcpConn) idx p :
  NoDup (p_handle <$> l) -> l !! idx = Some p ->
  NoDup (p_handle <$> delete idx l) /\ length l = S (length (delete idx l)) /\
  forall q, q ∈ delete idx l -> q ∈ l /\ p_handle q <> p_handle p.
Proof.
  intros Hnd Hp. assert (Hperm : l ≡ₚ p :: delete idx l) by by apply delete_Permutation.
  assert (Hnd' : NoDup (p_handle <$> p :: delete idx l)) by by rewrite <- Hperm.
  apply NoDup_cons in Hnd' as [Hnot Hnd']. split_and!; [done|by rewrite Hperm at 1|].
  intros q Hq. split; [rewrite Hperm; by constructor|]. intros He. apply Hnot. rewrite <- He.
  apply list_elem_of_fmap. eauto.
Qed.

Lemma promote_one_flows T k idx st st' :
  Z.of_nat k < 2 ^ 32 - 1 -> promote_one idx st = Ok st' -> flows_inv T k st -> flows_inv T k st'.
Proof.
  intros Hk. unfold promote_one, index. destruct (pending st !! idx) as [p|] eqn:Hp; cbn; [|done].
  intros Hpr [A1 A2 A3 A4 A5 A6 A7 A8 [A9 A10]].
  destruct (delete_pending _ _ _ A1 Hp) as (B1 & B2 & B3).
  destruct (A2 p) as (C1 & C2 & C3); [by eapply list_elem_of_lookup_2|].
  assert (Hb : bump_conn_id (next_conn_id st) = next_conn_id st + 1).
  { unfold bump_conn_id, wrapping_add. rewrite Z.mod_small by lia. lia. }
  destruct (tuple_conflict (active st) p); injection Hpr as <-; split; cbn [net pending active flows next_conn_id set_conns set_net set_flows set_conn_id
    count_ambiguous set_counters]; try done.
  - intros q Hq. destruct (B3 q Hq) as [Hq' Hne]. destruct (A2 q Hq') as (D1 & D2 & D3).
    destruct (remove_others (net st) (p_handle p) (p_handle q) Hne) as [-> Hin]. auto.
  - intros h Hh. apply (remove_others (net st) (p_handle p)); [|by apply A3]. intros ->. destruct Hh. congruence.
  - intros h c r Hc Hr. rewrite (proj1 (remove_others (net st) (p_handle p) h ltac:(congruence))). eauto.
  - split; lia.
  - intros q Hq. destruct (B3 q Hq) as [Hq' Hne]. rewrite lookup_insert_ne by done. auto.
  - intros h Hh. destruct (decide (h = p_handle p)) as [->|Hne]; [done|]. rewrite lookup_insert_ne in Hh by done. auto.
  - intros h. destruct (decide (h = p_handle p)) as [->|Hne]; [by rewrite !lookup_insert_eq|].
    by rewrite !lookup_insert_ne.
  - intros h c r [[<- <-]|[Hne Hc]]%lookup_insert_Some [[E <-]|[Hne' Hr]]%lookup_insert_Some; try done; [|eauto].
    cbn [r_conn_id]. destruct (T !! next_conn_id st) as [t|] eqn:Ht; [destruct (A8 _ _ Ht); lia|].
    cbn. rewrite C3. split; cbn; try done; exists 0%nat; split_and!; cbn; done || lia.
  - intros h r [[<- <-]|[Hne Hr]]%lookup_insert_Some; cbn.
    + rewrite Hb. lia.
    + destruct (A6 h r Hr). rewrite Hb. lia.
  - intros h h' r r' [[<- <-]|[Hne Hr]]%lookup_insert_Some [[<- <-]|[Hne' Hr']]%lookup_insert_Some Hid; cbn in *;
      try done; [destruct (A6 _ _ Hr'); lia|destruct (A6 _ _ Hr); lia|eauto].
  - intros id t Ht. destruct (A8 id t Ht). rewrite Hb. split; [lia|done].
  - rewrite Hb. lia.
Qed.

Lemma promote_all_flows T k idxs st st' :
  Z.of_nat k < 2 ^ 32 - 1 -> promote_all idxs st = Ok st' -> flows_inv T k st -> flows_inv T k st'.
Proof.
  intros Hk. revert st. induction idxs as [|i idxs IH]; intros st; cbn; [by intros [= <-]|].
  destruct (promote_one i st) as [st1| |] eqn:Hp; cbn; [|done..]. intros Hall Hi.
  eapply IH; [done|]. by eapply promote_one_flows.
Qed.
Lemma service_one_flows T k h st st' :
  service_one h st = Some (Ok st') -> flows_inv T k st -> flows_inv T k st'.
Proof.
  intros Hs Hi. destruct (active st !! h) as [c|] eqn:Hc; [|unfold service_one in Hs; by rewrite Hc in Hs].
  pose proof Hi as [A1 A2 A3 A4 A5 A6 A7 A8 A9].
  assert (exists r, flows st !! h = Some r) as [r Hr].
  { destruct (flows st !! h) as [r|] eqn:E; [eauto|]. apply A4 in E. congruence. }
  destruct (service_one_serviced (default new_task (T !! r_conn_id r)) h st st' c Hc Hs)
    as (c' & Ha & Hp & Hn & [S1 S2 S3 S4]).
  destruct (S1 r Hr (A5 _ _ _ Hc Hr)) as (r' & Hr' & Hid & Hok).
  assert (Hrec : forall h' x, flows st' !! h' = Some x ->
    exists y, flows st !! h' = Some y /\ r_conn_id y = r_conn_id x).
  { intros h' x Hx. destruct (decide (h' = h)) as [->|Hne]; [|rewrite S2 in Hx by done; eauto].
    exists r. split; [done|]. congruence. }
  split; rewrite ?Hn, ?Hp; try done.
  - intros p Hin. destruct (A2 p Hin) as (B1 & B2 & B3). assert (p_handle p <> h) by congruence.
    rewrite Ha, lookup_insert_ne, S3 by done. auto.
  - intros h' Hh. apply S4, A3. rewrite Ha in Hh. destruct (decide (h = h')) as [->|]; [eauto|].
    by rewrite lookup_insert_ne in Hh.
  - intros h'. rewrite Ha. destruct (decide (h = h')) as [<-|]; [by rewrite Hr', lookup_insert_eq|].
    rewrite lookup_insert_ne, S2 by done. apply A4.
  - intros h' c0 x. rewrite Ha. intros [[<- <-]|[Hne Hc0]]%lookup_insert_Some Hx.
    + replace x with r' by congruence. by rewrite Hid.
    + rewrite S2 in Hx by done. rewrite S3 by done. eauto.
  - intros h' x (y & Hy & <-)%Hrec. eauto.
  - intros h1 h2 x1 x2 (y1 & Hy1 & <-)%Hrec (y2 & Hy2 & <-)%Hrec He. eauto.
Qed.

Lemma service_all_flows T k hs st st' :
  service_all hs st = Some (Ok st') -> flows_inv T k st -> flows_inv T k st'.
Proof.
  revert st. induction hs as [|h hs IH]; intros st; cbn; [by intros [= <-]|].
  destruct (service_one h st) as [[st1| |]|] eqn:Hs; [|done..].
  intros Hall Hi. eapply IH; [done|]. by eapply service_one_flows.
Qed.

Lemma remove_one_flows T k h st :
  (forall p, p ∈ pending st -> p_handle p <> h) -> flows_inv T k st -> flows_inv T k (remove_one h st).
Proof.
  intros Hnp [A1 A2 A3 A4 A5 A6 A7 A8 A9]. split; cbn; try done.
  - intros p Hp. destruct (A2 p Hp) as (B1 & B2 & B3). pose proof (Hnp p Hp) as Hne.
    destruct (remove_others (net st) h (p_handle p) Hne) as [-> Hin].
    split_and!; [auto| |done]. by rewrite lookup_delete_ne.
  - intros h' [c [Hne Hc]%lookup_delete_Some]. apply (remove_others (net st) h h'); [done|eauto].
  - intros h'. rewrite !lookup_delete_None, A4. done.
  - intros h' c r [Hne Hc]%lookup_delete_Some [_ Hr]%lookup_delete_Some.
    rewrite (proj1 (remove_others (net st) h h' ltac:(done))). eauto.
  - intros h' r [_ Hr]%lookup_delete_Some. eauto.
  - intros h1 h2 r1 r2 [_ H1]%lookup_delete_Some [_ H2]%lookup_delete_Some. eauto.
Qed.

Lemma remove_closed_flows T k st : flows_inv T k st -> flows_inv T k (remove_closed st).
Proof.
  intros Hi. unfold remove_closed.
  assert (Hnp : forall h, h ∈ List.filter (is_closed st) (map_to_list (active st)).*1 ->
    forall p, p ∈ pending st -> p_handle p <> h).
  { intros h [Hh _]%list_elem_of_In%filter_In p Hp ->%symmetry. apply list_elem_of_In in Hh.
    apply list_elem_of_fmap in Hh as ([h' c] & E & Hin). cbn in E. subst h'. apply elem_of_map_to_list in Hin.
    destruct (fi_fresh _ _ _ Hi p Hp) as (_ & Hn & _). congruence. }
  revert Hnp. generalize (List.filter (is_closed st) (map_to_list (active st)).*1). intros hs Hnp.
  assert (Hf : flows_inv T k (foldl (fun st h => remove_one h st) st hs)).
  { revert st Hi Hnp. induction hs as [|h hs IH]; intros st Hi Hnp; [done|]. cbn. apply IH.
    - apply remove_one_flows; [|done]. apply Hnp. by left.
    - intros h' Hh'. cbn. apply Hnp. by right. }
  by destruct Hf; split.
Qed.

Lemma poll_round_flows T k cs st st' :
  Z.of_nat (k + length (List.filter is_create cs)) < 2 ^ 32 - 1 ->
  poll_round cs st = Some (Ok st') -> flows_inv T k st ->
  flows_inv T (k + length (List.filter is_create cs)) st'.
Proof.
  intros Hk. unfold poll_round.
  destruct (drain_commands cs st) as [st1| |] eqn:H1; cbn; [|done..].
  pose proof (fun h => poll_keeps (net st1) (device_rx st1) h) as Hn.
  destruct (stack_poll (net st1) (device_rx st1)) as [[rx tx] n]. cbn in Hn.
  destruct (drain_tx tx _) as [st2| |] eqn:H2; cbn; [|done..].
  destruct (promote st2) as [st3| |] eqn:H3; cbn; [|done..].
  destruct (service_all _ st3) as [[st4| |]|] eqn:H4; intros [= <-] Hi.
  apply remove_closed_flows. eapply service_all_flows; [exact H4|]. eapply promote_all_flows; [done|exact H3|].
  eapply flows_inv_core; [by apply drain_tx_core in H2|].
  apply (flows_inv_core _ _ (set_net n st1)); [done|].
  apply flows_inv_net; [done|]. by eapply drain_commands_inv.
Qed.
(** A step of task [id], which becomes [t'] *)
Section step.
Context (T : gmap Z BridgeTask) (k : nat) (st : PollState N) (id : Z) (t' : BridgeTask).
Hypothesis Hinv : flows_inv T k st.
Hypothesis Hid : id < next_conn_id st.
Hypothesis Hheld : bt_held t' <> Some [].

Lemma step_tasks i t : <[id := t']> T !! i = Some t -> i < next_conn_id st /\ bt_held t <> Some [].
Proof using Hinv Hid Hheld. intros [[<- <-]|[_ Ht]]%lookup_insert_Some; [done|]. by apply Hinv. Qed.

Lemma step_gone : flow_of id (flows st) = None -> flows_inv (<[id := t']> T) k st.
Proof using Hinv Hid Hheld.
  intros Hno. destruct Hinv as [A1 A2 A3 A4 A5 A6 A7 A8 A9]. split; try done; [|exact step_tasks].
  intros h c r Hc Hr. rewrite lookup_insert_ne by (intros E; by eapply flow_of_none). eauto.
Qed.

Lemma step_open h (f : ActiveTcpConn -> ActiveTcpConn) (g : TcpFlowRecord -> TcpFlowRecord) st' :
  flow_of id (flows st) = Some h -> (forall r, r_conn_id (g r) = r_conn_id r) ->
  (forall tx c r, flow_ok (default new_task (T !! id)) tx c r -> flow_ok t' tx (f c) (g r)) ->
  thread_core st' = (net st, pending st, alter f h (active st), promoted st, alter g h (flows st), next_conn_id st) ->
  flows_inv (<[id := t']> T) k st'.
Proof using Hinv Hid Hheld.
  intros (r0 & Hr0 & Hid0)%flow_of_some Hg Hok Hcore.
  injection Hcore as E1 E2 E3 _ E5 E6. pose proof Hinv as [A1 A2 A3 A4 A5 A6 A7 A8 A9].
  assert (Hrec : forall h' x, alter g h (flows st) !! h' = Some x ->
    exists y, flows st !! h' = Some y /\ r_conn_id y = r_conn_id x).
  { intros h' x [(-> & y & Hy & ->)|[_ Hx]]%lookup_alter_Some; eauto. }
  split; rewrite ?E1, ?E2, ?E3, ?E5, ?E6; try done; [| | | | | |exact step_tasks].
  - intros p Hp. destruct (A2 p Hp) as (B1 & B2 & B3). split_and!; [done| |done].
    destruct (decide (h = p_handle p)) as [->|]; [by rewrite lookup_alter_eq, B2|by rewrite lookup_alter_ne].
  - intros h' [x [(-> & y & Hy & ->)|[_ Hx]]%lookup_alter_Some]; eauto.
  - intros h'. destruct (decide (h = h')) as [<-|]; [|by rewrite !lookup_alter_ne].
    rewrite !lookup_alter_eq, !fmap_None. apply A4.
  - intros h' c r Hc Hr. apply lookup_alter_Some in Hc as [(-> & c0 & Hc & ->)|[Hne Hc]];
      apply lookup_alter_Some in Hr as [(E & r1 & Hr & ->)|[Hne' Hr]]; try done.
    + replace r1 with r0 by congruence. rewrite Hg, Hid0, lookup_insert_eq. cbn. apply Hok. rewrite <- Hid0. eauto.
    + rewrite lookup_insert_ne; [eauto|]. intros E. apply Hne. apply (A7 _ _ _ _ Hr0 Hr). congruence.
  - intros h' x (y & Hy & <-)%Hrec. eauto.
  - intros h1 h2 x1 x2 (y1 & Hy1 & <-)%Hrec (y2 & Hy2 & <-)%Hrec He. eauto.
Qed.
End step.

Lemma read_ok tx c r t data now :
  bt_held t = None -> flow_ok t tx c r ->
  flow_ok {| bt_read := bt_read t ++ [data]; bt_held := Some data; bt_reading := true; bt_alive := bt_alive t |} tx c
    (add_read now (Z.of_nat (length data)) r).
Proof.
  intros Hh [B1 B2 [B3 B4] B5 (m & B6 & B7) B8 B9 B10]. unfold held_bytes, held_chunks in *. rewrite Hh in *. cbn in *.
  split; cbn; try done.
  - rewrite concat_app, B2. cbn. by rewrite !app_nil_r, <- app_assoc.
  - rewrite B3, B4, length_app, concat_app, length_app. autorewrite with capped. cbn. rewrite app_nil_r.
    by rewrite Nat.add_1_r.
  - exists m. rewrite length_app. cbn. split; [lia|done].
Qed.

Lemma sent_ok tx c r t data reading :
  bt_held t = Some data -> data <> [] -> flow_ok t tx c r ->
  flow_ok {| bt_read := bt_read t; bt_held := None; bt_reading := reading; bt_alive := bt_alive t |} tx
    (set_bridge (to_bridge c) (from_bridge c ++ [data]) (pending_from_bridge c) c) r.
Proof.
  intros Hh Hne [B1 B2 B3 B5 (m & B6 & B7) B8 B9 B10]. unfold held_bytes, held_chunks in *. rewrite Hh in *. cbn in *.
  split; cbn; try done.
  - rewrite B2. unfold outstanding. cbn. by rewrite concat_app, <- !app_assoc; cbn; rewrite !app_nil_r.
  - exists m. rewrite length_app. cbn. split; [lia|done].
  - apply Forall_app. auto.
Qed.

(** A task that ends has read what it had read. *)
Lemma ended_ok tx c r t reading alive alive' :
  flow_ok t tx c r -> (alive' = true -> bridge_alive c = true) ->
  flow_ok {| bt_read := bt_read t; bt_held := bt_held t; bt_reading := reading; bt_alive := alive |} tx
    (set_alive alive' c) r.
Proof.
  intros [B1 B2 B3 B5 B6 (m & B7 & B8 & B9) B10 B11] Ha. split; cbn; try done. exists m. auto.
Qed.

Lemma read_step_inv T k st id data now t :
  flows_inv T k st -> id < next_conn_id st -> default new_task (T !! id) = t -> bt_held t = None -> data <> [] ->
  flows_inv (<[id := {| bt_read := bt_read t ++ [data]; bt_held := Some data; bt_reading := true;
                        bt_alive := bt_alive t |}]> T) k
    (set_flows (record_read id now (Z.of_nat (length data)) (flows st)) st).
Proof.
  intros Hi Hl <- Hh Hd. unfold record_read. destruct (flow_of id (flows st)) as [h|] eqn:Hf.
  - unshelve eapply (step_open T k st id _ Hi Hl _ h (fun c => c) (add_read now (Z.of_nat (length data))));
      [cbn; congruence|done|done|intros tx c r; by apply read_ok|]. unfold thread_core. cbn. by rewrite alter_same.
  - apply (flows_inv_core _ _ st); [done|]. by apply step_gone; [| |cbn; congruence|].
Qed.

Lemma send_step_inv T k st id data t h :
  flows_inv T k st -> T !! id = Some t -> bt_held t = Some data -> flow_of id (flows st) = Some h ->
  flows_inv (<[id := {| bt_read := bt_read t; bt_held := None; bt_reading := bt_reading t;
                        bt_alive := bt_alive t |}]> T) k (bridge_push h data st).
Proof.
  intros Hi Ht Hh Hf. destruct (fi_tasks _ _ _ Hi _ _ Ht) as [Hl Hne].
  unshelve eapply (step_open T k st id _ Hi Hl _ h
    (fun c => set_bridge (to_bridge c) (from_bridge c ++ [data]) (pending_from_bridge c) c) (fun r => r)); [done..| |].
  - intros tx c r Hr. rewrite Ht in Hr. apply sent_ok; [done| |done]. congruence.
  - unfold thread_core. cbn. by rewrite alter_same.
Qed.

(** What a task leaves unsent when it is done *)
Lemma held_nonempty T k st id : flows_inv T k st -> bt_held (default new_task (T !! id)) <> Some [].
Proof. intros Hi. destruct (T !! id) as [t|] eqn:Ht; [|done]. by apply (fi_tasks _ _ _ Hi _ _ Ht). Qed.

Lemma reader_end_inv T k st id t reading :
  flows_inv T k st -> id < next_conn_id st -> default new_task (T !! id) = t ->
  flows_inv (<[id := {| bt_read := bt_read t; bt_held := bt_held t; bt_reading := reading;
                        bt_alive := bt_alive t |}]> T) k st.
Proof.
  intros Hi Hl <-. pose proof (held_nonempty T k st id Hi) as Hne.
  destruct (flow_of id (flows st)) as [h|] eqn:Hf; [|by apply step_gone].
  unshelve eapply (step_open T k st id _ Hi Hl _ h (fun c => c) (fun r => r)); [exact Hne|done|done| |].
  - intros tx c r Hr. destruct c. by apply (ended_ok _ _ _ _ reading (bt_alive (default new_task (T !! id))) _ Hr).
  - unfold thread_core. by rewrite !alter_same.
Qed.

Lemma bridge_end_inv T k st id t :
  flows_inv T k st -> id < next_conn_id st -> default new_task (T !! id) = t ->
  flows_inv (<[id := {| bt_read := bt_read t; bt_held := bt_held t; bt_reading := false; bt_alive := false |}]> T) k
    (end_bridge id st).
Proof.
  intros Hi Hl <-. pose proof (held_nonempty T k st id Hi) as Hne. unfold end_bridge.
  destruct (flow_of id (flows st)) as [h|] eqn:Hf; [|by apply step_gone].
  unshelve eapply (step_open T k st id _ Hi Hl _ h (set_alive false) (fun r => r)); [exact Hne|done|done| |].
  - intros tx c r Hr. by apply (ended_ok _ _ _ _ false false false Hr).
  - unfold thread_core. cbn. by rewrite alter_same.
Qed.

Lemma flow_exec_inv e (s s' : TcpFlows N) :
  Z.of_nat (fl_created s') < 2 ^ 32 - 1 -> flow_exec e s = Some s' ->
  flows_inv (fl_tasks s) (fl_created s) (fl_poll s) -> flows_inv (fl_tasks s') (fl_created s') (fl_poll s').
Proof.
  intros Hk He Hi.
  assert (Hlt : forall id, spawned id s = true -> id < next_conn_id (fl_poll s)).
  { unfold spawned. intros id [_ ?%Z.ltb_lt]%andb_true_iff. done. }
  destruct e as [cs|id data now|id|id|id]; cbn [flow_exec] in He.
  - destruct (poll_round cs (fl_poll s)) as [[st1| |]|] eqn:Hr; [|done..]. injection He as <-.
    by apply (poll_round_flows _ _ cs (fl_poll s)).
  - destruct (_ && _) eqn:Hg; [|done]. injection He as <-. rewrite !andb_true_iff, !bool_decide_eq_true in Hg.
    destruct Hg as [[[[Hsp _] Hh] Hd] _]. by apply read_step_inv; auto.
  - unfold task in He. destruct (fl_tasks s !! id) as [t|] eqn:Ht; [|done]. cbn in He.
    destruct (bt_held t) as [data|] eqn:Hh; [|done].
    destruct (flow_of id (flows (fl_poll s))) as [h|] eqn:Hf; injection He as <-.
    + by apply send_step_inv.
    + apply step_gone; [done|by apply (fi_tasks _ _ _ Hi _ _ Ht)|done..].
  - destruct (_ && _) eqn:Hg; [|done]. injection He as <-. rewrite !andb_true_iff, !bool_decide_eq_true in Hg.
    destruct Hg as [[Hsp _] Hh]. rewrite <- Hh. by apply reader_end_inv; auto.
  - destruct (_ && _) eqn:Hg; [|done]. injection He as <-. apply andb_true_iff in Hg as [Hsp _].
    by apply bridge_end_inv; auto.
Qed.

Lemma flow_exec_created e (s s' : TcpFlows N) : flow_exec e s = Some s' -> (fl_created s <= fl_created s')%nat.
Proof.
  destruct e; cbn [flow_exec]; repeat case_match; intros He; try done; injection He as <-; cbn [fl_created put_task]; lia.
Qed.

Lemma flow_run_created es (s s' : TcpFlows N) : flow_run es s = Some s' -> (fl_created s <= fl_created s')%nat.
Proof.
  revert s. induction es as [|e es IH]; intros s; cbn; [by intros [= <-]|].
  destruct (flow_exec e s) as [s1|] eqn:He; cbn; [|done]. intros Hr%IH. apply flow_exec_created in He. lia.
Qed.

Lemma flow_run_inv es (s s' : TcpFlows N) :
  Z.of_nat (fl_created s') < 2 ^ 32 - 1 -> flow_run es s = Some s' ->
  flows_inv (fl_tasks s) (fl_created s) (fl_poll s) -> flows_inv (fl_tasks s') (fl_created s') (fl_poll s').
Proof.
  intros Hk. revert s. induction es as [|e es IH]; intros s; cbn [flow_run]; [by intros [= <-]|].
  destruct (flow_exec e s) as [s1|] eqn:He; cbn [mbind option_bind]; [|done]. intros Hr Hi.
  apply (IH s1 Hr). eapply flow_exec_inv; [|exact He|exact Hi]. apply flow_run_created in Hr. lia.
Qed.

Lemma flow_start_inv n : flows_inv (fl_tasks (flow_start n)) 0 (fl_poll (flow_start n)).
Proof.
  split; cbn; try done.
  - apply NoDup_nil_2.
  - by intros p ?%elem_of_nil.
  - by intros h [? ?].
Qed.

Lemma flow_run_ok es n (s : TcpFlows N) :
  flow_run es (flow_start n) = Some s -> Z.of_nat (fl_created s) < 2 ^ 32 - 1 ->
  flows_inv (fl_tasks s) (fl_created s) (fl_poll s).
Proof. intros Hr Hk. eapply flow_run_inv; [done|exact Hr|apply flow_start_inv]. Qed.

Lemma snapshot_rows T k st sid now : flows_inv T k st -> length (tcp_snapshot sid now (flows st)) = size (active st).
Proof.
  intros Hi. unfold tcp_snapshot. rewrite length_fmap, length_map_to_list. rewrite <- !size_dom. f_equal.
  apply set_eq. intros h. rewrite !elem_of_dom, <- !not_eq_None_Some, (fi_records _ _ _ Hi h). done.
Qed.
End invariant.

(** ** What the end of a remote changes *)

(** A connection and a state without what only the bridge task sees *)
Definition erase_conn (c : ActiveTcpConn) : ActiveTcpConn :=
  set_alive true (set_bridge [] (from_bridge c) (pending_from_bridge c) c).

Section erasure.
Context {N : Type} `{Stack N}.
Implicit Types (st : PollState N) (c : ActiveTcpConn).

Definition erase st : PollState N := set_conns (pending st) (erase_conn <$> active st) (promoted st) st.

Definition erase_out {A} (f : A -> A) (o : panicky A) : panicky A :=
  match o with Ok a => Ok (f a) | Err e => Err e | Panic => Panic end.

Lemma erase_out_bind (o o' : panicky (PollState N)) (f f' : PollState N -> panicky (PollState N)) :
  o' = erase_out erase o -> (forall st, f' (erase st) = erase_out erase (f st)) ->
  mbind f' o' = erase_out erase (mbind f o).
Proof. intros -> Hf. by destruct o; cbn. Qed.

Lemma erase_tuples (m : gmap nat ActiveTcpConn) : active_tuples (erase_conn <$> m) = active_tuples m.
Proof. unfold active_tuples. by rewrite map_to_list_fmap, <- !list_fmap_compose. Qed.

Lemma erase_keys (m : gmap nat ActiveTcpConn) : (map_to_list (erase_conn <$> m)).*1 = (map_to_list m).*1.
Proof. by rewrite map_to_list_fmap, <- list_fmap_compose. Qed.

Lemma erase_twice (m : gmap nat ActiveTcpConn) : erase_conn <$> (erase_conn <$> m) = erase_conn <$> m.
Proof. by rewrite <- map_fmap_compose. Qed.

Lemma erase_commands cs st : drain_commands cs (erase st) = erase_out erase (drain_commands cs st).
Proof.
  revert st. induction cs as [|c cs IH]; intros st; [done|]. cbn [drain_commands].
  apply erase_out_bind; [|exact IH]. destruct c as [pkt|port odst csrc cport]; cbn [poll_command].
  - destruct (parse_ipv4_tcp_tuple_flags pkt) as [x| |]; try done. cbn. by destruct (is_rst x).
  - cbn [net erase set_conns]. by destruct (stack_listen (net st) port) as [[h n]|].
Qed.

Lemma erase_transmit pkt st : transmit_packet pkt (erase st) = erase_out erase (transmit_packet pkt st).
Proof.
  unfold transmit_packet. case_bool_decide; [done|].
  destruct (index pkt 0) as [b0| |]; try done. cbn [mbind outcome_bind]. destruct (negb _); [done|].
  destruct (parse_ipv4_tcp_tuple_flags pkt) as [t| |]; try done. cbn [mbind outcome_bind].
  destruct (ipv4_at pkt 16) as [ip| |]; try done. cbn [mbind outcome_bind]. case_bool_decide; [done|].
  destruct (be16_at pkt 20) as [sp| |]; try done. cbn [mbind outcome_bind]. case_bool_decide; [done|].
  destruct (be16_at pkt 22) as [dp| |]; try done. cbn [mbind outcome_bind active pending erase set_conns].
  rewrite erase_tuples. unfold emit_packet.
  destruct (lookup_tuple ip dp sp (active_tuples (active st))) as [|o|];
    [|by destruct (is_rst t), (rewrite_src_ip_outbound pkt o)|done].
  destruct (lookup_tuple ip dp sp (pending_tuple <$> pending st)) as [|o|];
    [by destruct (is_rst t)|by destruct (is_rst t), (rewrite_src_ip_outbound pkt o)|done].
Qed.

Lemma erase_drain pkts st : drain_tx pkts (erase st) = erase_out erase (drain_tx pkts st).
Proof.
  revert st. induction pkts as [|p pkts IH]; intros st; [done|]. cbn [drain_tx].
  apply erase_out_bind; [apply erase_transmit|exact IH].
Qed.

Lemma erase_promote_one idx st : promote_one idx (erase st) = erase_out erase (promote_one idx st).
Proof.
  unfold promote_one. cbn [pending active erase set_conns]. destruct (index (pending st) idx) as [p| |]; try done.
  cbn [mbind outcome_bind]. unfold tuple_conflict. rewrite erase_tuples. destruct (existsb _ _); [done|].
  cbn [erase_out]. unfold erase. cbn. by rewrite fmap_insert.
Qed.

Lemma erase_promote st : promote (erase st) = erase_out erase (promote st).
Proof.
  unfold promote. change (newly_established (erase st)) with (newly_established st).
  generalize (rev (newly_established st)) as idxs. intros idxs. revert st.
  induction idxs as [|i idxs IH]; intros st; [done|]. cbn [promote_all].
  apply erase_out_bind; [apply erase_promote_one|exact IH].
Qed.

Definition erase_served (x : N * ActiveTcpConn * gmap nat TcpFlowRecord) : N * ActiveTcpConn * gmap nat TcpFlowRecord :=
  let '(n, c, fl) := x in (n, erase_conn c, fl).

(** Sending from chunk [p], the channel holding [fb] *)
Definition send_chunk fuel h n c (p : PendingBridgeBytes) fb fl :
    option (panicky (N * ActiveTcpConn * gmap nat TcpFlowRecord)) :=
  match pb_remaining p with
  | Ok data =>
      let (r, n) := sock_send_slice n h data in
      match r with
      | None | Some O => Some (Ok (n, set_bridge (to_bridge c) fb (Some p) c, fl))
      | Some written =>
          let p := {| pb_bytes := pb_bytes p; pb_offset := pb_offset p + written |} in
          let fl := add_flow h (sys_now n) 0 0 0 (Z.of_nat written) fl in
          service_send fuel h n (set_bridge (to_bridge c) fb (if pb_is_complete p then None else Some p) c) fl
      end
  | Err e => Some (Err e)
  | Panic => Some Panic
  end.

Lemma erase_chunk fuel h n c p fb fl
  (IH : forall n c fl, service_send fuel h n (erase_conn c) fl = erase_out erase_served <$> service_send fuel h n c fl) :
  send_chunk fuel h n (erase_conn c) p fb fl = erase_out erase_served <$> send_chunk fuel h n c p fb fl.
Proof.
  unfold send_chunk. destruct (pb_remaining p) as [data| |]; [|done..].
  destruct (sock_send_slice n h data) as [[[|w]|] n1]; [done| |done]. cbv zeta. rewrite <- IH. done.
Qed.

Lemma erase_send fuel h n c fl :
  service_send fuel h n (erase_conn c) fl = erase_out erase_served <$> service_send fuel h n c fl.
Proof.
  revert n c fl. induction fuel as [|fuel IH]; intros n c fl; [done|]. cbn [service_send].
  destruct (sock_can_send n h); cbn [negb]; [|done].
  change (pending_from_bridge (erase_conn c)) with (pending_from_bridge c).
  change (from_bridge (erase_conn c)) with (from_bridge c).
  destruct (pending_from_bridge c) as [p|].
  - destruct (pb_is_complete p); [rewrite <- IH; done|by apply (erase_chunk fuel h n c)].
  - destruct (from_bridge c) as [|[|b0 b] fb]; [done|rewrite <- IH; done|].
    destruct (pb_is_complete _); [rewrite <- IH; done|by apply (erase_chunk fuel h n c)].
Qed.

Lemma erase_recv h n c fl :
  erase_served (service_recv h n (erase_conn c) fl) = erase_served (service_recv h n c fl).
Proof. unfold service_recv. destruct (sock_can_recv n h); [|done]. by destruct (sock_recv n h) as [[|x data] n1]. Qed.

Definition erase_opt (o : option (panicky (PollState N))) := erase_out erase <$> o.

Lemma erase_service_one h st : erase_opt (service_one h (erase st)) = erase_opt (service_one h st).
Proof.
  unfold service_one. cbn [active net flows erase set_conns]. rewrite lookup_fmap.
  destruct (active st !! h) as [c|]; cbn [fmap option_fmap option_map]; [|done].
  pose proof (erase_recv h (net st) c (flows st)) as Hr.
  destruct (service_recv h (net st) (erase_conn c) (flows st)) as [[n1 c1] fl1],
    (service_recv h (net st) c (flows st)) as [[n2 c2] fl2]. unfold erase_served in Hr.
  assert (n1 = n2 /\ fl1 = fl2 /\ erase_conn c1 = erase_conn c2) as (-> & -> & Hc) by (split_and!; congruence).
  pose proof (erase_send (service_fuel c1) h n2 c1 fl2) as H1.
  pose proof (erase_send (service_fuel c2) h n2 c2 fl2) as H2.
  change (service_fuel c1) with (service_fuel (erase_conn c1)) in H1 |- *.
  change (service_fuel c2) with (service_fuel (erase_conn c2)) in H2 |- *.
  rewrite Hc in H1 |- *. rewrite H1 in H2.
  destruct (service_send _ h n2 c1 fl2) as [[[[n3 c3] fl3]| |]|], (service_send _ h n2 c2 fl2) as [[[[n4 c4] fl4]| |]|];
    cbn [erase_out fmap option_fmap option_map] in H2; try done. unfold erase_served in H2.
  assert (n3 = n4 /\ fl3 = fl4 /\ erase_conn c3 = erase_conn c4) as (-> & -> & Hc3) by (split_and!; congruence).
  unfold erase_opt, erase. cbn. by rewrite !fmap_insert, erase_twice, Hc3.
Qed.

Lemma erase_service_all hs st st' :
  erase st = erase st' -> erase_opt (service_all hs st) = erase_opt (service_all hs st').
Proof.
  revert st st'. induction hs as [|h hs IH]; intros st st' He; [cbn; by rewrite He|]. cbn [service_all].
  assert (Hone : erase_opt (service_one h st) = erase_opt (service_one h st'))
    by by rewrite <- (erase_service_one h st), <- (erase_service_one h st'), He.
  destruct (service_one h st) as [[st1| |]|], (service_one h st') as [[st1'| |]|]; try done.
  apply IH. unfold erase_opt in Hone. cbn in Hone. congruence.
Qed.

Lemma erase_remove_closed st : remove_closed (erase st) = erase (remove_closed st).
Proof.
  unfold remove_closed. cbn [active erase set_conns]. rewrite erase_keys.
  change (is_closed (erase st)) with (is_closed st).
  generalize (List.filter (is_closed st) (map_to_list (active st)).*1). intros hs.
  assert (Hf : forall st, foldl (fun st h => remove_one h st) (erase st) hs =
    erase (foldl (fun st h => remove_one h st) st hs)).
  { induction hs as [|h hs IH]; intros st0; [done|]. cbn [foldl]. rewrite <- IH. f_equal.
    unfold remove_one, erase. cbn. by rewrite fmap_delete. }
  rewrite Hf. unfold erase. cbn. by rewrite dom_fmap_L.
Qed.

(** A round does the same for the client whatever the bridge tasks have seen and whether they live. *)
Lemma erase_round cs st st' :
  erase st = erase st' -> erase_opt (poll_round cs st) = erase_opt (poll_round cs st').
Proof.
  intros He. cut (forall st, erase_opt (poll_round cs (erase st)) = erase_opt (poll_round cs st)).
  { intros Hc. by rewrite <- (Hc st), <- (Hc st'), He. }
  clear. intros st. unfold poll_round. rewrite erase_commands.
  destruct (drain_commands cs st) as [st1| |]; try done. cbn [erase_out mbind outcome_bind].
  change (net (erase st1)) with (net st1). change (device_rx (erase st1)) with (device_rx st1).
  destruct (stack_poll (net st1) (device_rx st1)) as [[rx tx] n].
  change (set_device_rx rx (set_net n (erase st1))) with (erase (set_device_rx rx (set_net n st1))).
  rewrite erase_drain. destruct (drain_tx tx _) as [st2| |]; try done. cbn [erase_out mbind outcome_bind].
  rewrite erase_promote. destruct (promote st2) as [st3| |]; try done. cbn [erase_out mbind outcome_bind].
  cbn [active erase set_conns]. rewrite erase_keys. fold (erase st3).
  assert (Hall : erase_opt (service_all (map_to_list (active st3)).*1 (erase st3)) =
    erase_opt (service_all (map_to_list (active st3)).*1 st3)).
  { apply erase_service_all. unfold erase. cbn. by rewrite erase_twice. }
  destruct (service_all _ (erase st3)) as [[st4| |]|], (service_all _ st3) as [[st4'| |]|]; try done.
  unfold erase_opt in *. cbn in *. assert (Hs : erase st4 = erase st4') by congruence.
  by rewrite <- !erase_remove_closed, Hs.
Qed.

(** ** Runs with and without the ends *)

Implicit Types s : TcpFlows N.

Record alike s1 s2 : Prop := {
  al_poll : erase (fl_poll s1) = erase (fl_poll s2);
  al_created : fl_created s1 = fl_created s2;
  al_tasks : forall id, bt_read (task s1 id) = bt_read (task s2 id) /\ bt_held (task s1 id) = bt_held (task s2 id) /\
    (bt_reading (task s1 id) = true -> bt_reading (task s2 id) = true)
}.

Lemma erase_alter (f : ActiveTcpConn -> ActiveTcpConn) h (m m' : gmap nat ActiveTcpConn) :
  (forall c c', erase_conn c = erase_conn c' -> erase_conn (f c) = erase_conn (f c')) ->
  erase_conn <$> m = erase_conn <$> m' -> erase_conn <$> alter f h m = erase_conn <$> alter f h m'.
Proof.
  intros Hf Hm. apply map_eq. intros i. assert (Hi := f_equal (lookup i) Hm). rewrite !lookup_fmap in Hi |- *.
  destruct (decide (h = i)) as [->|]; [rewrite !lookup_alter_eq|by rewrite !lookup_alter_ne].
  destruct (m !! i), (m' !! i); try done. cbn in *. f_equal. apply Hf. congruence.
Qed.

Lemma erase_push h data st st' : erase st = erase st' -> erase (bridge_push h data st) = erase (bridge_push h data st').
Proof.
  intros He. assert (Ha := f_equal active He). cbn in Ha.
  assert (Hp : erase (bridge_push h data (erase st)) = erase (bridge_push h data (erase st'))) by by rewrite He.
  unfold bridge_push, erase in Hp |- *. cbn in Hp |- *.
  assert (Hx : forall m : gmap nat ActiveTcpConn,
    erase_conn <$> alter (fun c => set_bridge (to_bridge c) (from_bridge c ++ [data]) (pending_from_bridge c) c) h m =
    erase_conn <$> alter (fun c => set_bridge (to_bridge c) (from_bridge c ++ [data]) (pending_from_bridge c) c) h (erase_conn <$> m)).
  { intros m. apply erase_alter; [|by rewrite erase_twice].
    intros c c' Hc. unfold erase_conn, set_bridge, set_alive in *. cbn in *. congruence. }
  rewrite (Hx (active st)), (Hx (active st')). exact Hp.
Qed.

Lemma erase_end id st : erase (end_bridge id st) = erase st.
Proof.
  unfold end_bridge. destruct (flow_of id (flows st)) as [h|]; [|done]. unfold erase. cbn.
  replace (erase_conn <$> alter (set_alive false) h (active st)) with (erase_conn <$> active st); [done|].
  apply map_eq. intros i. rewrite !lookup_fmap. destruct (decide (h = i)) as [->|]; [|by rewrite lookup_alter_ne].
  rewrite lookup_alter_eq. by destruct (active st !! i).
Qed.

Lemma task_set s id t st i : task (put_task id t st s) i = if decide (i = id) then t else task s i.
Proof.
  unfold task. cbn. case_decide; subst; [by rewrite lookup_insert_eq|by rewrite lookup_insert_ne].
Qed.

Lemma alike_set s1 s2 id t1 t2 st1 st2 :
  alike s1 s2 -> erase st1 = erase st2 -> bt_read t1 = bt_read t2 -> bt_held t1 = bt_held t2 ->
  (bt_reading t1 = true -> bt_reading t2 = true) -> alike (put_task id t1 st1 s1) (put_task id t2 st2 s2).
Proof.
  intros [A1 A2 A3] He Hr Hh Hre. split; [done|done|]. intros i. rewrite !task_set. by case_decide.
Qed.

Lemma alike_left s1 s2 id t st :
  alike s1 s2 -> erase st = erase (fl_poll s1) -> bt_read t = bt_read (task s1 id) ->
  bt_held t = bt_held (task s1 id) -> bt_reading t = false -> alike (put_task id t st s1) s2.
Proof.
  intros [A1 A2 A3] He Hr Hh Hre. split; [cbn; by rewrite He|done|]. intros i. rewrite task_set.
  case_decide; [subst i|done]. rewrite Hr, Hh, Hre. by destruct (A3 id) as (? & ? & _).
Qed.

Lemma alike_end e s1 s1' s2 : is_end e = true -> flow_exec e s1 = Some s1' -> alike s1 s2 -> alike s1' s2.
Proof.
  intros He Hx Ha. destruct e as [| | |id|id]; try done; cbn [flow_exec] in Hx; destruct (_ && _) eqn:Hg; try done;
    injection Hx as <-; apply alike_left; try done; [|apply erase_end].
  by apply andb_true_iff in Hg as [_ ->%bool_decide_eq_true].
Qed.

Lemma alike_step e s1 s1' s2 :
  is_end e = false -> flow_exec e s1 = Some s1' -> alike s1 s2 ->
  exists s2', flow_exec e s2 = Some s2' /\ alike s1' s2'.
Proof.
  intros He Hx Ha. pose proof Ha as [A1 A2 A3].
  assert (Hfl : flows (fl_poll s2) = flows (fl_poll s1)) by exact (eq_sym (f_equal flows A1)).
  assert (Hnx : next_conn_id (fl_poll s2) = next_conn_id (fl_poll s1)) by exact (eq_sym (f_equal next_conn_id A1)).
  destruct e as [cs|id data now|id|id|id]; try done; cbn [flow_exec] in Hx |- *.
  - assert (Hr := erase_round cs _ _ A1).
    destruct (poll_round cs (fl_poll s1)) as [[st1| |]|]; try done. injection Hx as <-.
    destruct (poll_round cs (fl_poll s2)) as [[st2| |]|]; try done. eexists. split; [done|].
    split; [unfold erase_opt in Hr; cbn in Hr; cbn; congruence|cbn; by rewrite A2|exact A3].
  - destruct (A3 id) as (B1 & B2 & B3). destruct (_ && _) eqn:Hg; [|done]. injection Hx as <-.
    unfold spawned in *. rewrite Hnx, <- B2. rewrite !andb_true_iff in Hg. destruct Hg as [[[[Hsp Hre] Hh] Hd] Hl].
    rewrite (B3 Hre), Hh, Hd, Hl. destruct Hsp as [-> ->]. eexists. split; [done|].
    apply alike_set; cbn; try done; [|by rewrite B1].
    rewrite Hfl. by apply (f_equal (set_flows (record_read id now (Z.of_nat (length data)) (flows (fl_poll s1))))) in A1.
  - destruct (A3 id) as (B1 & B2 & B3). rewrite <- B2, Hfl. destruct (bt_held (task s1 id)) as [data|]; [|done].
    destruct (flow_of id (flows (fl_poll s1))) as [h|]; injection Hx as <-; eexists; (split; [done|]);
      apply alike_set; cbn; try done; by apply erase_push.
Qed.

Lemma alike_run es s1 s1' s2 :
  flow_run es s1 = Some s1' -> alike s1 s2 ->
  exists s2', flow_run (List.filter (fun e => negb (is_end e)) es) s2 = Some s2' /\ alike s1' s2'.
Proof.
  revert s1 s2. induction es as [|e es IH]; intros s1 s2; cbn [flow_run List.filter]; [intros [= <-]; eauto|].
  destruct (flow_exec e s1) as [s|] eqn:Hx; cbn [mbind option_bind]; [|done]. intros Hr Ha.
  destruct (is_end e) eqn:He; cbn [negb].
  - apply (IH s); [done|]. by eapply alike_end.
  - destruct (alike_step e s1 s s2 He Hx Ha) as (s2' & Hx2 & Ha2). cbn [flow_run]. rewrite Hx2. by apply (IH s).
Qed.
End erasure.

(** * Properties *)

(** C7: the bytes of a remote and the statistics of its connection.  However the rounds of the thread and the
    steps of the bridge tasks interleave, as long as fewer than 2^32 - 1 sockets were asked for: each active
    connection has one record, with its addresses and a number no other has; what its task has read so far is what
    its socket has accepted, then what the thread still owes the socket, then the chunk the task is about to send,
    so nothing is lost, repeated, reordered or mixed with another connection; and the record counts exactly
    the chunks and bytes read, those given to the socket, and those sent to the remote while its task lives, up to
    the limit of the counters.  The status page has a row for each active connection. *)
Theorem tcp_streams_whole {N} `{Stack N} `{!StackLaws N sock_tx} `{!SocketSetLaws N sock_tx sock_in}
    (n : N) (es : list flow_step) (s : TcpFlows N) (sid now : Z) :
  flow_run es (flow_start n) = Some s -> Z.of_nat (fl_created s) < 2 ^ 32 - 1 ->
  let st := fl_poll s in
  length (tcp_snapshot sid now (flows st)) = size (active st) /\
  (forall h h' r r', flows st !! h = Some r -> flows st !! h' = Some r' -> r_conn_id r = r_conn_id r' -> h = h') /\
  forall h c, active st !! h = Some c -> exists r k,
    flows st !! h = Some r /\
    (r_src_ip r, r_src_port r, r_dst_ip r, r_dst_port r) =
      (a_client_src_ip c, a_client_src_port c, a_original_dst_ip c, a_dst_port c) /\
    let t := task s (r_conn_id r) in
    concat (bt_read t) = sock_tx (net st) h ++ outstanding c ++ held_bytes t /\
    r_bridge_read_bytes r = capped (length (concat (bt_read t))) /\
    r_bridge_read_chunks r = capped (length (bt_read t)) /\
    r_bridge_to_smoltcp_bytes r = capped (length (sock_tx (net st) h)) /\
    length (bt_read t) = (k + length (from_bridge c) + held_chunks t)%nat /\
    r_bridge_to_smoltcp_chunks r = capped k /\ r_remote_to_client r = capped k /\
    (bridge_alive c = true -> r_client_to_remote r = capped (length (to_bridge c))).
Proof.
  intros Hr Hk st. pose proof (flow_run_ok es n s Hr Hk) as Hi.
  split_and!; [by eapply snapshot_rows|apply Hi|]. intros h c Hc.
  destruct (flows st !! h) as [r|] eqn:Hf; [|apply (fi_records _ _ _ Hi) in Hf; fold st in Hf; congruence].
  destruct (fi_flow _ _ _ Hi _ _ _ Hc Hf) as [B1 B2 [B3 B4] B5 (k & B6 & B7 & B8) (m & B9 & _ & B10) _ _].
  exists r, k. injection B1 as -> -> -> ->. cbv zeta. split_and!; try done. intros Ha. by rewrite B9, (B10 Ha).
Qed.

(** C39: the end of a remote connection never reaches the client.  Whatever happens, the client gets the very same
    packets, and the stack keeps the very same sockets, connections and statistics, as if no bridge task had ever
    failed to connect, seen its remote close or reset the connection, or failed to write: no socket is closed or
    reset on behalf of a remote, so that a client whose server has closed waits for more, and one whose server
    refused the connection has an open one. *)
Theorem remote_end_invisible {N} `{Stack N} (n : N) (es : list flow_step) (s : TcpFlows N) :
  flow_run es (flow_start n) = Some s ->
  exists s', flow_run (List.filter (fun e => negb (is_end e)) es) (flow_start n) = Some s' /\
    outbound_frames (fl_poll s') = outbound_frames (fl_poll s) /\ net (fl_poll s') = net (fl_poll s) /\
    dom (active (fl_poll s')) = dom (active (fl_poll s)) /\ flows (fl_poll s') = flows (fl_poll s) /\
    pending (fl_poll s') = pending (fl_poll s).
Proof.
  intros Hr. destruct (alike_run es (flow_start n) s (flow_start n) Hr) as (s' & Hr' & [A _ _]); [by split|].
  exists s'. split; [done|]. assert (Ha := f_equal active A). cbn in Ha. apply (f_equal dom) in Ha.
  rewrite !dom_fmap_L in Ha.
  split_and!; symmetry; [exact (f_equal outbound_frames A)|exact (f_equal net A)|exact Ha|exact (f_equal flows A)|
    exact (f_equal pending A)].
Qed.

(** * Witnesses *)

Module Sample.
#[local] Instance toy_set : SocketSetLaws toy_net toy_tx (fun n h => (h < toy_next n)%nat).
Proof.
  split; cbn; unfold toy_tx; cbn.
  - intros n port h n' [= <- <-]. cbn. rewrite lookup_delete_eq. split_and!; [lia|lia|done].
  - intros n port h n' h' [= <- <-] Hne. cbn. rewrite lookup_delete_ne by done. split; [done|lia].
  - done.
  - done.
  - intros n h data h'. split; [|done]. intros Hne. by rewrite lookup_insert_ne.
  - done.
Qed.

(** A connection; its remote sends seven bytes, which the socket takes, then one more, and closes. *)
Definition toy_steps : list flow_step :=
  [ThreadRound [CreateTcpSocket 443 (1, 1, 1, 1) (10, 8, 0, 2) 5000]; ReaderRead 1 [1; 2; 3; 4; 5; 6; 7] 5;
   ReaderSend 1; ThreadRound []; ReaderRead 1 [8] 6; ReaderSend 1; ReaderEnds 1; BridgeEnds 1].

Definition toy_flows : TcpFlows toy_net :=
  default (flow_start {| toy_next := 0; toy_sent := ∅ |}) (flow_run toy_steps (flow_start {| toy_next := 0; toy_sent := ∅ |})).

Lemma toy_flows_run : flow_run toy_steps (flow_start {| toy_next := 0; toy_sent := ∅ |}) = Some toy_flows.
Proof. vm_compute. reflexivity. Qed.

Lemma tcp_streams_whole_witness :
  exists r, flows (fl_poll toy_flows) !! 0%nat = Some r /\
    concat (bt_read (task toy_flows (r_conn_id r))) = [1; 2; 3; 4; 5; 6; 7] ++ [8] /\
    r_bridge_read_bytes r = 8 /\ r_bridge_to_smoltcp_bytes r = 7.
Proof.
  destruct (active (fl_poll toy_flows) !! 0%nat) as [c|] eqn:Hc; [|by vm_compute in Hc].
  destruct (tcp_streams_whole _ toy_steps toy_flows 9 10 toy_flows_run ltac:(vm_compute; reflexivity)) as (_ & _ & Ha).
  destruct (Ha 0%nat c Hc) as (r & k & Hr & _ & Hs & Hb & _ & Hw & _). exists r.
  rewrite Hb, Hw, Hs. vm_compute in Hr. injection Hr as <-. vm_compute in Hc. injection Hc as <-.
  split_and!; vm_compute; reflexivity.
Defined.

(** The client of the connection whose remote has closed still has it. *)
Lemma remote_end_invisible_witness :
  exists s', flow_run (List.filter (fun e => negb (is_end e)) toy_steps)
      (flow_start {| toy_next := 0; toy_sent := ∅ |}) = Some s' /\
    dom (active (fl_poll s')) = {[0%nat]}.
Proof.
  destruct (remote_end_invisible _ toy_steps toy_flows toy_flows_run) as (s' & Hr & _ & _ & Hd & _).
  exists s'. split; [exact Hr|]. rewrite Hd. vm_compute. reflexivity.
Defined.
End Sample.
