(* ===== verification/Startup.v ===== *)
(** Configuration and start-up of the server: [ServerSection] with its defaults
    ([src/crates/bonded-core/src/config.rs]) and [main] with the functions that prepare its state
    ([src/crates/bonded-server/src/main.rs]).  The certificate libraries are arguments. *)

From stdpp Require Import base tactics list gmap strings pretty.
From Stdlib Require Import ZArith Lia.
From S2P Require Import Prelude Words Text Auth Stores AuthHandshake WgServer Pcap NetworkRuntime.
Open Scope Z_scope.

(** * Definitions *)

(** ** Configuration *)

Record ServerSection := {
  hostname : string;
  https_bind : string;
  https_public : Z;
  tls_cert_file : string;
  tls_key_file : string;
  wireguard_bind : option string;
  wireguard_public : option Z;
  wireguard_key_file : option string;
  wireguard_peers_file : option string;
  wireguard_peer_lease_secs : Z;
  tcp_bind : option string;
  tcp_public : option Z;
  status_bind : string;
  health_bind : string;
  log_level : string;
  forwarding_mode : string;
  tun_name : string;
  tun_cidr : string;
  tun_mtu : Z;
  tun_egress_interface : string;
  authorized_keys_file : string;
  invite_tokens_file : string;
  identity_key_file : string;
  acme_domain : option string;
  acme_email : option string;
  acme_staging : bool
}.

Definition DEFAULT_AUTHORIZED_KEYS_PATH : string := "/var/lib/bonded/authorized_keys.toml".
Definition DEFAULT_INVITE_TOKENS_PATH : string := "/var/lib/bonded/invite_tokens.toml".
Definition DEFAULT_SERVER_IDENTITY_KEY_PATH : string := "/var/lib/bonded/server-identity.pem".
Definition DEFAULT_WIREGUARD_PEERS_PATH : string := "/var/lib/bonded/wireguard_peers.toml".

Definition default_section : ServerSection :=
  {| hostname := EmptyString; https_bind := "0.0.0.0:443"; https_public := 443;
     tls_cert_file := EmptyString; tls_key_file := EmptyString; wireguard_bind := None;
     wireguard_public := None; wireguard_key_file := None; wireguard_peers_file := None;
     wireguard_peer_lease_secs := DEFAULT_WIREGUARD_PEER_LEASE_SECS; tcp_bind := None; tcp_public := None;
     status_bind := "0.0.0.0:8082"; health_bind := "0.0.0.0:8081"; log_level := "info";
     forwarding_mode := "proxy"; tun_name := "bonded0"; tun_cidr := "100.64.0.1/24"; tun_mtu := 1420;
     tun_egress_interface := EmptyString; authorized_keys_file := DEFAULT_AUTHORIZED_KEYS_PATH;
     invite_tokens_file := DEFAULT_INVITE_TOKENS_PATH; identity_key_file := DEFAULT_SERVER_IDENTITY_KEY_PATH;
     acme_domain := None; acme_email := None; acme_staging := false |}.

Definition https_public_addr (c : ServerSection) : string := hostname c +:+ ":" +:+ pretty (https_public c).
Definition wireguard_public_addr (c : ServerSection) : option string :=
  port ← wireguard_public c; Some (hostname c +:+ ":" +:+ pretty port).

(** [apply_env_overrides]: a variable that is set replaces its field, a number only if it can be read.
    Every variable has a field of its own, so the order does not matter. *)
Definition apply_env_overrides (env : string -> option string) (c : ServerSection) : ServerSection :=
  let text key old := default old (env key) in
  let some_text key (old : option string) := match env key with Some v => Some v | None => old end in
  let number w key old := match env key with Some v => default old (parse_unsigned w v) | None => old end in
  let some_number w key (old : option Z) :=
    match env key with
    | Some v => match parse_unsigned w v with Some n => Some n | None => old end
    | None => old
    end in
  {| hostname := text "BONDED_HOSTNAME" (hostname c); https_bind := text "BONDED_HTTPS_BIND" (https_bind c);
     https_public := number 16 "BONDED_HTTPS_PUBLIC" (https_public c);
     tls_cert_file := text "BONDED_TLS_CERT_FILE" (tls_cert_file c);
     tls_key_file := text "BONDED_TLS_KEY_FILE" (tls_key_file c);
     wireguard_bind := some_text "BONDED_WIREGUARD_BIND" (wireguard_bind c);
     wireguard_public := some_number 16 "BONDED_WIREGUARD_PUBLIC" (wireguard_public c);
     wireguard_key_file := some_text "BONDED_WIREGUARD_KEY_FILE" (wireguard_key_file c);
     wireguard_peers_file := some_text "BONDED_WIREGUARD_PEERS_FILE" (wireguard_peers_file c);
     wireguard_peer_lease_secs := number 64 "BONDED_WIREGUARD_PEER_LEASE_SECS" (wireguard_peer_lease_secs c);
     tcp_bind := some_text "BONDED_TCP_BIND" (tcp_bind c);
     tcp_public := some_number 16 "BONDED_TCP_PUBLIC" (tcp_public c);
     status_bind := text "BONDED_STATUS_BIND" (status_bind c);
     health_bind := text "BONDED_HEALTH_BIND" (health_bind c);
     log_level := text "BONDED_LOG_LEVEL" (log_level c);
     forwarding_mode := text "BONDED_FORWARDING_MODE" (forwarding_mode c);
     tun_name := text "BONDED_TUN_NAME" (tun_name c); tun_cidr := text "BONDED_TUN_CIDR" (tun_cidr c);
     tun_mtu := number 16 "BONDED_TUN_MTU" (tun_mtu c);
     tun_egress_interface := text "BONDED_TUN_EGRESS_INTERFACE" (tun_egress_interface c);
     authorized_keys_file := text "BONDED_AUTHORIZED_KEYS_FILE" (authorized_keys_file c);
     invite_tokens_file := text "BONDED_INVITE_TOKENS_FILE" (invite_tokens_file c);
     identity_key_file := identity_key_file c; acme_domain := acme_domain c; acme_email := acme_email c;
     acme_staging := acme_staging c |}.

(** ** Programs over the files: a state and error monad *)

Inductive StartError :=
  | StPcap (e : LimitError)
  | StStore (e : StoreError)
  | StNet (e : NetError)
  | StKey (e : DeviceKeyError)
  | StTls
  | StWgKey
  | StWg (e : WgError)
  | StDevice.

Definition start (A : Type) : Type := FS -> outcome StartError A * FS.

#[global] Instance start_ret : MRet start := fun A a fs => (Ok a, fs).
#[global] Instance start_bind : MBind start := fun A B k m fs =>
  match m fs with
  | (Ok a, fs) => k a fs
  | (Err e, fs) => (Err e, fs)
  | (Panic, fs) => (Panic, fs)
  end.

(** A step of another component, with its errors; one that only reads. *)
Definition step {E A} (err : E -> StartError) (m : FS -> outcome E A * FS) : start A := fun fs =>
  let (r, fs) := m fs in (map_err err r, fs).
Definition reads {E A} (err : E -> StartError) (m : FS -> outcome E A) : start A := fun fs =>
  (map_err err (m fs), fs).
Definition lift {A} (r : outcome StartError A) : start A := fun fs => (r, fs).

(** ** The state files *)

Definition ensure_state_file (path default_contents : string) (fs : FS) : outcome StoreError unit * FS :=
  if negb (exists_file path fs) then write_file path default_contents fs else (Ok tt, fs).

Definition ensure_server_state_files (c : ServerSection) : start unit :=
  _ ← step StStore (ensure_state_file (authorized_keys_file c) ("devices = []" +:+ newline));
  _ ← step StStore (ensure_state_file (invite_tokens_file c) ("tokens = []" +:+ newline));
  match wireguard_peers_file c with
  | Some path => step StStore (ensure_state_file path ("peers = []" +:+ newline))
  | None => mret tt
  end.

(** ** The certificate *)

(** The certificate libraries: a self-signed certificate and its key as PEM texts for a name, the
    certificates of a PEM text one by one (an unreadable one is [None]), its keys, and whether the TLS
    library can sign with a key. *)
Class CertLib := {
  self_signed : string -> option (string * string);
  pem_certs : string -> list (option (list Z));
  pkcs8_private_keys : string -> option (list (list Z));
  rsa_private_keys : string -> option (list (list Z));
  any_supported_type : list Z -> bool
}.

Section tls.
Context `{CertLib}.

Definition ensure_self_signed_cert (cert_file key_file host : string) : start unit := fun fs =>
  if exists_file cert_file fs && exists_file key_file fs then (Ok tt, fs)
  else
    match self_signed (if is_empty host then "localhost" else host) with
    | None => (Err StTls, fs)
    | Some (cert, key) =>
        (_ ← step StStore (write_file cert_file cert); step StStore (write_file key_file key)) fs
    end.

Definition load_private_key (path : string) (fs : FS) : outcome StartError (list Z) :=
  raw ← map_err StStore (read_to_string path fs);
  keys ← ok_or StTls (pkcs8_private_keys raw);
  match last keys with
  | Some key => Ok key
  | None => keys ← ok_or StTls (rsa_private_keys raw); ok_or StTls (last keys)
  end.

Definition tls_enabled (c : ServerSection) : bool :=
  negb (is_empty (trim (tls_cert_file c)) || is_empty (trim (tls_key_file c))).

(** The leaf certificate and the key from the two files *)
Definition read_tls (c : ServerSection) (fs : FS) : outcome StartError (list Z * list Z) :=
  raw ← map_err StStore (read_to_string (tls_cert_file c) fs);
  chain ← ok_or StTls (mapM id (pem_certs raw));
  leaf ← ok_or StTls (head chain);
  key ← load_private_key (tls_key_file c) fs;
  return_if negb (any_supported_type key) with Err StTls ;;
  Ok (leaf, key).

(** [load_tls_acceptor]: the leaf certificate and the key, when TLS is enabled *)
Definition load_tls_acceptor (c : ServerSection) : start (option (list Z * list Z)) :=
  if negb (tls_enabled c) then mret None
  else
    _ ← ensure_self_signed_cert (tls_cert_file c) (tls_key_file c) (hostname c);
    pair ← reads id (read_tls c);
    mret (Some pair).
End tls.

(** ** WireGuard's key file: 32 raw bytes *)
Definition load_or_generate_wg_keypair (path : string) (random : list Z) : start (list Z) := fun fs =>
  if decide (path ∈ read_fails fs) then (Err StWgKey, fs)
  else match files fs !! path with
    | Some raw =>
        let bytes := string_bytes raw in
        if (length bytes =? 32)%nat then (Ok bytes, fs) else (Err StWgKey, fs)
    | None =>
        (_ ← step StStore (write_file path (bytes_string random)); mret random) fs
    end.

(** ** The state of a running server *)

Inductive Listener :=
  | HealthListener (bind : string)
  | StatusListener (bind : string)
  | WireGuardListener (bind : string)
  | BootstrapListener (bind : string)
  | QuicListener (bind : string)
  | NaiveTcpListener (bind : string).

(** The listeners [main] starts, in order: in TUN mode neither the bootstrap nor the QUIC endpoint. *)
Definition listeners (c : ServerSection) (tls tun : bool) : list Listener :=
  [HealthListener (health_bind c); StatusListener (status_bind c)]
  ++ match wireguard_bind c with Some b => [WireGuardListener b] | None => [] end
  ++ (if tun then []
      else BootstrapListener (https_bind c) :: (if tls then [QuicListener (https_bind c)] else []))
  ++ match tcp_bind c with Some b => [NaiveTcpListener b] | None => [] end.

Record Server := {
  authorized_keys : AuthorizedKeysStore;
  startup_invite : InviteToken;
  identity : DeviceKeypair;
  tls_identity : option (list Z * list Z);
  wg_secret : option (list Z);
  wg_registry : option WireGuardPeerRegistry
}.

(** What is drawn at random and read from outside during a start. *)
Record StartInput := {
  env_var : string -> option string;
  config_path : string;
  clock : option Z;
  invite_value : string;
  hash_order : HashOrder;
  identity_secret : list Z;
  wg_random : list Z;
  watcher_ok : bool;
  pcap_created : bool
}.

Section startup.
Context `{Crypto} `{CertLib} `{Toml InviteTokensFile} `{Toml AuthorizedKeysFile} `{Toml WireGuardPeersFile}
  `{Toml ServerSection}.

(** [load_server_config], or the defaults *)
Definition load_config (path : string) (fs : FS) : ServerSection :=
  match read_to_string path fs with
  | Ok data => default default_section (toml_parse data)
  | _ => default_section
  end.

(** [main] after the network is set up, up to the listeners *)
Definition prepare_state (i : StartInput) (c : ServerSection)
  : start (AuthorizedKeysStore * InviteToken * DeviceKeypair * option (list Z * list Z)) :=
  keys ← reads StStore (keys_load (authorized_keys_file c));
  _ ← lift (if watcher_ok i then Ok tt else Err StDevice);
  invite ← step StStore (ensure_startup_invite (HO := hash_order i) (invite_tokens_file c) (invite_value i) (clock i));
  identity ← step StKey (load_or_create_keypair (identity_key_file c) (identity_secret i));
  tls ← load_tls_acceptor c;
  mret (keys, invite, identity, tls).

Definition prepare_wireguard (i : StartInput) (c : ServerSection)
  : start (option (list Z) * option WireGuardPeerRegistry) :=
  match wireguard_bind c with
  | None => mret (None, None)
  | Some _ =>
      kp ← load_or_generate_wg_keypair (default "bonded-server-wg.key" (wireguard_key_file c)) (wg_random i);
      registry ← step StWg (load_with_lease (clock i)
        (default DEFAULT_WIREGUARD_PEERS_PATH (wireguard_peers_file c)) (wireguard_peer_lease_secs c));
      mret (Some kp, Some registry)
  end.

Definition prepare (i : StartInput) (c : ServerSection) : start Server :=
  '(keys, invite, identity, tls) ← prepare_state i c;
  '(kp, registry) ← prepare_wireguard i c;
  mret {| authorized_keys := keys; startup_invite := invite; identity := identity; tls_identity := tls;
          wg_secret := kp; wg_registry := registry |}.

Definition tun_settings (c : ServerSection) : TunSettings :=
  {| ts_forwarding_mode := forwarding_mode c; ts_tun_name := tun_name c; ts_tun_cidr := tun_cidr c;
     ts_egress := tun_egress_interface c |}.

(** [main] up to the listeners: the server with its configuration, network runtime and listeners, the
    files and the host.  A runtime that is set up is dropped when a later step fails. *)
Definition start_server (i : StartInput) (net : Surroundings) (fs : FS) (h : Host)
  : outcome StartError (ServerSection * Server * NetworkRuntime * list Listener) * FS * Host :=
  let c := apply_env_overrides (env_var i) (load_config (config_path i) fs) in
  match Pcap.from_env (env_var i "BONDED_TUNNEL_PCAP_MAX_MB") (pcap_created i) with
  | Ok _ =>
      match ensure_server_state_files c fs with
      | (Ok _, fs) =>
          match setup net (tun_settings c) h with
          | (Ok rt, h) =>
              match prepare i c fs with
              | (Ok s, fs) =>
                  (Ok (c, s, rt,
                       listeners c (if tls_identity s then true else false) (forwarding_mode_tun rt)), fs, h)
              | (Err e, fs) => (Err e, fs, drop_runtime net rt h)
              | (Panic, fs) => (Panic, fs, drop_runtime net rt h)
              end
          | (Err e, h) => (Err (StNet e), fs, h)
          | (Panic, h) => (Panic, fs, h)
          end
      | (Err e, fs) => (Err e, fs, h)
      | (Panic, fs) => (Panic, fs, h)
      end
  | Err e => (Err (StPcap e), fs, h)
  | Panic => (Panic, fs, h)
  end.
End startup.

(** * Lemmas *)

(** ** Which files a step touches *)

Definition touches (ps : list string) (fs fs' : FS) : Prop :=
  read_fails fs' = read_fails fs /\ write_fails fs' = write_fails fs /\
  forall q, q ∉ ps -> files fs' !! q = files fs !! q.

(** The file at [p] is the same, and can be read as well. *)
Definition same_file (p : string) (fs fs' : FS) : Prop :=
  read_fails fs' = read_fails fs /\ files fs' !! p = files fs !! p.

Lemma touches_refl ps fs : touches ps fs fs.
Proof. done. Qed.

Lemma touches_trans ps qs fs1 fs2 fs3 :
  touches ps fs1 fs2 -> touches qs fs2 fs3 -> touches (ps ++ qs) fs1 fs3.
Proof.
  intros (Hr & Hw & Hf) (Hr' & Hw' & Hf'). split_and!; [congruence..|]. intros q Hq.
  rewrite elem_of_app in Hq. rewrite Hf', Hf by tauto. done.
Qed.

Lemma touches_same ps fs fs' p : touches ps fs fs' -> p ∉ ps -> same_file p fs fs'.
Proof. intros (Hr & _ & Hf) Hp. split; [done|]. by apply Hf. Qed.

Lemma write_file_touches path data fs r fs' : write_file path data fs = (r, fs') -> touches [path] fs fs'.
Proof.
  unfold write_file. destruct (decide _); intros [= <- <-]; [done|]. split_and!; [done..|].
  intros q Hq. cbn [files]. rewrite lookup_insert_ne; [done|]. set_solver.
Qed.

Lemma same_exists p fs fs' : same_file p fs fs' -> exists_file p fs' = exists_file p fs.
Proof. intros [_ Hf]. unfold exists_file. by rewrite Hf. Qed.

Lemma same_read p fs fs' : same_file p fs fs' -> read_to_string p fs' = read_to_string p fs.
Proof. intros [Hr Hf]. unfold read_to_string. by rewrite Hr, Hf. Qed.

Lemma written_read path data fs r fs' :
  write_file path data fs = (Ok r, fs') -> path ∉ read_fails fs ->
  exists_file path fs' = true /\ read_to_string path fs' = Ok data.
Proof.
  unfold write_file. destruct (decide _); [done|]. intros Hw Hr. simplify_eq.
  by apply read_written; [|apply lookup_insert_eq].
Qed.

(** ** Each part of the state is found again *)

Section restart_lemmas.
Context `{CryptoLaws} `{CertLib} `{TomlLaws InviteTokensFile} `{Toml AuthorizedKeysFile}.

Lemma keys_load_same path fs fs' : same_file path fs fs' -> keys_load path fs' = keys_load path fs.
Proof.
  intros Hs. unfold keys_load, load_devices_map, load_devices_file.
  by rewrite (same_exists _ _ _ Hs), (same_read _ _ _ Hs).
Qed.

Lemma load_manager_same path fs fs' : same_file path fs fs' -> load_manager path fs' = load_manager path fs.
Proof. intros Hs. unfold load_manager. by rewrite (same_exists _ _ _ Hs), (same_read _ _ _ Hs). Qed.

Lemma persist_touches {HO : HashOrder} path m fs r fs' : persist_manager path m fs = (r, fs') -> touches [path] fs fs'.
Proof.
  unfold persist_manager. destruct (toml_print _); [apply write_file_touches|]. intros [= _ <-]. apply touches_refl.
Qed.

(** A manager that has a usable token shows one in every order. *)
Lemma find_some_usable {HO : HashOrder} m k t :
  m !! k = Some t -> 0 < uses_remaining t ->
  exists u k', List.find is_usable (all_tokens m) = Some u /\ m !! k' = Some u /\ 0 < uses_remaining u.
Proof.
  intros Hk Hu. destruct (List.find is_usable (all_tokens m)) as [u|] eqn:Hf.
  - pose proof (find_usable _ _ Hf) as [Hu' [k' Hk']]. by exists u, k'.
  - exfalso. assert (Hin : In t (all_tokens m)) by (apply list_elem_of_In, elem_of_all_tokens; eauto).
    apply (List.find_none _ _ Hf) in Hin. unfold is_usable in Hin. lia.
Qed.

(** What the file holds once an invite was made ready: that invite, with uses left *)
Lemma invite_ready {HO : HashOrder} path v now fs t fs1 :
  path_ok path fs -> (forall m, load_manager path fs = Ok m -> manager_ok m) ->
  ensure_startup_invite path v now fs = (Ok t, fs1) ->
  touches [path] fs fs1 /\ exists m, load_manager path fs1 = Ok m /\ manager_ok m /\
    m !! token t = Some t /\ 0 < uses_remaining t.
Proof.
  intros Hp Hm He. unfold ensure_startup_invite in *. destruct (load_manager path fs) as [m| |] eqn:Hl; [|done..].
  specialize (Hm m eq_refl). destruct (List.find is_usable (all_tokens m)) as [t0|] eqn:Hf.
  { injection He as <- <-. split; [apply touches_refl|]. apply find_usable in Hf as [Hu [k Hk]].
    exists m. destruct (Hm _ _ Hk) as [Ht _]. split_and!; [done..| |done]. by rewrite Ht. }
  destruct (unix_timestamp_after now _) as [stamp| |]; [|done..]. unfold issue_token in He. cbn zeta iota beta in He.
  set (t0 := {| token := v; expires_at := _; uses_remaining := 1 |}) in *.
  assert (Hm' : manager_ok (<[token t0 := t0]> m)) by (by apply (issue_ok v _ 1)).
  destruct (persist_load path _ fs Hp Hm') as (fs' & Hpers & _ & Hl').
  rewrite Hpers in He. injection He as <- <-. split; [by eapply persist_touches|].
  exists (<[token t0 := t0]> m). split_and!; [done..| |done]. apply lookup_insert_eq.
Qed.

(** Made ready again, in whatever order the tokens come then: nothing is written, and the invite is one of
    those with uses left. *)
Lemma invite_again {HO : HashOrder} path v now fs m t :
  load_manager path fs = Ok m -> m !! token t = Some t -> 0 < uses_remaining t ->
  exists t2 k, ensure_startup_invite path v now fs = (Ok t2, fs) /\ m !! k = Some t2 /\ 0 < uses_remaining t2.
Proof.
  intros Hl Ht Hu. destruct (find_some_usable m _ _ Ht Hu) as (u & k & Hf & Hk & Hu').
  exists u, k. unfold ensure_startup_invite. by rewrite Hl, Hf.
Qed.

Lemma identity_again path random fs k fs1 fs2 r2 :
  path ∉ read_fails fs -> bytes_ok random -> length random = 32%nat ->
  trim (b64_encode random +:+ newline) = b64_encode random ->
  load_or_create_keypair path random fs = (Ok k, fs1) -> same_file path fs1 fs2 ->
  load_or_create_keypair path r2 fs2 = (Ok k, fs2) /\ touches [path] fs fs1.
Proof.
  intros Hp Hr Hl Htrim He Hs. unfold load_or_create_keypair in *. rewrite (same_exists _ _ _ Hs).
  destruct (exists_file path fs) eqn:Hex.
  { injection He as He <-. unfold read_keypair in *. rewrite Hex, (same_read _ _ _ Hs), He. done. }
  unfold write_line in He. destruct (write_file path _ fs) as [[[]| |] fs'] eqn:Hw; [|done..].
  cbn in He. injection He as <- <-. destruct (written_read _ _ _ _ _ Hw Hp) as [Hex' Hread].
  rewrite Hex'. unfold read_keypair. rewrite (same_read _ _ _ Hs), Hread. cbn [map_err mbind outcome_bind].
  cbn [private_key_b64 from_signing_key]. rewrite Htrim. unfold from_private_key_b64.
  rewrite decode_exact_encode by done. split; [done|]. by eapply write_file_touches.
Qed.

Lemma read_tls_same c fs fs' :
  same_file (tls_cert_file c) fs fs' -> same_file (tls_key_file c) fs fs' -> read_tls c fs' = read_tls c fs.
Proof.
  intros Hc Hk. unfold read_tls, load_private_key. by rewrite (same_read _ _ _ Hc), (same_read _ _ _ Hk).
Qed.

(** After it has succeeded both files are there, and it does nothing more. *)
Lemma self_signed_again cert key host fs u fs1 fs2 :
  cert <> key -> ensure_self_signed_cert cert key host fs = (Ok u, fs1) ->
  same_file cert fs1 fs2 -> same_file key fs1 fs2 ->
  ensure_self_signed_cert cert key host fs2 = (Ok tt, fs2) /\ touches [cert; key] fs fs1.
Proof.
  intros Hne He Hc Hk. assert (Hboth : exists_file cert fs1 = true /\ exists_file key fs1 = true /\
    touches [cert; key] fs fs1).
  { unfold ensure_self_signed_cert in He. destruct (exists_file cert fs && exists_file key fs) eqn:Hex.
    { apply andb_prop in Hex as [??]. by injection He as _ <-. }
    destruct (self_signed _) as [[pc pk]|]; [|done]. unfold mbind, start_bind, step in He.
    destruct (write_file cert pc fs) as [[[]| |] fsa] eqn:Hwc; [|done..]. cbn in He.
    destruct (write_file key pk fsa) as [[[]| |] fsb] eqn:Hwk; [|done..]. cbn in He. injection He as _ <-.
    split_and!.
    - apply write_file_touches in Hwk as (_ & _ & Hf). unfold exists_file. rewrite Hf by set_solver.
      revert Hwc. unfold write_file. destruct (decide _); [done|]. intros Hwc. simplify_eq. cbn [files].
      by rewrite lookup_insert_eq.
    - revert Hwk. unfold write_file. destruct (decide _); [done|]. intros Hwk. simplify_eq. unfold exists_file.
      cbn [files]. by rewrite lookup_insert_eq.
    - by eapply (touches_trans [cert] [key]); eapply write_file_touches. }
  destruct Hboth as (Hec & Hek & Ht). split; [|done]. unfold ensure_self_signed_cert.
  by rewrite (same_exists _ _ _ Hc), (same_exists _ _ _ Hk), Hec, Hek.
Qed.

Lemma tls_again c fs r fs1 fs2 :
  (tls_enabled c = true -> tls_cert_file c <> tls_key_file c) -> load_tls_acceptor c fs = (Ok r, fs1) ->
  same_file (tls_cert_file c) fs1 fs2 -> same_file (tls_key_file c) fs1 fs2 ->
  load_tls_acceptor c fs2 = (Ok r, fs2) /\ touches [tls_cert_file c; tls_key_file c] fs fs1.
Proof.
  intros Hne He Hc Hk. unfold load_tls_acceptor in *. destruct (tls_enabled c); cbn [negb] in *; [specialize (Hne eq_refl)|].
  2: { cbn in *. injection He as <- <-. by split. }
  unfold mbind, start_bind, reads, mret, start_ret in *.
  destruct (ensure_self_signed_cert _ _ _ fs) as [[u| |] fsa] eqn:Hs; [|done..].
  destruct (read_tls c fsa) as [pair| |] eqn:Hr; [|done..]. cbn in He. injection He as <- <-.
  destruct (self_signed_again _ _ _ _ _ _ fs2 Hne Hs Hc Hk) as [-> Ht]. split; [|done].
  by rewrite (read_tls_same c fsa fs2), Hr.
Qed.
End restart_lemmas.

(** * Properties *)

(** C34: a restart finds the server as it was.  If the state could be prepared once, then preparing it
    again from the files it left, whatever is drawn at random, in whatever order the hash maps give their
    entries and whatever the time, gives the same authorized keys, the same identity and the same certificate,
    and writes nothing.  The invite of the first start is still in the file with its uses; the one that is
    shown now is one of those with uses left, and the same if there is no other. *)
Theorem restart_keeps_state `{CryptoLaws} `{CertLib} `{TomlLaws InviteTokensFile} `{Toml AuthorizedKeysFile}
    (i1 i2 : StartInput) (c : ServerSection) (fs fs1 : FS) keys inv ident tls :
  prepare_state i1 c fs = (Ok (keys, inv, ident, tls), fs1) ->
  NoDup [authorized_keys_file c; invite_tokens_file c; identity_key_file c] ->
  (tls_enabled c = true -> tls_cert_file c <> tls_key_file c) ->
  (forall p, p ∈ [authorized_keys_file c; invite_tokens_file c; identity_key_file c] ->
     p ∉ [tls_cert_file c; tls_key_file c]) ->
  path_ok (invite_tokens_file c) fs -> identity_key_file c ∉ read_fails fs ->
  (forall m, load_manager (invite_tokens_file c) fs = Ok m -> manager_ok m) ->
  bytes_ok (identity_secret i1) -> length (identity_secret i1) = 32%nat ->
  trim (b64_encode (identity_secret i1) +:+ newline) = b64_encode (identity_secret i1) ->
  watcher_ok i2 = true ->
  exists inv2 m, prepare_state i2 c fs1 = (Ok (keys, inv2, ident, tls), fs1) /\
    load_manager (invite_tokens_file c) fs1 = Ok m /\
    m !! token inv = Some inv /\ 0 < uses_remaining inv /\
    m !! token inv2 = Some inv2 /\ 0 < uses_remaining inv2 /\
    ((forall k t, m !! k = Some t -> 0 < uses_remaining t -> t = inv) -> inv2 = inv).
Proof.
  intros Hrun Hnd Htls Hother Hpi Hri Hm Hb Hl Htrim Hwatch.
  unfold prepare_state, mbind, start_bind, reads, step, lift, mret, start_ret in *.
  destruct (keys_load (authorized_keys_file c) fs) as [keys0| |] eqn:Hkeys; [|done..]. cbn [map_err] in Hrun.
  destruct (watcher_ok i1); [|done].
  destruct (ensure_startup_invite _ _ _ fs) as [[inv0| |] fsa] eqn:Hinv; [|done..]. cbn [map_err] in Hrun.
  destruct (load_or_create_keypair _ _ fsa) as [[ident0| |] fsb] eqn:Hid; [|done..]. cbn [map_err] in Hrun.
  destruct (load_tls_acceptor c fsb) as [[tls0| |] fsc] eqn:Htl; [|done..]. injection Hrun as -> -> -> -> <-.
  assert (Hne : authorized_keys_file c <> invite_tokens_file c /\ authorized_keys_file c <> identity_key_file c /\
    invite_tokens_file c <> identity_key_file c).
  { apply NoDup_cons in Hnd as [Ha [Hb' _]%NoDup_cons]. set_solver. }
  destruct Hne as (N1 & N2 & N3).
  destruct (invite_ready _ _ _ fs inv fsa Hpi Hm Hinv) as (Ha1 & m & Hlm & Hmok & Hmi & Hui).
  assert (Ha2 : touches [identity_key_file c] fsa fsb).
  { apply (identity_again _ (identity_secret i1) fsa ident fsb fsb []); try done. by rewrite (proj1 Ha1). }
  assert (Ha3 : touches [tls_cert_file c; tls_key_file c] fsb fsc) by (by apply (tls_again c fsb tls fsc fsc Htls Htl)).
  pose proof (touches_trans _ _ _ _ _ Ha2 Ha3) as Ha23. pose proof (touches_trans _ _ _ _ _ Ha1 Ha23) as Ha123.
  assert (Hout : forall p, p ∈ [authorized_keys_file c; invite_tokens_file c; identity_key_file c] ->
    p <> tls_cert_file c /\ p <> tls_key_file c) by (intros p Hp%Hother; set_solver).
  destruct (Hout (authorized_keys_file c) ltac:(set_solver)), (Hout (invite_tokens_file c) ltac:(set_solver)),
    (Hout (identity_key_file c) ltac:(set_solver)).
  rewrite (keys_load_same _ fs fsc), Hkeys, Hwatch by (eapply touches_same; [exact Ha123|set_solver]).
  cbn [map_err].
  assert (Hlm' : load_manager (invite_tokens_file c) fsc = Ok m)
    by (rewrite <- Hlm; apply load_manager_same; eapply touches_same; [exact Ha23|set_solver]).
  destruct (invite_again (HO := hash_order i2) _ (invite_value i2) (clock i2) fsc m inv Hlm' Hmi Hui)
    as (inv2 & k2 & -> & Hm2 & Hu2). cbn [map_err].
  destruct (identity_again (identity_key_file c) (identity_secret i1) fsa ident fsb fsc (identity_secret i2)) as [-> _]; try done.
  { by rewrite (proj1 Ha1). }
  { eapply touches_same; [exact Ha3|set_solver]. }
  cbn [map_err]. destruct (tls_again c fsb tls fsc fsc Htls Htl) as [-> _]; [done..|].
  exists inv2, m. destruct (Hmok _ _ Hm2) as [<- _]. split_and!; [done..|]. intros Honly. by eapply Honly.
Qed.

(** A start that fails leaves the host as it was: whichever step fails, the filter rules and the
    forwarding switch are as before, provided at most one command of the network set-up fails and none
    while it is undone. *)
Theorem failed_start_restores `{Crypto} `{CertLib} `{Toml InviteTokensFile} `{Toml AuthorizedKeysFile}
    `{Toml WireGuardPeersFile} `{Toml ServerSection} (i : StartInput) (net : Surroundings) (fs fs' : FS)
    (h h' : Host) (e : StartError) :
  (forall n m, fails net n = true -> fails net m = true -> n = m) ->
  (forall cfg rt h1, setup net cfg h = (Ok rt, h1) -> no_fail_from net (tick h1)) ->
  forward_readable net = true -> forward_writable net = true ->
  ip_forward h ∈ ["0" +:+ newline; "1" +:+ newline] ->
  start_server i net fs h = (Err e, fs', h') ->
  rules h' = rules h /\ ip_forward h' = ip_forward h.
Proof.
  intros Hone Hlate Hr Hw Hf. unfold start_server.
  destruct (Pcap.from_env _ _) as [cap| |]; [|by intros [= _ _ <-]|done].
  destruct (ensure_server_state_files _ fs) as [[u| |] fsa]; [|by intros [= _ _ <-]|done].
  set (c := apply_env_overrides _ _).
  destruct (setup net (tun_settings c) h) as [[rt| |] h1] eqn:Hs.
  - pose proof (setup_restores net (tun_settings c) h h1 (Ok rt) Hone Hr Hw Hf Hs (Hlate _ _ _ Hs)) as Hd.
    destruct (prepare i c fsa) as [[sv| |] fsb]; [done| |done]. by intros [= _ _ <-].
  - pose proof (setup_restores net (tun_settings c) h h1 _ Hone Hr Hw Hf Hs) as Hd. by intros [= _ _ <-].
  - by intros ?.
Qed.

(** ** Witnesses *)

Module Sample.
#[local] Existing Instances AuthHandshake.Sample.crypto AuthHandshake.Sample.crypto_laws
  Stores.Sample.toml_invites Stores.Sample.toml_keys Stores.Sample.toml_invites_laws
  WgServer.Sample.toml_peers.
#[local] Instance certs : CertLib :=
  {| self_signed host := Some (host, host); pem_certs s := [Some (string_bytes s)];
     pkcs8_private_keys s := Some [string_bytes s]; rsa_private_keys _ := None; any_supported_type _ := true |}.
#[local] Instance toml_section : Toml ServerSection :=
  {| toml_parse _ := None; toml_print _ := None |}.

Definition env (key : string) : option string :=
  if bool_decide (key = "BONDED_TLS_CERT_FILE") then Some "/c.pem"
  else if bool_decide (key = "BONDED_TLS_KEY_FILE") then Some "/k.pem"
  else if bool_decide (key = "BONDED_FORWARDING_MODE") then Some "tun"
  else if bool_decide (key = "BONDED_TUN_EGRESS_INTERFACE") then Some "eth0"
  else if bool_decide (key = "BONDED_TUN_MTU") then Some "70000"
  else None.
Definition input (now : Z) (n : Z) : StartInput :=
  {| env_var := env; config_path := "/etc/bonded/server.toml"; clock := Some now; invite_value := "inv";
     hash_order := if now =? 0 then Stores.Sample.listing else Stores.Sample.listing_back; identity_secret := replicate 32 n; wg_random := replicate 32 n; watcher_ok := true; pcap_created := true |}.
Definition cfg : ServerSection := apply_env_overrides env default_section.
Definition empty_fs : FS := {| files := ∅; read_fails := ∅; write_fails := ∅ |}.
(** A token file with two usable invites *)
Definition invite (v : string) : InviteToken := {| token := v; expires_at := "unix:9"; uses_remaining := 1 |}.
Definition two_fs : FS :=
  {| files := {[ invite_tokens_file cfg := bits_print [invite "a"; invite "b"] ]}; read_fails := ∅; write_fails := ∅ |}.
Definition shown (now : Z) : option string :=
  match prepare_state (input now 65) cfg two_fs with
  | (Ok (_, i, _, _), _) => Some (token i)
  | _ => None
  end.

(** Which of them is shown depends on the order of the hash map. *)
Example another_invite : shown 0 <> shown 1 /\ is_Some (shown 0) /\ is_Some (shown 1).
Proof. vm_compute. split; [discriminate|]. split; eexists; reflexivity. Qed.

(** The value of a variable that is out of range is ignored. *)
Example overridden : tun_mtu cfg = 1420 /\ tls_cert_file cfg = "/c.pem" /\ https_bind cfg = "0.0.0.0:443".
Proof. vm_compute. done. Qed.

Lemma restart_keeps_state_witness :
  exists keys inv ident tls fs1, prepare_state (input 0 65) cfg two_fs = (Ok (keys, inv, ident, tls), fs1) /\
    exists inv2, prepare_state (input 99 66) cfg fs1 = (Ok (keys, inv2, ident, tls), fs1) /\ 0 < uses_remaining inv2.
Proof.
  assert (Hok : is_ok (prepare_state (input 0 65) cfg two_fs).1 = true) by (vm_compute; reflexivity).
  destruct (prepare_state (input 0 65) cfg two_fs) as [r fs1] eqn:Hrun. destruct r as [r|e|].
  - destruct r as [[[keys inv] ident] tls]. exists keys, inv, ident, tls, fs1. split; [reflexivity|].
    destruct (restart_keeps_state (input 0 65) (input 99 66) cfg two_fs fs1 keys inv ident tls Hrun)
      as (inv2 & m & H2 & _ & _ & _ & _ & Hu & _).
    + apply (bool_decide_unpack _). vm_compute. exact I.
    + intros _. vm_compute. discriminate.
    + intros p Hp. apply (bool_decide_unpack _).
      apply elem_of_cons in Hp as [->|Hp]; [vm_compute; exact I|].
      apply elem_of_cons in Hp as [->|Hp]; [vm_compute; exact I|].
      apply elem_of_cons in Hp as [->|Hp]; [vm_compute; exact I|].
      apply elem_of_nil in Hp. destruct Hp.
    + split; apply not_elem_of_empty.
    + apply not_elem_of_empty.
    + intros m Hm. assert (Hm0 : load_manager (invite_tokens_file cfg) two_fs = Ok (from_tokens [invite "a"; invite "b"]))
        by (vm_compute; reflexivity).
      rewrite Hm0 in Hm. apply Ok_inj in Hm as <-. apply from_tokens_ok.
      repeat constructor; unfold in_u; cbn; lia.
    + apply (bool_decide_unpack _). vm_compute. exact I.
    + reflexivity.
    + vm_compute. reflexivity.
    + reflexivity.
    + exists inv2. split; [exact H2 | exact Hu].
  - discriminate Hok.
  - discriminate Hok.
Defined.

Definition net : Surroundings :=
  {| fails _ := false; tun_available := true; tools_available := true; device_created := true;
     forward_readable := true; forward_writable := true; route_file := None |}.
(** The keys file is there but cannot be read. *)
Definition broken_fs : FS :=
  {| files := {[ DEFAULT_AUTHORIZED_KEYS_PATH := "devices = []" ]};
     read_fails := {[ DEFAULT_AUTHORIZED_KEYS_PATH ]}; write_fails := ∅ |}.

Lemma failed_start_restores_witness :
  exists e fs' h', start_server (input 0 65) net broken_fs sample_host = (Err e, fs', h') /\
    rules h' = rules sample_host.
Proof.
  assert (Hok : (let '(r, _, _) := start_server (input 0 65) net broken_fs sample_host in
    match r with Err _ => true | _ => false end) = true) by (vm_compute; reflexivity).
  destruct (start_server (input 0 65) net broken_fs sample_host) as [[r fs'] h'] eqn:Hrun.
  destruct r as [r|e|].
  - discriminate Hok.
  - exists e, fs', h'. split; [reflexivity|].
    apply (failed_start_restores (input 0 65) net broken_fs fs' sample_host h' e).
    + intros n m Hn. discriminate Hn.
    + intros c rt h1 _ n _. reflexivity.
    + reflexivity.
    + reflexivity.
    + left.
    + exact Hrun.
  - discriminate Hok.
Defined.

(** In TUN mode a server without a debug listener accepts no client: only health and status are up. *)
Example tun_listeners : listeners cfg true true = [HealthListener "0.0.0.0:8081"; StatusListener "0.0.0.0:8082"].
Proof. reflexivity. Qed.

(** A certificate that is there without its key is replaced. *)
Example certificate_overwritten :
  let fs := {| files := {[ "/c.pem" := "mine" ]}; read_fails := ∅; write_fails := ∅ |} in
  files (ensure_self_signed_cert "/c.pem" "/k.pem" "host" fs).2 !! "/c.pem" = Some "host".
Proof. vm_compute. reflexivity. Qed.
End Sample.
