(* ===== verification/Dial.v ===== *)
(** Dialling: how the client establishes one path over each of its transports
    ([establish_naive_tcp_session], [establish_websocket_session], [establish_quic_session],
    [establish_wireguard_session] of [src/crates/bonded-client/src/lib.rs] with their variants for a
    bind address), how it asks the bootstrap endpoint, and how it comes to trust a TLS certificate
    ([src/crates/bonded-client/src/cert_proof.rs]).  Names, sockets, TLS, QUIC and the platform's
    callbacks are operations that any environment may answer; a session is a program of such
    operations, so that what is shown of it holds against every peer and every network. *)

From stdpp Require Import base tactics list gmap strings pretty.
From Stdlib Require Import ZArith Lia Ascii.
From S2P Require Import Prelude Words Text Json Auth Stores AuthHandshake Transport Client NetAddr Bootstrap PeerRuntime.
Open Scope Z_scope.

(** * Definitions *)

(** ** Configuration *)

Record ClientSection := {
  cc_device_name : string;
  cc_tun_name : string;
  cc_server_public_address : string;
  cc_server_resolved_address : string;
  cc_server_websocket_address : string;
  cc_path_bind_addresses : list string;
  cc_server_public_key : string;
  cc_invite_token : string;
  cc_preferred_protocols : list string;
  cc_allow_insecure_debug_transports : bool;
  cc_private_key_path : string;
  cc_public_key_path : string;
  cc_tls_cert_fingerprint : string;
  cc_wireguard_server_public_key : string;
  cc_peer_share_enabled : bool;
  cc_peer_share_bind_address : string;
  cc_peer_share_advertise_ip : string
}.

Definition DEFAULT_CLIENT_PRIVATE_KEY_PATH : string := "~/.local/share/bonded/device-key.pem".
Definition DEFAULT_CLIENT_PUBLIC_KEY_PATH : string := "~/.local/share/bonded/device-key.pub".

Definition default_client_section : ClientSection := {|
  cc_device_name := "linux-cli"; cc_tun_name := "bonded0"; cc_server_public_address := "";
  cc_server_resolved_address := ""; cc_server_websocket_address := ""; cc_path_bind_addresses := [];
  cc_server_public_key := ""; cc_invite_token := "";
  cc_preferred_protocols := ["wss"; "h3"; "wireguard"]; cc_allow_insecure_debug_transports := false;
  cc_private_key_path := DEFAULT_CLIENT_PRIVATE_KEY_PATH;
  cc_public_key_path := DEFAULT_CLIENT_PUBLIC_KEY_PATH; cc_tls_cert_fingerprint := "";
  cc_wireguard_server_public_key := ""; cc_peer_share_enabled := false;
  cc_peer_share_bind_address := "0.0.0.0:54443"; cc_peer_share_advertise_ip := ""
|}.

(** [ClientConfig]: of the two callbacks, whether they are set; what they answer is the platform's. *)
Record ClientConfig := {
  client : ClientSection;
  socket_protect : bool;
  socket_network_bind : bool
}.

(** ** Certificates *)

(** The three ways of verifying a server: [CapturingVerifier], [PinnedCertVerifier] and the roots
    built into tokio-tungstenite. *)
Inductive Verifier := CapturingVerifier | PinnedCertVerifier (expected : string) | WebPkiRoots.

(** What a TLS server shows: its certificate chain, whether it proves to hold the key of the first
    certificate, and whether the built-in roots accept it. *)
Record Presented := { chain : list (list Z); proves_key : bool; roots_accept : bool }.

Section verifiers.
Context `{!Sha256}.

Definition verify_server_cert (v : Verifier) (end_entity : list Z) (p : Presented) : bool :=
  match v with
  | CapturingVerifier => true
  | PinnedCertVerifier expected => pinned_accepts expected end_entity
  | WebPkiRoots => roots_accept p
  end.

(** [verify_tls12_signature] and [verify_tls13_signature]: both verifiers of the program assert that
    the signature is valid. *)
Definition verify_tls_signature (v : Verifier) (p : Presented) : bool :=
  match v with
  | CapturingVerifier | PinnedCertVerifier _ => true
  | WebPkiRoots => proves_key p
  end.

(** The certificate of an accepted server *)
Definition accepted (v : Verifier) (p : Presented) : option (list Z) :=
  end_entity ← head (chain p);
  if verify_server_cert v end_entity p && verify_tls_signature v p then Some end_entity else None.
End verifiers.

(** ** Operations on the network and the platform *)

(** Sockets are numbered as they are opened. *)
Inductive net :=
  | Random
  | RandomIndex
  | TimeLimit
  | LookupHost (target : string)
  | TcpSocketNew (s : nat) (v6 : bool)
  | TcpBind (s : nat) (a : SocketAddr)
  | UdpBind (s : nat) (a : SocketAddr)
  | UdpBindText (s : nat) (target : string)
  | NetworkBind (s : nat) (bind_address : string)
  | Protect (s : nat)
  | Connect (s : nat) (a : SocketAddr)
  | TlsConnect (s : nat) (v : Verifier) (server_name : string)
  | Upgrade (s : nat) (url : string)
  | HttpExchange (s : nat) (request : string)
  | QuicConfig (alpn : string)
  | QuicEndpoint (s : nat)
  | QuicConnect (s : nat) (v : Verifier) (a : SocketAddr) (host alpn : string)
  | OpenBi (s : nat)
  | H3Open (s : nat)
  | H3Request (s : nat) (method uri : string) (body : option string)
  | SendText (s : nat) (m : string)
  | RecvText (s : nat).

(** [TimeLimit]: after how many operations the time limit of an attempt strikes. *)
Definition answer (op : net) : Type :=
  match op with
  | Random => list Z
  | RandomIndex => Z
  | TimeLimit => nat
  | LookupHost _ => option (list SocketAddr)
  | TlsConnect _ _ _ | QuicConnect _ _ _ _ _ => option Presented
  | HttpExchange _ _ => option (list Z)
  | H3Request _ _ _ _ => option (Z * list Z)
  | RecvText _ => option string
  | _ => bool
  end.

(** What the client has changed: its files and how many sockets it has opened. *)
Record World := { fs : FS; sockets : nat }.

(** A program of operations; an operation carries the state the program is left in if the attempt is
    given up there. *)
Inductive prog (A : Type) : Type :=
  | Ret (a : A) (w : World)
  | Op (op : net) (w : World) (k : answer op -> prog A).
Arguments Ret {A} a w.
Arguments Op {A} op w k.

Fixpoint prog_bind {A B} (p : prog A) (f : A -> World -> prog B) : prog B :=
  match p with
  | Ret a w => f a w
  | Op op w k => Op op w (fun x => prog_bind (k x) f)
  end.

Inductive event := Ev (op : net) (a : answer op).

(** An environment answers every operation, knowing all that happened before. *)
Abbreviation env := (forall (t : list event) (op : net), answer op).

Fixpoint exec {A} (e : env) (t : list event) (p : prog A) : list event * A * World :=
  match p with
  | Ret a w => (t, a, w)
  | Op op _ k => let x := e t op in exec e (t ++ [Ev op x]) (k x)
  end.

Inductive DialError :=
  | DAddressRequired
  | DBadAddress (e : AddrError)
  | DLookup
  | DNoAddress
  | DSocket
  | DNotProtected
  | DNotBoundToNetwork
  | DConnect
  | DTls
  | DServerName
  | DUrl
  | DNoHost
  | DUpgrade
  | DProof (e : ProofError)
  | DKeyFile (e : DeviceKeyError)
  | DHandshake (e : HsError)
  | DNeedsPin
  | DMissingRefreshed
  | DQuicConfig
  | DStream
  | DHttp
  | DBody (e : BodyError)
  | DBootstrapJson
  | DBootstrapFailed
  | DWgKey
  | DTimedOut.

(** A step of dialling: it may fail, and it has changed the state when it does. *)
Definition dial (A : Type) : Type := World -> prog (outcome DialError A).

#[global] Instance dial_ret : MRet dial := fun A a w => Ret (Ok a) w.
#[global] Instance dial_bind : MBind dial := fun A B k m w =>
  prog_bind (m w) (fun r w =>
    match r with
    | Ok a => k a w
    | Err e => Ret (Err e) w
    | Panic => Ret Panic w
    end).

Definition fail {A} (e : DialError) : dial A := fun w => Ret (Err e) w.
Definition lift {E A} (f : E -> DialError) (o : outcome E A) : dial A := fun w => Ret (map_err f o) w.
Definition perform (op : net) : dial (answer op) := fun w => Op op w (fun x => Ret (Ok x) w).
Definition ask (e : DialError) (o : dial bool) : dial unit := b ← o; if b : bool then mret tt else fail e.
Definition need {A} (e : DialError) (o : dial (option A)) : dial A := x ← o; lift (fun e => e) (ok_or e x).
Definition new_socket : dial nat := fun w => Ret (Ok (sockets w)) {| fs := fs w; sockets := S (sockets w) |}.

(** [match m { Err(err) => h, r => r }] *)
Definition catch {A} (m : dial A) (h : DialError -> dial A) : dial A := fun w =>
  prog_bind (m w) (fun r w => match r with Err e => h e w | r => Ret r w end).

(** [timeout(PATH_ESTABLISH_TIMEOUT, ..)]: the future is dropped where it waits. *)
Fixpoint cut {A} (n : nat) (p : prog (outcome DialError A)) {struct p} : prog (outcome DialError A) :=
  match p with
  | Ret r w => Ret r w
  | Op op w k =>
      match n with
      | O => Ret (Err DTimedOut) w
      | S n => Op op w (fun x => cut n (k x))
      end
  end.
Definition within {A} (m : dial A) : dial A := fun w => Op TimeLimit w (fun n => cut n (m w)).

(** ** Addresses *)

Definition host_port (host : string) (port : Z) : string := host +:+ ":" +:+ pretty port.

(** [resolve_server_address] of the addresses found *)
Definition lookup_server_address (address : string) (bind_ip : option IpAddr) : dial SocketAddr :=
  addresses ← need DLookup (perform (LookupHost address));
  lift DBadAddress (resolve_server_address addresses bind_ip).

(** [lookup_host(target).await?.next().ok_or(..)?] *)
Definition lookup_first (target : string) : dial SocketAddr :=
  addresses ← need DLookup (perform (LookupHost target));
  lift (fun e => e) (ok_or DNoAddress (head addresses)).

(** [str::trim_start_matches] of a non-empty pattern: as often as it matches *)
Fixpoint strip_prefixes (fuel : nat) (p s : string) : string :=
  match fuel with
  | O => s
  | S fuel => match strip_prefix p s with Some s => strip_prefixes fuel p s | None => s end
  end.
Definition trim_start_matches (p s : string) : string := strip_prefixes (String.length s) p s.

Definition nonempty (s : string) : bool := negb (is_empty s).

(** [dial_override] *)
Definition dial_override (c : ClientConfig) : option string :=
  if nonempty (trim (cc_server_resolved_address (client c)))
  then Some (cc_server_resolved_address (client c)) else None.

(** ** Sockets *)

(** [TcpSocket::new_v4()?] or [new_v6()?] *)
Definition tcp_socket (a : IpAddr) : dial nat :=
  s ← new_socket; _ ← ask DSocket (perform (TcpSocketNew s (negb (is_ipv4 a)))); mret s.

(** [if let Some(protect) = .. { if !protect.0(fd) { bail } }] *)
Definition protect (c : ClientConfig) (s : nat) : dial unit :=
  if socket_protect c then ask DNotProtected (perform (Protect s)) else mret tt.

Definition prepare_bound_socket_for_connect (c : ClientConfig) (network_bind : bool) (s : nat)
    (bind_address : string) : dial unit :=
  _ ← (if network_bind then ask DNotBoundToNetwork (perform (NetworkBind s bind_address)) else mret tt);
  protect c s.

Definition any_port (a : IpAddr) : SocketAddr := {| ip := a; port := 0 |}.

Definition print_ip (a : IpAddr) : string := match a with V4 a => print_ipv4 a | V6 g => print_ipv6 g end.

Definition connect_websocket_tcp_socket (c : ClientConfig) (server_addr : SocketAddr)
    (bind_ip : option IpAddr) : dial nat :=
  s ← tcp_socket (default (ip server_addr) bind_ip);
  _ ← ask DSocket (perform (TcpBind s
        (match bind_ip with
         | Some a => any_port a
         | None => local_wildcard_bind_addr_for server_addr
         end)));
  _ ← (match bind_ip with
       | Some a => prepare_bound_socket_for_connect c (socket_network_bind c) s (print_ip a)
       | None => protect c s
       end);
  _ ← ask DConnect (perform (Connect s server_addr));
  mret s.

Definition connect_bootstrap_tcp (c : ClientConfig) (host : string) (port : Z) : dial nat :=
  address ← lookup_first (host_port host port);
  s ← tcp_socket (ip address);
  _ ← protect c s;
  _ ← ask DConnect (perform (Connect s address));
  mret s.

Definition bind_quic_udp_socket (c : ClientConfig) (network_bind : bool) (bind_addr : SocketAddr) : dial nat :=
  s ← new_socket;
  _ ← ask DSocket (perform (UdpBind s bind_addr));
  _ ← (if negb (is_unspecified (ip bind_addr))
       then prepare_bound_socket_for_connect c network_bind s (print_ip (ip bind_addr))
       else protect c s);
  mret s.

Section dialling.
(** External: x25519, the names TLS takes, the URIs tungstenite takes; the home directory. *)
Class X25519 := x25519_public : list Z -> list Z.
Class ServerNames := server_name_ok : string -> bool.

(** A request's URI; [uri_tls]: whether tungstenite speaks TLS for it, if it takes its scheme. *)
Record Uri := {
  scheme_str : option string;
  uri_host : option string;
  port_u16 : option Z;
  uri_tls : option bool
}.
Class WsUri := into_client_request : string -> option Uri.

Context `{Crypto} `{JsonText} `{!Sha256} `{!X25519} `{!ServerNames} `{!WsUri}.
Variable home : option string.

(** ** TLS *)

(** A TLS handshake on a connected socket *)
Definition tls (s : nat) (v : Verifier) (server_name : string) : dial (list Z) :=
  p ← need DTls (perform (TlsConnect s v server_name));
  lift (fun e => e) (ok_or DTls (accepted v p)).

(** [connect_quic_client_with_bind]; [connect_quic_client] has no bind address and no network bind. *)
Definition connect_quic_client_with_bind (c : ClientConfig) (network_bind : bool) (host : string)
    (port : Z) (v : Verifier) (alpn : string) (bind_ip : option IpAddr) : dial (nat * list Z) :=
  _ ← ask DQuicConfig (perform (QuicConfig alpn));
  server_addr ← lookup_first (host_port host port);
  s ← bind_quic_udp_socket c network_bind
        (match bind_ip with
         | Some a => any_port a
         | None => local_wildcard_bind_addr_for server_addr
         end);
  _ ← ask DSocket (perform (QuicEndpoint s));
  p ← need DTls (perform (QuicConnect s v server_addr host alpn));
  cert ← lift (fun e => e) (ok_or DTls (accepted v p));
  mret (s, cert).

Definition connect_quic_client (c : ClientConfig) (host : string) (port : Z) (v : Verifier)
    (alpn : string) : dial (nat * list Z) :=
  connect_quic_client_with_bind c false host port v alpn None.

Definition fetch_and_verify_cert_proof (c : ClientConfig) (host : string) (port : Z)
    (server_public_key_b64 : string) (dial_address : option string) : dial string :=
  addr ← lookup_first (default (host_port host port) dial_address);
  s ← tcp_socket (ip addr);
  _ ← protect c s;
  _ ← ask DConnect (perform (Connect s addr));
  _ ← (if server_name_ok host then mret tt else fail DServerName);
  captured ← tls s CapturingVerifier host;
  raw ← need DHttp (perform (HttpExchange s (cert_proof_request host)));
  lift DProof (fetched_cert_proof captured server_public_key_b64 raw).

Definition should_retry_tls_rotation (c : ClientConfig) : bool :=
  nonempty (cc_tls_cert_fingerprint (client c)) && nonempty (cc_server_public_key (client c)).

Definition refresh_tls_fingerprint_after_rotation (c : ClientConfig) (host : string) (port : Z)
    (dial_address : option string) : dial (option string) :=
  if negb (should_retry_tls_rotation c) then mret None
  else
    fingerprint ← fetch_and_verify_cert_proof c host port (cc_server_public_key (client c)) dial_address;
    mret (Some fingerprint).

(** [refresh_tls_fingerprint_after_rotation(..).await?.ok_or_else(..)?] *)
Definition refreshed (c : ClientConfig) (host : string) (port : Z) : dial string :=
  need DMissingRefreshed (refresh_tls_fingerprint_after_rotation c host port (dial_override c)).

(** The pin of a connection that has to have one: the stored fingerprint, or one that is proved. *)
Definition required_pin (c : ClientConfig) (host : string) (port : Z) : dial Verifier :=
  if nonempty (cc_tls_cert_fingerprint (client c))
  then mret (PinnedCertVerifier (cc_tls_cert_fingerprint (client c)))
  else if nonempty (cc_server_public_key (client c)) then
    fingerprint ← fetch_and_verify_cert_proof c host port (cc_server_public_key (client c)) (dial_override c);
    mret (PinnedCertVerifier fingerprint)
  else fail DNeedsPin.

Definition resolve_wss_tls_connector (c : ClientConfig) (scheme host : string) (port : Z)
  : dial (option Verifier) :=
  if negb (eq_ignore_ascii_case scheme "wss") then mret None
  else if nonempty (cc_tls_cert_fingerprint (client c))
  then mret (Some (PinnedCertVerifier (cc_tls_cert_fingerprint (client c))))
  else if nonempty (cc_server_public_key (client c)) then
    catch (fingerprint ← fetch_and_verify_cert_proof c host port (cc_server_public_key (client c)) (dial_override c);
           mret (Some (PinnedCertVerifier fingerprint)))
          (fun _ => mret None)
  else mret None.

(** ** The device key and the handshakes *)

(** [PathBuf::join]: an absolute path replaces the first one. *)
Definition join_path (base rest : string) : string :=
  if starts_with "/" rest || is_empty base then rest
  else if bool_decide (last (string_bytes base) = Some 47) then base +:+ rest
  else base +:+ "/" +:+ rest.

Definition expand_home_path (path : string) : string :=
  match strip_prefix "~/" path, home with
  | Some rest, Some home => join_path home rest
  | _, _ => path
  end.

Definition load_device_keypair (c : ClientConfig) (random : list Z) : dial DeviceKeypair := fun w =>
    let (r, f) := load_or_create_device_keypair (expand_home_path (cc_private_key_path (client c)))
                    (expand_home_path (cc_public_key_path (client c))) random (fs w) in
    Ret (map_err DKeyFile r) {| fs := f; sockets := sockets w |}.

Definition device_keypair (c : ClientConfig) : dial DeviceKeypair :=
  random ← perform Random; load_device_keypair c random.

(** One end of a handshake over a connection *)
Fixpoint exchange {A} (s : nat) (p : proc unit A) : dial A :=
  match p with
  | Done r _ => lift DHandshake r
  | Send m _ k => _ ← ask (DHandshake HsIo) (perform (SendText s m)); exchange s k
  | Recv _ k => m ← need (DHandshake HsIo) (perform (RecvText s)); exchange s (k m)
  end.

(** ** NaiveTCP *)

(** An established path: its socket; for WireGuard with the keys and the index of the tunnel. *)
Inductive ClientPath :=
  | NaiveTcpPath (s : nat)
  | WebSocketPath (s : nat)
  | QuicPath (s : nat)
  | WireGuardPath (s : nat) (secret peer_public_key : list Z) (peer : SocketAddr) (session_index : Z).

Definition naive_dial_address (c : ClientConfig) : string :=
  if is_empty (trim (cc_server_resolved_address (client c)))
  then cc_server_public_address (client c) else cc_server_resolved_address (client c).

Definition authenticate_naive_tcp_stream (c : ClientConfig) (s : nat) : dial ClientPath :=
  keypair ← device_keypair c;
  _ ← exchange s (client_perform_auth_handshake keypair (cc_invite_token (client c)));
  mret (NaiveTcpPath s).

Definition address_required (c : ClientConfig) : dial unit :=
  if is_empty (trim (cc_server_public_address (client c))) then fail DAddressRequired else mret tt.

Definition establish_naive_tcp_session (c : ClientConfig) : dial ClientPath :=
  _ ← address_required c;
  server_addr ← lookup_server_address (naive_dial_address c) None;
  s ← tcp_socket (ip server_addr);
  _ ← ask DSocket (perform (TcpBind s (local_wildcard_bind_addr_for server_addr)));
  _ ← protect c s;
  _ ← ask DConnect (perform (Connect s server_addr));
  authenticate_naive_tcp_stream c s.

Definition establish_naive_tcp_session_with_bind (c : ClientConfig) (bind_address : string) : dial ClientPath :=
  _ ← address_required c;
  bind_ip ← lift DBadAddress (parse_bind_ip bind_address);
  server_address ← lookup_server_address (naive_dial_address c) (Some bind_ip);
  s ← tcp_socket bind_ip;
  _ ← ask DSocket (perform (TcpBind s (any_port bind_ip)));
  _ ← prepare_bound_socket_for_connect c (socket_network_bind c) s bind_address;
  _ ← ask DConnect (perform (Connect s server_address));
  authenticate_naive_tcp_stream c s.

(** ** WebSocket *)

Definition websocket_url (c : ClientConfig) : string :=
  let websocket_address :=
    if is_empty (trim (cc_server_websocket_address (client c)))
    then cc_server_public_address (client c) else cc_server_websocket_address (client c) in
  if starts_with "ws://" websocket_address || starts_with "wss://" websocket_address
  then websocket_address else "wss://" +:+ websocket_address.

Record WsTarget := { ws_uri : Uri; ws_scheme : string; ws_host : string; ws_port : Z }.

Definition websocket_target (c : ClientConfig) : dial WsTarget :=
  uri ← lift (fun e => e) (ok_or DUrl (into_client_request (websocket_url c)));
  host ← lift (fun e => e) (ok_or DNoHost (uri_host uri));
  let scheme := default "wss" (scheme_str uri) in
  let default_port := if eq_ignore_ascii_case scheme "wss" then 443 else 80 in
  mret {| ws_uri := uri; ws_scheme := scheme; ws_host := host;
          ws_port := default default_port (port_u16 uri) |}.

Definition ws_dial_address (c : ClientConfig) (t : WsTarget) : string :=
  if is_empty (trim (cc_server_resolved_address (client c)))
  then host_port (ws_host t) (ws_port t) else cc_server_resolved_address (client c).

(** tungstenite on a connected socket: TLS as the URI says, with the connector or the built-in roots,
    then the upgrade. *)
Definition client_async_tls_with_config (t : WsTarget) (url : string) (s : nat) (connector : option Verifier)
  : dial unit :=
  with_tls ← lift (fun e => e) (ok_or DUrl (uri_tls (ws_uri t)));
  _ ← (if with_tls : bool then _ ← tls s (default WebPkiRoots connector) (ws_host t); mret tt else mret tt);
  ask DUpgrade (perform (Upgrade s url)).

(** From the prepared socket on: the connector, the connection, the upgrade with a second attempt after
    a rotated certificate, the handshake. *)
Definition websocket_session (c : ClientConfig) (keypair : DeviceKeypair) (t : WsTarget)
    (server_addr : SocketAddr) (bind_ip : option IpAddr) (s : nat) : dial ClientPath :=
  connector ← resolve_wss_tls_connector c (ws_scheme t) (ws_host t) (ws_port t);
  _ ← ask DConnect (perform (Connect s server_addr));
  stream ← catch (_ ← client_async_tls_with_config t (websocket_url c) s connector; mret s)
    (fun err =>
       if eq_ignore_ascii_case (ws_scheme t) "wss" && should_retry_tls_rotation c then
         fingerprint ← refreshed c (ws_host t) (ws_port t);
         retry_stream ← connect_websocket_tcp_socket c server_addr bind_ip;
         _ ← client_async_tls_with_config t (websocket_url c) retry_stream
               (Some (PinnedCertVerifier fingerprint));
         mret retry_stream
       else fail err);
  _ ← exchange stream (client_perform_websocket_auth_handshake keypair (cc_invite_token (client c)));
  mret (WebSocketPath stream).

Definition establish_websocket_session (c : ClientConfig) : dial ClientPath :=
  _ ← address_required c;
  keypair ← device_keypair c;
  t ← websocket_target c;
  server_addr ← lookup_server_address (ws_dial_address c t) None;
  s ← tcp_socket (ip server_addr);
  _ ← ask DSocket (perform (TcpBind s (local_wildcard_bind_addr_for server_addr)));
  _ ← protect c s;
  websocket_session c keypair t server_addr None s.

Definition establish_websocket_session_with_bind (c : ClientConfig) (bind_address : string) : dial ClientPath :=
  _ ← address_required c;
  bind_ip ← lift DBadAddress (parse_bind_ip bind_address);
  keypair ← device_keypair c;
  t ← websocket_target c;
  server_addr ← lookup_server_address (ws_dial_address c t) (Some bind_ip);
  s ← tcp_socket bind_ip;
  _ ← ask DSocket (perform (TcpBind s (any_port bind_ip)));
  _ ← prepare_bound_socket_for_connect c (socket_network_bind c) s bind_address;
  websocket_session c keypair t server_addr (Some bind_ip) s.

(** ** QUIC *)

Definition quic_target (c : ClientConfig) : string * Z :=
  let quic_address :=
    if is_empty (trim (cc_server_websocket_address (client c)))
    then cc_server_public_address (client c) else cc_server_websocket_address (client c) in
  let quic_host_port :=
    trim_start_matches "h3://" (trim_start_matches "ws://" (trim_start_matches "wss://" quic_address)) in
  match rsplit_once ":"%char quic_host_port with
  | Some (host, port_str) =>
      match parse_unsigned 16 port_str with
      | Some port => (host, port)
      | None => (quic_host_port, 443)
      end
  | None => (quic_host_port, 443)
  end.

(** From the pin on; the reconnection after a rotated certificate binds as the first one. *)
Definition quic_session (c : ClientConfig) (network_bind : bool) (bind_ip : option IpAddr) : dial ClientPath :=
  let (host, port) := quic_target c in
  pin ← required_pin c host port;
  '(s, _) ← catch (connect_quic_client_with_bind c network_bind host port pin "bonded-quic" bind_ip)
    (fun err =>
       if should_retry_tls_rotation c then
         fingerprint ← refreshed c host port;
         connect_quic_client_with_bind c network_bind host port (PinnedCertVerifier fingerprint)
           "bonded-quic" bind_ip
       else fail err);
  _ ← ask DStream (perform (OpenBi s));
  keypair ← device_keypair c;
  _ ← exchange s (client_perform_quic_auth_handshake keypair (cc_invite_token (client c)));
  mret (QuicPath s).

Definition establish_quic_session (c : ClientConfig) : dial ClientPath := quic_session c false None.

Definition establish_quic_session_with_bind (c : ClientConfig) (bind_address : string) : dial ClientPath :=
  bind_ip ← lift DBadAddress (parse_bind_ip bind_address);
  quic_session c (socket_network_bind c) (Some bind_ip).

(** ** Requests to the bootstrap endpoint *)

(** What is made of the status and the body of the response *)
Definition h3_body (status : Z) (raw : list Z) : outcome DialError string :=
  body ← ok_or (DBody NonUtf8) (from_utf8 raw);
  if status =? 200 then Ok (trim body) else Err (DBody BadStatus).

Definition send_h3_json_request (s : nat) (host method path : string) (body : option string) : dial string :=
  '(status, raw) ← need DHttp (perform (H3Request s method ("https://" +:+ host +:+ path) body));
  lift (fun e => e) (h3_body status raw).

Definition request_bootstrap_json_h3 (c : ClientConfig) (host : string) (port : Z) (method path : string)
    (body : option string) : dial string :=
  '(v, require_cert_proof) ←
    (if nonempty (cc_tls_cert_fingerprint (client c))
     then mret (PinnedCertVerifier (cc_tls_cert_fingerprint (client c)), false)
     else if nonempty (cc_server_public_key (client c)) then mret (CapturingVerifier, true)
     else fail DNeedsPin);
  '(s, cert) ← catch (connect_quic_client c host port v "h3")
    (fun err =>
       if should_retry_tls_rotation c then
         fingerprint ← refreshed c host port;
         connect_quic_client c host port (PinnedCertVerifier fingerprint) "h3"
       else fail err);
  _ ← ask DHttp (perform (H3Open s));
  _ ← (if require_cert_proof : bool then
         proof ← send_h3_json_request s host "GET" "/v1/bootstrap/cert-proof" None;
         _ ← lift DProof (verify_cert_proof_response cert (cc_server_public_key (client c)) proof);
         mret tt
       else mret tt);
  send_h3_json_request s host method path body.

Definition http_request (s : nat) (host method path : string) (body : option string) : dial string :=
  raw ← need DHttp (perform (HttpExchange s (build_http_request method host path body)));
  lift DBody (extract_http_json_body raw).

Definition request_bootstrap_json_http (c : ClientConfig) (host : string) (port : Z) (method path : string)
    (body : option string) : dial string :=
  s ← connect_bootstrap_tcp c host port;
  http_request s host method path body.

Definition request_bootstrap_json_https (c : ClientConfig) (host : string) (port : Z) (method path : string)
    (body : option string) : dial string :=
  v ← required_pin c host port;
  tcp ← connect_bootstrap_tcp c host port;
  _ ← (if parse_ip_addr host then mret tt
       else if server_name_ok host then mret tt else fail DServerName);
  s ← catch (_ ← tls tcp v host; mret tcp)
    (fun err =>
       if should_retry_tls_rotation c then
         fingerprint ← refreshed c host port;
         retry_tcp ← connect_bootstrap_tcp c host port;
         _ ← tls retry_tcp (PinnedCertVerifier fingerprint) host;
         mret retry_tcp
       else fail err);
  http_request s host method path body.

Definition request_bootstrap_json (c : ClientConfig) (scheme : BootstrapScheme) (address method path : string)
    (body : option string) : dial string :=
  '(host, port) ← lift DBadAddress (split_host_port address);
  match scheme with
  | H3 => request_bootstrap_json_h3 c host port method path body
  | Http => request_bootstrap_json_http c host port method path body
  | Https => request_bootstrap_json_https c host port method path body
  end.

(** ** WireGuard *)

Record WireGuardCapability := { wc_endpoint : string; wc_server_public_key : string; wc_lease : Z }.

(** A number field with [#[serde(default)]] *)
Definition field_u64_default (key : string) (fields : list (string * json)) : option Z :=
  match members key fields with
  | [] => Some 0
  | [j] => as_uint 64 j
  | _ => None
  end.

Definition wireguard_capability_of_json (j : json) : option WireGuardCapability :=
  match j with
  | JObj fs =>
      e ← field_str "endpoint" fs;
      k ← field_str_default "server_public_key" fs;
      l ← field_u64_default "peer_lease_seconds" fs;
      Some {| wc_endpoint := e; wc_server_public_key := k; wc_lease := l |}
  | JArr (JStr e :: rest) =>
      k ← (match rest with [] => Some EmptyString | j :: _ => as_str j end);
      l ← (match rest with [] | [_] => Some 0 | [_; j] => as_uint 64 j | _ => None end);
      Some {| wc_endpoint := e; wc_server_public_key := k; wc_lease := l |}
  | _ => None
  end.

(** [Option<WireGuardCapability>] as a value *)
Definition optional_capability (j : json) : option (option WireGuardCapability) :=
  match j with
  | JNull => Some None
  | j => Some <$> wireguard_capability_of_json j
  end.

(** [WireGuardCapabilitiesResponse]: the field may be missing. *)
Definition capabilities_of_json (j : json) : option (option WireGuardCapability) :=
  match j with
  | JObj fs =>
      match members "wireguard" fs with
      | [] => Some None
      | [j] => optional_capability j
      | _ => None
      end
  | JArr [j] => optional_capability j
  | _ => None
  end.

(** [WireGuardProvisionResponse]: the server's key and the expiry; the address is read and dropped. *)
Definition provision_of_json (j : json) : option (string * Z) :=
  match j with
  | JObj fs =>
      k ← field_str_default "server_wg_public_key" fs;
      _ ← field_str_default "peer_ip" fs;
      l ← field_u64_default "lease_expires_at" fs;
      Some (k, l)
  | JArr l =>
      k ← (match l with [] => Some EmptyString | j :: _ => as_str j end);
      _ ← (match l with [] | [_] => Some EmptyString | _ :: j :: _ => as_str j end);
      x ← (match l with [] | [_] | [_; _] => Some 0 | [_; _; j] => as_uint 64 j | _ => None end);
      Some (k, x)
  | _ => None
  end.

Record WireGuardBootstrapInfo := { wb_endpoint : string; wb_key : string; wb_lease : Z; wb_expires : Z }.

(** The settings [bootstrap_scheme_candidates] reads *)
Definition peer_settings (c : ClientConfig) : PeerSettings :=
  {| ps_server_public_key := cc_server_public_key (client c);
     ps_server_public_address := cc_server_public_address (client c);
     ps_server_websocket_address := cc_server_websocket_address (client c);
     ps_preferred_protocols := cc_preferred_protocols (client c);
     ps_bind_address := cc_peer_share_bind_address (client c);
     ps_advertise_ip := cc_peer_share_advertise_ip (client c) |}.

Definition provision_request (device_key wg_key : string) : json :=
  flat [("device_public_key", device_key); ("wg_public_key", wg_key)].

(** One scheme: the peer, or [None] to go on with the next scheme; unreadable answers are errors. *)
Definition bootstrap_over (c : ClientConfig) (address device_key wg_key : string) (scheme : BootstrapScheme)
  : dial (option WireGuardBootstrapInfo) :=
  let request method path body :=
    catch (r ← request_bootstrap_json c scheme address method path body; mret (Some r))
          (fun _ => mret None) in
  capabilities_raw ← request "GET" "/v1/bootstrap/capabilities" None;
  match capabilities_raw with
  | None => mret None
  | Some capabilities_raw =>
      capabilities ← lift (fun e => e) (ok_or DBootstrapJson (from_str capabilities_of_json capabilities_raw));
      match capabilities with
      | None => mret None
      | Some wireguard =>
          provision_raw ← request "POST" "/v1/bootstrap/wireguard/peer"
            (Some (json_print (provision_request device_key wg_key)));
          match provision_raw with
          | None => mret None
          | Some provision_raw =>
              '(key, expires) ← lift (fun e => e) (ok_or DBootstrapJson (from_str provision_of_json provision_raw));
              let server_public_key :=
                if nonempty key then key
                else if nonempty (wc_server_public_key wireguard) then wc_server_public_key wireguard
                else cc_wireguard_server_public_key (client c) in
              if is_empty server_public_key then mret None
              else mret (Some {| wb_endpoint := wc_endpoint wireguard; wb_key := server_public_key;
                                 wb_lease := wc_lease wireguard; wb_expires := expires |})
          end
      end
  end.

Fixpoint bootstrap_schemes (c : ClientConfig) (address device_key wg_key : string) (schemes : list BootstrapScheme)
  : dial WireGuardBootstrapInfo :=
  match schemes with
  | [] => fail DBootstrapFailed
  | scheme :: schemes =>
      r ← bootstrap_over c address device_key wg_key scheme;
      match r with
      | Some info => mret info
      | None => bootstrap_schemes c address device_key wg_key schemes
      end
  end.

Definition bootstrap_wireguard_peer (c : ClientConfig) (device_key wg_key : string) : dial WireGuardBootstrapInfo :=
  let bootstrap_address := trim (cc_server_public_address (client c)) in
  if is_empty bootstrap_address then fail DAddressRequired
  else bootstrap_schemes c bootstrap_address device_key wg_key (bootstrap_scheme_candidates (peer_settings c)).

Definition decode_wireguard_public_key (key : string) : dial (list Z) :=
  raw ← lift (fun e => e) (ok_or DWgKey (b64_decode key));
  if (length raw =? 32)%nat then mret raw else fail DWgKey.

(** [WireGuardTransport::new], up to the tunnel it makes of the keys *)
Definition wireguard_transport (c : ClientConfig) (secret peer_public_key : list Z) (bind_addr : string)
    (peer_addr : SocketAddr) (session_index : Z) : dial ClientPath :=
  s ← new_socket;
  _ ← ask DSocket (perform (UdpBindText s bind_addr));
  _ ← protect c s;
  _ ← ask DConnect (perform (Connect s peer_addr));
  mret (WireGuardPath s secret peer_public_key peer_addr session_index).

(** The keys of a session: the device's, a fresh tunnel key, and the server's. *)
Definition wireguard_keys (c : ClientConfig) : dial (list Z * WireGuardBootstrapInfo * list Z) :=
  device ← device_keypair c;
  secret ← perform Random;
  bootstrap ← bootstrap_wireguard_peer c (public_key_b64 device) (b64_encode (x25519_public secret));
  peer_public_key ← decode_wireguard_public_key (wb_key bootstrap);
  mret (secret, bootstrap, peer_public_key).

Definition establish_wireguard_session (c : ClientConfig) : dial ClientPath :=
  '(secret, bootstrap, peer_public_key) ← wireguard_keys c;
  server_addr ← lookup_first (wb_endpoint bootstrap);
  session_index ← perform RandomIndex;
  wireguard_transport c secret peer_public_key "[::]:0" server_addr session_index.

Definition establish_wireguard_session_with_bind (c : ClientConfig) (bind_address : string) : dial ClientPath :=
  bind_ip ← lift DBadAddress (parse_bind_ip bind_address);
  '(secret, bootstrap, peer_public_key) ← wireguard_keys c;
  server_addr ← lookup_server_address (wb_endpoint bootstrap) (Some bind_ip);
  session_index ← perform RandomIndex;
  wireguard_transport c secret peer_public_key (print_socket_addr (any_port bind_ip)) server_addr session_index.

(** ** All paths *)

(** The attempt for a transport, with or without a bind address *)
Definition establish (c : ClientConfig) (kind : TransportKind) (bind : option string) : dial ClientPath :=
  match kind, bind with
  | NaiveTcp, Some bind => establish_naive_tcp_session_with_bind c bind
  | NaiveTcp, None => establish_naive_tcp_session c
  | WebSocketTls, Some bind => establish_websocket_session_with_bind c bind
  | WebSocketTls, None => establish_websocket_session c
  | Quic, Some bind => establish_quic_session_with_bind c bind
  | Quic, None => establish_quic_session c
  | WireGuard, Some bind => establish_wireguard_session_with_bind c bind
  | WireGuard, None => establish_wireguard_session c
  end.

Fixpoint dial_path (c : ClientConfig) (bind : option string) (protocols : list string)
  : dial (option (string * ClientPath)) :=
  match protocols with
  | [] => mret None
  | protocol :: protocols =>
      match transport_of_protocol protocol with
      | None => dial_path c bind protocols
      | Some kind =>
          r ← catch (p ← within (establish c kind bind); mret (Some (protocol, p))) (fun _ => mret None);
          match r with
          | Some p => mret (Some p)
          | None => dial_path c bind protocols
          end
      end
  end.

Fixpoint dial_paths (c : ClientConfig) (protocols : list string) (n index : nat)
    (paths : list (string * ClientPath)) : dial (list (string * ClientPath)) :=
  match n with
  | O => mret paths
  | S n =>
      r ← dial_path c (cc_path_bind_addresses (client c) !! index) (rotated_protocols protocols index);
      match r with
      | Some p => dial_paths c protocols n (S index) (paths ++ [p])
      | None => if Nat.eqb index 0 then fail DBootstrapFailed else mret paths
      end
  end.

(** [establish_transport_paths] *)
Definition dial_transport_paths (c : ClientConfig) (count : nat) : dial (list (string * ClientPath)) :=
  let protocols := sanitize_preferred_protocols (cc_preferred_protocols (client c))
                     (cc_allow_insecure_debug_transports (client c)) in
  dial_paths c protocols (Nat.max count 1) 0 [].
End dialling.

(** * Lemmas *)

(** ** A program logic

    [wp] runs a program against all answers at once: every operation has to be permitted where it is
    performed, and the result satisfies the postcondition. *)

Section logic.
Variable ok : list event -> net -> Prop.

Fixpoint wp {A} (p : prog A) (t : list event) (Q : list event -> A -> World -> Prop) : Prop :=
  match p with
  | Ret a w => Q t a w
  | Op op w k => ok t op /\ forall x, wp (k x) (t ++ [Ev op x]) Q
  end.

Lemma wp_mono {A} (p : prog A) t (Q R : list event -> A -> World -> Prop) :
  (forall t' a w, Q t' a w -> R t' a w) -> wp p t Q -> wp p t R.
Proof.
  intros HQR. revert t. induction p as [a w|op w k IH]; intros t; cbn [wp]; [apply HQR|].
  intros [Hok Hk]. split; [done|]. intros x. by apply IH.
Qed.

Lemma wp_bind {A B} (p : prog A) (f : A -> World -> prog B) t Q :
  wp p t (fun t' a w => wp (f a w) t' Q) -> wp (prog_bind p f) t Q.
Proof.
  revert t. induction p as [a w|op w k IH]; intros t; cbn [wp prog_bind]; [done|].
  intros [Hok Hk]. split; [done|]. intros x. by apply IH.
Qed.

(** Every execution: each operation is permitted by what happened before it. *)
Lemma wp_exec {A} (e : env) (p : prog A) t Q :
  wp p t Q ->
  let '(t', a, w) := exec e t p in
  Q t' a w /\ t `prefix_of` t' /\
  forall t1 op x t2, t' = t1 ++ Ev op x :: t2 -> (length t <= length t1)%nat -> ok t1 op.
Proof.
  revert t. induction p as [a w|op w k IH]; intros t; cbn [wp exec].
  - intros HQ. split_and!; [done..|]. intros t1 op x t2 -> Hl. rewrite length_app in Hl. simpl in Hl. lia.
  - intros [Hok Hk]. specialize (IH (e t op) (t ++ [Ev op (e t op)]) (Hk (e t op))).
    destruct (exec e _ _) as [[t' a] w']. destruct IH as (HQ & Hpre & Hall).
    split_and!; [done| |].
    + destruct Hpre as [u ->]. rewrite <- app_assoc. by eexists.
    + intros t1 op' x t2 Ht Hl. destruct (decide (length t1 = length t)) as [He|Hne].
      * destruct Hpre as [u Hu]. rewrite Hu, <- app_assoc in Ht.
        apply app_inj_1 in Ht as [-> Ht]; [|done]. simpl in Ht. injection Ht as Hop _ _. by subst.
      * eapply Hall; [done|]. rewrite length_app. simpl. lia.
Qed.

(** A step run after [t]: if it succeeds with [a] then [Q a] holds of all that has happened. *)
Definition holds {A} (t : list event) (m : dial A) (w : World) (Q : A -> list event -> Prop) : Prop :=
  wp (m w) t (fun t' r _ => t `prefix_of` t' /\ forall a, r = Ok a -> Q a t').

Lemma holds_mono {A} t (m : dial A) w (Q R : A -> list event -> Prop) :
  holds t m w Q -> (forall a t', t `prefix_of` t' -> Q a t' -> R a t') -> holds t m w R.
Proof.
  intros Hm HQR. eapply wp_mono; [|done]. cbn. intros t' r _ [Hp HQ]. split; [done|].
  intros a Hr. apply HQR; auto.
Qed.

Lemma holds_bind {A B} t (m : dial A) (k : A -> dial B) w Q R :
  holds t m w Q -> (forall a t' w', t `prefix_of` t' -> Q a t' -> holds t' (k a) w' R) ->
  holds t (m ≫= k) w R.
Proof.
  intros Hm Hk. unfold holds, mbind, dial_bind. apply wp_bind. eapply wp_mono; [|exact Hm]. cbn.
  intros t' [a|e|] w' [Hp HQ]; cbn [wp]; [|by split..].
  eapply wp_mono; [|apply Hk; [done | by apply HQ]]. cbn. intros t'' r _ [Hp' HR].
  split; [by transitivity t' | done].
Qed.

Lemma holds_catch {A} t (m : dial A) (h : DialError -> dial A) w Q :
  holds t m w Q -> (forall e t' w', t `prefix_of` t' -> holds t' (h e) w' Q) -> holds t (catch m h) w Q.
Proof.
  intros Hm Hh. unfold holds, catch. apply wp_bind. eapply wp_mono; [|exact Hm]. cbn.
  intros t' [a|e|] w' [Hp HQ]; cbn [wp]; [by split| |by split].
  eapply wp_mono; [|by apply Hh]. cbn. intros t'' r _ [Hp' HR]. split; [by transitivity t' | done].
Qed.

Lemma wp_cut {A} n (p : prog (outcome DialError A)) t t0 (Q : A -> list event -> Prop) :
  t0 `prefix_of` t ->
  wp p t (fun t' r _ => t0 `prefix_of` t' /\ forall a, r = Ok a -> Q a t') ->
  wp (cut n p) t (fun t' r _ => t0 `prefix_of` t' /\ forall a, r = Ok a -> Q a t').
Proof.
  revert n t. induction p as [r w|op w k IH]; intros n t Hp; cbn [wp cut]; [done|].
  intros [Hok Hk]. destruct n as [|n]; cbn [wp]; [by split|]. split; [done|]. intros x.
  apply IH; [|done]. by apply prefix_app_r.
Qed.

Lemma holds_within {A} t (m : dial A) w Q :
  ok t TimeLimit -> (forall n, holds (t ++ [Ev TimeLimit n]) m w Q) -> holds t (within m) w Q.
Proof.
  intros Hok Hm. unfold holds, within. cbn [wp]. split; [done|]. intros n.
  apply wp_cut; [by apply prefix_app_r|]. eapply wp_mono; [|apply Hm]. cbn. intros t' r _ [Hp HQ].
  split; [|done]. etransitivity; [|exact Hp]. by apply prefix_app_r.
Qed.

Lemma holds_ret {A} t (a : A) w (Q : A -> list event -> Prop) : Q a t -> holds t (mret a) w Q.
Proof. intros HQ. split; [done|]. by intros a' [= <-]. Qed.

Lemma holds_fail {A} t e w (Q : A -> list event -> Prop) : holds t (fail e) w Q.
Proof. by split. Qed.

Lemma holds_lift {E A} t (f : E -> DialError) (o : outcome E A) w (Q : A -> list event -> Prop) :
  (forall a, o = Ok a -> Q a t) -> holds t (lift f o) w Q.
Proof. intros HQ. split; [done|]. intros a Ha. apply HQ. by destruct o; simplify_eq/=. Qed.

Lemma holds_perform t op w : ok t op -> holds t (perform op) w (fun x t' => t' = t ++ [Ev op x]).
Proof.
  intros Hok. unfold holds, perform. cbn [wp]. split; [done|]. intros x. split; [by apply prefix_app_r|].
  by intros a [= <-].
Qed.

Lemma holds_ask t e (o : dial bool) w Q : holds t o w Q -> holds t (ask e o) w (fun _ => Q true).
Proof.
  intros Ho. eapply holds_bind; [exact Ho|]. intros [] t' w' _ HQ; [by apply holds_ret | apply holds_fail].
Qed.

Lemma holds_need {A} t e (o : dial (option A)) w Q :
  holds t o w Q -> holds t (need e o) w (fun a => Q (Some a)).
Proof.
  intros Ho. eapply holds_bind; [exact Ho|]. intros x t' w' _ HQ. apply holds_lift.
  destruct x; [|done]. by intros a' [= <-].
Qed.

Lemma holds_new_socket t w : holds t new_socket w (fun _ _ => True).
Proof. by split. Qed.

Lemma holds_exchange {A} t s (p : proc unit A) w :
  (forall t' m, t `prefix_of` t' -> ok t' (SendText s m)) -> (forall t', ok t' (RecvText s)) ->
  holds t (exchange s p) w (fun _ _ => True).
Proof.
  intros Hs Hr. revert t w Hs. induction p as [r u|m u k IH|u k IH]; intros t w Hs; cbn [exchange].
  - by apply holds_lift.
  - eapply holds_bind; [apply holds_ask, holds_perform, Hs; done|]. cbn. intros _ t' w' Hp _.
    apply IH. intros t'' m' Hp'. apply Hs. by transitivity t'.
  - eapply holds_bind; [apply holds_need, holds_perform, Hr|]. cbn. intros m t' w' Hp _.
    apply IH. intros t'' m' Hp'. apply Hs. by transitivity t'.
Qed.
End logic.

(** ** What the client does on the network *)

Section safety.
Context `{Crypto} `{JsonText} `{!Sha256} `{!X25519} `{!ServerNames} `{!WsUri}.
Variable home : option string.
Variable c : ClientConfig.

(** An answer that was received carries a signature of the fingerprint that verifies under the server's identity key. *)
Definition signed_by_server (t : list event) (fingerprint : string) : Prop :=
  exists s request raw signature pk sig,
    Ev (HttpExchange s request) (Some raw) ∈ t /\ proof_signature raw = Some signature /\
    b64_decode (cc_server_public_key (client c)) = Some pk /\ b64_decode signature = Some sig /\
    ed_verify pk (string_bytes fingerprint) sig = true.

(** The certificate is the stored one, or the server's identity key has signed its fingerprint. *)
Definition pinned_certificate (t : list event) (p : Presented) : Prop :=
  exists cert, head (chain p) = Some cert /\
    ((nonempty (cc_tls_cert_fingerprint (client c)) = true /\
      compute_fingerprint cert = cc_tls_cert_fingerprint (client c)) \/
     signed_by_server t (compute_fingerprint cert)).

(** Where no fingerprint is stored, the built-in roots may vouch for the certificate of a WebSocket. *)
Definition trusted_certificate (t : list event) (p : Presented) : Prop :=
  pinned_certificate t p \/
  (nonempty (cc_tls_cert_fingerprint (client c)) = false /\ roots_accept p = true /\ proves_key p = true).

Definition secure_channel (t : list event) (s : nat) : Prop :=
  (exists p v name, Ev (TlsConnect s v name) (Some p) ∈ t /\ trusted_certificate t p) \/
  (exists p v a host alpn, Ev (QuicConnect s v a host alpn) (Some p) ∈ t /\ pinned_certificate t p).

(** No transport without encryption is configured: the WebSocket URL is one for TLS. *)
Definition encrypted_only : Prop :=
  cc_allow_insecure_debug_transports (client c) = false /\
  forall u, into_client_request (websocket_url c) = Some u ->
    eq_ignore_ascii_case (default "wss" (scheme_str u)) "wss" = true /\ uri_tls u = Some true.

(** Sockets are protected before they connect, and nothing of the handshake goes to an unverified peer. *)
Definition permitted (t : list event) (op : net) : Prop :=
  match op with
  | Connect s _ | QuicConnect s _ _ _ _ => socket_protect c = true -> Ev (Protect s) true ∈ t
  | SendText s _ => encrypted_only -> secure_channel t s
  | _ => True
  end.

Abbreviation dials := (holds permitted).

(** The verifiers that stand for a trusted certificate *)
Definition trusted_verifier (t : list event) (v : Verifier) : Prop :=
  match v with
  | CapturingVerifier => False
  | PinnedCertVerifier fingerprint =>
      nonempty (cc_tls_cert_fingerprint (client c)) = true /\ fingerprint = cc_tls_cert_fingerprint (client c)
      \/ signed_by_server t fingerprint
  | WebPkiRoots => nonempty (cc_tls_cert_fingerprint (client c)) = false
  end.

Lemma accepted_pinned t fingerprint p cert :
  trusted_verifier t (PinnedCertVerifier fingerprint) -> accepted (PinnedCertVerifier fingerprint) p = Some cert ->
  pinned_certificate t p.
Proof.
  unfold accepted. destruct (head (chain p)) as [ee|] eqn:Hh; [|done].
  cbn [mbind option_bind verify_server_cert verify_tls_signature]. unfold pinned_accepts.
  destruct (bool_decide_reflect (compute_fingerprint ee = fingerprint)) as [Hf|]; [|done].
  intros Hv _. exists ee. split; [done|]. subst. destruct Hv as [[Hn ?]|Hv]; [by left | by right].
Qed.

Lemma accepted_trusted t v p cert : trusted_verifier t v -> accepted v p = Some cert -> trusted_certificate t p.
Proof.
  destruct v as [|fp|]; [done| |].
  - intros Hv Ha. left. by eapply accepted_pinned.
  - unfold accepted. destruct (head (chain p)) as [ee|] eqn:Hh; [|done].
    cbn [mbind option_bind verify_server_cert verify_tls_signature trusted_verifier].
    destruct (roots_accept p) eqn:Hr, (proves_key p) eqn:Hk; [|done..]. intros Hv _. right. by split_and!.
Qed.

Lemma prefix_in (t t' : list event) e : t `prefix_of` t' -> e ∈ t -> e ∈ t'.
Proof. intros [u ->]. set_solver. Qed.

Lemma signed_prefix t t' fp : t `prefix_of` t' -> signed_by_server t fp -> signed_by_server t' fp.
Proof.
  intros Ht (s & request & raw & sg & pk & sig & Hin & Hr). exists s, request, raw, sg, pk, sig.
  split; [by eapply prefix_in | done].
Qed.

Lemma pinned_prefix t t' p : t `prefix_of` t' -> pinned_certificate t p -> pinned_certificate t' p.
Proof.
  intros Ht (cert & Hh & [Hp|Hp]); exists cert; (split; [done|]); [by left | right; by eapply signed_prefix].
Qed.

Lemma secure_prefix t t' s : t `prefix_of` t' -> secure_channel t s -> secure_channel t' s.
Proof.
  intros Ht [(p & v & n & Hin & Hp)|(p & v & a & h & l & Hin & Hp)].
  - left. exists p, v, n. split; [by eapply prefix_in|]. destruct Hp as [Hp|Hp]; [left; by eapply pinned_prefix | by right].
  - right. exists p, v, a, h, l. split; [by eapply prefix_in | by eapply pinned_prefix].
Qed.

Lemma trusted_prefix t t' v : t `prefix_of` t' -> trusted_verifier t v -> trusted_verifier t' v.
Proof. intros Ht. destruct v; [done| |done]. intros [Hp|Hp]; [by left | right; by eapply signed_prefix]. Qed.

Definition protected (s : nat) (t : list event) : Prop :=
  socket_protect c = true -> Ev (Protect s) true ∈ t.

Lemma protected_prefix t t' s : t `prefix_of` t' -> protected s t -> protected s t'.
Proof. intros [u ->] Hp Hc. specialize (Hp Hc). set_solver. Qed.

Lemma in_last (t : list event) e : e ∈ t ++ [e].
Proof. set_solver. Qed.

#[local] Create HintDb dials.
#[local] Hint Resolve holds_ret holds_fail holds_new_socket in_last : dials.

(** One step: an operation that needs no permission, or a helper with a lemma. *)
Ltac dial_op := first
  [ apply holds_ask, holds_perform; exact I
  | apply holds_need, holds_perform; exact I
  | apply holds_perform; exact I
  | apply holds_new_socket
  | apply holds_lift; intros ? ?; first [eassumption | exact I] ].
Ltac dial_step := eapply holds_bind; [dial_op | cbn beta; intros ? ? ? ? ?].

Lemma dials_lookup_first t w target : dials t (lookup_first target) w (fun _ _ => True).
Proof. unfold lookup_first. dial_step. by apply holds_lift. Qed.

Lemma dials_resolve t w address bind : dials t (lookup_server_address address bind) w (fun _ _ => True).
Proof.
  unfold lookup_server_address. dial_step. by apply holds_lift.
Qed.

Lemma dials_tcp_socket t w a : dials t (tcp_socket a) w (fun _ _ => True).
Proof. unfold tcp_socket. dial_step. dial_step. by apply holds_ret. Qed.

Lemma dials_protect t w s : dials t (protect c s) w (fun _ => protected s).
Proof.
  unfold protect, protected. destruct (socket_protect c) eqn:Hc; [|by apply holds_ret].
  eapply holds_mono; [dial_op|]. cbn. intros _ t' _ -> _. apply in_last.
Qed.

Lemma dials_prepare t w nb s addr : dials t (prepare_bound_socket_for_connect c nb s addr) w (fun _ => protected s).
Proof.
  unfold prepare_bound_socket_for_connect. eapply holds_bind with (Q := fun _ _ => True).
  - destruct nb; [|by apply holds_ret]. eapply holds_mono; [dial_op | done].
  - intros. apply dials_protect.
Qed.

Lemma dials_connect t w s a : protected s t -> dials t (ask DConnect (perform (Connect s a))) w (fun _ _ => True).
Proof. intros Hp. eapply holds_mono; [by apply holds_ask, holds_perform | done]. Qed.

Lemma dials_ws_socket t w a bind : dials t (connect_websocket_tcp_socket c a bind) w (fun _ _ => True).
Proof.
  unfold connect_websocket_tcp_socket. eapply holds_bind; [apply dials_tcp_socket|]. intros s t1 w1 _ _.
  dial_step. eapply holds_bind with (Q := fun _ => protected s).
  - destruct bind; [apply dials_prepare | apply dials_protect].
  - intros. eapply holds_bind; [by apply dials_connect|]. intros. by apply holds_ret.
Qed.

Lemma dials_bootstrap_tcp t w host port : dials t (connect_bootstrap_tcp c host port) w (fun _ _ => True).
Proof.
  unfold connect_bootstrap_tcp. eapply holds_bind; [apply dials_lookup_first|]. intros a t1 w1 _ _.
  eapply holds_bind; [apply dials_tcp_socket|]. intros s t2 w2 _ _.
  eapply holds_bind; [apply dials_protect|]. intros ? t3 w3 ? Hp.
  eapply holds_bind; [by apply dials_connect|]. intros. by apply holds_ret.
Qed.

Lemma dials_quic_socket t w nb a : dials t (bind_quic_udp_socket c nb a) w protected.
Proof.
  unfold bind_quic_udp_socket. dial_step. rename a0 into s. dial_step.
  eapply holds_bind with (Q := fun _ => protected s).
  - destruct (negb _); [apply dials_prepare | apply dials_protect].
  - intros. by apply holds_ret.
Qed.

Lemma dials_tls t w s v name :
  dials t (tls s v name) w (fun _ t' => trusted_verifier t' v -> secure_channel t' s).
Proof.
  unfold tls. dial_step. apply holds_lift. intros cert Ha Hv. left. subst.
  destruct (accepted v a) as [cert'|] eqn:Hacc; [|done].
  exists a, v, name. split; [apply in_last | by eapply accepted_trusted].
Qed.

Lemma dials_quic t w nb host port v alpn bind :
  dials t (connect_quic_client_with_bind c nb host port v alpn bind) w
    (fun r t' => v <> WebPkiRoots -> trusted_verifier t' v -> secure_channel t' r.1).
Proof.
  unfold connect_quic_client_with_bind. dial_step.
  eapply holds_bind; [apply dials_lookup_first|]. intros addr t2 w2 _ _.
  eapply holds_bind; [apply dials_quic_socket|]. intros s t3 w3 _ Hs.
  dial_step. eapply holds_bind.
  { apply holds_need, holds_perform. cbn. subst. eapply protected_prefix; [|exact Hs]. by apply prefix_app_r. }
  cbn beta. intros p t5 w5 _ ->.
  eapply holds_bind with (Q := fun cert t' => accepted v p = Some cert /\ Ev (QuicConnect s v addr host alpn) (Some p) ∈ t').
  { apply holds_lift. intros cert Ha. split; [by destruct (accepted v p); simplify_eq/= | apply in_last]. }
  intros cert t6 w6 _ [Hacc Hin]. apply holds_ret. intros Hne Hv. right.
  exists p, v, addr, host, alpn. split; [done|]. destruct v; [done| |done]. by eapply accepted_pinned.
Qed.

Lemma dials_fetch t w host port addr :
  dials t (fetch_and_verify_cert_proof c host port (cc_server_public_key (client c)) addr) w
    (fun fingerprint t' => signed_by_server t' fingerprint).
Proof.
  unfold fetch_and_verify_cert_proof. eapply holds_bind; [apply dials_lookup_first|]. intros a t1 w1 _ _.
  eapply holds_bind; [apply dials_tcp_socket|]. intros s t2 w2 _ _.
  eapply holds_bind; [apply dials_protect|]. intros ? t3 w3 ? Hp.
  eapply holds_bind; [by apply dials_connect|]. intros ? t4 w4 _ _.
  eapply holds_bind with (Q := fun _ _ => True); [destruct (server_name_ok host); [by apply holds_ret | apply holds_fail]|].
  intros ? t5 w5 _ _. eapply holds_bind; [apply dials_tls|]. intros cert t6 w6 _ _. dial_step.
  apply holds_lift. intros fp (sg & pk & sig & Hsg & Hr)%fetched_cert_proof_signed.
  eexists _, _, _, sg, pk, sig. split; [subst; apply in_last | by split].
Qed.

Lemma dials_refreshed t w host port :
  dials t (refreshed c host port) w (fun fingerprint t' => signed_by_server t' fingerprint).
Proof.
  unfold refreshed, refresh_tls_fingerprint_after_rotation.
  eapply holds_mono; [apply (holds_need _ _ _ _ _ (fun o t' => forall fp, o = Some fp -> signed_by_server t' fp))|].
  - destruct (negb _); [by apply holds_ret|].
    eapply holds_bind; [apply dials_fetch|]. intros fp t1 w1 _ Hs. apply holds_ret. by intros fp' [= <-].
  - intros fp t' _ Hs. by apply Hs.
Qed.

Definition is_pin (t : list event) (v : Verifier) : Prop := v <> WebPkiRoots /\ trusted_verifier t v.

Lemma stored_pin t : nonempty (cc_tls_cert_fingerprint (client c)) = true ->
  is_pin t (PinnedCertVerifier (cc_tls_cert_fingerprint (client c))).
Proof. intros Hn. split; [done|]. by left. Qed.

Lemma proved_pin t fp : signed_by_server t fp -> is_pin t (PinnedCertVerifier fp).
Proof. intros Hs. split; [done|]. by right. Qed.

Lemma dials_required_pin t w host port : dials t (required_pin c host port) w (fun v t' => is_pin t' v).
Proof.
  unfold required_pin. destruct (nonempty (cc_tls_cert_fingerprint _)) eqn:Hn.
  { apply holds_ret. by apply stored_pin. }
  destruct (nonempty (cc_server_public_key _)); [|apply holds_fail]. eapply holds_bind; [apply dials_fetch|].
  intros fp t1 w1 _ Hs. apply holds_ret. by apply proved_pin.
Qed.

Lemma dials_connector t w scheme host port :
  dials t (resolve_wss_tls_connector c scheme host port) w
    (fun o t' => eq_ignore_ascii_case scheme "wss" = true -> trusted_verifier t' (default WebPkiRoots o)).
Proof.
  unfold resolve_wss_tls_connector. destruct (eq_ignore_ascii_case scheme "wss"); [|by apply holds_ret].
  cbn [negb]. destruct (nonempty (cc_tls_cert_fingerprint _)) eqn:Hn.
  { apply holds_ret. intros _. by apply stored_pin. }
  destruct (nonempty (cc_server_public_key _)); [|by apply holds_ret].
  apply holds_catch; [|intros; by apply holds_ret]. eapply holds_bind; [apply dials_fetch|].
  intros fp t1 w1 _ Hs. apply holds_ret. intros _. by apply proved_pin.
Qed.

Lemma dials_keypair t w : dials t (device_keypair home c) w (fun _ _ => True).
Proof.
  unfold device_keypair. dial_step. unfold holds, load_device_keypair.
  destruct (load_or_create_device_keypair _ _ _ _) as [r f]. by split.
Qed.

Lemma dials_exchange {A} t w s (p : proc unit A) :
  (encrypted_only -> secure_channel t s) -> dials t (exchange s p) w (fun _ _ => True).
Proof.
  intros Hs. apply holds_exchange; [|done]. intros t' m Hp Henc. eapply secure_prefix; [done|]. by apply Hs.
Qed.

(** *** Sessions *)

Lemma dials_address_required t w : dials t (address_required c) w (fun _ _ => True).
Proof. unfold address_required. destruct (is_empty _); [apply holds_fail | by apply holds_ret]. Qed.

Definition wss_target (target : WsTarget) : Prop :=
  encrypted_only ->
  eq_ignore_ascii_case (ws_scheme target) "wss" = true /\ uri_tls (ws_uri target) = Some true.

Lemma dials_target t w : dials t (websocket_target c) w (fun target _ => wss_target target).
Proof.
  unfold websocket_target. eapply holds_bind with (Q := fun u _ => into_client_request (websocket_url c) = Some u).
  { apply holds_lift. intros u. by destruct (into_client_request _); intros; simplify_eq/=. }
  intros u t1 w1 _ Hu. eapply holds_bind; [by apply (holds_lift _ _ _ _ _ (fun _ _ => True))|].
  intros host t2 w2 _ _. apply holds_ret. intros [_ Hw]. by apply Hw.
Qed.

Lemma dials_upgrade t w target url s connector :
  (encrypted_only -> trusted_verifier t (default WebPkiRoots connector)) -> wss_target target ->
  dials t (client_async_tls_with_config target url s connector) w
    (fun _ t' => encrypted_only -> secure_channel t' s).
Proof.
  intros Hv Ht. unfold client_async_tls_with_config.
  eapply holds_bind with (Q := fun b _ => encrypted_only -> b = true).
  { apply holds_lift. intros b Hb Henc. destruct (Ht Henc) as [_ Hu]. rewrite Hu in Hb. by injection Hb as <-. }
  intros b t1 w1 Hp1 Hb. eapply holds_bind with (Q := fun _ t' => encrypted_only -> secure_channel t' s).
  - destruct b; [|apply holds_ret; intros Henc; by specialize (Hb Henc)].
    eapply holds_bind; [apply dials_tls|]. intros cert t2 w2 Hp2 Hs. apply holds_ret. intros Henc. apply Hs.
    eapply (trusted_prefix t); [by etrans | auto].
  - intros ? t2 w2 _ Hs. eapply holds_mono; [dial_op|]. cbn. intros ? t3 Hp _ Henc.
    eapply secure_prefix; [exact Hp | auto].
Qed.

Lemma dials_websocket_session t w keypair target addr bind s :
  wss_target target -> protected s t ->
  dials t (websocket_session c keypair target addr bind s) w (fun _ _ => True).
Proof.
  intros Ht Hs. unfold websocket_session. eapply holds_bind; [apply dials_connector|].
  intros connector t1 w1 Hp1 Hv. eapply holds_bind; [by apply dials_connect; eapply protected_prefix|].
  intros ? t2 w2 Hp2 _.
  eapply holds_bind with (Q := fun s t' => encrypted_only -> secure_channel t' s).
  - apply holds_catch.
    + eapply holds_bind.
      { apply dials_upgrade; [|done]. intros Henc. eapply trusted_prefix; [done|]. apply Hv. by apply Ht. }
      cbn beta. intros ? t3 w3 _ Hsec. by apply holds_ret.
    + intros err t3 w3 _. destruct (_ && _); [|apply holds_fail].
      eapply holds_bind; [apply dials_refreshed|]. intros fp t4 w4 _ Hfp.
      eapply holds_bind; [apply dials_ws_socket|]. intros s' t5 w5 Hp5 _.
      eapply holds_bind; [apply dials_upgrade; [|done]; intros _; eapply trusted_prefix; [done | by apply proved_pin]|].
      cbn beta. intros ? t6 w6 _ Hsec. by apply holds_ret.
  - cbn beta. intros s' t3 w3 _ Hsec. eapply holds_bind; [by apply dials_exchange|].
    intros. by apply holds_ret.
Qed.

Lemma dials_websocket t w : dials t (establish_websocket_session home c) w (fun _ _ => True).
Proof.
  unfold establish_websocket_session. eapply holds_bind; [apply dials_address_required|]. intros ? t1 w1 _ _.
  eapply holds_bind; [apply dials_keypair|]. intros kp t2 w2 _ _.
  eapply holds_bind; [apply dials_target|]. intros target t3 w3 _ Ht.
  eapply holds_bind; [apply dials_resolve|]. intros addr t4 w4 _ _.
  eapply holds_bind; [apply dials_tcp_socket|]. intros s t5 w5 _ _. dial_step.
  eapply holds_bind; [apply dials_protect|]. intros ? t7 w7 _ Hp. by apply dials_websocket_session.
Qed.

Lemma dials_bind_ip t w addr : dials t (lift DBadAddress (parse_bind_ip addr)) w (fun _ _ => True).
Proof. by apply holds_lift. Qed.

Lemma dials_websocket_bind t w addr :
  dials t (establish_websocket_session_with_bind home c addr) w (fun _ _ => True).
Proof.
  unfold establish_websocket_session_with_bind. eapply holds_bind; [apply dials_address_required|].
  intros ? t1 w1 _ _. eapply holds_bind; [apply dials_bind_ip|]. intros bind t1' w1' _ _.
  eapply holds_bind; [apply dials_keypair|]. intros kp t2 w2 _ _.
  eapply holds_bind; [apply dials_target|]. intros target t3 w3 _ Ht.
  eapply holds_bind; [apply dials_resolve|]. intros server t4 w4 _ _.
  eapply holds_bind; [apply dials_tcp_socket|]. intros s t5 w5 _ _. dial_step.
  eapply holds_bind; [apply dials_prepare|]. intros ? t7 w7 _ Hp. by apply dials_websocket_session.
Qed.

Lemma dials_quic_session t w nb bind : dials t (quic_session home c nb bind) w (fun _ _ => True).
Proof.
  unfold quic_session. destruct (quic_target c) as [host port].
  eapply holds_bind; [apply dials_required_pin|]. intros pin t1 w1 _ [Hne Hpin].
  eapply holds_bind with (Q := fun r t' => secure_channel t' r.1).
  - apply holds_catch.
    + eapply holds_mono; [apply dials_quic|]. cbn beta. intros r t2 Hp2 Hr. apply Hr; [done | by eapply trusted_prefix].
    + intros err t2 w2 _. destruct (should_retry_tls_rotation c); [|apply holds_fail].
      eapply holds_bind; [apply dials_refreshed|]. intros fp t3 w3 _ Hfp.
      eapply holds_mono; [apply dials_quic|]. cbn beta. intros r t4 Hp4 Hr.
      destruct (proved_pin _ _ Hfp) as [? Hv]. apply Hr; [done | by eapply trusted_prefix].
  - intros [s cert] t2 w2 _ Hs. cbn [fst] in Hs. dial_step.
    eapply holds_bind; [apply dials_keypair|]. intros kp t4 w4 Hp4 _.
    eapply holds_bind; [apply dials_exchange|].
    + intros _. eapply secure_prefix; [exact Hp4|]. eapply secure_prefix; [|exact Hs]. done.
    + intros. by apply holds_ret.
Qed.

Lemma dials_naive_auth t w s :
  cc_allow_insecure_debug_transports (client c) = true ->
  dials t (authenticate_naive_tcp_stream home c s) w (fun _ _ => True).
Proof.
  intros Hi. unfold authenticate_naive_tcp_stream. eapply holds_bind; [apply dials_keypair|]. intros kp t1 w1 _ _.
  eapply holds_bind; [apply dials_exchange; intros [Hf _]; congruence|]. intros. by apply holds_ret.
Qed.

Lemma dials_naive t w bind :
  cc_allow_insecure_debug_transports (client c) = true ->
  dials t (establish home c NaiveTcp bind) w (fun _ _ => True).
Proof.
  intros Hi. destruct bind as [addr|]; cbn [establish].
  - unfold establish_naive_tcp_session_with_bind. eapply holds_bind; [apply dials_address_required|].
    intros ? t1 w1 _ _. eapply holds_bind; [apply dials_bind_ip|]. intros bind t2 w2 _ _.
    eapply holds_bind; [apply dials_resolve|]. intros server t3 w3 _ _.
    eapply holds_bind; [apply dials_tcp_socket|]. intros s t4 w4 _ _. dial_step.
    eapply holds_bind; [apply dials_prepare|]. intros ? t6 w6 _ Hp.
    eapply holds_bind; [by apply dials_connect|]. intros. by apply dials_naive_auth.
  - unfold establish_naive_tcp_session. eapply holds_bind; [apply dials_address_required|]. intros ? t1 w1 _ _.
    eapply holds_bind; [apply dials_resolve|]. intros server t3 w3 _ _.
    eapply holds_bind; [apply dials_tcp_socket|]. intros s t4 w4 _ _. dial_step.
    eapply holds_bind; [apply dials_protect|]. intros ? t6 w6 _ Hp.
    eapply holds_bind; [by apply dials_connect|]. intros. by apply dials_naive_auth.
Qed.

(** *** Bootstrap requests and WireGuard *)

Lemma dials_h3_request t w s host method path body :
  dials t (send_h3_json_request s host method path body) w (fun _ _ => True).
Proof. unfold send_h3_json_request. dial_step. destruct a as [status raw]. by apply holds_lift. Qed.

Lemma dials_http_request t w s host method path body :
  dials t (http_request s host method path body) w (fun _ _ => True).
Proof. unfold http_request. dial_step. by apply holds_lift. Qed.

Lemma dials_h3 t w host port method path body :
  dials t (request_bootstrap_json_h3 c host port method path body) w (fun _ _ => True).
Proof.
  unfold request_bootstrap_json_h3. eapply holds_bind with (Q := fun _ _ => True).
  { destruct (nonempty (cc_tls_cert_fingerprint _)); [by apply holds_ret|].
    destruct (nonempty (cc_server_public_key _)); [by apply holds_ret | apply holds_fail]. }
  intros [v proof] t1 w1 _ _. eapply holds_bind with (Q := fun _ _ => True).
  { apply holds_catch; [eapply holds_mono; [apply dials_quic | done]|]. intros err t2 w2 _.
    destruct (should_retry_tls_rotation c); [|apply holds_fail].
    eapply holds_bind; [apply dials_refreshed|]. intros. eapply holds_mono; [apply dials_quic | done]. }
  intros [s cert] t2 w2 _ _. dial_step. eapply holds_bind with (Q := fun _ _ => True).
  { destruct proof; [|by apply holds_ret]. eapply holds_bind; [apply dials_h3_request|]. intros.
    eapply holds_bind; [by apply (holds_lift _ _ _ _ _ (fun _ _ => True))|]. intros. by apply holds_ret. }
  intros. apply dials_h3_request.
Qed.

Lemma dials_https t w host port method path body :
  dials t (request_bootstrap_json_https c host port method path body) w (fun _ _ => True).
Proof.
  unfold request_bootstrap_json_https. eapply holds_bind; [apply dials_required_pin|]. intros v t1 w1 _ _.
  eapply holds_bind; [apply dials_bootstrap_tcp|]. intros tcp t2 w2 _ _.
  eapply holds_bind with (Q := fun _ _ => True).
  { destruct (parse_ip_addr host); [by apply holds_ret|].
    destruct (server_name_ok host); [by apply holds_ret | apply holds_fail]. }
  intros ? t3 w3 _ _. eapply holds_bind with (Q := fun _ _ => True).
  { apply holds_catch.
    - eapply holds_bind; [apply dials_tls|]. intros. by apply holds_ret.
    - intros err t4 w4 _. destruct (should_retry_tls_rotation c); [|apply holds_fail].
      eapply holds_bind; [apply dials_refreshed|]. intros fp t5 w5 _ _.
      eapply holds_bind; [apply dials_bootstrap_tcp|]. intros s t6 w6 _ _.
      eapply holds_bind; [apply dials_tls|]. intros. by apply holds_ret. }
  intros. apply dials_http_request.
Qed.

Lemma dials_bootstrap_json t w scheme address method path body :
  dials t (request_bootstrap_json c scheme address method path body) w (fun _ _ => True).
Proof.
  unfold request_bootstrap_json. eapply holds_bind; [by apply (holds_lift _ _ _ _ _ (fun _ _ => True))|].
  intros [host port] t1 w1 _ _. destruct scheme; [apply dials_h3| |apply dials_https].
  unfold request_bootstrap_json_http. eapply holds_bind; [apply dials_bootstrap_tcp|].
  intros. apply dials_http_request.
Qed.

Lemma dials_request_opt t w scheme address method path body :
  dials t (catch (r ← request_bootstrap_json c scheme address method path body; mret (Some r))
             (fun _ => mret None)) w (fun _ _ => True).
Proof.
  apply holds_catch; [|intros; by apply holds_ret].
  eapply holds_bind; [apply dials_bootstrap_json|]. intros. by apply holds_ret.
Qed.

Lemma dials_bootstrap_over t w address device wg scheme :
  dials t (bootstrap_over c address device wg scheme) w (fun _ _ => True).
Proof.
  unfold bootstrap_over. eapply holds_bind; [apply dials_request_opt|]. intros [raw|] t1 w1 _ _; [|by apply holds_ret].
  eapply holds_bind; [by apply (holds_lift _ _ _ _ _ (fun _ _ => True))|].
  intros [cap|] t2 w2 _ _; [|by apply holds_ret].
  eapply holds_bind; [apply dials_request_opt|]. intros [praw|] t3 w3 _ _; [|by apply holds_ret].
  eapply holds_bind; [by apply (holds_lift _ _ _ _ _ (fun _ _ => True))|].
  intros [key expires] t4 w4 _ _. destruct (is_empty _); by apply holds_ret.
Qed.

Lemma dials_bootstrap_peer t w device wg :
  dials t (bootstrap_wireguard_peer c device wg) w (fun _ _ => True).
Proof.
  unfold bootstrap_wireguard_peer. destruct (is_empty _); [apply holds_fail|].
  generalize (bootstrap_scheme_candidates (peer_settings c)) as schemes. intros schemes. revert t w.
  induction schemes as [|scheme schemes IH]; intros t w; cbn [bootstrap_schemes]; [apply holds_fail|].
  eapply holds_bind; [apply dials_bootstrap_over|]. intros [info|] t1 w1 _ _; [by apply holds_ret | apply IH].
Qed.

Lemma dials_wg_keys t w : dials t (wireguard_keys home c) w (fun _ _ => True).
Proof.
  unfold wireguard_keys. eapply holds_bind; [apply dials_keypair|]. intros kp t1 w1 _ _. dial_step.
  eapply holds_bind; [apply dials_bootstrap_peer|]. intros info t3 w3 _ _.
  eapply holds_bind with (Q := fun _ _ => True); [|intros; by apply holds_ret].
  unfold decode_wireguard_public_key.
  eapply holds_bind; [by apply (holds_lift _ _ _ _ _ (fun _ _ => True))|]. intros raw t4 w4 _ _.
  destruct (length raw =? 32)%nat; [by apply holds_ret | apply holds_fail].
Qed.

Lemma dials_wg_transport t w secret key bind addr i :
  dials t (wireguard_transport c secret key bind addr i) w (fun _ _ => True).
Proof.
  unfold wireguard_transport. dial_step. dial_step.
  eapply holds_bind; [apply dials_protect|]. intros ? t3 w3 _ Hp.
  eapply holds_bind; [by apply dials_connect|]. intros. by apply holds_ret.
Qed.

Lemma dials_wireguard t w bind : dials t (establish home c WireGuard bind) w (fun _ _ => True).
Proof.
  destruct bind as [addr|]; cbn [establish].
  - unfold establish_wireguard_session_with_bind. eapply holds_bind; [apply dials_bind_ip|]. intros bind t1 w1 _ _.
    eapply holds_bind; [apply dials_wg_keys|]. intros [[secret info] key] t2 w2 _ _.
    eapply holds_bind; [apply dials_resolve|]. intros server t3 w3 _ _. dial_step. apply dials_wg_transport.
  - unfold establish_wireguard_session. eapply holds_bind; [apply dials_wg_keys|].
    intros [[secret info] key] t2 w2 _ _. eapply holds_bind; [apply dials_lookup_first|].
    intros server t3 w3 _ _. dial_step. apply dials_wg_transport.
Qed.

(** *** All paths *)

Lemma dials_establish t w kind bind :
  (kind = NaiveTcp -> cc_allow_insecure_debug_transports (client c) = true) ->
  dials t (establish home c kind bind) w (fun _ _ => True).
Proof.
  intros Hk. destruct kind.
  - by apply dials_naive, Hk.
  - destruct bind; [apply dials_websocket_bind | apply dials_websocket].
  - destruct bind as [addr|]; cbn [establish].
    + unfold establish_quic_session_with_bind. eapply holds_bind; [apply dials_bind_ip|]. intros.
      apply dials_quic_session.
    + apply dials_quic_session.
  - apply dials_wireguard.
Qed.

(** A protocol list that the sanitized list is made of *)
Definition protocols_allowed (protocols : list string) : Prop :=
  forall p, p ∈ protocols -> transport_of_protocol p = Some NaiveTcp ->
    cc_allow_insecure_debug_transports (client c) = true.

Lemma sanitized_allowed : protocols_allowed
  (sanitize_preferred_protocols (cc_preferred_protocols (client c)) (cc_allow_insecure_debug_transports (client c))).
Proof.
  intros p Hp Hk. destruct (cc_allow_insecure_debug_transports (client c)); [done|].
  apply sanitize_secure in Hp. apply naive_only in Hk as ->. done.
Qed.

Lemma dials_path t w bind protocols :
  protocols_allowed protocols -> dials t (dial_path home c bind protocols) w (fun _ _ => True).
Proof.
  revert t w. induction protocols as [|p protocols IH]; intros t w Ha; cbn [dial_path]; [by apply holds_ret|].
  assert (Ha' : protocols_allowed protocols) by (intros q Hq; apply Ha; by right).
  destruct (transport_of_protocol p) as [kind|] eqn:Hk; [|by apply IH].
  eapply holds_bind with (Q := fun _ _ => True).
  - apply holds_catch; [|intros; by apply holds_ret]. eapply holds_bind with (Q := fun _ _ => True).
    + apply holds_within; [done|]. intros n. apply dials_establish. intros ->. apply (Ha p); [by left | done].
    + intros. by apply holds_ret.
  - intros [r|] t1 w1 _ _; [by apply holds_ret | by apply IH].
Qed.

Lemma dials_paths t w protocols n index paths :
  protocols_allowed protocols -> dials t (dial_paths home c protocols n index paths) w (fun _ _ => True).
Proof.
  intros Ha. revert t w index paths. induction n as [|n IH]; intros t w index paths; cbn [dial_paths]; [by apply holds_ret|].
  eapply holds_bind; [apply dials_path|].
  - intros p Hp. apply Ha. by rewrite rotated_perm in Hp.
  - intros [r|] t1 w1 _ _; [apply IH|]. destruct (Nat.eqb index 0); [apply holds_fail | by apply holds_ret].
Qed.

Lemma dials_all t w count : dials t (dial_transport_paths home c count) w (fun _ _ => True).
Proof. apply dials_paths, sanitized_allowed. Qed.
End safety.

(** ** Runs that succeed

    [succeeds] is the converse of [holds]: in one environment the step does come to its end. *)

Section runs.
Variable e : env.

Lemma exec_bind {A B} (p : prog A) (f : A -> World -> prog B) t :
  exec e t (prog_bind p f) = let '(t', a, w) := exec e t p in exec e t' (f a w).
Proof. revert t. induction p as [a w|op w k IH]; intros t; cbn [exec prog_bind]; [done|]. by rewrite IH. Qed.

Definition ends {A} (t : list event) (m : dial A) (w : World) (Q : outcome DialError A -> list event -> World -> Prop)
  : Prop :=
  let '(t', r, w') := exec e t (m w) in t `prefix_of` t' /\ Q r t' w'.

Definition succeeds {A} (t : list event) (m : dial A) (w : World) (Q : A -> list event -> World -> Prop) : Prop :=
  ends t m w (fun r t' w' => exists a, r = Ok a /\ Q a t' w').

Definition fails {A} (t : list event) (m : dial A) (w : World) : Prop :=
  ends t m w (fun r _ _ => exists err, r = Err err).

Lemma ends_bind {A B} t (m : dial A) (k : A -> dial B) w Q R :
  succeeds t m w Q -> (forall a t' w', t `prefix_of` t' -> Q a t' w' -> ends t' (k a) w' R) ->
  ends t (m ≫= k) w R.
Proof.
  unfold succeeds, ends, mbind, dial_bind. intros Hm Hk. rewrite exec_bind.
  destruct (exec e t (m w)) as [[t' r] w']. destruct Hm as (Hp & a & -> & HQ).
  specialize (Hk a t' w' Hp HQ). destruct (exec e t' (k a w')) as [[t'' r] w''].
  destruct Hk as [Hp' HR]. split; [by transitivity t' | done].
Qed.

Lemma fails_bind {A B} t (m : dial A) (k : A -> dial B) w : fails t m w -> fails t (m ≫= k) w.
Proof.
  unfold fails, ends, mbind, dial_bind. intros Hm. rewrite exec_bind.
  destruct (exec e t (m w)) as [[t' r] w']. destruct Hm as (Hp & err & ->). cbn [exec]. eauto.
Qed.

Lemma catch_fails {A} t (m : dial A) (h : DialError -> dial A) w R :
  fails t m w -> (forall err t' w', t `prefix_of` t' -> ends t' (h err) w' R) -> ends t (catch m h) w R.
Proof.
  unfold fails, ends, catch. intros Hm Hh. rewrite exec_bind.
  destruct (exec e t (m w)) as [[t' r] w']. destruct Hm as (Hp & err & ->).
  specialize (Hh err t' w' Hp). destruct (exec e t' (h err w')) as [[t'' r] w''].
  destruct Hh as [Hp' HR]. split; [by transitivity t' | done].
Qed.

Lemma catch_succeeds {A} t (m : dial A) (h : DialError -> dial A) w Q :
  succeeds t m w Q -> succeeds t (catch m h) w Q.
Proof.
  unfold succeeds, ends, catch. intros Hm. rewrite exec_bind.
  destruct (exec e t (m w)) as [[t' r] w']. destruct Hm as (Hp & a & -> & HQ). cbn [exec]. eauto.
Qed.

Lemma succeeds_ret {A} t (a : A) w (Q : A -> list event -> World -> Prop) : Q a t w -> succeeds t (mret a) w Q.
Proof. intros HQ. split; [done|]. eauto. Qed.

Lemma succeeds_lift {E A} t (f : E -> DialError) (o : outcome E A) a w (Q : A -> list event -> World -> Prop) :
  o = Ok a -> Q a t w -> succeeds t (lift f o) w Q.
Proof. intros -> HQ. split; [done|]. eauto. Qed.

Lemma succeeds_perform t op w : succeeds t (perform op) w (fun x t' w' => x = e t op /\ t' = t ++ [Ev op x] /\ w' = w).
Proof. split; [by apply prefix_app_r|]. eauto. Qed.

(** An operation that is answered as hoped *)
Lemma succeeds_ask t er op (o : dial bool) w :
  succeeds t o w (fun x t' w' => x = true /\ t' = t ++ [op] /\ w' = w) ->
  succeeds t (ask er o) w (fun _ t' w' => t' = t ++ [op] /\ w' = w).
Proof.
  intros Ho. unfold succeeds, ask. eapply ends_bind; [exact Ho|]. intros x t' w' _ (-> & -> & ->).
  by apply succeeds_ret.
Qed.

Lemma succeeds_need {A} t er op (o : dial (option A)) a w :
  succeeds t o w (fun x t' w' => x = Some a /\ t' = t ++ [op] /\ w' = w) ->
  succeeds t (need er o) w (fun x t' w' => x = a /\ t' = t ++ [op] /\ w' = w).
Proof.
  intros Ho. unfold succeeds, need. eapply ends_bind; [exact Ho|]. intros x t' w' _ (-> & -> & ->).
  by eapply succeeds_lift.
Qed.

Lemma fails_need {A} t er (o : dial (option A)) w :
  succeeds t o w (fun x _ _ => x = None) -> fails t (need er o) w.
Proof.
  intros Ho. unfold fails, need. eapply ends_bind; [exact Ho|]. intros x t' w' _ ->. split; [done|]. by eexists.
Qed.
End runs.

(** ** Environments *)

(** Names resolve and sockets open, bind and connect. *)
Record obliging (e : env) : Prop := {
  ob_lookup : forall t target, exists a l, e t (LookupHost target) = Some (a :: l);
  ob_open : forall t s v6, e t (TcpSocketNew s v6) = true;
  ob_bind : forall t s a, e t (TcpBind s a) = true;
  ob_udp : forall t s a, e t (UdpBind s a) = true;
  ob_network : forall t s a, e t (NetworkBind s a) = true;
  ob_protect : forall t s, e t (Protect s) = true;
  ob_connect : forall t s a, e t (Connect s a) = true;
  ob_quic : forall t alpn, e t (QuicConfig alpn) = true;
  ob_endpoint : forall t s, e t (QuicEndpoint s) = true
}.

(** How many texts have been received *)
Definition is_recv (ev : event) : bool := match ev with Ev (RecvText _) _ => true | _ => false end.
Definition recvs (t : list event) : nat := length (List.filter is_recv t).

Lemma recvs_snoc t ev : recvs (t ++ [ev]) = (recvs t + (if is_recv ev then 1 else 0))%nat.
Proof. unfold recvs. rewrite List.filter_app, length_app. simpl. by destruct (is_recv ev). Qed.

(** A peer that shows a certificate, whether it holds the key or not, and sends the given texts. *)
Record shows (e : env) (cert : list Z) (texts : list (option string)) : Prop := {
  sh_tls : forall t s v name, exists p, e t (TlsConnect s v name) = Some p /\ head (chain p) = Some cert;
  sh_upgrade : forall t s url, e t (Upgrade s url) = true;
  sh_send : forall t s m, e t (SendText s m) = true;
  sh_recv : forall t s, e t (RecvText s) = default None (texts !! recvs t)
}.

(** A step that succeeds, receives no text and leaves the files alone *)
Definition quiet (e : env) {A} (t : list event) (m : dial A) (w : World) (P : A -> Prop) : Prop :=
  succeeds e t m w (fun a t' w' => recvs t' = recvs t /\ fs w' = fs w /\ P a).

Section obliging_runs.
Variable e : env.

Lemma quiet_bind {A B} t (m : dial A) (k : A -> dial B) w P R :
  quiet e t m w P ->
  (forall a t' w', t `prefix_of` t' -> recvs t' = recvs t -> fs w' = fs w -> P a -> ends e t' (k a) w' R) ->
  ends e t (m ≫= k) w R.
Proof. intros Hm Hk. eapply ends_bind; [exact Hm|]. intros a t' w' Hp (Hr & Hf & HP). by apply Hk. Qed.

Lemma quiet_seq {A B} t (m : dial A) (k : A -> dial B) w P Q :
  quiet e t m w P -> (forall a t' w', P a -> quiet e t' (k a) w' Q) -> quiet e t (m ≫= k) w Q.
Proof.
  intros Hm Hk. eapply quiet_bind; [exact Hm|]. intros a t' w' Hp Hr Hf HP.
  specialize (Hk a t' w' HP). unfold quiet, succeeds, ends in *.
  destruct (exec e t' (k a w')) as [[t'' r] w'']. destruct Hk as (Hp' & b & -> & Hr' & Hf' & HQ).
  split; [done|]. exists b. split_and!; [done | congruence | congruence | done].
Qed.

Lemma quiet_ret {A} t (a : A) w (P : A -> Prop) : P a -> quiet e t (mret a) w P.
Proof. intros HP. by apply succeeds_ret. Qed.

Lemma quiet_lift {E A} t (f : E -> DialError) (o : outcome E A) a w (P : A -> Prop) :
  o = Ok a -> P a -> quiet e t (lift f o) w P.
Proof. intros Ho HP. by eapply succeeds_lift. Qed.

Lemma quiet_perform t op w (P : answer op -> Prop) :
  is_recv (Ev op (e t op)) = false -> P (e t op) -> quiet e t (perform op) w P.
Proof.
  intros Hr HP. split; [by apply prefix_app_r|]. exists (e t op). split_and!; [done| |done|done].
  rewrite recvs_snoc, Hr. lia.
Qed.

Lemma quiet_ask t er (o : dial bool) w : quiet e t o w (fun b => b = true) -> quiet e t (ask er o) w (fun _ => True).
Proof. intros Ho. eapply quiet_seq; [exact Ho|]. intros b t' w' ->. by apply quiet_ret. Qed.

Lemma quiet_need {A} t er (o : dial (option A)) w P :
  quiet e t o w (fun x => exists a, x = Some a /\ P a) -> quiet e t (need er o) w P.
Proof. intros Ho. eapply quiet_seq; [exact Ho|]. intros x t' w' (a & -> & HP). by eapply quiet_lift. Qed.

(** The handshake meets the texts the environment has left: it ends as [run] says, and every text it
    sends is sent on the connection. *)
Lemma exchange_run {A} s (p : proc unit A) texts n out a u t w :
  (forall t m, e t (SendText s m) = true) ->
  (forall t, e t (RecvText s) = default None (texts !! recvs t)) ->
  AuthHandshake.run (drop (recvs t) texts) n p = (out, Ok a, u) ->
  succeeds e t (exchange s p) w (fun x t' _ => x = a /\ forall m, m ∈ out -> Ev (SendText s m) true ∈ t').
Proof.
  intros Hs Hr. revert n out t w. induction p as [r v|m v k IH|v k IH]; intros n out t w; cbn [exchange AuthHandshake.run].
  - intros [= <- -> _]. eapply succeeds_lift; [done|]. split; [done|]. set_solver.
  - destruct n as [|n]; [done|]. destruct (AuthHandshake.run _ n k) as [[out' r'] u'] eqn:Hrun. intros [= <- -> ->].
    eapply ends_bind with (Q := fun _ t' w' => t' = t ++ [Ev (SendText s m) true] /\ w' = w).
    { apply succeeds_ask. unfold succeeds, ends, perform. cbn [exec]. rewrite Hs.
      split; [by apply prefix_app_r | eauto]. }
    intros _ t' w' _ [-> ->].
    assert (Hd : recvs (t ++ [Ev (SendText s m) true]) = recvs t) by (rewrite recvs_snoc; simpl; lia).
    rewrite <- Hd in Hrun. specialize (IH n out' _ w Hrun). unfold succeeds, ends in *.
    destruct (exec e _ _) as [[t'' r''] w'']. destruct IH as (Hp & x & -> & -> & Hout).
    split; [done|]. exists a. split_and!; [done..|]. intros m' [->|Hm]%elem_of_cons; [|by apply Hout].
    destruct Hp as [l ->]. set_solver.
  - destruct (texts !! recvs t) as [o|] eqn:Ho; [|by rewrite drop_ge by (by apply lookup_ge_None)].
    rewrite (drop_S _ _ _ Ho). destruct o as [m|]; [|done]. intros Hrun.
    eapply ends_bind with (Q := fun x t' w' => x = m /\ t' = t ++ [Ev (RecvText s) (Some m)] /\ w' = w).
    { eapply succeeds_need. unfold succeeds, ends, perform. cbn [exec]. rewrite Hr, Ho.
      split; [by apply prefix_app_r | eauto]. }
    intros ? t' w' _ (-> & -> & ->). apply (IH m n).
    assert (Hd : recvs (t ++ [Ev (RecvText s) (Some m)]) = S (recvs t)) by (rewrite recvs_snoc; simpl; lia).
    by rewrite Hd.
Qed.
Hypothesis He : obliging e.

Lemma quiet_lookup t er target w :
  quiet e t (need er (perform (LookupHost target))) w (fun l => exists a l', l = a :: l').
Proof.
  apply quiet_need, quiet_perform; [done|]. destruct (ob_lookup e He t target) as (a & l & Hl). rewrite Hl. eauto.
Qed.

Lemma quiet_lookup_first t target w : quiet e t (lookup_first target) w (fun _ => True).
Proof.
  unfold lookup_first. eapply quiet_seq; [apply quiet_lookup|]. intros l t' w' (a & l' & ->). by eapply quiet_lift.
Qed.

Lemma quiet_resolve t address bind w : quiet e t (lookup_server_address address bind) w (fun _ => True).
Proof.
  unfold lookup_server_address. eapply quiet_seq; [apply quiet_lookup|]. intros l t' w' (a & l' & ->).
  cbn [resolve_server_address]. destruct bind; by eapply quiet_lift.
Qed.

Lemma quiet_tcp_socket t a w : quiet e t (tcp_socket a) w (fun _ => True).
Proof.
  unfold tcp_socket. eapply quiet_seq with (P := fun _ => True).
  { split; [done|]. by eexists. }
  intros s t1 w1 _. eapply quiet_seq; [apply quiet_ask, quiet_perform; [done | apply He]|].
  intros. by apply quiet_ret.
Qed.

Lemma quiet_protect c t s w : quiet e t (protect c s) w (fun _ => True).
Proof.
  unfold protect. destruct (socket_protect c); [|by apply quiet_ret].
  apply quiet_ask, quiet_perform; [done | apply He].
Qed.

Lemma quiet_bootstrap_tcp c t host port w : quiet e t (connect_bootstrap_tcp c host port) w (fun _ => True).
Proof.
  unfold connect_bootstrap_tcp. eapply quiet_seq; [apply quiet_lookup_first|]. intros a t1 w1 _.
  eapply quiet_seq; [apply quiet_tcp_socket|]. intros s t2 w2 _.
  eapply quiet_seq; [apply quiet_protect|]. intros ? t3 w3 _.
  eapply quiet_seq; [apply quiet_ask, quiet_perform; [done | apply He]|]. intros. by apply quiet_ret.
Qed.

End obliging_runs.

(** *** A session with a peer that shows the pinned certificate *)

Section pinned_runs.
Context `{Crypto} `{JsonText} `{!Sha256} `{!X25519} `{!ServerNames} `{!WsUri}.
Variables (home : option string) (c : ClientConfig) (e : env).
Variables (cert : list Z) (texts : list (option string)).
Hypothesis He : obliging e.
Hypothesis Hsh : shows e cert texts.
Hypothesis Hpin : nonempty (cc_tls_cert_fingerprint (client c)) = true.
Hypothesis Hfp : compute_fingerprint cert = cc_tls_cert_fingerprint (client c).

Lemma keypair_loaded t w keypair f :
  load_or_create_device_keypair (expand_home_path home (cc_private_key_path (client c)))
    (expand_home_path home (cc_public_key_path (client c))) (e t Random) (fs w) = (Ok keypair, f) ->
  succeeds e t (device_keypair home c) w (fun k t' _ => k = keypair /\ recvs t' = recvs t).
Proof.
  intros Hkey. unfold device_keypair. eapply ends_bind; [apply succeeds_perform|].
  intros random t' w' _ (-> & -> & ->). unfold ends, load_device_keypair. rewrite Hkey. cbn [exec map_err].
  split; [done|]. exists keypair. split_and!; [done..|]. rewrite recvs_snoc. simpl. lia.
Qed.

Lemma target_parsed t w u host :
  into_client_request (websocket_url c) = Some u -> uri_host u = Some host ->
  quiet e t (websocket_target c) w (fun x => ws_uri x = u /\ ws_scheme x = default "wss" (scheme_str u)).
Proof.
  intros Hu Hhost. unfold websocket_target.
  eapply quiet_seq with (P := fun x => x = u); [eapply quiet_lift; [by rewrite Hu | done]|].
  intros ? ? ? ->. eapply quiet_seq with (P := fun x => x = host); [eapply quiet_lift; [by rewrite Hhost | done]|].
  intros ? ? ? ->. by apply quiet_ret.
Qed.

(** Whatever [proves_key] is. *)
Lemma pinned_tls t s name w :
  quiet e t (tls s (PinnedCertVerifier (cc_tls_cert_fingerprint (client c))) name) w (fun _ => True).
Proof.
  unfold tls. eapply quiet_seq with (P := fun p => head (chain p) = Some cert).
  { apply quiet_need, quiet_perform; [done|]. destruct (sh_tls e _ _ Hsh t s
      (PinnedCertVerifier (cc_tls_cert_fingerprint (client c))) name) as (p & Hp & Hc). rewrite Hp. eauto. }
  intros p t' w' Hc. eapply quiet_lift; [|done]. unfold accepted. rewrite Hc.
  cbn [mbind option_bind verify_server_cert verify_tls_signature]. unfold pinned_accepts.
  by rewrite bool_decide_eq_true_2.
Qed.

Lemma pinned_websocket_session t w keypair target addr bind s n out :
  eq_ignore_ascii_case (ws_scheme target) "wss" = true -> uri_tls (ws_uri target) = Some true ->
  recvs t = 0%nat ->
  AuthHandshake.run texts n (client_perform_websocket_auth_handshake keypair (cc_invite_token (client c))) =
    (out, Ok tt, tt) ->
  succeeds e t (websocket_session c keypair target addr bind s) w
    (fun p t' _ => p = WebSocketPath s /\ forall m, m ∈ out -> Ev (SendText s m) true ∈ t').
Proof.
  intros Hs Htls Hr Hrun. unfold websocket_session, resolve_wss_tls_connector. rewrite Hs, Hpin. cbn [negb].
  eapply (quiet_bind e) with (P := fun v => v = Some (PinnedCertVerifier (cc_tls_cert_fingerprint (client c)))); [by apply quiet_ret|].
  intros ? t1 w1 _ Hr1 _ ->.
  eapply (quiet_bind e); [apply quiet_ask, quiet_perform; [done | apply He]|]. intros ? t2 w2 _ Hr2 _ _.
  eapply (quiet_bind e) with (P := fun x => x = s).
  { apply catch_succeeds. apply (quiet_seq e) with (P := fun _ => True); [|intros; by apply quiet_ret].
    unfold client_async_tls_with_config. rewrite Htls.
    eapply quiet_seq with (P := fun b => b = true); [by eapply quiet_lift|]. intros ? t3 w3 ->.
    eapply quiet_seq with (P := fun _ => True).
    - eapply quiet_seq; [apply pinned_tls|]. intros. by apply quiet_ret.
    - intros. apply quiet_ask, quiet_perform; [done | apply Hsh]. }
  intros ? t3 w3 _ Hr3 _ ->. eapply ends_bind.
  { eapply exchange_run; [intros; apply (sh_send _ _ _ Hsh) | intros; apply (sh_recv _ _ _ Hsh) |]. by replace (recvs t3) with 0%nat by lia. }
  cbn beta. intros ? t4 w4 _ [_ Hout]. by apply succeeds_ret.
Qed.
End pinned_runs.

(** *** A network that lets nothing encrypted through *)

Record blocks_tls (e : env) : Prop := {
  bl_tls : forall t s v name, e t (TlsConnect s v name) = None;
  bl_quic : forall t s v a host alpn, e t (QuicConnect s v a host alpn) = None
}.

Section blocked_runs.
Context `{Crypto} `{JsonText} `{!Sha256} `{!X25519} `{!ServerNames}.
Variables (c : ClientConfig) (e : env).
Hypothesis He : obliging e.
Hypothesis Hb : blocks_tls e.

Lemma fails_fail {A} t err w : fails e (A := A) t (fail err) w.
Proof. split; [done|]. eauto. Qed.

Lemma fails_need_fails {A} t er (o : dial (option A)) w : fails e t o w -> fails e t (need er o) w.
Proof. apply fails_bind. Qed.

Lemma fails_tls t s v name w : fails e t (tls s v name) w.
Proof.
  unfold tls. apply fails_bind, fails_need. split; [by apply prefix_app_r|]. eexists. split; [done|]. apply Hb.
Qed.

Lemma fails_fetch t host port key addr w : fails e t (fetch_and_verify_cert_proof c host port key addr) w.
Proof.
  unfold fetch_and_verify_cert_proof. eapply (quiet_bind e); [by apply quiet_lookup_first|]. intros a t1 w1 _ _ _ _.
  eapply (quiet_bind e); [by apply quiet_tcp_socket|]. intros s t2 w2 _ _ _ _.
  eapply (quiet_bind e); [by apply quiet_protect|]. intros ? t3 w3 _ _ _ _.
  eapply (quiet_bind e); [apply quiet_ask, quiet_perform; [done | apply He]|]. intros ? t4 w4 _ _ _ _.
  destruct (server_name_ok host); [|apply fails_bind, fails_fail].
  eapply (quiet_bind e) with (P := fun _ => True); [by apply quiet_ret|]. intros. apply fails_bind, fails_tls.
Qed.

Lemma fails_refreshed t host port w : should_retry_tls_rotation c = true -> fails e t (refreshed c host port) w.
Proof.
  intros Hr. unfold refreshed, refresh_tls_fingerprint_after_rotation. rewrite Hr. cbn [negb].
  apply fails_need_fails, fails_bind, fails_fetch.
Qed.

Lemma quiet_quic_socket t nb a w : quiet e t (bind_quic_udp_socket c nb a) w (fun _ => True).
Proof.
  unfold bind_quic_udp_socket. eapply quiet_seq with (P := fun _ => True); [split; [done|]; by eexists|].
  intros s t1 w1 _. eapply quiet_seq; [apply quiet_ask, quiet_perform; [done | apply He]|]. intros ? t2 w2 _.
  eapply quiet_seq with (P := fun _ => True); [|intros; by apply quiet_ret].
  destruct (negb _); [|by apply quiet_protect]. unfold prepare_bound_socket_for_connect.
  eapply quiet_seq with (P := fun _ => True); [|intros; by apply quiet_protect].
  destruct nb; [|by apply quiet_ret]. apply quiet_ask, quiet_perform; [done | apply He].
Qed.

Lemma fails_quic t nb host port v alpn bind w :
  fails e t (connect_quic_client_with_bind c nb host port v alpn bind) w.
Proof.
  unfold connect_quic_client_with_bind.
  eapply (quiet_bind e); [apply quiet_ask, quiet_perform; [done | apply He]|]. intros ? t1 w1 _ _ _ _.
  eapply (quiet_bind e); [by apply quiet_lookup_first|]. intros addr t2 w2 _ _ _ _.
  eapply (quiet_bind e); [by apply quiet_quic_socket|]. intros s t3 w3 _ _ _ _.
  eapply (quiet_bind e); [apply quiet_ask, quiet_perform; [done | apply He]|]. intros ? t4 w4 _ _ _ _.
  apply fails_bind, fails_need. split; [by apply prefix_app_r|]. eexists. split; [done|]. apply Hb.
Qed.

Lemma fails_h3 t host port method path body w : fails e t (request_bootstrap_json_h3 c host port method path body) w.
Proof.
  unfold request_bootstrap_json_h3.
  destruct (nonempty (cc_tls_cert_fingerprint (client c))), (nonempty (cc_server_public_key (client c)));
    try apply fails_bind, fails_fail.
  all: eapply (quiet_bind e) with (P := fun _ => True); [by apply quiet_ret|]; intros [v proof] t1 w1 _ _ _ _;
    apply fails_bind; (eapply catch_fails; [apply fails_quic|]); intros err t2 w2 _;
    destruct (should_retry_tls_rotation c) eqn:Hr; [|apply fails_fail]; by apply fails_bind, fails_refreshed.
Qed.

Lemma fails_https t host port method path body w :
  fails e t (request_bootstrap_json_https c host port method path body) w.
Proof.
  unfold request_bootstrap_json_https, required_pin.
  destruct (nonempty (cc_tls_cert_fingerprint (client c))).
  - eapply (quiet_bind e) with (P := fun _ => True); [by apply quiet_ret|]. intros v t1 w1 _ _ _ _.
    eapply (quiet_bind e); [by apply quiet_bootstrap_tcp|]. intros tcp t2 w2 _ _ _ _.
    assert (Hcont : forall (k : unit -> dial string), (forall t w, fails e t (k tt) w) ->
      fails e t2 ((if parse_ip_addr host then mret tt else if server_name_ok host then mret tt else fail DServerName) ≫= k) w2).
    { intros k Hk. destruct (parse_ip_addr host); [|destruct (server_name_ok host); [|apply fails_bind, fails_fail]].
      all: eapply (quiet_bind e) with (P := fun u => u = tt); [by apply quiet_ret|]; intros ? t3 w3 _ _ _ ->; apply Hk. }
    apply Hcont. intros t3 w3. apply fails_bind. eapply catch_fails; [apply fails_bind, fails_tls|].
    intros err t4 w4 _. destruct (should_retry_tls_rotation c) eqn:Hr; [|apply fails_fail].
    by apply fails_bind, fails_refreshed.
  - destruct (nonempty (cc_server_public_key (client c))); [|apply fails_bind, fails_fail].
    apply fails_bind, fails_bind, fails_fetch.
Qed.

(** The bootstrap over a scheme that fails gives nothing. *)
Lemma skip_scheme t w scheme address host port device wg :
  split_host_port address = Ok (host, port) -> scheme <> Http ->
  succeeds e t (bootstrap_over c address device wg scheme) w (fun r _ _ => r = None).
Proof.
  intros Hsp Hne. unfold bootstrap_over.
  eapply ends_bind with (Q := fun r _ _ => r = None).
  - eapply catch_fails; [|intros; by apply succeeds_ret]. apply fails_bind. unfold request_bootstrap_json. rewrite Hsp.
    eapply (quiet_bind e) with (P := fun r => r = (host, port)); [by eapply quiet_lift|].
    intros ? t1 w1 _ _ _ ->. destruct scheme; [apply fails_h3 | done | apply fails_https].
  - intros ? t1 w1 _ ->. by apply succeeds_ret.
Qed.

Variables (address host : string) (port : Z).
Hypothesis Hsp : split_host_port address = Ok (host, port).

Lemma http_answered t w method path body raw text :
  (forall t s, e t (HttpExchange s (build_http_request method host path body)) = Some raw) ->
  extract_http_json_body raw = Ok text ->
  quiet e t (catch (r ← request_bootstrap_json c Http address method path body; mret (Some r))
               (fun _ => mret None)) w (fun r => r = Some text).
Proof.
  intros Hx Hbody. apply catch_succeeds. eapply quiet_seq with (P := fun r => r = text).
  - unfold request_bootstrap_json. rewrite Hsp.
    eapply quiet_seq with (P := fun r => r = (host, port)); [by eapply quiet_lift|]. intros ? t1 w1 ->.
    eapply quiet_seq; [by apply quiet_bootstrap_tcp|]. intros s t2 w2 _. unfold http_request.
    eapply quiet_seq with (P := fun r => r = raw).
    + apply quiet_need, quiet_perform; [done|]. rewrite Hx. eauto.
    + intros ? t3 w3 ->. by eapply quiet_lift.
  - intros ? t1 w1 ->. by apply quiet_ret.
Qed.

Lemma http_bootstrap t w device wg raw1 raw2 text1 text2 cap key expires :
  (forall t s, e t (HttpExchange s (build_http_request "GET" host "/v1/bootstrap/capabilities" None)) = Some raw1) ->
  (forall t s, e t (HttpExchange s (build_http_request "POST" host "/v1/bootstrap/wireguard/peer"
     (Some (json_print (provision_request device wg))))) = Some raw2) ->
  extract_http_json_body raw1 = Ok text1 -> from_str capabilities_of_json text1 = Some (Some cap) ->
  extract_http_json_body raw2 = Ok text2 -> from_str provision_of_json text2 = Some (key, expires) ->
  nonempty key = true ->
  succeeds e t (bootstrap_over c address device wg Http) w
    (fun r _ _ => r = Some {| wb_endpoint := wc_endpoint cap; wb_key := key; wb_lease := wc_lease cap; wb_expires := expires |}).
Proof.
  intros Hx1 Hx2 Hb1 Hc Hb2 Hp Hk. unfold bootstrap_over.
  eapply (quiet_bind e); [by eapply http_answered|]. intros ? t1 w1 _ _ _ ->.
  eapply (quiet_bind e) with (P := fun x => x = Some cap); [eapply quiet_lift; [by rewrite Hc | done]|].
  intros ? t2 w2 _ _ _ ->.
  eapply (quiet_bind e); [by eapply http_answered|]. intros ? t3 w3 _ _ _ ->.
  eapply (quiet_bind e) with (P := fun x => x = (key, expires)); [eapply quiet_lift; [by rewrite Hp | done]|].
  intros ? t4 w4 _ _ _ ->. rewrite Hk. unfold nonempty in Hk. apply negb_true_iff in Hk. rewrite Hk.
  by apply succeeds_ret.
Qed.

(** Every list of candidates comes to plain HTTP, at once or after schemes that fail. *)
Lemma http_is_reached t w device wg info :
  (forall t w, succeeds e t (bootstrap_over c address device wg Http) w (fun r _ _ => r = Some info)) ->
  succeeds e t (bootstrap_schemes c address device wg (bootstrap_scheme_candidates (peer_settings c))) w
    (fun r _ _ => r = info).
Proof.
  intros Hh.
  assert (Hhttp : forall t w l, succeeds e t (bootstrap_schemes c address device wg (Http :: l)) w (fun r _ _ => r = info)).
  { intros t' w' l. cbn [bootstrap_schemes]. eapply ends_bind; [apply Hh|]. intros ? t1 w1 _ ->. by apply succeeds_ret. }
  assert (Hskip : forall t w scheme l, scheme <> Http ->
    (forall t w, succeeds e t (bootstrap_schemes c address device wg l) w (fun r _ _ => r = info)) ->
    succeeds e t (bootstrap_schemes c address device wg (scheme :: l)) w (fun r _ _ => r = info)).
  { intros t' w' scheme l Hne Hl. cbn [bootstrap_schemes]. eapply ends_bind; [by eapply skip_scheme|].
    intros ? t1 w1 _ ->. apply Hl. }
  unfold bootstrap_scheme_candidates.
  destruct (starts_with "ws://" _); [apply Hhttp|]. destruct (starts_with "wss://" _); auto.
Qed.
End blocked_runs.

(** * Properties *)

Section properties.
Context `{Crypto} `{JsonText} `{!Sha256} `{!X25519} `{!ServerNames} `{!WsUri}.

(** C20: dialling is safe against every network.  Whatever names resolve to, whatever the peers send and
    present, and wherever the time limits strike: where a protection callback is set, no socket is
    connected before the callback accepted it; and unless a transport without encryption is configured
    ([encrypted_only]: no debug transports, and a WebSocket URL for TLS), the messages of the authentication
    handshake (the hello with the device key and the invite token, and the signature) are only sent to a peer that
    was verified on that connection: its certificate is the stored one, or one whose fingerprint is signed, in an
    answer received before, by the server's identity key, or, for a WebSocket while no fingerprint is stored, one
    the built-in roots accept.  The requests to the bootstrap endpoint, of which the one for WireGuard carries a
    public key, are other operations: [wireguard_bootstrap_falls_back] says how far they can be trusted. *)
Theorem dialling_safe (home : option string) (c : ClientConfig) (e : env) (w : World) (count : nat)
    (t1 t2 : list event) (op : net) (x : answer op) :
  (exec e [] (dial_transport_paths home c count w)).1.1 = t1 ++ Ev op x :: t2 ->
  match op with
  | Connect s _ | QuicConnect s _ _ _ _ => socket_protect c = true -> Ev (Protect s) true ∈ t1
  | SendText s _ => encrypted_only c -> secure_channel c t1 s
  | _ => True
  end.
Proof.
  intros Ht. pose proof (wp_exec (permitted c) e _ [] _ (dials_all home c [] w count)) as Hwp.
  destruct (exec e [] _) as [[t r] w']. destruct Hwp as (_ & _ & Hall).
  exact (Hall t1 op x t2 Ht (Nat.le_0_l _)).
Qed.

(** C35: what pinning does not ask for.  Over a working network, a peer that presents the certificate
    whose fingerprint is stored is accepted, whether or not it holds the certificate's private key (the
    verifiers take every handshake signature for valid): the session is established, and every text of
    the handshake, the invite token among them, goes to that peer.  The certificate itself is public. *)
Theorem pinned_session_needs_no_key (home : option string) (c : ClientConfig) (e : env) (w : World)
    (keypair : DeviceKeypair) (f : FS) (u : Uri) (host : string) (cert : list Z)
    (texts : list (option string)) (n : nat) (out : list string) :
  obliging e -> shows e cert texts ->
  is_empty (trim (cc_server_public_address (client c))) = false ->
  load_or_create_device_keypair (expand_home_path home (cc_private_key_path (client c)))
    (expand_home_path home (cc_public_key_path (client c))) (e [] Random) (fs w) = (Ok keypair, f) ->
  into_client_request (websocket_url c) = Some u -> uri_host u = Some host ->
  eq_ignore_ascii_case (default "wss" (scheme_str u)) "wss" = true -> uri_tls u = Some true ->
  nonempty (cc_tls_cert_fingerprint (client c)) = true ->
  compute_fingerprint cert = cc_tls_cert_fingerprint (client c) ->
  AuthHandshake.run texts n (client_perform_websocket_auth_handshake keypair (cc_invite_token (client c))) =
    (out, Ok tt, tt) ->
  let '(t, r, _) := exec e [] (establish_websocket_session home c w) in
  exists s, r = Ok (WebSocketPath s) /\ forall m, m ∈ out -> Ev (SendText s m) true ∈ t.
Proof.
  intros He Hsh Haddr Hkey Hu Hhost Hs Htls Hpin Hfp Hrun.
  enough (Hends : succeeds e [] (establish_websocket_session home c) w
    (fun p t _ => exists s, p = WebSocketPath s /\ forall m, m ∈ out -> Ev (SendText s m) true ∈ t)).
  { unfold succeeds, ends in Hends. destruct (exec e [] _) as [[t r] w'].
    destruct Hends as (_ & p & -> & s & -> & Hout). eauto. }
  unfold establish_websocket_session, address_required. rewrite Haddr.
  eapply ends_bind with (Q := fun _ t' w' => t' = [] /\ w' = w); [by apply succeeds_ret|]. intros _ ? ? _ [-> ->].
  eapply ends_bind; [by eapply keypair_loaded|]. cbn beta. intros k t1 w1 _ [-> Hr1].
  eapply (quiet_bind e); [by eapply target_parsed|]. cbn beta. intros target t2 w2 _ Hr2 _ (Htu & Hts).
  eapply (quiet_bind e); [by apply quiet_resolve|]. intros addr t3 w3 _ Hr3 _ _.
  eapply (quiet_bind e); [by apply quiet_tcp_socket|]. intros s t4 w4 _ Hr4 _ _.
  eapply (quiet_bind e); [apply quiet_ask, quiet_perform; [done | apply He]|]. intros ? t5 w5 _ Hr5 _ _.
  eapply (quiet_bind e); [by apply quiet_protect|]. intros ? t6 w6 _ Hr6 _ _.
  pose proof (pinned_websocket_session c e cert texts He Hsh Hpin Hfp t6 w6 keypair target addr None s n out) as Hsess.
  rewrite Hts, Htu in Hsess. cbn [recvs List.filter length] in Hr1. specialize (Hsess Hs Htls ltac:(congruence) Hrun).
  unfold succeeds, ends in Hsess |- *. destruct (exec e t6 _) as [[t r] w']. destruct Hsess as (Hp & p & -> & Hp' & Hout).
  split; [done|]. exists p. eauto.
Qed.

(** The WireGuard bootstrap falls back to plain HTTP.  Whatever the configuration stores (a pinned
    certificate and the server's identity key included) and whatever order of schemes it leads to: on a
    network that lets no TLS and no QUIC handshake succeed, the answers to two plain HTTP requests decide
    which endpoint is dialled and which WireGuard key is trusted, with no signature over either. *)
Theorem wireguard_bootstrap_falls_back (c : ClientConfig) (e : env) (w : World) (host : string) (port : Z)
    (device wg : string) (raw1 raw2 : list Z) (text1 text2 : string) (cap : WireGuardCapability) (key : string)
    (expires : Z) :
  obliging e -> blocks_tls e ->
  let address := trim (cc_server_public_address (client c)) in
  is_empty address = false -> split_host_port address = Ok (host, port) ->
  (forall t s, e t (HttpExchange s (build_http_request "GET" host "/v1/bootstrap/capabilities" None)) = Some raw1) ->
  (forall t s, e t (HttpExchange s (build_http_request "POST" host "/v1/bootstrap/wireguard/peer"
     (Some (json_print (provision_request device wg))))) = Some raw2) ->
  extract_http_json_body raw1 = Ok text1 -> from_str capabilities_of_json text1 = Some (Some cap) ->
  extract_http_json_body raw2 = Ok text2 -> from_str provision_of_json text2 = Some (key, expires) ->
  nonempty key = true ->
  (exec e [] (bootstrap_wireguard_peer c device wg w)).1.2 =
    Ok {| wb_endpoint := wc_endpoint cap; wb_key := key; wb_lease := wc_lease cap; wb_expires := expires |}.
Proof.
  intros He Hb address Hne Hsp Hx1 Hx2 Hb1 Hc Hb2 Hp Hk.
  unfold bootstrap_wireguard_peer. fold address. rewrite Hne.
  pose proof (http_is_reached c e He Hb address host port Hsp [] w device wg _
    (fun t w => http_bootstrap c e He address host port Hsp t w device wg raw1 raw2 text1 text2 cap key expires
       Hx1 Hx2 Hb1 Hc Hb2 Hp Hk)) as Hs.
  unfold succeeds, ends in Hs. destruct (exec e [] _) as [[t r] w']. destruct Hs as (_ & a & -> & ->). done.
Qed.
End properties.

(** ** Witnesses *)

Module Sample.
#[local] Existing Instances AuthHandshake.Sample.crypto Json.Sample.json_text.
#[local] Instance sha : Sha256 := fun l => take 4 l.
#[local] Instance x25519 : X25519 := fun l => l.
#[local] Instance names : ServerNames := fun _ => true.
#[local] Instance uris : WsUri := fun _ =>
  Some {| scheme_str := Some "wss"; uri_host := Some "bonded.example"; port_u16 := None; uri_tls := Some true |}.

Definition sk : list Z := replicate 32 66.
Definition keypair : DeviceKeypair := from_signing_key sk.
Definition cert : list Z := [1; 2; 3; 4].
Definition server : SocketAddr := {| ip := V4 (192, 0, 2, 1); port := 443 |}.

(** A client with a stored fingerprint on a platform that protects sockets *)
Definition section : ClientSection := {|
  cc_device_name := "phone"; cc_tun_name := ""; cc_server_public_address := "bonded.example:443";
  cc_server_resolved_address := ""; cc_server_websocket_address := ""; cc_path_bind_addresses := [];
  cc_server_public_key := "key"; cc_invite_token := "invite"; cc_preferred_protocols := ["wss"];
  cc_allow_insecure_debug_transports := false; cc_private_key_path := "~/k"; cc_public_key_path := "~/p";
  cc_tls_cert_fingerprint := compute_fingerprint cert; cc_wireguard_server_public_key := "";
  cc_peer_share_enabled := false; cc_peer_share_bind_address := ""; cc_peer_share_advertise_ip := ""
|}.
Definition config : ClientConfig := {| client := section; socket_protect := true; socket_network_bind := false |}.
Definition world : World := {| fs := {| files := ∅; read_fails := ∅; write_fails := ∅ |}; sockets := 0 |}.

Definition texts : list (option string) :=
  [Some (json_print (challenge_msg "nonce")); Some (json_print (status_msg "ok"))].

(** A peer with the certificate but without its key *)
Definition impostor : env := fun t op =>
  match op as o return answer o with
  | Random => sk
  | RandomIndex => 7
  | TimeLimit => 50%nat
  | LookupHost _ => Some [server]
  | TlsConnect _ _ _ | QuicConnect _ _ _ _ _ =>
      Some {| chain := [cert]; proves_key := false; roots_accept := false |}
  | HttpExchange _ _ => None
  | H3Request _ _ _ _ => None
  | RecvText _ => default None (texts !! recvs t)
  | _ => true
  end.

Definition trace : list event := (exec impostor [] (dial_transport_paths (Some "/home/u") config 1 world)).1.1.

Definition hello : string := json_print (hello_msg (public_key_b64 keypair) "invite").

Lemma dialling_safe_witness :
  Ev (Protect 0) true ∈ take 6 trace /\ secure_channel config (take 9 trace) 0.
Proof.
  split.
  - apply (dialling_safe (Some "/home/u") config impostor world 1 (take 6 trace) (drop 7 trace)
      (Connect 0 server) true); [vm_compute; reflexivity | reflexivity].
  - apply (dialling_safe (Some "/home/u") config impostor world 1 (take 9 trace) (drop 10 trace)
      (SendText 0 hello) true); [vm_compute; reflexivity|].
    split; [reflexivity|]. intros u [= <-]. split; reflexivity.
Defined.

Lemma impostor_obliging : obliging impostor.
Proof. split; intros; try reflexivity. exists server, []. reflexivity. Qed.

Lemma impostor_shows : shows impostor cert texts.
Proof. split; intros; try reflexivity. eexists. split; reflexivity. Qed.

Definition key_files : FS :=
  {| files := <["/home/u/p" := public_key_b64 keypair +:+ newline]>
                {[ "/home/u/k" := private_key_b64 keypair +:+ newline ]}; read_fails := ∅; write_fails := ∅ |}.

Lemma pinned_session_needs_no_key_witness :
  let '(t, r, _) := exec impostor [] (establish_websocket_session (Some "/home/u") config world) in
  exists s, r = Ok (WebSocketPath s) /\ Ev (SendText s hello) true ∈ t.
Proof.
  pose proof (pinned_session_needs_no_key (Some "/home/u") config impostor world keypair key_files
    {| scheme_str := Some "wss"; uri_host := Some "bonded.example"; port_u16 := None; uri_tls := Some true |}
    "bonded.example" cert texts 2 [hello; json_print (proof_msg (bytes_string (sk ++ sk)))]
    impostor_obliging impostor_shows) as Hw.
  destruct (exec impostor [] _) as [[t r] w'].
  destruct Hw as (s & Hr & Hout); [vm_compute; reflexivity..|].
  exists s. split; [exact Hr|]. apply Hout. left.
Defined.

(** A network that answers plain HTTP itself *)
Definition capabilities_json : json :=
  JObj [("wireguard", JObj [("endpoint", JStr "203.0.113.9:51820"); ("peer_lease_seconds", JNum 60)])].
Definition provision_json : json :=
  JObj [("server_wg_public_key", JStr "theirs"); ("peer_ip", JStr "10.8.0.2"); ("lease_expires_at", JNum 99)].
Definition get_request : string := build_http_request "GET" "bonded.example" "/v1/bootstrap/capabilities" None.

Definition blocking : env := fun t op =>
  match op as o return answer o with
  | Random => sk
  | RandomIndex => 7
  | TimeLimit => 50%nat
  | LookupHost _ => Some [server]
  | TlsConnect _ _ _ | QuicConnect _ _ _ _ _ => None
  | HttpExchange _ r =>
      Some (string_bytes (http_response 200
        (json_print (if bool_decide (r = get_request) then capabilities_json else provision_json))))
  | H3Request _ _ _ _ => None
  | RecvText _ => None
  | _ => true
  end.

Lemma wireguard_bootstrap_falls_back_witness :
  (exec blocking [] (bootstrap_wireguard_peer config "d" "w" world)).1.2 =
    Ok {| wb_endpoint := "203.0.113.9:51820"; wb_key := "theirs"; wb_lease := 60; wb_expires := 99 |}.
Proof.
  apply (wireguard_bootstrap_falls_back config blocking world "bonded.example" 443 "d" "w"
    (string_bytes (http_response 200 (json_print capabilities_json)))
    (string_bytes (http_response 200 (json_print provision_json)))
    (json_print capabilities_json) (json_print provision_json)
    {| wc_endpoint := "203.0.113.9:51820"; wc_server_public_key := ""; wc_lease := 60 |} "theirs" 99).
  - split; intros; try reflexivity. exists server, []. reflexivity.
  - split; reflexivity.
  - vm_compute. reflexivity.
  - vm_compute. reflexivity.
  - intros. vm_compute. reflexivity.
  - intros. vm_compute. reflexivity.
  - vm_compute. reflexivity.
  - vm_compute. reflexivity.
  - vm_compute. reflexivity.
  - vm_compute. reflexivity.
  - reflexivity.
Defined.
End Sample.
