(* ===== verification/Admission.v ===== *)
(** Who gets a session: the handshakes (AuthHandshake.v), enrolment with an invite (Enrolment.v), the binding
    of relayed sessions and the introductions they rest on (PeerShare.v, Bootstrap.v), the stores and the
    connection tasks (Routing.v) as one system.  The connections are those of [run_server] in
    [src/crates/bonded-server/src/main.rs], [handle_websocket_session] in
    [src/crates/bonded-server/src/bootstrap.rs] and [handle_quic_connection] in
    [src/crates/bonded-server/src/quic.rs].  Each has a task of its own that waits, without a limit, for the
    hello, the proof and the first frame; the tasks, requests, edits of the files by an operator, reloads and
    restarts come in any order. *)

From stdpp Require Import base tactics list gmap strings.
From Stdlib Require Import ZArith Lia Ascii.
From S2P Require Import Prelude Words Text Json Auth Stores AuthHandshake Enrolment WgServer Startup Session PeerShare Routing Bootstrap.
Open Scope Z_scope.

(** * Definitions *)

Inductive Carrier := OverTcp | OverWebSocket | OverQuic.

(** How far the task of a connection is: it waits for the hello; it looks the key up and enrols it, one access
    to the stores at a time; it waits for the proof of its challenge; it waits for the first frame. *)
Inductive Stage :=
  | AwaitsHello
  | Enrols (e : Enrolment)
  | AwaitsProof (hello : ClientHello) (random : list Z)
  | AwaitsFrame (public_key : string).

Record ConnTask := { ct_carrier : Carrier; ct_stage : Stage }.

(** What the task meets next: a text that was read ([None]: the read failed), the order of the hash map when it
    accesses a store, what is drawn for the challenge, whether the message it then sends goes out, and the
    clock and the first frame when the session is bound *)
Inductive task_input :=
  | HelloRead (line : option string)
  | EnrolStep (o : HashOrder)
  | ChallengeSent (random : list Z) (sent : bool)
  | ProofRead (line : option string) (sent : bool)
  | FrameRead (now : option Z) (first : option SessionFrame).

(** The stores, the leases, the connections without a session, the sessions *)
Record Gateway := {
  gw_store : ServerState;
  gw_peers : option WireGuardPeerRegistry;
  gw_waiting : gmap path_id ConnTask;
  gw_server : Server
}.

(** A request to the bootstrap endpoint, as [route_bootstrap_request] gets it *)
Record Request := {
  rq_advertised : option AdvertisedBootstrapEndpoints;
  rq_now : option Z;
  rq_method : string;
  rq_path : string;
  rq_body : string
}.

Inductive gw_event :=
  | Accepted (p : path_id) (k : Carrier)
  | Heard (p : path_id) (i : task_input)
  | Requested (r : Request)
  | Served
  | Edited (fs : FS)
  | Reloaded
  | Restarted (value : string) (now : option Z) (o : HashOrder).

(** The way each carrier reads a text *)
Definition reads_text (k : Carrier) : string -> outcome HsError string :=
  match k with OverWebSocket => Ok | _ => read_json_line end.

Section gateway.
Context `{Crypto} `{JsonText} `{Toml InviteTokensFile} `{Toml AuthorizedKeysFile} `{Toml WireGuardPeersFile}
  `{!Authority} `{!Sha256}.
(** The context of the bootstrap endpoint, whose key store is the shared one, and the invite file *)
Variables (ctx : BootstrapContext) (invites : string).

(** ** The task of a connection *)

Definition handshake {HO : HashOrder} (k : Carrier) : list Z -> ServerState -> proc ServerState string :=
  match k with
  | OverTcp => server_perform_auth_handshake invites
  | OverWebSocket => server_perform_websocket_auth_handshake invites
  | OverQuic => server_perform_quic_auth_handshake invites
  end.

Definition session_open (k : Carrier) : path_id -> SessionBinding -> Server -> Server :=
  match k with
  | OverTcp => tcp_session_open
  | OverWebSocket => websocket_session_open
  | OverQuic => quic_session_open
  end.

(** The handshake cut where it waits; [None]: the task is over.  [handshake_by_stages] says that the parts
    make up [handshake]. *)
Definition hear_hello (k : Carrier) (line : option string) : option Stage :=
  l ← line;
  match read_json (reads_text k) hello_of_json l with
  | Ok hello => Some (Enrols (enrol_start hello))
  | _ => None
  end.

Definition send_challenge (hello : ClientHello) (go : outcome HsError bool) (random : list Z) (sent : bool)
  : option Stage :=
  match go with
  | Ok true => if sent then Some (AwaitsProof hello random) else None
  | _ => None
  end.

Definition hear_proof (k : Carrier) (hello : ClientHello) (random : list Z) (line : option string) (sent : bool)
  : option Stage :=
  l ← line;
  match proof ← read_json (reads_text k) ClientProof l;
        map_err HsAuth (verify_auth_challenge (hello_key hello) (create_auth_challenge random) proof) with
  | Ok _ => if sent then Some (AwaitsFrame (hello_key hello)) else None
  | _ => None
  end.

(** The binding of the session and, if it succeeds, the session *)
Definition hear_frame (p : path_id) (k : Carrier) (public_key : string) (now : option Z)
    (first : option SessionFrame) (s : Server) : Server :=
  match resolve_session_binding now first public_key (server_identity ctx) with
  | Ok binding => session_open k p binding s
  | _ => s
  end.

Definition set_task (p : path_id) (k : Carrier) (stage : option Stage) (gw : Gateway) : Gateway :=
  {| gw_store := gw_store gw; gw_peers := gw_peers gw;
     gw_waiting :=
       match stage with
       | Some stage => <[p := {| ct_carrier := k; ct_stage := stage |}]> (gw_waiting gw)
       | None => delete p (gw_waiting gw)
       end;
     gw_server := gw_server gw |}.

Definition with_store (store : ServerState) (gw : Gateway) : Gateway :=
  {| gw_store := store; gw_peers := gw_peers gw; gw_waiting := gw_waiting gw; gw_server := gw_server gw |}.
Definition with_server (s : Server) (gw : Gateway) : Gateway :=
  {| gw_store := gw_store gw; gw_peers := gw_peers gw; gw_waiting := gw_waiting gw; gw_server := s |}.

(** One step of the task; [None]: it is not waiting for that. *)
Definition task_step (p : path_id) (t : ConnTask) (i : task_input) (gw : Gateway) : option Gateway :=
  let k := ct_carrier t in
  match ct_stage t, i with
  | AwaitsHello, HelloRead line => Some (set_task p k (hear_hello k line) gw)
  | Enrols e, EnrolStep o =>
      match en_pc e with
      | Settled _ => None
      | _ => let (e, store) := enrol_step (HO := o) invites e (gw_store gw) in
             Some (set_task p k (Some (Enrols e)) (with_store store gw))
      end
  | Enrols e, ChallengeSent random sent =>
      match en_pc e with
      | Settled go => Some (set_task p k (send_challenge (en_hello e) go random sent) gw)
      | _ => None
      end
  | AwaitsProof hello random, ProofRead line sent => Some (set_task p k (hear_proof k hello random line sent) gw)
  | AwaitsFrame public_key, FrameRead now first =>
      Some (set_task p k None (with_server (hear_frame p k public_key now first (gw_server gw)) gw))
  | _, _ => None
  end.

(** The random bytes of a challenge are bytes. *)
Definition input_ok (i : task_input) : Prop :=
  match i with ChallengeSent random _ => bytes_ok random | _ => True end.

(** ** Requests and restarts *)

Definition current_ctx (gw : Gateway) : BootstrapContext :=
  {| server_identity := server_identity ctx; tls_cert_der := tls_cert_der ctx;
     ctx_public_address := ctx_public_address ctx; wireguard_keypair := wireguard_keypair ctx;
     wireguard_public_addr := wireguard_public_addr ctx;
     wireguard_peer_lease_secs := wireguard_peer_lease_secs ctx; ctx_authorized_keys := (gw_store gw).2 |}.

Definition serve_request (r : Request) (gw : Gateway) : outcome Empty_set (Z * string) * Gateway :=
  let '(answer, peers, fs) :=
    route_bootstrap_request (current_ctx gw) (rq_advertised r) (rq_now r) (rq_method r) (rq_path r) (rq_body r)
      (gw_peers gw) (gw_store gw).1 in
  (answer, {| gw_store := (fs, (gw_store gw).2); gw_peers := peers; gw_waiting := gw_waiting gw;
              gw_server := gw_server gw |}).

(** A restart, as far as it concerns this state ([prepare_state] and [prepare_wireguard] of Startup.v): the
    keys are read, an invite is made if none can be used, the leases are read; no connection survives.
    [None]: the server does not start. *)
Definition restart (value : string) (now : option Z) (o : HashOrder) (gw : Gateway) : option Gateway :=
  let started keys peers fs :=
    Some {| gw_store := (fs, keys); gw_peers := peers; gw_waiting := ∅;
            gw_server := server_new (tun_mode (gw_server gw)) |} in
  match keys_load (store_path (gw_store gw).2) (gw_store gw).1 with
  | Ok keys =>
      match ensure_startup_invite (HO := o) invites value now (gw_store gw).1 with
      | (Ok _, fs) =>
          match gw_peers gw with
          | Some r =>
              match load_with_lease now (default EmptyString (wg_path r)) (peer_lease r) fs with
              | (Ok r, fs) => started keys (Some r) fs
              | _ => None
              end
          | None => started keys None fs
          end
      | _ => None
      end
  | _ => None
  end.

(** What happens: a connection is accepted and its task spawned, a task goes on, a request is served, a step of
    the running sessions ([server_step] of Routing.v that opens none), edits by the operator, a reload of the
    key store (after an edit, by the watcher), a restart *)
Inductive gw_step : gw_event -> Gateway -> Gateway -> Prop :=
  | GwAccepted p k gw :
      paths (gw_server gw) !! p = None -> gw_waiting gw !! p = None ->
      gw_step (Accepted p k) gw (set_task p k (Some AwaitsHello) gw)
  | GwHeard p t i gw gw' :
      gw_waiting gw !! p = Some t -> input_ok i -> task_step p t i gw = Some gw' -> gw_step (Heard p i) gw gw'
  | GwRequested r gw : gw_step (Requested r) gw (serve_request r gw).2
  | GwServed gw s :
      server_step (gw_server gw) s -> dom (paths s) ⊆ dom (paths (gw_server gw)) ->
      gw_step Served gw (with_server s gw)
  | GwEdited fs gw : gw_step (Edited fs) gw (with_store (fs, (gw_store gw).2) gw)
  | GwReloaded gw :
      gw_step Reloaded gw (with_store ((gw_store gw).1, (keys_reload (gw_store gw).2 (gw_store gw).1).2) gw)
  | GwRestarted value now o gw gw' :
      restart value now o gw = Some gw' -> gw_step (Restarted value now o) gw gw'.

(** The events from one state to another *)
Inductive gw_runs : Gateway -> list (gw_event * Gateway) -> Gateway -> Prop :=
  | RunsNil gw : gw_runs gw [] gw
  | RunsCons e gw gw1 l gw' : gw_step e gw gw1 -> gw_runs gw1 l gw' -> gw_runs gw ((e, gw) :: l) gw'.

(** What happened so far, each event with the state it found *)
Inductive history : list (gw_event * Gateway) -> Gateway -> Prop :=
  | HistoryNew store peers tun :
      history [] {| gw_store := store; gw_peers := peers; gw_waiting := ∅; gw_server := server_new tun |}
  | HistoryStep h e gw gw' : history h gw -> gw_step e gw gw' -> history (h ++ [(e, gw)]) gw'.

(** ** What the server signs *)

(** The claims of the introduction a request gets, if it gets one *)
Definition granted (keys : AuthorizedKeysStore) (now : option Z) (body : string) : option PeerShareIntroductionClaims :=
  r ← from_str request_of_json (trim body);
  if any_empty r || negb (is_authorized (rq_consumer r) keys) || negb (is_authorized (rq_provider r) keys)
     || negb (is_ok (verify_signature (rq_consumer r) (signed_payload r) (rq_signature r)))
  then None else Some (claims_of_request r (introduction_expiry now)).

(** The messages whose signature by the server's identity an event may give away: the fingerprint of its
    certificate, and the claims of an introduction *)
Definition signs (e : gw_event) (gw : Gateway) : list (list Z) :=
  match e with
  | Requested r =>
      let path := path_no_query (rq_path r) in
      if bool_decide (path = "/v1/bootstrap/cert-proof") then
        (fun der => string_bytes (compute_fingerprint der)) <$> option_list (tls_cert_der ctx)
      else if bool_decide (rq_method r = "POST" /\ path = "/v1/bootstrap/peer-share/introduction") then
        signing_payload <$> option_list (granted (gw_store gw).2 (rq_now r) (rq_body r))
      else []
  | _ => []
  end.

(** The assumption about ed25519: whoever presents a registration with a signature that verifies under the
    server's key presents a message the server had signed before. *)
Definition unforged (h : list (gw_event * Gateway)) : Prop :=
  forall h1 p now f gw h2 i pkb sb, h = h1 ++ (Heard p (FrameRead now (Some f)), gw) :: h2 ->
    from_control_frame f = Ok {| registration := i |} ->
    b64_decode (public_key_b64 (server_identity ctx)) = Some pkb -> b64_decode (server_signature i) = Some sb ->
    ed_verify pkb (signing_payload (introduction i)) sb = true ->
    exists e g, (e, g) ∈ h1 /\ signing_payload (introduction i) ∈ signs e g.

(** ** What a session rests on *)

(** What the task of the last connection [p] has met, each with the state it found *)
Definition talk_step (p : path_id) (acc : list (task_input * Gateway)) (eg : gw_event * Gateway)
  : list (task_input * Gateway) :=
  match eg.1 with
  | Accepted q _ => if decide (q = p) then [] else acc
  | Heard q i => if decide (q = p) then acc ++ [(i, eg.2)] else acc
  | _ => acc
  end.
Definition talk (p : path_id) (h : list (gw_event * Gateway)) : list (task_input * Gateway) :=
  foldl (talk_step p) [] h.

(** In these steps the token file was read with a use left of the invite, which gave [manager]. *)
Definition invite_taken (hello : ClientHello) (manager : InviteTokenManager) (l : list (task_input * Gateway)) : Prop :=
  exists o g m t, (EnrolStep o, g) ∈ l /\ load_manager invites (gw_store g).1 = Ok m /\
    redeem (hello_invite hello) m = (Ok t, manager).
(** And [manager], with a use less, was written back. *)
Definition invite_redeemed (hello : ClientHello) (l : list (task_input * Gateway)) : Prop :=
  exists manager o g, invite_taken hello manager l /\ (EnrolStep o, g) ∈ l /\
    (persist_manager (HO := o) invites manager (gw_store g).1).1 = Ok tt.

(** The store knew the key in one of these steps, or the key came with an invite that was redeemed in them. *)
Definition cleared (hello : ClientHello) (l : list (task_input * Gateway)) : Prop :=
  (exists o g, (EnrolStep o, g) ∈ l /\ is_authorized (hello_key hello) (gw_store g).2 = true) \/
  invite_redeemed hello l.

(** What a connection has met that was asked to sign [random] for the key of [hello] *)
Definition challenged (k : Carrier) (hello : ClientHello) (random : list Z) (l : list (task_input * Gateway)) : Prop :=
  exists line g steps g', l = (HelloRead (Some line), g) :: steps ++ [(ChallengeSent random true, g')] /\
    read_json (reads_text k) hello_of_json line = Ok hello /\ cleared hello steps /\ bytes_ok random.

(** A hello with the key, which was cleared, a challenge drawn after that, and a proof that verifies: a signature
    of that challenge under the key *)
Definition proved (k : Carrier) (key : string) (l : list (task_input * Gateway)) : Prop :=
  exists hello random l0 line g sig pkb sb,
    l = l0 ++ [(ProofRead (Some line) true, g)] /\ challenged k hello random l0 /\ key = hello_key hello /\
    read_json (reads_text k) ClientProof line = Ok sig /\
    b64_decode key = Some pkb /\ b64_decode sig = Some sb /\ ed_verify pkb random sb = true.

(** A request among the events got these claims: both devices were authorized, and the consumer signed. *)
Definition introduced (h : list (gw_event * Gateway)) (claims : PeerShareIntroductionClaims) : Prop :=
  exists r gw q, (Requested r, gw) ∈ h /\
    from_str request_of_json (trim (rq_body r)) = Some q /\
    claims = claims_of_request q (introduction_expiry (rq_now r)) /\
    is_authorized (cl_consumer claims) (gw_store gw).2 = true /\
    is_authorized (cl_provider claims) (gw_store gw).2 = true /\
    verify_signature (cl_consumer claims) (signed_payload q) (rq_signature q) = Ok tt.

(** A session of [key] may be opened at [now] for a connection that proved [authenticated], after the events [h]:
    it is the same key, or that of a consumer this provider was introduced to. *)
Definition may_open (h : list (gw_event * Gateway)) (now : option Z) (authenticated key : string) : Prop :=
  key = authenticated \/
  exists claims t, key = cl_consumer claims /\ authenticated = cl_provider claims /\
    introduced h claims /\ now = Some t /\ t < cl_expires_at claims.

(** The connection [p] proved a key and then sent the frame that opened a session of [key]. *)
Definition admitted (h : list (gw_event * Gateway)) (p : path_id) (key : string) : Prop :=
  exists h1 now first g h2 t authenticated,
    h = h1 ++ (Heard p (FrameRead now (Some first)), g) :: h2 /\ gw_waiting g !! p = Some t /\
    proved (ct_carrier t) authenticated (talk p h1) /\ may_open h1 now authenticated key.

(** ** Revocation *)



End gateway.

(** The server's clock gives seconds of 64 bits. *)
Definition clocked (h : list (gw_event * Gateway)) : Prop :=
  Forall (fun eg =>
    match eg.1 with
    | Requested r => from_option (in_u 64) True (rq_now r)
    | Heard _ (FrameRead now _) => from_option (in_u 64) True now
    | _ => True
    end) h.


(** * Lemmas *)

(** ** The running sessions *)

Lemma path_cycle_keys p s s' q t' :
  path_cycle p s s' -> paths s' !! q = Some t' -> exists t, paths s !! q = Some t /\ path_key t' = path_key t.
Proof.
  intros (t & s1 & Hp & [_ _ (u & Hs1 & Hu)] & Hend) Hq.
  assert (Hq1 : paths s1 !! q = Some t').
  { destruct Hend as [->|(t1 & _ & _ & ->)]; [done|]. cbn [close_path paths] in Hq.
    by apply lookup_delete_Some in Hq as [_ ?]. }
  rewrite Hs1 in Hq1. apply lookup_insert_Some in Hq1 as [[<- <-]|[_ Hq1]]; [|eauto].
  exists t. split; [done|]. unfold same_task in Hu. intuition congruence.
Qed.

(** A step that opens no session leaves each session's key. *)
Lemma served_keys s s' q t' :
  server_step s s' -> dom (paths s') ⊆ dom (paths s) -> paths s' !! q = Some t' ->
  exists t, paths s !! q = Some t /\ path_key t' = path_key t.
Proof.
  assert (Hopen : forall tun p b s, paths s !! p = None -> ~ dom (paths (open_path tun p b s)) ⊆ dom (paths s)).
  { intros tun p b s0 Hp Hd. unfold open_path in Hd. destruct (register_client _ _) as [sid reg]. cbn [paths] in Hd.
    rewrite dom_insert in Hd. apply not_elem_of_dom in Hp. set_solver. }
  assert (Hset : forall p u t s0, paths s0 !! p = Some t -> path_key u = path_key t ->
    paths (set_path p u s0) !! q = Some t' -> exists t, paths s0 !! q = Some t /\ path_key t' = path_key t).
  { intros p u t s0 Hp Hu Hq. cbn in Hq. apply lookup_insert_Some in Hq as [[<- <-]|[_ Hq]]; eauto. }
  intros Hstep Hd Hq.
  destruct Hstep as [s p b Hp|s p b Hp|s p b Hp|s p n oks ok b s' Hc|s p t n oks ok b s' _ _ Hc|s p f|s pkt rest _ Hw
    |s pkt rest _ Hw _|s packet r b Hret]; try (by destruct (Hopen _ _ _ _ Hp Hd)).
  - eapply path_cycle_keys; [by eapply cycle_cases | done].
  - eapply path_cycle_keys; [by eapply quic_cycle_cases | done].
  - unfold push_forward in Hq. destruct (paths s !! p) as [t|] eqn:Hp; [|eauto].
    destruct (use_tun_bridge t); [eauto|]. eapply (Hset p _ t s Hp); [|exact Hq]. done.
  - eauto.
  - eauto.
  - destruct r as [[p f]|]; [|eauto]. unfold push_tun in Hq. cbn [paths set_bridge] in Hq.
    destruct (paths s !! p) as [t|] eqn:Hp; [|eauto]. cbn [set_path paths set_bridge] in Hq.
    apply lookup_insert_Some in Hq as [[<- <-]|[_ Hq]]; eauto.
Qed.

Lemma open_path_keys tun p b s q t :
  paths (open_path tun p b s) !! q = Some t ->
  (q = p /\ path_key t = client_public_key b) \/ (q <> p /\ paths s !! q = Some t).
Proof.
  unfold open_path. destruct (register_client _ _) as [sid reg]. cbn [paths].
  intros [[<- <-]|[Hne Hq]]%lookup_insert_Some; auto.
Qed.

Section gateway_lemmas.
Context `{CryptoLaws} `{JsonLaws} `{Toml InviteTokensFile} `{TomlLaws AuthorizedKeysFile} `{Toml WireGuardPeersFile}
  `{!Authority} `{!Sha256}.
Variables (ctx : BootstrapContext) (invites : string).

(** ** The stages of a handshake *)

Lemma handshake_exchange {HO : HashOrder} k random store : exists send,
  handshake invites k random store = server_exchange send (reads_text k) invites random store.
Proof. destruct k; eexists; reflexivity. Qed.

(** The stages of a task one after the other, with nothing in between *)
Definition uninterrupted {HO : HashOrder} (k : Carrier) (random : list Z) (l1 l2 : string) (store : ServerState)
  : option string * ServerState :=
  match hear_hello k (Some l1) with
  | Some (Enrols e) =>
      let (e, store) := enrol_alone 6 invites e store in
      (match en_pc e with
       | Settled go =>
           match send_challenge (en_hello e) go random true with
           | Some (AwaitsProof hello random) =>
               match hear_proof k hello random (Some l2) true with
               | Some (AwaitsFrame key) => Some key
               | _ => None
               end
           | _ => None
           end
       | _ => None
       end, store)
  | _ => (None, store)
  end.

(** They are the handshake of AuthHandshake.v. *)
Theorem handshake_by_stages {HO : HashOrder} k random l1 l2 store :
  let '(_, res, store') := run [Some l1; Some l2] 2 (handshake invites k random store) in
  uninterrupted k random l1 l2 store = (ok_option res, store').
Proof.
  destruct (handshake_exchange k random store) as [send ->]. unfold server_exchange, uninterrupted, hear_hello.
  cbn [run mbind option_bind]. unfold server_hello.
  destruct (read_json _ hello_of_json l1) as [hello| |]; [|done..].
  pose proof (enrol_alone_authorizes invites hello store) as Ha.
  destruct (authorize_hello invites hello store) as [go st]. rewrite Ha. cbn [en_pc at_pc en_hello enrol_start].
  destruct go as [[]| |]; cbn [run send_challenge]; [|done..].
  unfold server_proof, hear_proof. cbn [mbind option_bind].
  destruct (_ ≫= _) as [[]| |]; [|done..]. done.
Qed.

(** What an enrolment that has come so far has met *)
Definition enrolled (e : Enrolment) (l : list (task_input * Gateway)) : Prop :=
  match en_pc e with
  | ToCheck | ToReadTokens => True
  | ToWriteTokens manager => invite_taken invites (en_hello e) manager l
  | ToReadDevices | ToWriteDevices _ | ToReload => invite_redeemed invites (en_hello e) l
  | Settled (Ok true) => cleared invites (en_hello e) l
  | Settled _ => True
  end.

Lemma invite_taken_app hello m l l' : invite_taken invites hello m l -> invite_taken invites hello m (l ++ l').
Proof. intros (o & g & m0 & t & Hin & Hr). exists o, g, m0, t. split; [apply elem_of_app; by left|done]. Qed.

Lemma invite_redeemed_app hello l l' : invite_redeemed invites hello l -> invite_redeemed invites hello (l ++ l').
Proof.
  intros (m & o & g & Ht & Hin & Hp). exists m, o, g. split; [by apply invite_taken_app|].
  split; [apply elem_of_app; by left|done].
Qed.

Lemma enrolled_step o e g l e' store :
  enrolled e l -> enrol_step (HO := o) invites e (gw_store g) = (e', store) ->
  enrolled e' (l ++ [(EnrolStep o, g)]) \/ exists r, en_pc e = Settled r.
Proof.
  assert (Hlast : (EnrolStep o, g) ∈ l ++ [(EnrolStep o, g)]) by (apply elem_of_app; right; by left).
  unfold enrolled. destruct e as [hello pc]. unfold enrol_step. cbn [en_pc en_hello].
  destruct (gw_store g) as [fs keys] eqn:Hst. destruct pc as [| |m| |doc| |r]; intros He Hs.
  - left. injection Hs as <- <-. cbn [at_pc en_pc en_hello].
    destruct (is_authorized (hello_key hello) keys) eqn:Ha; [|by destruct (is_empty _)].
    left. exists o, g. by rewrite Hst.
  - left. injection Hs as <- <-. cbn [at_pc en_pc en_hello]. destruct (load_manager invites fs) as [m| |] eqn:Hl; [|done..].
    cbn [and_then]. destruct (redeem (hello_invite hello) m) as [[t| |] m'] eqn:Hr; cbn [is_ok]; [|done..].
    exists o, g, m, t. by rewrite Hst.
  - left. destruct (persist_manager invites m fs) as [[[]| |] fs'] eqn:Hp; injection Hs as <- <-; cbn [at_pc en_pc en_hello and_then]; [|done..].
    exists m, o, g. split; [by apply invite_taken_app|]. split; [done|]. rewrite Hst. cbn [fst]. by rewrite Hp.
  - left. injection Hs as <- <-. cbn [at_pc en_pc en_hello]. apply (invite_redeemed_app _ _ [(EnrolStep o, g)]) in He.
    destruct (load_devices_file _ _) as [doc| |]; [|done..]. cbn [and_then]. by destruct (existsb _ _).
  - left. apply (invite_redeemed_app _ _ [(EnrolStep o, g)]) in He.
    destruct (persist_devices_file _ _ _) as [[[]| |] fs']; injection Hs as <- <-; done.
  - left. apply (invite_redeemed_app _ _ [(EnrolStep o, g)]) in He.
    destruct (keys_reload _ _) as [[[]| |] ks]; injection Hs as <- <-; cbn [at_pc en_pc en_hello and_then]; [|done..]. by right.
  - right. eauto.
Qed.

Lemma enrol_step_hello {HO : HashOrder} e st : en_hello (enrol_step invites e st).1 = en_hello e.
Proof.
  destruct st as [fs keys]. unfold enrol_step. destruct (en_pc e); try done; repeat (case_match; try done).
Qed.

(** What a task in this stage has met *)
Definition stage_talk (k : Carrier) (stage : Stage) (l : list (task_input * Gateway)) : Prop :=
  match stage with
  | AwaitsHello => l = []
  | Enrols e => exists line g steps, l = (HelloRead (Some line), g) :: steps /\
      read_json (reads_text k) hello_of_json line = Ok (en_hello e) /\ enrolled e steps
  | AwaitsProof hello random => challenged invites k hello random l
  | AwaitsFrame key => proved invites k key l
  end.

Lemma hear_hello_talk k line g stage :
  hear_hello k line = Some stage -> stage_talk k stage [(HelloRead line, g)].
Proof.
  unfold hear_hello. destruct line as [line|]; [|done]. cbn [mbind option_bind].
  destruct (read_json _ _ line) as [hello| |] eqn:Hr; [|done..]. intros [= <-].
  exists line, g, []. by split_and!.
Qed.

Lemma hear_proof_talk k hello random l line sent g stage :
  challenged invites k hello random l -> hear_proof k hello random line sent = Some stage ->
  stage_talk k stage (l ++ [(ProofRead line sent, g)]).
Proof.
  intros Hc Hs. unfold hear_proof in Hs. destruct line as [line|]; [|done]. cbn [mbind option_bind] in Hs.
  destruct (read_json _ ClientProof line) as [sig| |] eqn:Hr; [|done..]. cbn [mbind outcome_bind] in Hs.
  destruct (verify_auth_challenge _ _ sig) as [[]| |] eqn:Hv; [|done..]. cbn [map_err] in Hs.
  destruct sent; [|done]. injection Hs as <-.
  apply verify_auth_challenge_Ok in Hv as (pkb & cb & sb & Hpk & Hcb & Hsb & _ & _ & Hv).
  pose proof Hc as (? & ? & ? & ? & _ & _ & _ & Hb). unfold create_auth_challenge in Hcb.
  rewrite b64url_round in Hcb by done. injection Hcb as <-. by exists hello, random, l, line, g, sig, pkb, sb.
Qed.

(** A step of a task keeps the account of what it has met, and opens at most its own session. *)
Lemma task_step_talk p t i gw gw' l t' :
  stage_talk (ct_carrier t) (ct_stage t) l -> input_ok i -> task_step ctx invites p t i gw = Some gw' ->
  gw_waiting gw' !! p = Some t' -> stage_talk (ct_carrier t') (ct_stage t') (l ++ [(i, gw)]).
Proof.
  intros Hl Hi Hs Ht'. destruct t as [k stage]. unfold task_step in Hs. cbn [ct_carrier ct_stage] in *.
  assert (Hset : forall st g, gw_waiting (set_task p k st g) !! p = Some t' ->
    exists stage', st = Some stage' /\ t' = {| ct_carrier := k; ct_stage := stage' |}).
  { intros [st|] g; cbn [set_task gw_waiting]; rewrite ?lookup_insert_eq, ?lookup_delete_eq; [|done].
    intros [= <-]. eauto. }
  destruct stage as [|e|hello random|key], i as [line|o|random' sent|line sent|now f]; try done.
  - injection Hs as <-. apply Hset in Ht' as (st & Hst & ->). cbn in Hl. subst l. by apply hear_hello_talk.
  - destruct (en_pc e) eqn:Hpc; try done.
    all: pose proof (enrol_step_hello (HO := o) e (gw_store gw)) as Hh.
    all: destruct (enrol_step invites e (gw_store gw)) as [e' store] eqn:He; injection Hs as <-; apply Hset in Ht' as (st & [= <-] & ->).
    all: cbn [fst] in Hh; destruct Hl as (line & g & steps & -> & Hr & Hen).
    all: destruct (enrolled_step o e gw steps e' store Hen He) as [Hen'|[r Hr']]; [|congruence].
    all: exists line, g, (steps ++ [(EnrolStep o, gw)]); rewrite Hh; by split_and!.
  - destruct (en_pc e) as [| | | | | |go] eqn:Hpc; try done. injection Hs as <-. apply Hset in Ht' as (st & Hst & ->).
    unfold send_challenge in Hst. destruct go as [[]| |]; [|done..]. destruct sent; [|done]. injection Hst as <-.
    destruct Hl as (line & g & steps & -> & Hr & Hen). unfold enrolled in Hen. rewrite Hpc in Hen.
    exists line, g, steps, gw. by split_and!.
  - injection Hs as <-. apply Hset in Ht' as (st & Hst & ->). by eapply hear_proof_talk.
  - injection Hs as <-. by apply Hset in Ht' as (st & ? & _).
Qed.

(** The rest of the gateway under a step of a task *)
Lemma task_step_frame p t i gw gw' :
  task_step ctx invites p t i gw = Some gw' ->
  gw_peers gw' = gw_peers gw /\ (forall q, q <> p -> gw_waiting gw' !! q = gw_waiting gw !! q) /\
  (gw_server gw' = gw_server gw \/ exists now f key, i = FrameRead now f /\ ct_stage t = AwaitsFrame key /\
     gw_waiting gw' !! p = None /\ gw_server gw' = hear_frame ctx p (ct_carrier t) key now f (gw_server gw)) /\
  (gw_store gw' = gw_store gw \/ exists o e, i = EnrolStep o /\ ct_stage t = Enrols e /\
     gw_store gw' = (enrol_step (HO := o) invites e (gw_store gw)).2).
Proof.
  intros Hs. destruct t as [k stage]. unfold task_step in Hs. cbn [ct_carrier ct_stage] in *.
  assert (Hset : forall st g, (forall q, q <> p -> gw_waiting (set_task p k st g) !! q = gw_waiting g !! q)).
  { intros [st|] g q Hq; cbn [set_task gw_waiting]; by rewrite ?lookup_insert_ne, ?lookup_delete_ne. }
  destruct stage as [|e|hello random|key], i as [line|o|random' sent|line sent|now f]; try done.
  - injection Hs as <-. split_and!; [done|apply Hset|by left|by left].
  - assert (He : gw' = (let (e', store) := enrol_step (HO := o) invites e (gw_store gw) in
      set_task p k (Some (Enrols e')) (with_store store gw))) by (destruct (en_pc e); try done; by destruct (enrol_step _ _ _); injection Hs as <-).
    subst gw'. split_and!; [by destruct (enrol_step _ _ _)|..].
    + intros q Hq. destruct (enrol_step _ _ _). by rewrite Hset.
    + left. by destruct (enrol_step _ _ _).
    + right. exists o, e. by destruct (enrol_step _ _ _).
  - destruct (en_pc e); try done. injection Hs as <-. split_and!; [done|apply Hset|by left|by left].
  - injection Hs as <-. split_and!; [done|apply Hset|by left|by left].
  - injection Hs as <-. split_and!; [done|intros q Hq; by rewrite Hset| |by left]. right. exists now, f, key. split_and!; try done.
    cbn [set_task gw_waiting]. apply lookup_delete_eq.
Qed.

(** What a frame that opened a session was bound to *)
Lemma frame_opens p k key now f s q t :
  paths (hear_frame ctx p k key now f s) !! q = Some t ->
  paths s !! q = Some t \/
  (q = p /\ exists b, resolve_session_binding now f key (server_identity ctx) = Ok b /\
     path_key t = client_public_key b).
Proof.
  unfold hear_frame. destruct (resolve_session_binding _ _ _ _) as [b| |] eqn:Hb; [|by left..].
  intros Hq. assert (Ho : (q = p /\ path_key t = client_public_key b) \/ (q <> p /\ paths s !! q = Some t)).
  { destruct k; by eapply open_path_keys. }
  destruct Ho as [[-> Hk]|[_ Ho]]; [right; eauto|by left].
Qed.

(** ** Introductions *)

Lemma granted_Some keys now body claims :
  granted keys now body = Some claims ->
  exists q, from_str request_of_json (trim body) = Some q /\ claims = claims_of_request q (introduction_expiry now) /\
    is_authorized (cl_consumer claims) keys = true /\ is_authorized (cl_provider claims) keys = true /\
    verify_signature (cl_consumer claims) (signed_payload q) (rq_signature q) = Ok tt.
Proof.
  unfold granted. destruct (from_str request_of_json (trim body)) as [q|]; [|done]. cbn [mbind option_bind].
  destruct (any_empty q || _ || _ || _) eqn:Hg; [done|]. intros [= <-].
  rewrite !orb_false_iff, !negb_false_iff in Hg. destruct Hg as [[[_ Hc] Hp] Hs]. exists q. split_and!; [done..|].
  cbn [cl_consumer claims_of_request]. by destruct (verify_signature _ _ _) as [[]| |].
Qed.

(** The endpoint signs what [granted] says, and nothing else. *)
Lemma granted_answer keys now body :
  let (status, answer) := peer_share_introduction_response (server_identity ctx) keys now body in
  match granted keys now body with
  | Some claims =>
      match sign_bytes (server_identity ctx) (signing_payload claims) with
      | Ok s => status = 200 /\ answer = json_print (signed_json {| introduction := claims; server_signature := s |})
      | _ => status = 500
      end
  | None => status <> 200
  end.
Proof.
  unfold peer_share_introduction_response, granted. destruct (from_str _ _) as [q|]; [|done]. cbn [mbind option_bind].
  destruct (any_empty q); [done|]. destruct (is_authorized (rq_consumer q) keys); [|done].
  destruct (is_authorized (rq_provider q) keys); [|done]. cbn [negb orb].
  destruct (verify_signature _ _ _) as [[]| |]; cbn [is_ok negb]; [|done..]. by destruct (sign_bytes _ _).
Qed.

Lemma as_uint_range w j z : as_uint w j = Some z -> in_u w z.
Proof. destruct j; try done. cbn. case_decide; [|done]. by intros [= <-]. Qed.

Lemma field_conv {A} (conv : json -> option A) key fields a :
  field conv key fields = Some a -> exists j, conv j = Some a.
Proof. unfold field. destruct (members key fields) as [|j [|]]; [done| |done]. eauto. Qed.

Lemma claims_of_json_range j c : claims_of_json j = Some c -> in_u 64 (cl_expires_at c).
Proof.
  intros Hc. unfold claims_of_json in Hc. destruct j as [| | | |l|fields]; try done.
  - repeat (case_match; try done). subst. destruct (as_uint 64 _) as [x|] eqn:Hx; [|done].
    cbn in Hc. injection Hc as <-. by eapply as_uint_range.
  - repeat (apply bind_Some in Hc as (? & ? & Hc)). injection Hc as <-. cbn [cl_expires_at].
    match goal with Hx : field (as_uint 64) _ _ = Some _ |- _ => apply field_conv in Hx as [? Hx]; by eapply as_uint_range end.
Qed.

Lemma signed_of_json_range j i : signed_of_json j = Some i -> in_u 64 (cl_expires_at (introduction i)).
Proof.
  intros Hi. unfold signed_of_json in Hi. destruct j as [| | | |l|fields]; try done.
  - repeat (case_match; try done). subst. apply bind_Some in Hi as (c & Hc & [= <-]). by eapply claims_of_json_range.
  - apply bind_Some in Hi as (c & Hc & Hi). apply bind_Some in Hi as (s & _ & [= <-]).
    apply field_conv in Hc as [j Hc]. by eapply claims_of_json_range.
Qed.

Lemma registered_range f i :
  from_control_frame f = Ok {| registration := i |} -> in_u 64 (cl_expires_at (introduction i)).
Proof.
  unfold from_control_frame. destruct (negb _); [done|].
  destruct (from_str registration_of_json _) as [r|] eqn:Hr; [|done]. intros [= ->]. unfold from_str in Hr.
  destruct (json_parse _) as [j|]; [|done]. cbn in Hr. destruct j as [| | | |l|fields]; try done; cbn in Hr.
  - repeat (case_match; try done). subst. apply bind_Some in Hr as (i' & Hi & [= ->]). by eapply signed_of_json_range.
  - apply bind_Some in Hr as (i' & Hi & [= ->]). apply field_conv in Hi as [j Hi]. by eapply signed_of_json_range.
Qed.

(** Different claims have different texts. *)
Lemma signing_payload_inj c c' :
  in_u 64 (cl_expires_at c) -> in_u 64 (cl_expires_at c') -> signing_payload c = signing_payload c' -> c = c'.
Proof.
  intros Hc Hc' Heq. unfold signing_payload in Heq.
  assert (Ht : json_print (claims_json c) = json_print (claims_json c'))
    by (rewrite <- (bytes_string_bytes (json_print (claims_json c))), Heq; apply bytes_string_bytes).
  assert (Hj : Some (claims_json c) = Some (claims_json c'))
    by (rewrite <- !json_round by (by apply claims_wf); by rewrite Ht).
  apply (f_equal (mbind claims_of_json)) in Hj. cbn [mbind option_bind] in Hj.
  rewrite !claims_round in Hj by done. congruence.
Qed.

Lemma introduction_expiry_range now : from_option (in_u 64) True now -> in_u 64 (introduction_expiry now).
Proof.
  destruct now as [n|]; cbn; unfold in_u, saturating_add; [|lia]. intros Hn. lia.
Qed.

Section text.
(** The text of an object does not begin like a fingerprint. *)
Hypothesis object_text : forall fields s, json_print (JObj fields) <> String "s" s.

Lemma signed_claims e gw claims :
  in_u 64 (cl_expires_at claims) -> clocked [(e, gw)] -> signing_payload claims ∈ signs ctx e gw ->
  exists r, e = Requested r /\ granted (gw_store gw).2 (rq_now r) (rq_body r) = Some claims.
Proof.
  intros Hx Hclock. destruct e as [|p i|r| | | |]; cbn [signs]; try (intros Hin; by apply elem_of_nil in Hin).
  apply Forall_cons in Hclock as [Hclock _]. cbn in Hclock. intros Hin. exists r. split; [done|].
  case_bool_decide.
  { destruct (tls_cert_der ctx) as [der|]; [|by apply elem_of_nil in Hin].
    apply list_elem_of_singleton in Hin. unfold signing_payload in Hin. apply (f_equal bytes_string) in Hin.
    rewrite !bytes_string_bytes in Hin. exfalso. exact (object_text _ ("ha256:" +:+ hex_string (sha256 der)) Hin). }
  case_bool_decide; [|by apply elem_of_nil in Hin].
  destruct (granted _ _ _) as [c|] eqn:Hg; [|by apply elem_of_nil in Hin]. apply list_elem_of_singleton in Hin.
  f_equal. symmetry. apply signing_payload_inj; [done| |done].
  apply granted_Some in Hg as (q & _ & -> & _). cbn [cl_expires_at claims_of_request]. by apply introduction_expiry_range.
Qed.

(** ** Histories *)

Lemma unforged_prefix h h' : unforged ctx (h ++ h') -> unforged ctx h.
Proof.
  intros Hu h1 p now f gw h2 i pkb sb ->. rewrite <- app_assoc in Hu.
  apply (Hu h1 p now f gw (h2 ++ h') i pkb sb eq_refl).
Qed.

(** A binding that the server accepts is the connection's own or rests on an introduction. *)
Lemma binding_admits h p now first gw key b :
  unforged ctx (h ++ [(Heard p (FrameRead now first), gw)]) -> clocked h ->
  resolve_session_binding now first key (server_identity ctx) = Ok b ->
  is_Some first /\ may_open h now key (client_public_key b).
Proof.
  intros Hu Hclock Hb. destruct first as [f|]; [|done]. split; [eauto|].
  destruct (is_registration f) eqn:Hreg.
  2:{ unfold resolve_session_binding in Hb. cbn [ok_or mbind outcome_bind] in Hb. rewrite Hreg in Hb. cbn in Hb.
      injection Hb as <-. by left. }
  destruct now as [now|].
  2:{ exfalso. unfold resolve_session_binding in Hb. cbn [ok_or mbind outcome_bind] in Hb. rewrite Hreg in Hb.
      cbn [negb] in Hb. destruct (from_control_frame f) as [[i]| |]; [|done..]. cbn [mbind outcome_bind registration] in Hb.
      unfold verify_relay_registration in Hb. destruct (map_err _ _) as [[]| |]; cbn in Hb; [|done..].
      by case_bool_decide. }
  apply session_binding_sound in Hb as (f' & [= <-] & [(? & _)|(_ & _ & i & pkb & sb & Hi & -> & Hprov & Hlt & Hpk & Hsb & Hv)]);
    [congruence|]. right. exists (introduction i), now. split_and!; [done..| |done|done].
  destruct (Hu h p (Some now) f gw [] i pkb sb eq_refl Hi Hpk Hsb Hv) as (e & g & Heg & Hin).
  pose proof (proj1 (Forall_forall _ _) Hclock _ Heg) as Hc.
  destruct (signed_claims e g (introduction i)) as (r & -> & Hg);
    [by eapply registered_range | by apply Forall_singleton | done |].
  apply granted_Some in Hg as (q & Hq & Hclaims & Ha1 & Ha2 & Hs). by exists r, g, q.
Qed.
End text.

Lemma talk_snoc p h eg : talk p (h ++ [eg]) = talk_step p (talk p h) eg.
Proof. unfold talk. by rewrite foldl_app. Qed.

(** In every history each waiting task has met what its stage says, and has no session yet. *)
Lemma history_waits h gw :
  history ctx invites h gw ->
  forall p t, gw_waiting gw !! p = Some t ->
    stage_talk (ct_carrier t) (ct_stage t) (talk p h) /\ paths (gw_server gw) !! p = None.
Proof.
  induction 1 as [store peers tun|h e gw gw' Hh IH Hstep]; intros p t Hp; [done|].
  rewrite talk_snoc. unfold talk_step.
  destruct Hstep as [q k gw Hq1 Hq2|q t0 i gw gw' Hq Hi Hs|r gw|gw s Hs Hd|fs gw|gw|value now o gw gw' Hr]; cbn [fst snd].
  - cbn [set_task gw_waiting gw_server] in *. case_decide as Hqp.
    + subst q. rewrite lookup_insert_eq in Hp. by injection Hp as <-.
    + rewrite lookup_insert_ne in Hp by done. by apply IH.
  - destruct (task_step_frame _ _ _ _ _ Hs) as (_ & Hother & Hsrv & _).
    assert (Hnone : paths (gw_server gw) !! p = None).
    { destruct (decide (q = p)) as [->|Hne]; [by apply (IH p t0)|]. rewrite Hother in Hp by done. by apply (IH p t). }
    split.
    + case_decide; [subst q|rewrite Hother in Hp by done; by apply IH].
      eapply task_step_talk; [by apply IH|done..].
    + destruct Hsrv as [->|(now & f & key & _ & _ & Hgone & Heq)]; [done|]. rewrite Heq.
      destruct (paths (hear_frame _ _ _ _ _ _ _) !! p) as [u|] eqn:Hu; [|done].
      apply frame_opens in Hu as [Hu|[-> _]]; congruence.
  - unfold serve_request in *. destruct (route_bootstrap_request _ _ _ _ _ _ _ _) as [[? ?] ?]. by apply IH.
  - cbn [with_server gw_waiting gw_server] in *. destruct (IH p t Hp) as [Hl Hn]. split; [done|].
    apply not_elem_of_dom. apply not_elem_of_dom in Hn. set_solver.
  - by apply IH.
  - by apply IH.
  - exfalso. unfold restart in Hr. repeat (case_match; simplify_eq; try done).
Qed.

(** ** A revoked device *)












Lemma runs_history h gw l gw' :
  history ctx invites h gw -> gw_runs ctx invites gw l gw' -> history ctx invites (h ++ l) gw'.
Proof.
  intros Hh Hr. revert h Hh. induction Hr as [|e gw gw1 l gw' Hs _ IH]; intros h Hh; [by rewrite app_nil_r|].
  change ((e, gw) :: l) with ([(e, gw)] ++ l). rewrite app_assoc. apply IH. by eapply HistoryStep.
Qed.

End gateway_lemmas.

(** * Properties *)

(** C5: every session is justified.  Whatever is accepted, heard, requested, edited, reloaded or restarted, in any
    order and with any waiting in between: an open session belongs to a connection whose hello gave a key that the
    store knew when it was looked up, or that came with an invite which was redeemed; that then signed, with this
    key, the challenge drawn for it; and whose first frame then opened the session, for that key or for that of a
    consumer for whom, while both devices were authorized, the server granted the consumer's signed request for an
    introduction to that provider, and which had not expired. *)
Theorem sessions_justified `{CryptoLaws} `{JsonLaws} `{Toml InviteTokensFile} `{TomlLaws AuthorizedKeysFile}
    `{Toml WireGuardPeersFile} `{!Authority} `{!Sha256} (ctx : BootstrapContext) (invites : string)
    (h : list (gw_event * Gateway)) (gw : Gateway) (p : path_id) (t : PathTask) :
  (forall fields s, json_print (JObj fields) <> String "s" s) ->
  history ctx invites h gw -> unforged ctx h -> clocked h -> paths (gw_server gw) !! p = Some t ->
  admitted invites h p (path_key t).
Proof.
  intros Htext Hh. revert p t. induction Hh as [store peers tun|h e gw gw' Hh IH Hstep]; intros p t Hu Hc Hp; [done|].
  pose proof (proj1 (proj1 (Forall_app _ _ _) Hc)) as Hc1.
  assert (Hold : forall t0, paths (gw_server gw) !! p = Some t0 -> path_key t = path_key t0 ->
    admitted invites (h ++ [(e, gw)]) p (path_key t)).
  { intros t0 Hp0 ->. destruct (IH p t0 (unforged_prefix _ _ _ Hu) Hc1 Hp0) as (h1 & now & f & g & h2 & u & k & -> & Hrest).
    exists h1, now, f, g, (h2 ++ [(e, gw)]), u, k. rewrite <- app_assoc. by split. }
  destruct Hstep as [q k gw _ _|q u i gw gw' Hq _ Hs|r gw|gw s Hs Hd|fs gw|gw|value now o gw gw' Hr].
  - by eapply Hold.
  - destruct (task_step_frame _ _ _ _ _ _ _ Hs) as (_ & _ & [Heq|(now & f & key & -> & Hst & _ & Heq)] & _);
      rewrite Heq in Hp; [by eapply Hold|].
    apply frame_opens in Hp as [Hp|(-> & b & Hb & ->)]; [by eapply Hold|].
    destruct (binding_admits _ Htext _ _ _ _ _ _ _ Hu Hc1 Hb) as [[f0 ->] Hmay].
    destruct (history_waits _ _ _ _ Hh q u Hq) as [Htalk _]. rewrite Hst in Htalk.
    by exists h, now, f0, gw, [], u, key.
  - unfold serve_request in Hp. destruct (route_bootstrap_request _ _ _ _ _ _ _ _) as [[? ?] ?]. by eapply Hold.
  - destruct (served_keys _ _ p t Hs Hd Hp) as (t0 & Hp0 & Hk). by eapply Hold.
  - by eapply Hold.
  - by eapply Hold.
  - exfalso. unfold restart in Hr. repeat (case_match; simplify_eq; try done).
Qed.


(** ** Witnesses *)

Module Sample.
#[local] Existing Instances AuthHandshake.Sample.crypto AuthHandshake.Sample.crypto_laws Json.Sample.json_text
  Json.Sample.json_laws Stores.Sample.toml_invites Stores.Sample.toml_keys Stores.Sample.toml_keys_laws
  WgServer.Sample.toml_peers Bootstrap.Sample.authority Bootstrap.Sample.digest.

(** A consumer and a provider, both authorized; no invites *)
Definition consumer : string := AuthHandshake.Sample.pk.
Definition provider_sk : list Z := replicate 32 66.
Definition provider : string := public_key_b64 (from_signing_key provider_sk).
Definition device (k : string) : AuthorizedDevice := {| device_id := "d"; public_key := k; added_at := None |}.
Definition keys : AuthorizedKeysStore :=
  {| store_path := "k"; devices := <[consumer := device consumer]> {[ provider := device provider ]} |}.
Definition ctx : BootstrapContext := Bootstrap.Sample.ctx.
Definition first_state : Gateway :=
  {| gw_store := ({| files := ∅; read_fails := ∅; write_fails := ∅ |}, keys); gw_peers := None;
     gw_waiting := ∅; gw_server := server_new false |}.

(** At 1000 the consumer asks for an introduction to the provider. *)
Definition signature : string := bytes_string (AuthHandshake.Sample.sk ++ AuthHandshake.Sample.sk).
Definition query : PeerShareIntroductionRequest :=
  {| rq_consumer := consumer; rq_provider := provider; rq_nonce := "n"; rq_endpoint := "e"; rq_transport := "quic";
     rq_fingerprint := "f"; rq_signature := signature |}.
Definition request : Request :=
  {| rq_advertised := None; rq_now := Some 1000; rq_method := "POST";
     rq_path := "/v1/bootstrap/peer-share/introduction";
     rq_body := json_print (JArr (JStr <$> [consumer; provider; "n"; "e"; "quic"; "f"; signature])) |}.
Definition claims : PeerShareIntroductionClaims := claims_of_request query 1300.

(** At 1100 the provider, connected over a WebSocket, registers the consumer's relay. *)
Definition registration_frame : SessionFrame :=
  register_peer_relay_upstream {| introduction := claims; server_signature := signature |}.
Definition relay : list task_input :=
  [HelloRead (Some (json_print (hello_msg provider ""))); EnrolStep Stores.Sample.listing;
   ChallengeSent [1; 2; 3] true; ProofRead (Some (json_print (proof_msg (bytes_string (provider_sk ++ provider_sk))))) true;
   FrameRead (Some 1100) (Some registration_frame)].

(** A connection that meets these things, with nothing in between *)
Fixpoint play (p : path_id) (ins : list task_input) (gw : Gateway) : option (list (gw_event * Gateway) * Gateway) :=
  match ins with
  | [] => Some ([], gw)
  | i :: ins =>
      t ← gw_waiting gw !! p;
      gw1 ← task_step ctx "t" p t i gw;
      '(l, gw') ← play p ins gw1;
      Some ((Heard p i, gw) :: l, gw')
  end.
Definition connects (p : path_id) (ins : list task_input) (gw : Gateway) : option (list (gw_event * Gateway) * Gateway) :=
  '(l, gw') ← play p ins (set_task p OverWebSocket (Some AwaitsHello) gw);
  Some ((Accepted p OverWebSocket, gw) :: l, gw').

Lemma connects_runs p ins gw l gw' :
  connects p ins gw = Some (l, gw') -> Forall input_ok ins ->
  paths (gw_server gw) !! p = None -> gw_waiting gw !! p = None -> gw_runs ctx "t" gw l gw'.
Proof.
  assert (Hplay : forall ins gw l gw', play p ins gw = Some (l, gw') -> Forall input_ok ins -> gw_runs ctx "t" gw l gw').
  { clear. induction ins as [|i ins IH]; intros gw l gw'; cbn [play]; [intros [= <- <-]; constructor|].
    intros (t & Ht & (gw1 & Hs & ([l1 gw2] & Hp & [= <- <-])%bind_Some)%bind_Some)%bind_Some [Hi Hok]%Forall_cons.
    eapply RunsCons; [by eapply GwHeard|]. by apply IH. }
  unfold connects. intros ([l1 gw2] & Hp & [= <- <-])%bind_Some Hok Hq1 Hq2.
  eapply RunsCons; [by apply GwAccepted|]. by eapply Hplay.
Qed.

Lemma relay_ok : Forall input_ok relay.
Proof. repeat constructor; lia. Qed.

Lemma granted_sample : granted keys (Some 1000) (rq_body request) = Some claims.
Proof. vm_compute. reflexivity. Qed.

Lemma object_text_sample fields s : json_print (JObj fields) <> String "s" s.
Proof. discriminate. Qed.

(** Every relay registration of a history after the request is the one the server signed. *)
Lemma relay_signed i :
  from_control_frame registration_frame = Ok {| registration := i |} ->
  signing_payload (introduction i) ∈ signs ctx (Requested request) first_state.
Proof.
  intros Hi. unfold registration_frame, register_peer_relay_upstream in Hi.
  rewrite from_control_frame_round in Hi by (cbn; unfold in_u; lia).
  injection Hi as <-. unfold signs. cbn [rq_path request]. rewrite bool_decide_eq_false_2 by (vm_compute; discriminate).
  rewrite bool_decide_eq_true_2 by (split; vm_compute; reflexivity). change (gw_store first_state).2 with keys.
  cbn [rq_now request]. rewrite granted_sample. by apply list_elem_of_singleton.
Qed.

(** The events of a run are a connection's, register no other relay and show the clock at 1100. *)
Definition registers (eg : gw_event * Gateway) : bool :=
  match eg.1 with
  | Requested _ | Edited _ | Restarted _ _ _ => false
  | Heard _ (FrameRead now f) => bool_decide (now = Some 1100 /\ f = Some registration_frame)
  | _ => true
  end.

Lemma sample_unforged h h' :
  Forall (fun eg => forall p i, eg.1 <> Heard p i) h -> forallb registers h' = true ->
  unforged ctx ((Requested request, first_state) :: h ++ h').
Proof.
  intros Hh Hall h1 p now f gw h2 i pkb sb Heq Hi _ _ _. destruct h1 as [|x h1]; [discriminate Heq|].
  apply (f_equal tail) in Heq as Htail. apply (f_equal head) in Heq as Hhead. cbn [tail head app] in Htail, Hhead.
  assert (Hf : f = registration_frame).
  { assert (Hin : (Heard p (FrameRead now (Some f)), gw) ∈ h ++ h') by (rewrite Htail; apply elem_of_app; right; by left).
    apply elem_of_app in Hin as [Hin|Hin].
    - rewrite Forall_forall in Hh. by destruct (Hh _ Hin p (FrameRead now (Some f))).
    - rewrite forallb_forall in Hall. apply list_elem_of_In, Hall, bool_decide_eq_true_1 in Hin as [_ Hin]. by injection Hin. }
  subst f. exists (Requested request), first_state. split; [|by apply relay_signed]. injection Hhead as <-. by left.
Qed.

Lemma sample_clocked h :
  forallb registers h = true -> clocked h.
Proof.
  intros Hall. apply Forall_forall. intros [e g] Hin. rewrite forallb_forall in Hall.
  apply list_elem_of_In, Hall in Hin. destruct e as [|? []|r| | | |]; try done.
  cbn [registers fst] in Hin. apply bool_decide_eq_true_1 in Hin as [-> _]. cbn. unfold in_u. lia.
Qed.


Definition asked : Gateway := (serve_request ctx request first_state).2.

Lemma start_history : history ctx "t" [(Requested request, first_state)] asked.
Proof.
  exact (HistoryStep ctx "t" [] (Requested request) first_state asked (HistoryNew ctx "t" _ _ _)
    (GwRequested ctx "t" request first_state)).
Qed.

(** A run, checked: its events are in order and it leaves the connection with a session of the consumer *)
Definition relays (r : option (list (gw_event * Gateway) * Gateway)) : bool :=
  match r with
  | Some (l, gw) => forallb registers l && bool_decide (path_key <$> paths (gw_server gw) !! 1%nat = Some consumer)
  | None => false
  end.

Lemma relays_Some r : relays r = true ->
  exists l gw t, r = Some (l, gw) /\ forallb registers l = true /\ paths (gw_server gw) !! 1%nat = Some t /\
    path_key t = consumer.
Proof.
  destruct r as [[l gw]|]; [|done]. cbn [relays]. intros [Hl Hk%bool_decide_eq_true_1]%andb_prop.
  destruct (paths (gw_server gw) !! 1%nat) as [t|] eqn:Hp; [|done]. injection Hk as Hk. by exists l, gw, t.
Qed.

Lemma sessions_justified_witness :
  exists l gw t, connects 1%nat relay asked = Some (l, gw) /\ paths (gw_server gw) !! 1%nat = Some t /\
    path_key t = consumer /\ admitted "t" ((Requested request, first_state) :: l) 1%nat (path_key t).
Proof.
  destruct (relays_Some (connects 1%nat relay asked)) as (l & gw & t & Hrun & Hreg & Hp & Hk); [vm_compute; reflexivity|].
  exists l, gw, t. split; [exact Hrun|]. split; [exact Hp|]. split; [exact Hk|].
  apply (sessions_justified ctx "t" ((Requested request, first_state) :: l) gw 1%nat t).
  - exact object_text_sample.
  - apply (runs_history ctx "t" [(Requested request, first_state)] asked l gw start_history).
    apply (connects_runs _ _ _ _ _ Hrun relay_ok); vm_compute; reflexivity.
  - apply (sample_unforged [] l (Forall_nil_2 _) Hreg).
  - apply Forall_cons. split; [change (in_u 64 1000); unfold in_u; lia | exact (sample_clocked l Hreg)].
  - exact Hp.
Defined.

(** The operator removes the consumer from the file, which is reloaded; then the provider connects. *)
Definition edited_fs : FS :=
  {| files := {[ "k" := bits_print [device provider] ]}; read_fails := ∅; write_fails := ∅ |}.
Definition edits (gw : Gateway) : Gateway := with_store (edited_fs, (gw_store gw).2) gw.
Definition reloads (gw : Gateway) : Gateway :=
  with_store ((gw_store gw).1, (keys_reload (gw_store gw).2 (gw_store gw).1).2) gw.




(** The first way: the consumer itself has proved its key and waits; it is revoked, and then sends its first frame. *)
Definition proof_of_consumer : list task_input :=
  [HelloRead (Some (json_print (hello_msg consumer ""))); EnrolStep Stores.Sample.listing; ChallengeSent [4] true;
   ProofRead (Some (json_print (proof_msg signature))) true].
Definition late_frame : task_input :=
  FrameRead (Some 5000) (Some {| header := {| connection_id := 1; sequence := 0; flags := 0 |}; payload := [] |}).
Example revoked_opens_late :
  (l ← connects 2%nat proof_of_consumer asked;
   let gw := reloads (edits l.2) in
   '(_, gw') ← play 2%nat [late_frame] gw;
   Some (is_authorized consumer (gw_store gw).2, path_key <$> paths (gw_server gw') !! 2%nat)) =
  Some (false, Some consumer).
Proof. vm_compute. reflexivity. Qed.
End Sample.
