(* ===== verification/Acme.v ===== *)
(** Automatic certificates of the server ([src/crates/bonded-server/src/acme.rs]) and their effect on the
    running server ([main] in [src/crates/bonded-server/src/main.rs]): the renewal loop with its schedule,
    one ACME order with its TLS-ALPN-01 challenge, which certificate a TLS client is served, the reload
    after a renewal, and the certificate proof that is handed out meanwhile.  The certificate authority
    answers as it likes; certificates, keys and signing requests are made by libraries. *)

From stdpp Require Import base tactics list gmap strings.
From Stdlib Require Import ZArith Lia.
From S2P Require Import Prelude Words Text Json Auth Stores AuthHandshake WgServer Bootstrap Startup Dial.
Open Scope Z_scope.

(** * Definitions *)

(** ** Certificates *)

(** rustls' [CertifiedKey]: the leaf certificate and the key it is signed for with. *)
Record CertifiedKey := { ck_leaf : list Z; ck_key : list Z }.

Record CustomExtension := { ext_oid : list Z; ext_content : list Z; ext_critical : bool }.
Record CertificateParams := {
  subject_alt_names : list string;
  custom_extensions : list CustomExtension;
  distinguished_name : list (string * string)
}.

(** What is read of a parsed certificate *)
Record X509Certificate := { x_issuer : string; x_subject : string; x_not_after : Z }.

(** rcgen and x509-parser.  A key is its DER text. *)
Class CertGen := {
  params_new : list string -> option CertificateParams;
  ia5_string : string -> bool;
  sign_params : CertificateParams -> list Z -> option (list Z);
  serialize_request : CertificateParams -> list Z -> option (list Z);
  serialize_pem : list Z -> string;
  x509_from_der : list Z -> option X509Certificate
}.

(** ** Which certificate a client is served *)

Definition ACME_ALPN : string := "acme-tls/1".

(** [resolve] of [DynamicCertResolver]; [alpn] are the protocols the client offers, if it offers any. *)
Definition resolve (main_cert : CertifiedKey) (slot : option CertifiedKey) (alpn : option (list string))
  : option CertifiedKey :=
  let is_acme_alpn := default false ((fun l => existsb (fun p => bool_decide (p = ACME_ALPN)) l) <$> alpn) in
  if is_acme_alpn then
    match slot with Some challenge_cert => Some challenge_cert | None => Some main_cert end
  else Some main_cert.

(** ** One order *)

Record AcmeConfig := {
  ac_domain : string;
  ac_email : string;
  ac_cert_file : string;
  ac_key_file : string;
  ac_staging : bool
}.

Inductive AcmeError :=
  | AcAccount | AcOrder | AcFetch | AcNoChallenge | AcChallengeCert | AcReady
  | AcRefresh | AcInvalid | AcTimeout | AcKey | AcCsr | AcFinalize | AcDownload | AcWrite.

Inductive OrderStatus := OPending | OReady | OProcessing | OValid | OInvalid.

(** An authorization of the order, as the authority answers: not at all, without the challenge, or with
    the digest of its key authorization; [key] is the key generated for the challenge and [ready] whether
    it takes the news that the challenge is ready. *)
Inductive authorization :=
  | AuthzFailed
  | AuthzWithout
  | AuthzChallenge (digest : list Z) (key : option (list Z)) (ready : bool).

(** An answer to [refresh] and the time when it is looked at, in seconds *)
Record refreshed_order := { ro_status : option OrderStatus; ro_at : Z }.

(** What the authority and the key generator give during one cycle *)
Record AcmeReplies := {
  ar_account : bool;
  ar_order : bool;
  ar_authorizations : list authorization;
  ar_polling_from : Z;
  ar_refreshes : list refreshed_order;
  ar_key : option (list Z);
  ar_finalized : bool;
  ar_downloads : list (option (option string))
}.

(** What the authority is asked *)
Inductive acme_request :=
  | CreateAccount (directory_staging : bool) (contact : string)
  | NewOrder (domain : string)
  | ChallengeReady (digest : list Z)
  | FinalizeCsr (csr : list Z).

(** The challenge slot shared with the TLS listener, what was asked and what the slot held then, and the
    files *)
Record AcmeState := {
  acme_slot : option CertifiedKey;
  asked : list (acme_request * option CertifiedKey);
  acme_fs : FS
}.

(** Programs over this state; no outcome: still waiting for the authority. *)
Definition acme (A : Type) : Type := AcmeState -> option (outcome AcmeError A) * AcmeState.

#[global] Instance acme_ret : MRet acme := fun A a s => (Some (Ok a), s).
#[global] Instance acme_bind : MBind acme := fun A B k m s =>
  match m s with
  | (Some (Ok a), s) => k a s
  | (Some (Err e), s) => (Some (Err e), s)
  | (Some Panic, s) => (Some Panic, s)
  | (None, s) => (None, s)
  end.

Definition acme_fail {A} (e : AcmeError) : acme A := fun s => (Some (Err e), s).
Definition acme_wait {A} : acme A := fun s => (None, s).
Definition acme_need {A} (e : AcmeError) (o : option A) : acme A :=
  match o with Some a => mret a | None => acme_fail e end.
Definition acme_check (e : AcmeError) (ok : bool) : acme unit := if ok then mret tt else acme_fail e.
Definition acme_ask (r : acme_request) : acme unit := fun s =>
  (Some (Ok tt), {| acme_slot := acme_slot s; asked := asked s ++ [(r, acme_slot s)]; acme_fs := acme_fs s |}).
Definition acme_write (path data : string) : acme unit := fun s =>
  let (r, fs) := write_file path data (acme_fs s) in
  (Some (map_err (fun _ => AcWrite) r), {| acme_slot := acme_slot s; asked := asked s; acme_fs := fs |}).

(** [set] and [clear] of [AcmeChallengeSlot] *)
Definition slot_put (k : option CertifiedKey) : acme unit := fun s =>
  (Some (Ok tt), {| acme_slot := k; asked := asked s; acme_fs := acme_fs s |}).
Definition slot_set (k : CertifiedKey) : acme unit := slot_put (Some k).
Definition slot_clear : acme unit := slot_put None.

Definition acme_identifier_oid : list Z := [1; 3; 6; 1; 5; 5; 7; 1; 31].

Section acme.
Context `{CertLib} `{!CertGen}.

(** The OCTET STRING around the digest, whose length has to fit a byte *)
Definition octet_string (digest : list Z) : option (list Z) :=
  if len digest <=? 255 then Some (4 :: len digest :: digest) else None.

Definition build_alpn_challenge_cert (domain : string) (digest : list Z) (key : option (list Z))
  : option CertifiedKey :=
  ext_value ← octet_string digest;
  let acme_ext := {| ext_oid := acme_identifier_oid; ext_content := ext_value; ext_critical := true |} in
  key_pair ← key;
  _ ← params_new [domain];
  _ ← (if ia5_string domain then Some tt else None);
  cert ← sign_params {| subject_alt_names := [domain]; custom_extensions := [acme_ext];
                        distinguished_name := [] |} key_pair;
  if any_supported_type key_pair then Some {| ck_leaf := cert; ck_key := key_pair |} else None.

(** The loop over the authorizations *)
Fixpoint install_challenges (domain : string) (l : list authorization) : acme unit :=
  match l with
  | [] => mret tt
  | AuthzFailed :: _ => acme_fail AcFetch
  | AuthzWithout :: _ => acme_fail AcNoChallenge
  | AuthzChallenge digest key ready :: l =>
      challenge_cert ← acme_need AcChallengeCert (build_alpn_challenge_cert domain digest key);
      _ ← slot_set challenge_cert;
      _ ← acme_ask (ChallengeReady digest);
      if ready then install_challenges domain l else acme_fail AcReady
  end.

Definition POLL_SECS : Z := 60.

Fixpoint poll_order (deadline : Z) (l : list refreshed_order) : acme unit :=
  match l with
  | [] => acme_wait
  | r :: l =>
      match ro_status r with
      | None => acme_fail AcRefresh
      | Some OReady | Some OValid => mret tt
      | Some OInvalid => _ ← slot_clear; acme_fail AcInvalid
      | Some _ =>
          if deadline <? ro_at r then _ ← slot_clear; acme_fail AcTimeout
          else poll_order deadline l
      end
  end.

Fixpoint download (l : list (option (option string))) : acme string :=
  match l with
  | [] => acme_wait
  | None :: _ => acme_fail AcDownload
  | Some (Some cert_pem) :: _ => mret cert_pem
  | Some None :: l => download l
  end.

(** From the fresh key to the files; creating the directory of the certificate counts as a part of
    writing it. *)
Definition finish_order (config : AcmeConfig) (r : AcmeReplies) : acme Z :=
  final_key ← acme_need AcKey (ar_key r);
  params ← acme_need AcCsr (params_new [ac_domain config]);
  csr ← acme_need AcCsr (serialize_request
    {| subject_alt_names := subject_alt_names params; custom_extensions := custom_extensions params;
       distinguished_name := [] |} final_key);
  _ ← acme_ask (FinalizeCsr csr);
  _ ← acme_check AcFinalize (ar_finalized r);
  cert_pem ← download (ar_downloads r);
  _ ← acme_write (ac_cert_file config) cert_pem;
  _ ← acme_write (ac_key_file config) (serialize_pem final_key);
  mret 90.

(** [Account::builder] and [create] count as one answer. *)
Definition run_acme_cycle (config : AcmeConfig) (r : AcmeReplies) : acme Z :=
  _ ← acme_ask (CreateAccount (ac_staging config) ("mailto:" +:+ ac_email config));
  _ ← acme_check AcAccount (ar_account r);
  _ ← acme_ask (NewOrder (ac_domain config));
  _ ← acme_check AcOrder (ar_order r);
  _ ← install_challenges (ac_domain config) (ar_authorizations r);
  _ ← poll_order (ar_polling_from r + POLL_SECS) (ar_refreshes r);
  _ ← slot_clear;
  finish_order config r.

(** ** The renewal loop *)

Definition DAY : Z := 86400.

Definition days_until_cert_expiry (cert_file : string) (now : option Z) (fs : FS) : option Z :=
  pem_bytes ← ok_option (read_to_string cert_file fs);
  der ← mjoin (head (pem_certs pem_bytes));
  cert ← x509_from_der der;
  if bool_decide (x_issuer cert = x_subject cert) then None
  else
    now ← now;
    let days := Z.quot (x_not_after cert - now) DAY in
    if days <? 0 then None else Some days.

(** The running server: the order's state, with the slot and the files, and the certificate of the
    current TLS acceptor *)
Record TlsState := { order : AcmeState; tls_slot : option CertifiedKey }.

Definition certified (p : list Z * list Z) : CertifiedKey := {| ck_leaf := p.1; ck_key := p.2 |}.

(** The callback [main] passes to the loop: a failing reload leaves the acceptor as it is. *)
Definition on_renewed (c : ServerSection) (s : TlsState) : TlsState :=
  let (r, fs) := load_tls_acceptor c (acme_fs (order s)) in
  {| order := {| acme_slot := acme_slot (order s); asked := asked (order s); acme_fs := fs |};
     tls_slot := match r with Ok new_acceptor => certified <$> new_acceptor | _ => tls_slot s end |}.

(** One round of the loop: how long it sleeps then, in seconds; [None]: still waiting. *)
Definition renewal_round (c : ServerSection) (config : AcmeConfig) (now : option Z) (r : AcmeReplies)
    (s : TlsState) : option Z * TlsState :=
  let renew :=
    match run_acme_cycle config r (order s) with
    | (Some (Ok days_valid), o) =>
        (Some (Z.max (days_valid - 30) 1 * DAY),
         on_renewed c {| order := o; tls_slot := tls_slot s |})
    | (Some _, o) => (Some 3600, {| order := o; tls_slot := tls_slot s |})
    | (None, o) => (None, {| order := o; tls_slot := tls_slot s |})
    end in
  match days_until_cert_expiry (ac_cert_file config) now (acme_fs (order s)) with
  | Some days_remaining =>
      if 30 <? days_remaining then (Some (Z.max (days_remaining - 30) 1 * DAY), s) else renew
  | None => renew
  end.

(** [main]: ACME is used when a domain is configured. *)
Definition acme_config (c : ServerSection) : option AcmeConfig :=
  domain ← acme_domain c;
  Some {| ac_domain := domain; ac_email := default ("admin@" +:+ domain) (acme_email c);
          ac_cert_file := tls_cert_file c; ac_key_file := tls_key_file c; ac_staging := acme_staging c |}.

(** What a TLS client that offers [alpn] is served *)
Definition served_certificate (alpn : option (list string)) (s : TlsState) : option CertifiedKey :=
  main_cert ← tls_slot s; resolve main_cert (acme_slot (order s)) alpn.
End acme.

(** ** The running server *)

(** The context of the bootstrap endpoint [main] builds from the prepared state: its certificate is the
    one loaded at the start. *)
Definition bootstrap_ctx `{Crypto} `{!X25519} (c : ServerSection) (srv : Server) : BootstrapContext :=
  {| server_identity := identity srv;
     tls_cert_der := fst <$> tls_identity srv;
     ctx_public_address := https_public_addr c;
     wireguard_keypair := (fun secret => b64_encode (x25519_public secret)) <$> wg_secret srv;
     Bootstrap.wireguard_public_addr := wireguard_public_addr c;
     Bootstrap.wireguard_peer_lease_secs := wireguard_peer_lease_secs c;
     ctx_authorized_keys := authorized_keys srv |}.

(** The TLS side of a server that was just started *)
Definition tls_started (srv : Server) (fs : FS) : TlsState :=
  {| order := {| acme_slot := None; asked := []; acme_fs := fs |}; tls_slot := certified <$> tls_identity srv |}.

(** * Lemmas *)

(** ** A logic of outcomes *)

(** [Q] holds when the program is done, [R] when it has failed or waits. *)
Definition runs {A} (m : acme A) (s : AcmeState) (Q : A -> AcmeState -> Prop)
    (R : option AcmeError -> AcmeState -> Prop) : Prop :=
  match m s with
  | (Some (Ok a), s') => Q a s'
  | (Some (Err e), s') => R (Some e) s'
  | (Some Panic, _) => False
  | (None, s') => R None s'
  end.

Lemma runs_bind {A B} (m : acme A) (k : A -> acme B) s Q1 Q R :
  runs m s Q1 R -> (forall a s', Q1 a s' -> runs (k a) s' Q R) -> runs (m ≫= k) s Q R.
Proof.
  unfold runs, mbind, acme_bind. intros Hm Hk.
  destruct (m s) as [[[a|e|]|] s']; [by apply Hk|done..].
Qed.

Lemma runs_mono {A} (m : acme A) s (Q Q' : A -> AcmeState -> Prop) (R R' : option AcmeError -> AcmeState -> Prop) :
  runs m s Q R -> (forall a s', Q a s' -> Q' a s') -> (forall e s', R e s' -> R' e s') -> runs m s Q' R'.
Proof. unfold runs. intros Hm HQ HR. destruct (m s) as [[[a|e|]|] s']; auto. Qed.

Lemma runs_need {A} e (o : option A) s (Q : A -> AcmeState -> Prop) (R : option AcmeError -> AcmeState -> Prop) :
  (forall a, o = Some a -> Q a s) -> (o = None -> R (Some e) s) -> runs (acme_need e o) s Q R.
Proof. intros HQ HR. destruct o; [by apply HQ | by apply HR]. Qed.

Lemma runs_check e ok s (Q : unit -> AcmeState -> Prop) (R : option AcmeError -> AcmeState -> Prop) :
  Q tt s -> R (Some e) s -> runs (acme_check e ok) s Q R.
Proof. intros HQ HR. by destruct ok. Qed.

(** ** An order *)

Section order.
Context `{CertLib} `{!CertGen}.
Variables (config : AcmeConfig) (auths : list authorization).

(** The slot holds the certificate for a challenge of the order. *)
Definition answers_challenge (digest : list Z) (slot : option CertifiedKey) : Prop :=
  exists key ready ck, AuthzChallenge digest key ready ∈ auths /\
    build_alpn_challenge_cert (ac_domain config) digest key = Some ck /\ slot = Some ck.

(** What is asked is asked at the right time: a challenge is announced while it is answered. *)
Definition asked_right (q : acme_request * option CertifiedKey) : Prop :=
  match q.1 with ChallengeReady digest => answers_challenge digest q.2 | _ => True end.

Definition proceeds (s s' : AcmeState) : Prop :=
  exists l, asked s' = asked s ++ l /\ Forall asked_right l.

Lemma proceeds_refl s : proceeds s s.
Proof. exists []. by rewrite app_nil_r. Qed.

Lemma proceeds_trans s1 s2 s3 : proceeds s1 s2 -> proceeds s2 s3 -> proceeds s1 s3.
Proof.
  intros (l & Hl & Hok) (l' & Hl' & Hok'). exists (l ++ l').
  rewrite Hl', Hl, app_assoc. split; [done|]. by apply Forall_app.
Qed.

Lemma proceeds_same s s1 s2 : proceeds s s1 -> asked s2 = asked s1 -> proceeds s s2.
Proof. intros (l & Hl & Hok) Ha. exists l. by rewrite Ha. Qed.

(** Asking leaves the slot and the files alone. *)
Lemma runs_ask q s0 s R : asked_right (q, acme_slot s) -> proceeds s0 s ->
  runs (acme_ask q) s (fun _ s' => proceeds s0 s' /\ acme_slot s' = acme_slot s /\ acme_fs s' = acme_fs s) R.
Proof.
  intros Hq Hp. cbn. split; [|done]. eapply proceeds_trans; [exact Hp|]. exists [(q, acme_slot s)].
  split; [done|]. by constructor.
Qed.

Definition left_by_install (e : AcmeError) (s s' : AcmeState) : Prop :=
  match e with
  | AcFetch | AcNoChallenge | AcChallengeCert =>
      acme_slot s' = acme_slot s \/ exists digest, answers_challenge digest (acme_slot s')
  | AcReady => exists digest, answers_challenge digest (acme_slot s')
  | _ => False
  end.

Lemma runs_install l s :
  l ⊆ auths ->
  runs (install_challenges (ac_domain config) l) s
    (fun _ s' => proceeds s s' /\ acme_fs s' = acme_fs s /\
       (l = [] /\ acme_slot s' = acme_slot s \/ exists digest, answers_challenge digest (acme_slot s')))
    (fun e s' => proceeds s s' /\ acme_fs s' = acme_fs s /\
       match e with Some e => left_by_install e s s' | None => False end).
Proof.
  revert s. induction l as [|[| |digest key ready] l IH]; intros s Hsub; cbn [install_challenges].
  - cbn. auto using proceeds_refl.
  - cbn. auto using proceeds_refl.
  - cbn. auto using proceeds_refl.
  - destruct (build_alpn_challenge_cert (ac_domain config) digest key) as [ck|] eqn:Hck.
    2:{ change (proceeds s s /\ acme_fs s = acme_fs s /\ left_by_install AcChallengeCert s s).
        cbn. auto using proceeds_refl. }
    set (s1 := {| acme_slot := Some ck; asked := asked s ++ [(ChallengeReady digest, Some ck)];
                  acme_fs := acme_fs s |}).
    assert (Hans : answers_challenge digest (Some ck)) by (exists key, ready, ck; set_solver).
    assert (Hp1 : proceeds s s1)
      by (exists [(ChallengeReady digest, Some ck)]; split; [done|]; by constructor).
    change (runs (if ready then install_challenges (ac_domain config) l else acme_fail AcReady) s1
      (fun _ s' => proceeds s s' /\ acme_fs s' = acme_fs s /\
         (AuthzChallenge digest key ready :: l = [] /\ acme_slot s' = acme_slot s \/
          exists digest, answers_challenge digest (acme_slot s')))
      (fun e s' => proceeds s s' /\ acme_fs s' = acme_fs s /\
         match e with Some e => left_by_install e s s' | None => False end)).
    destruct ready; [|cbn; eauto].
    eapply runs_mono; [apply IH; set_solver | |]; cbn beta.
    + intros _ s' (Hp & Hf & Hs). split_and!; [by eapply proceeds_trans|done|]. right.
      destruct Hs as [[_ Hs]|Hs]; [|done]. rewrite Hs. eauto.
    + intros [e|] s' (Hp & Hf & Hs); [|done]. split_and!; [by eapply proceeds_trans|done|].
      destruct e; cbn [left_by_install] in *; try done; right; destruct Hs as [Hs|Hs]; try done; rewrite Hs; eauto.
Qed.

Lemma runs_poll deadline l s :
  runs (poll_order deadline l) s (fun _ s' => s' = s)
    (fun e s' => asked s' = asked s /\ acme_fs s' = acme_fs s /\
       match e with
       | None | Some AcRefresh => acme_slot s' = acme_slot s
       | Some AcInvalid | Some AcTimeout => acme_slot s' = None
       | _ => False
       end).
Proof.
  induction l as [|[[[]|] at_] l IH]; cbn [poll_order ro_status ro_at]; try done;
    case_match; [done | exact IH | done | exact IH].
Qed.

Lemma runs_download l s :
  runs (download l) s (fun pem s' => s' = s /\ Some (Some pem) ∈ l) (fun e s' => s' = s /\
    match e with None | Some AcDownload => True | _ => False end).
Proof.
  induction l as [|[[pem|]|] l IH]; cbn [download]; try done.
  - split; [done|]. left.
  - eapply runs_mono; [exact IH| |done]. cbn. intros a s' [-> ?]. split; [done|]. by right.
Qed.

(** How a cycle ends that does not succeed *)
Definition cycle_failed (downloads : list (option (option string))) (e : option AcmeError) (s s' : AcmeState) : Prop :=
  match e with
  | Some AcWrite => acme_slot s' = None /\
      (ac_cert_file config ∈ write_fails (acme_fs s) /\ acme_fs s' = acme_fs s \/
       exists pem, Some (Some pem) ∈ downloads /\
         write_file (ac_cert_file config) pem (acme_fs s) = (Ok tt, acme_fs s') /\
         ac_key_file config ∈ write_fails (acme_fs s))
  | Some AcAccount | Some AcOrder => acme_slot s' = acme_slot s /\ acme_fs s' = acme_fs s
  | Some (AcFetch | AcNoChallenge | AcChallengeCert | AcReady) as e =>
      acme_fs s' = acme_fs s /\ from_option (fun e => left_by_install e s s') False e
  | Some AcRefresh => acme_fs s' = acme_fs s /\
      (auths = [] /\ acme_slot s' = acme_slot s \/ exists digest, answers_challenge digest (acme_slot s'))
  | Some _ => acme_slot s' = None /\ acme_fs s' = acme_fs s
  | None => acme_fs s' = acme_fs s
  end.

Lemma write_file_cases path data fs :
  (path ∈ write_fails fs /\ write_file path data fs = (Err StoreIo, fs)) \/
  exists fs', write_file path data fs = (Ok tt, fs') /\ write_fails fs' = write_fails fs /\
    read_fails fs' = read_fails fs /\ files fs' = <[path := data]> (files fs).
Proof. unfold write_file. case_decide; [by left | right; eauto]. Qed.

(** The end of a cycle: the two files *)
Lemma runs_write_both pem key_pem s0 s (downloads : list (option (option string))) :
  acme_slot s = None -> acme_fs s = acme_fs s0 -> proceeds s0 s -> Some (Some pem) ∈ downloads ->
  runs (_ ← acme_write (ac_cert_file config) pem; _ ← acme_write (ac_key_file config) key_pem; mret 90) s
    (fun days s' => days = 90 /\ proceeds s0 s' /\ acme_slot s' = None /\
       exists fs1, write_file (ac_cert_file config) pem (acme_fs s0) = (Ok tt, fs1) /\
         write_file (ac_key_file config) key_pem fs1 = (Ok tt, acme_fs s'))
    (fun e s' => proceeds s0 s' /\ cycle_failed downloads e s0 s').
Proof.
  intros Hslot Hfs Hp Hin. unfold acme_write, runs, mbind, acme_bind. rewrite Hfs, Hslot.
  destruct (write_file_cases (ac_cert_file config) pem (acme_fs s0)) as [[Hin1 ->]|(fs1 & Hw1 & Hwf & _)].
  { cbn. auto. }
  rewrite Hw1. cbn.
  destruct (write_file_cases (ac_key_file config) key_pem fs1) as [[Hin2 Hw2]|(fs2 & Hw2 & _)];
    rewrite Hw2; cbn.
  - split; [done|]. split; [done|]. right. exists pem. rewrite <- Hwf. auto.
  - split_and!; [done..|]. by exists fs1.
Qed.

(** What a cycle has done that succeeds *)
Definition cycle_done (r : AcmeReplies) (days : Z) (s s' : AcmeState) : Prop :=
  days = 90 /\ acme_slot s' = None /\
  exists pem key fs1, Some (Some pem) ∈ ar_downloads r /\ ar_key r = Some key /\
    write_file (ac_cert_file config) pem (acme_fs s) = (Ok tt, fs1) /\
    write_file (ac_key_file config) (serialize_pem key) fs1 = (Ok tt, acme_fs s').

Lemma runs_finish r s0 s :
  acme_slot s = None -> acme_fs s = acme_fs s0 -> proceeds s0 s ->
  runs (finish_order config r) s (fun days s' => proceeds s0 s' /\ cycle_done r days s0 s')
    (fun e s' => proceeds s0 s' /\ cycle_failed (ar_downloads r) e s0 s').
Proof.
  intros Hs Hf Hp. unfold finish_order.
  eapply runs_bind with (Q1 := fun k s' => s' = s /\ ar_key r = Some k); [by apply runs_need; cbn|].
  intros key ? [-> Hkey].
  eapply runs_bind with (Q1 := fun _ s' => s' = s); [by apply runs_need; cbn|]. intros params ? ->.
  eapply runs_bind with (Q1 := fun _ s' => s' = s); [by apply runs_need; cbn|]. intros csr ? ->.
  eapply runs_bind; [by apply runs_ask|]. cbn beta. intros _ s1 (Hp1 & Hs1 & Hf1). rewrite Hs in Hs1. rewrite Hf in Hf1.
  eapply runs_bind with (Q1 := fun _ s' => s' = s1); [by apply runs_check; cbn|]. intros _ ? ->.
  eapply runs_bind.
  { eapply runs_mono; [apply runs_download | intros ? ? HQ; exact HQ |]. cbn beta.
    intros e ? [-> He]. split; [done|]. by destruct e as [[]|]. }
  cbn beta. intros pem ? [-> Hin].
  eapply runs_mono; [by apply runs_write_both | | auto]. cbn beta.
  intros days s' (-> & Hp' & Hs' & fs1 & Hw1 & Hw2). split; [done|]. split_and!; [done..|]. by exists pem, key, fs1.
Qed.

Lemma runs_cycle r s : ar_authorizations r = auths ->
  runs (run_acme_cycle config r) s (fun days s' => proceeds s s' /\ cycle_done r days s s')
    (fun e s' => proceeds s s' /\ cycle_failed (ar_downloads r) e s s').
Proof.
  intros Ha. unfold run_acme_cycle.
  eapply runs_bind; [by apply runs_ask; [|apply proceeds_refl]|]. cbn beta. intros _ s1 (Hp1 & Hs1 & Hf1).
  eapply runs_bind with (Q1 := fun _ s' => s' = s1); [by apply runs_check; cbn|]. intros _ ? ->.
  eapply runs_bind; [by apply runs_ask|]. cbn beta. intros _ s2 (Hp2 & Hs2 & Hf2).
  rewrite Hs1 in Hs2. rewrite Hf1 in Hf2.
  eapply runs_bind with (Q1 := fun _ s' => s' = s2); [by apply runs_check; cbn|]. intros _ ? ->.
  eapply runs_bind.
  { eapply runs_mono; [by apply runs_install; rewrite Ha | intros ? ? HQ; exact HQ |]. cbn beta.
    intros [e|] s' (Hp' & Hf' & He); [|done]. split; [by eapply proceeds_trans|].
    destruct e; cbn [left_by_install] in He; try done; cbn; rewrite <- ?Hs2, Hf', Hf2; auto. }
  cbn beta. intros _ s3 (Hp3 & Hf3 & Hs3). apply (proceeds_trans _ _ _ Hp2) in Hp3. rewrite Hf2 in Hf3.
  rewrite Ha, Hs2 in Hs3. clear s1 s2 Hp1 Hp2 Hs1 Hs2 Hf1 Hf2.
  eapply runs_bind.
  { eapply runs_mono; [apply runs_poll | intros ? ? HQ; exact HQ |]. cbn beta.
    intros e s' (Hask & Hfs & He). rewrite Hf3 in Hfs. split; [by eapply proceeds_same|].
    destruct e as [[]|]; try done; cbn; rewrite ?He; auto. }
  cbn beta. intros _ ? ->.
  eapply runs_bind with (Q1 := fun _ s' => asked s' = asked s3 /\ acme_slot s' = None /\ acme_fs s' = acme_fs s); [done|].
  intros _ s4 (Ha4 & Hs4 & Hf4). apply runs_finish; [done..|by eapply proceeds_same].
Qed.
End order.

(** ** Rounds *)

Section rounds.
Context `{CertLib} `{!CertGen}.

(** Polling stops at the first answer after the deadline that decides nothing. *)
Lemma poll_stops_from deadline l i r s :
  l !! i = Some r -> deadline < ro_at r -> is_Some (poll_order deadline l s).1.
Proof.
  revert i. induction l as [|[st at_] l IH]; intros [|i] Hi Hr; [done..| |]; cbn in Hi.
  - injection Hi as <-. cbn in Hr. cbn [poll_order ro_status ro_at].
    rewrite (proj2 (Z.ltb_lt _ _)) by done. destruct st as [[]|]; eexists; reflexivity.
  - cbn [poll_order ro_status ro_at]. destruct st as [[]|]; try (eexists; reflexivity);
      case_match; try (eexists; reflexivity); by eapply IH.
Qed.

(** Answers come at least three seconds apart, so that the twenty-first is the last. *)
Lemma poll_stops from l s :
  (forall i r, l !! i = Some r -> from + 3 * (Z.of_nat i + 1) <= ro_at r) -> (21 <= length l)%nat ->
  is_Some (poll_order (from + POLL_SECS) l s).1.
Proof.
  intros Hat Hlen. destruct (lookup_lt_is_Some_2 l 20) as [r Hr]; [lia|].
  apply (poll_stops_from _ _ 20 r); [done|]. pose proof (Hat 20%nat r Hr). unfold POLL_SECS. lia.
Qed.

(** The days left are those of the certificate in the file. *)
Lemma days_of_certificate f now fs pem leaf rest x :
  read_to_string f fs = Ok pem -> pem_certs pem = Some leaf :: rest -> x509_from_der leaf = Some x ->
  x_issuer x <> x_subject x ->
  days_until_cert_expiry f (Some now) fs =
    if Z.quot (x_not_after x - now) DAY <? 0 then None else Some (Z.quot (x_not_after x - now) DAY).
Proof.
  intros Hr Hp Hx Hi. unfold days_until_cert_expiry. rewrite Hr. cbn [ok_option mbind option_bind]. rewrite Hp.
  cbn [head mjoin option_join mbind option_bind]. rewrite Hx. cbn [mbind option_bind].
  by rewrite bool_decide_eq_false_2.
Qed.

Lemma days_of_self_signed f now fs pem leaf rest x :
  read_to_string f fs = Ok pem -> pem_certs pem = Some leaf :: rest -> x509_from_der leaf = Some x ->
  x_issuer x = x_subject x -> days_until_cert_expiry f now fs = None.
Proof.
  intros Hr Hp Hx Hi. unfold days_until_cert_expiry. rewrite Hr. cbn [ok_option mbind option_bind]. rewrite Hp.
  cbn [head mjoin option_join mbind option_bind]. rewrite Hx. cbn [mbind option_bind].
  by rewrite bool_decide_eq_true_2.
Qed.

(** At most the days there are, also after the end (the quotient rounds to zero) *)
Lemma quot_day_le a k : 0 <= k -> a < (k + 1) * DAY -> Z.quot a DAY <= k.
Proof.
  unfold DAY. intros Hk Ha. destruct (Z.le_gt_cases 0 a) as [Hp|Hn].
  - rewrite Z.quot_div_nonneg by lia. apply Z.lt_succ_r, Z.div_lt_upper_bound; lia.
  - transitivity 0; [|done]. rewrite <- (Z.opp_involutive a), Z.quot_opp_l by lia.
    pose proof (Z.quot_pos (- a) 86400). lia.
Qed.

Lemma quot_day a : 0 <= a -> DAY * Z.quot a DAY <= a < DAY * Z.quot a DAY + DAY.
Proof. intros Ha. rewrite Z.quot_div_nonneg by (unfold DAY; lia). unfold DAY. pose proof (Z.div_mod a 86400). pose proof (Z.mod_pos_bound a 86400). lia. Qed.

(** More than thirty days left: the round sleeps until thirty are. *)
Lemma round_sleeps c config now r s x pem leaf rest :
  read_to_string (ac_cert_file config) (acme_fs (order s)) = Ok pem -> pem_certs pem = Some leaf :: rest ->
  x509_from_der leaf = Some x -> x_issuer x <> x_subject x -> 31 * DAY <= x_not_after x - now ->
  exists t, renewal_round c config (Some now) r s = (Some t, s) /\ DAY <= t /\
    30 * DAY <= x_not_after x - (now + t) < 31 * DAY.
Proof.
  intros Hr Hp Hx Hi Hd. unfold renewal_round. erewrite days_of_certificate by done.
  destruct (quot_day (x_not_after x - now)) as [Hlo Hhi]; [unfold DAY in *; lia|].
  set (d := Z.quot (x_not_after x - now) DAY) in *. assert (Hd31 : 31 <= d) by (unfold DAY in *; lia).
  rewrite (proj2 (Z.ltb_ge d 0)) by lia. rewrite (proj2 (Z.ltb_lt 30 d)) by lia.
  eexists. split; [done|]. rewrite Z.max_l by lia. unfold DAY in *. lia.
Qed.

(** At most thirty: it starts an order. *)
Lemma round_renews c config now r s :
  (forall d, days_until_cert_expiry (ac_cert_file config) now (acme_fs (order s)) = Some d -> d <= 30) ->
  renewal_round c config now r s =
    match run_acme_cycle config r (order s) with
    | (Some (Ok days_valid), o) =>
        (Some (Z.max (days_valid - 30) 1 * DAY), on_renewed c {| order := o; tls_slot := tls_slot s |})
    | (Some _, o) => (Some 3600, {| order := o; tls_slot := tls_slot s |})
    | (None, o) => (None, {| order := o; tls_slot := tls_slot s |})
    end.
Proof.
  intros Hd. unfold renewal_round. destruct (days_until_cert_expiry _ _ _) as [d|]; [|done].
  by rewrite (proj2 (Z.ltb_ge 30 d)) by (apply Hd; done).
Qed.

(** What the two files hold after writes that succeeded *)
Lemma written_found path data fs fs' :
  write_file path data fs = (Ok tt, fs') ->
  read_fails fs' = read_fails fs /\ files fs' = <[path := data]> (files fs).
Proof. unfold write_file. case_decide; [done|]. by intros [= <-]. Qed.

Lemma read_found path data fs : path ∉ read_fails fs -> files fs !! path = Some data -> read_to_string path fs = Ok data.
Proof. intros Hr Hf. unfold read_to_string. by rewrite decide_False, Hf. Qed.

(** The reload takes the certificate and the key from the files. *)
Lemma reload_reads c fs pem key_pem leaf chain keys key :
  tls_enabled c = true -> tls_cert_file c ∉ read_fails fs -> tls_key_file c ∉ read_fails fs ->
  files fs !! tls_cert_file c = Some pem -> files fs !! tls_key_file c = Some key_pem ->
  pem_certs pem = Some <$> leaf :: chain -> pkcs8_private_keys key_pem = Some keys -> last keys = Some key ->
  any_supported_type key = true ->
  load_tls_acceptor c fs = (Ok (Some (leaf, key)), fs).
Proof.
  intros Ht Hrc Hrk Hc Hk Hp Hks Hl Ha. unfold load_tls_acceptor. rewrite Ht. cbn [negb].
  unfold mbind, start_bind, ensure_self_signed_cert, exists_file. rewrite Hc, Hk.
  rewrite !bool_decide_eq_true_2 by eauto. cbn [andb]. unfold reads, read_tls, load_private_key.
  rewrite (read_found _ pem fs Hrc Hc), (read_found _ key_pem fs Hrk Hk).
  cbn [map_err mbind outcome_bind]. rewrite Hp.
  assert (Hm : mapM id (Some <$> leaf :: chain) = Some (leaf :: chain)).
  { generalize (leaf :: chain). intros l. induction l as [|a l IH]; [done|]. cbn in *. by rewrite IH. }
  rewrite Hm. cbn [ok_or mbind outcome_bind head]. rewrite Hks. cbn [ok_or mbind outcome_bind]. rewrite Hl.
  cbn [mbind outcome_bind]. by rewrite Ha.
Qed.
End rounds.

(** A renewal that succeeds: what is served afterwards *)
Lemma renewed_is_served `{CertLib} `{!CertGen} c config now r s s' leaf chain key keys alpn :
  acme_config c = Some config -> tls_enabled c = true -> tls_cert_file c <> tls_key_file c ->
  tls_cert_file c ∉ read_fails (acme_fs (order s)) -> tls_key_file c ∉ read_fails (acme_fs (order s)) ->
  (forall pem, Some (Some pem) ∈ ar_downloads r -> pem_certs pem = Some <$> leaf :: chain) ->
  ar_key r = Some key -> pkcs8_private_keys (serialize_pem key) = Some keys -> last keys = Some key ->
  any_supported_type key = true ->
  (forall d, days_until_cert_expiry (ac_cert_file config) now (acme_fs (order s)) = Some d -> d <= 30) ->
  renewal_round c config now r s = (Some (60 * DAY), s') ->
  served_certificate alpn s' = Some {| ck_leaf := leaf; ck_key := key |}.
Proof.
  intros Hcfg Ht Hne Hrc Hrk Hpem Hkey Hkeys Hlast Hsup Hd Hround. rewrite round_renews in Hround by done.
  pose proof (runs_cycle config (ar_authorizations r) r (order s) eq_refl) as Hc. unfold runs in Hc.
  destruct (run_acme_cycle _ _ _) as [[[d|e|]|] o]; [|done..].
  destruct Hc as (_ & -> & Hslot & pem & key' & fs1 & Hin & Hkey' & Hw1 & Hw2). simplify_eq.
  assert (Hfiles : ac_cert_file config = tls_cert_file c /\ ac_key_file config = tls_key_file c).
  { unfold acme_config in Hcfg. destruct (acme_domain c); [|done]. by simplify_eq/=. }
  destruct Hfiles as [Hfc Hfk]. rewrite Hfc in Hw1. rewrite Hfk in Hw2.
  destruct (written_found _ _ _ _ Hw1) as [Hr1 Hf1]. destruct (written_found _ _ _ _ Hw2) as [Hr2 Hf2].
  assert (Hload : load_tls_acceptor c (acme_fs o) = (Ok (Some (leaf, key)), acme_fs o)).
  { apply (reload_reads c _ pem (serialize_pem key) leaf chain keys key); try done; [congruence.. | | |by apply Hpem].
    - rewrite Hf2, lookup_insert_ne, Hf1 by done. apply lookup_insert_eq.
    - rewrite Hf2. apply lookup_insert_eq. }
  unfold on_renewed, served_certificate. cbn [order acme_slot acme_fs tls_slot]. rewrite Hload, Hslot.
  cbn [fmap option_fmap option_map mbind option_bind order acme_slot acme_fs tls_slot]. unfold resolve, certified. by case_match.
Qed.

Lemma existsb_not_acme l : ACME_ALPN ∉ l -> existsb (fun p => bool_decide (p = ACME_ALPN)) l = false.
Proof.
  induction l as [|p l IH]; [done|]. intros [Hne Hl]%not_elem_of_cons. cbn.
  rewrite bool_decide_eq_false_2 by congruence. by apply IH.
Qed.

(** * Properties *)

(** C29: one ACME order, whatever the authority answers.  A challenge is announced to the authority only
    while the slot holds the certificate for its digest, so that a client that offers acme-tls/1 is
    served that certificate; every other client is served the server's own.  The files change only when
    the authority has issued a certificate, and then, unless a write fails, to it and to the key of its
    signing request; the slot is empty after success and after every failure from the validation on,
    except that an error while the order is refreshed (like one while a challenge is announced) leaves
    the challenge certificate in the slot. *)
Theorem acme_cycle `{CertLib} `{!CertGen} (config : AcmeConfig) (r : AcmeReplies) (s s' : AcmeState)
    (res : option (outcome AcmeError Z)) (main : CertifiedKey) (alpn : option (list string)) :
  run_acme_cycle config r s = (res, s') ->
  (exists l, asked s' = asked s ++ l /\ forall digest slot, (ChallengeReady digest, slot) ∈ l ->
     exists key ready ck, AuthzChallenge digest key ready ∈ ar_authorizations r /\
       build_alpn_challenge_cert (ac_domain config) digest key = Some ck /\
       resolve main slot (Some [ACME_ALPN]) = Some ck) /\
  (from_option (fun l => ACME_ALPN ∉ l) True alpn -> resolve main (acme_slot s') alpn = Some main) /\
  match res with
  | Some (Ok days) => cycle_done config r days s s'
  | Some (Err e) => cycle_failed config (ar_authorizations r) (ar_downloads r) (Some e) s s'
  | Some Panic => False
  | None => acme_fs s' = acme_fs s
  end.
Proof.
  intros Hrun. pose proof (runs_cycle config (ar_authorizations r) r s eq_refl) as Hc.
  unfold runs in Hc. rewrite Hrun in Hc.
  assert (Hp : proceeds config (ar_authorizations r) s s') by (by destruct res as [[d|e|]|]; destruct Hc).
  split_and!.
  - destruct Hp as (l & Hl & Hok). exists l. split; [done|]. intros digest slot Hin.
    rewrite Forall_forall in Hok. destruct (Hok _ Hin) as (key & ready & ck & Ha & Hb & Hs). cbn in Hs. subst slot.
    exists key, ready, ck. split_and!; [done..|]. unfold resolve. cbn. by rewrite bool_decide_eq_true_2.
  - intros Hno. unfold resolve. destruct alpn as [l|]; [|done]. cbn in *.
    rewrite existsb_not_acme by done. done.
  - by destruct res as [[d|e|]|]; [apply Hc.. | done | apply Hc].
Qed.

(** C30: when certificates are renewed.  While the certificate in the file is one of an authority with
    31 days or more to go, a round changes nothing and sleeps until 30 days are left, to the day, and the
    time in seconds fits its type; with less, or with a self-signed certificate, it starts an
    order, and sleeps 60 days after success and an hour after a failure.  (The comments of the source promise
    that a certificate with 30 days to go is left alone; the code counts whole days, so that on the last of
    them, with between 30 and 31 days to go, it orders at once.)  The wait for the validation
    of an order ends with the twenty-first answer, whatever the authority says. *)
Theorem renewal_schedule `{CertLib} `{!CertGen} (c : ServerSection) (config : AcmeConfig) (now : Z)
    (r : AcmeReplies) (s : TlsState) (pem : string) (leaf : list Z) (rest : list (option (list Z)))
    (x : X509Certificate) :
  read_to_string (ac_cert_file config) (acme_fs (order s)) = Ok pem -> pem_certs pem = Some leaf :: rest ->
  x509_from_der leaf = Some x -> 0 <= now -> x_not_after x < 2 ^ 63 ->
  (forall i a, ar_refreshes r !! i = Some a -> ar_polling_from r + 3 * (Z.of_nat i + 1) <= ro_at a) ->
  (21 <= length (ar_refreshes r))%nat ->
  is_Some (poll_order (ar_polling_from r + POLL_SECS) (ar_refreshes r) (order s)).1 /\
  if bool_decide (x_issuer x <> x_subject x /\ 31 * DAY <= x_not_after x - now) then
    exists t, renewal_round c config (Some now) r s = (Some t, s) /\ DAY <= t < 2 ^ 64 /\
      30 * DAY <= x_not_after x - (now + t) < 31 * DAY
  else
    (renewal_round c config (Some now) r s).1 =
      match (run_acme_cycle config r (order s)).1 with
      | Some (Ok _) => Some (60 * DAY) | Some _ => Some 3600 | None => None
      end.
Proof.
  intros Hr Hp Hx Hnow Hmax Hat Hlen. split; [by apply poll_stops|]. case_bool_decide as Hd.
  - destruct Hd as [Hi Hd]. destruct (round_sleeps c config now r s x pem leaf rest) as (t & Ht & Hlo & Hb); [done..|].
    exists t. split_and!; [done..| unfold DAY in *; lia | lia | lia].
  - rewrite round_renews.
    + pose proof (runs_cycle config (ar_authorizations r) r (order s) eq_refl) as Hc. unfold runs in Hc.
      destruct (run_acme_cycle _ _ _) as [[[d|e|]|] o]; [|done..]. by destruct Hc as (_ & -> & _).
    + intros d. destruct (decide (x_issuer x = x_subject x)) as [He|Hne].
      * by rewrite days_of_self_signed with (1 := Hr) (2 := Hp) (3 := Hx).
      * rewrite days_of_certificate with (1 := Hr) (2 := Hp) (3 := Hx) by done. case_match; [done|]. intros [= <-].
        apply quot_day_le; [lia|]. destruct (decide (31 * DAY <= x_not_after x - now)); [tauto|]. lia.
Qed.

(** C36: a renewal breaks the certificate proof.  Once the authority has issued a certificate and the
    acceptor was reloaded, every TLS client is served the new certificate, but the bootstrap endpoint goes
    on proving the one loaded at the start: a client that asks for the proof, as every client without a
    stored fingerprint does, reads the signed fingerprint of the old certificate and gives up. *)
Theorem renewal_breaks_proof `{CryptoLaws} `{JsonLaws} `{Toml WireGuardPeersFile} `{!Authority} `{!Sha256}
    `{!X25519} `{CertLib} `{!CertGen} (c : ServerSection) (config : AcmeConfig) (srv : Server) (sk : list Z)
    (der key0 : list Z) (now now' : option Z) (r : AcmeReplies) (s s' : TlsState) (leaf key : list Z)
    (chain keys : list (list Z)) (alpn : option (list string)) (host : string) (chunks : list (list Z))
    (peers : option WireGuardPeerRegistry) (fs : FS) :
  bytes_ok sk -> length sk = 32%nat -> identity srv = from_signing_key sk ->
  tls_identity srv = Some (der, key0) -> compute_fingerprint leaf <> compute_fingerprint der ->
  acme_config c = Some config -> tls_enabled c = true -> tls_cert_file c <> tls_key_file c ->
  tls_cert_file c ∉ read_fails (acme_fs (order s)) -> tls_key_file c ∉ read_fails (acme_fs (order s)) ->
  (forall pem, Some (Some pem) ∈ ar_downloads r -> pem_certs pem = Some <$> leaf :: chain) ->
  ar_key r = Some key -> pkcs8_private_keys (serialize_pem key) = Some keys -> last keys = Some key ->
  any_supported_type key = true ->
  (forall d, days_until_cert_expiry (ac_cert_file config) now (acme_fs (order s)) = Some d -> d <= 30) ->
  renewal_round c config now r s = (Some (60 * DAY), s') ->
  request_ok "GET" host "/v1/bootstrap/cert-proof" None ->
  concat chunks = string_bytes (cert_proof_request host) -> Forall (fun d => d <> []) chunks ->
  Z.of_nat (length (string_bytes (cert_proof_request host))) <= MAX_HEADER_BYTES ->
  (forall j, utf8_ok (json_print j)) ->
  exists ck response,
    served_certificate alpn s' = Some ck /\
    handle_plain_connection (bootstrap_ctx c srv) now' (Some <$> chunks) peers fs =
      (Finished (Ok (Answered response)), peers, fs) /\
    fetched_cert_proof (ck_leaf ck) (public_key_b64 (from_signing_key sk)) response = Err FingerprintMismatch.
Proof.
  intros Hsk Hlen Hid Htls Hfp Hcfg Ht Hne Hrc Hrk Hpem Hkey Hkeys Hlast Hsup Hd Hround Hok Hc Hnn Hmax Hutf.
  exists {| ck_leaf := leaf; ck_key := key |}.
  destruct (cert_proof_verifies sk (bootstrap_ctx c srv) der leaf Hsk Hlen) as (j & Hj & Hv);
    [done | cbn; by rewrite Htls |].
  rewrite cert_proof_request_built in Hc, Hmax.
  destruct (request_answered (bootstrap_ctx c srv) now' "GET" host "/v1/bootstrap/cert-proof" None chunks peers fs
    200 (json_print j) peers fs) as [Hp _]; [done..| | |].
  { unfold MAX_HEADER_BYTES in Hmax. lia. }
  { rewrite <- Hj. reflexivity. }
  eexists. split_and!; [by eapply renewed_is_served | exact Hp|]. cbn [ck_leaf].
  rewrite fetched_answer by done. rewrite Hv. by rewrite bool_decide_eq_false_2.
Qed.

(** A renewal that loses its key.  If the certificate was written and its key could not be, the round
    is a failure that is to be retried in an hour, and the acceptor is not reloaded; but the next round
    finds a valid certificate in the file and sleeps until 30 days before its end.  Until then the files
    hold the new certificate and the key of the old one, and nothing has the new key. *)
Theorem renewed_key_lost `{CertLib} `{!CertGen} (c : ServerSection) (config : AcmeConfig) (now : option Z)
    (now' : Z) (r r' : AcmeReplies) (s s' : TlsState) (leaf : list Z) (x : X509Certificate) :
  ac_cert_file config <> ac_key_file config ->
  ac_cert_file config ∉ write_fails (acme_fs (order s)) -> ac_cert_file config ∉ read_fails (acme_fs (order s)) ->
  (forall pem, Some (Some pem) ∈ ar_downloads r -> exists rest, pem_certs pem = Some leaf :: rest) ->
  x509_from_der leaf = Some x -> x_issuer x <> x_subject x -> 31 * DAY <= x_not_after x - now' ->
  (forall d, days_until_cert_expiry (ac_cert_file config) now (acme_fs (order s)) = Some d -> d <= 30) ->
  (run_acme_cycle config r (order s)).1 = Some (Err AcWrite) ->
  renewal_round c config now r s = (Some 3600, s') ->
  tls_slot s' = tls_slot s /\
  files (acme_fs (order s')) !! ac_key_file config = files (acme_fs (order s)) !! ac_key_file config /\
  (exists pem, Some (Some pem) ∈ ar_downloads r /\ files (acme_fs (order s')) !! ac_cert_file config = Some pem) /\
  exists t, renewal_round c config (Some now') r' s' = (Some t, s') /\ DAY <= t /\
    30 * DAY <= x_not_after x - (now' + t) < 31 * DAY.
Proof.
  intros Hne Hw Hr Hpem Hx Hi Hd Hdays Herr Hround. rewrite round_renews in Hround by done.
  pose proof (runs_cycle config (ar_authorizations r) r (order s) eq_refl) as Hc. unfold runs in Hc.
  destruct (run_acme_cycle config r (order s)) as [res o]. cbn in Herr. subst res. simplify_eq.
  destruct Hc as (_ & _ & [[Hin _]|(pem & Hin & Hw1 & _)]); [done|].
  destruct (written_found _ _ _ _ Hw1) as [Hr1 Hf1]. cbn [order tls_slot].
  assert (Hfile : files (acme_fs o) !! ac_cert_file config = Some pem) by (rewrite Hf1; apply lookup_insert_eq).
  destruct (Hpem pem Hin) as [rest Hcerts].
  split_and!; [done | by rewrite Hf1, lookup_insert_ne | by exists pem |].
  eapply round_sleeps; [|done..]. apply read_found; [cbn [order]; congruence | done].
Qed.

(** ** Witnesses *)

Module Sample.
#[local] Existing Instances AuthHandshake.Sample.crypto AuthHandshake.Sample.crypto_laws Json.Sample.json_text
  Json.Sample.json_laws WgServer.Sample.toml_peers Bootstrap.Sample.authority Bootstrap.Sample.digest
  Dial.Sample.x25519 Startup.Sample.certs.

(** A certificate is its PEM text; one that starts with L is issued by the authority, for 90 days from 0. *)
#[local] Instance gen : CertGen := {|
  params_new names := Some {| subject_alt_names := names; custom_extensions := []; distinguished_name := [] |};
  ia5_string _ := true; sign_params _ k := Some (67 :: k); serialize_request _ k := Some k;
  serialize_pem := bytes_string;
  x509_from_der der :=
    Some {| x_issuer := if bool_decide (head der = Some 76) then "authority" else "vpn.example";
            x_subject := "vpn.example"; x_not_after := 90 * DAY |}
|}.

Definition section : ServerSection :=
  {| hostname := "vpn.example"; https_bind := "0.0.0.0:443"; https_public := 443;
     tls_cert_file := "/c.pem"; tls_key_file := "/k.pem"; wireguard_bind := None;
     wireguard_public := None; wireguard_key_file := None; wireguard_peers_file := None;
     wireguard_peer_lease_secs := 60; tcp_bind := None; tcp_public := None;
     status_bind := "0.0.0.0:8082"; health_bind := "0.0.0.0:8081"; log_level := "info";
     forwarding_mode := "proxy"; tun_name := "bonded0"; tun_cidr := "100.64.0.1/24"; tun_mtu := 1420;
     tun_egress_interface := EmptyString; authorized_keys_file := "/a"; invite_tokens_file := "/i";
     identity_key_file := "/s"; acme_domain := Some "vpn.example"; acme_email := None; acme_staging := false |}.
Definition config : AcmeConfig :=
  {| ac_domain := "vpn.example"; ac_email := "admin@vpn.example"; ac_cert_file := "/c.pem";
     ac_key_file := "/k.pem"; ac_staging := false |}.

(** An authority that validates at the second look and issues at the second *)
Definition replies : AcmeReplies :=
  {| ar_account := true; ar_order := true;
     ar_authorizations := [AuthzChallenge (replicate 32 7) (Some [1]) true]; ar_polling_from := 0;
     ar_refreshes := [{| ro_status := Some OPending; ro_at := 3 |}; {| ro_status := Some OReady; ro_at := 6 |}];
     ar_key := Some [75]; ar_finalized := true; ar_downloads := [Some None; Some (Some "Leaf certificate")] |}.

(** The files of a first start: a self-signed certificate *)
Definition first_fs : FS :=
  {| files := <[ "/c.pem" := "self" ]> {[ "/k.pem" := "key0" ]}; read_fails := ∅; write_fails := ∅ |}.
Definition server : Server :=
  {| authorized_keys := AuthHandshake.Sample.keys;
     startup_invite := {| token := "t"; Auth.expires_at := EmptyString; uses_remaining := 1 |};
     identity := from_signing_key AuthHandshake.Sample.sk;
     tls_identity := Some (string_bytes "self", string_bytes "key0"); wg_secret := None; wg_registry := None |}.
Definition started : TlsState := tls_started server first_fs.

Lemma acme_cycle_witness :
  exists s', run_acme_cycle config replies (order started) = (Some (Ok 90), s') /\ acme_slot s' = None /\
    resolve (certified ([], [])) (acme_slot s') None = Some (certified ([], [])).
Proof.
  destruct (run_acme_cycle config replies (order started)) as [res s'] eqn:Hrun.
  pose proof (acme_cycle config replies (order started) s' res (certified ([], [])) None Hrun) as (_ & Hres & Hend).
  assert (Hok : res = Some (Ok 90)).
  { transitivity (run_acme_cycle config replies (order started)).1; [by rewrite Hrun | vm_compute; reflexivity]. }
  subst res. exists s'. split; [reflexivity|]. split; [apply Hend|]. apply Hres. exact I.
Defined.

(** The same authority, which never decides *)
Definition undecided : AcmeReplies :=
  {| ar_account := true; ar_order := true; ar_authorizations := []; ar_polling_from := 0;
     ar_refreshes := (fun n => {| ro_status := Some OPending; ro_at := 3 * (Z.of_nat n + 1) |}) <$> seq 0 21;
     ar_key := None; ar_finalized := true; ar_downloads := [] |}.
Definition issued : TlsState :=
  {| order := {| acme_slot := None; asked := [];
                 acme_fs := {| files := {[ "/c.pem" := "Leaf certificate" ]}; read_fails := ∅; write_fails := ∅ |} |};
     tls_slot := None |}.

Lemma renewal_schedule_witness :
  exists t, renewal_round section config (Some (5 * DAY)) undecided issued = (Some t, issued) /\
    30 * DAY <= 90 * DAY - (5 * DAY + t) < 31 * DAY.
Proof.
  destruct (renewal_schedule section config (5 * DAY) undecided issued "Leaf certificate"
    (string_bytes "Leaf certificate") []
    {| x_issuer := "authority"; x_subject := "vpn.example"; x_not_after := 90 * DAY |}) as [_ Hs].
  - vm_compute. reflexivity.
  - reflexivity.
  - vm_compute. reflexivity.
  - vm_compute. discriminate.
  - vm_compute. reflexivity.
  - intros i a Ha. cbn [undecided ar_refreshes] in Ha. rewrite list_lookup_fmap in Ha.
    destruct (seq 0 21 !! i) as [n|] eqn:Hn; [|discriminate Ha]. apply lookup_seq in Hn as [-> _].
    injection Ha as <-. cbn. lia.
  - vm_compute. lia.
  - rewrite bool_decide_eq_true_2 in Hs; [|split; [discriminate | vm_compute; discriminate]].
    destruct Hs as (t & Ht & _ & Hb). exists t. split; [exact Ht | exact Hb].
Defined.

Lemma renewal_breaks_proof_witness :
  exists s' ck response, renewal_round section config (Some 0) replies started = (Some (60 * DAY), s') /\
    served_certificate None s' = Some ck /\
    handle_plain_connection (bootstrap_ctx section server) (Some 0)
      (Some <$> [string_bytes (cert_proof_request "vpn.example")]) None first_fs =
      (Finished (Ok (Answered response)), None, first_fs) /\
    fetched_cert_proof (ck_leaf ck) (public_key_b64 (from_signing_key AuthHandshake.Sample.sk)) response =
      Err FingerprintMismatch.
Proof.
  destruct (renewal_round section config (Some 0) replies started) as [sleep s'] eqn:Hround.
  assert (Hok : sleep = Some (60 * DAY)).
  { transitivity (renewal_round section config (Some 0) replies started).1; [by rewrite Hround | vm_compute; reflexivity]. }
  subst sleep.
  destruct (renewal_breaks_proof section config server AuthHandshake.Sample.sk (string_bytes "self")
    (string_bytes "key0") (Some 0) (Some 0) replies started s' (string_bytes "Leaf certificate") [75] [] [[75]]
    None "vpn.example" [string_bytes (cert_proof_request "vpn.example")] None first_fs)
    as (ck & response & Hs & Hp & He).
  - apply (bool_decide_unpack _). vm_compute. exact I.
  - reflexivity.
  - reflexivity.
  - reflexivity.
  - apply (bool_decide_unpack _). vm_compute. exact I.
  - reflexivity.
  - reflexivity.
  - discriminate.
  - apply not_elem_of_empty.
  - apply not_elem_of_empty.
  - intros pem Hpem. cbn [replies ar_downloads] in Hpem. apply elem_of_cons in Hpem as [Hpem|Hpem]; [discriminate Hpem|].
    apply list_elem_of_singleton in Hpem. injection Hpem as ->. reflexivity.
  - reflexivity.
  - vm_compute. reflexivity.
  - reflexivity.
  - reflexivity.
  - intros d Hd. discriminate Hd.
  - exact Hround.
  - apply Bootstrap.Sample.sample_ok; [by left|reflexivity..].
  - apply app_nil_r.
  - repeat constructor. vm_compute. discriminate.
  - vm_compute. discriminate.
  - exact Bootstrap.Sample.json_utf8.
  - exists s', ck, response. split; [reflexivity|]. split; [exact Hs|]. split; [exact Hp | exact He].
Defined.

(** The key file cannot be written. *)
Definition locked : TlsState :=
  tls_started server {| files := files first_fs; read_fails := ∅; write_fails := {[ "/k.pem" ]} |}.

Lemma renewed_key_lost_witness :
  exists s' t, renewal_round section config (Some 0) replies locked = (Some 3600, s') /\
    files (acme_fs (order s')) !! "/k.pem" = Some "key0" /\
    renewal_round section config (Some 3600) replies s' = (Some t, s') /\ DAY <= t.
Proof.
  destruct (renewal_round section config (Some 0) replies locked) as [sleep s'] eqn:Hround.
  assert (Hok : sleep = Some 3600).
  { transitivity (renewal_round section config (Some 0) replies locked).1; [by rewrite Hround | vm_compute; reflexivity]. }
  subst sleep.
  destruct (renewed_key_lost section config (Some 0) 3600 replies replies locked s'
    (string_bytes "Leaf certificate") {| x_issuer := "authority"; x_subject := "vpn.example"; x_not_after := 90 * DAY |})
    as (_ & Hk & _ & t & Ht & Hlo & _).
  - discriminate.
  - apply (bool_decide_unpack _). vm_compute. exact I.
  - apply not_elem_of_empty.
  - intros pem Hpem. cbn [replies ar_downloads] in Hpem. apply elem_of_cons in Hpem as [Hpem|Hpem]; [discriminate Hpem|].
    apply list_elem_of_singleton in Hpem. injection Hpem as ->. exists []. reflexivity.
  - vm_compute. reflexivity.
  - discriminate.
  - vm_compute. discriminate.
  - intros d Hd. discriminate Hd.
  - vm_compute. reflexivity.
  - exact Hround.
  - exists s', t. split; [reflexivity|]. split; [exact Hk|]. split; [exact Ht | exact Hlo].
Defined.
End Sample.
