(* ===== verification/EndToEnd.v ===== *)
(** Client and server together: the HTTP/3 side of the bootstrap endpoint
    ([handle_h3_connection] of [src/crates/bonded-server/src/quic.rs]), that it answers as the plain one
    does, and the provisioning of a WireGuard peer from the client's requests (Dial.v) through the
    server's endpoint (Bootstrap.v) to its registry (WgServer.v); the pairing of a device by the payload of
    [src/crates/bonded-server/src/pairing_qr.rs], from the server's start to the first handshake. *)

From stdpp Require Import base tactics list gmap strings pretty.
From Stdlib Require Import ZArith Lia Ascii.
From S2P Require Import Prelude Words Text Json Auth Stores AuthHandshake PeerShare WgServer Startup Bootstrap NetAddr Client PeerRuntime Dial.
Open Scope Z_scope.

(** * Definitions *)

(** ** The QUIC endpoint of the server *)

Definition RAW_QUIC_ALPN : string := "bonded-quic".
Definition H3_ALPN : string := "h3".

(** Which handler an accepted connection goes to *)
Inductive quic_handler := HandleH3 | HandleSession.
Definition quic_handler_of (negotiated_alpn : option string) : quic_handler :=
  if bool_decide (negotiated_alpn = Some H3_ALPN) then HandleH3 else HandleSession.

Inductive H3Error := H3Accept | H3Resolve | H3Read | H3Send.

(** What [accept] and the stream of a request give: a request with its body, the clock when it is routed
    and whether the response could be sent; or how the connection ends. *)
Record H3Incoming := {
  hr_method : string;
  hr_path : string;
  hr_authority : option string;
  hr_body : list Z;
  hr_sent : bool
}.
Inductive h3_event := H3Got (now : option Z) (r : H3Incoming) | H3Closed | H3Failed (e : H3Error).

Section h3.
Context `{Crypto} `{JsonText} `{Toml WireGuardPeersFile} `{!Authority} `{!Sha256}.

(** One request: an unreadable body counts as empty. *)
Definition h3_respond (ctx : BootstrapContext) (now : option Z) (r : H3Incoming)
    (peers : option WireGuardPeerRegistry) (fs : FS)
  : outcome Empty_set (Z * string) * option WireGuardPeerRegistry * FS :=
  route_bootstrap_request ctx (Some (advertised_endpoints_for_request ctx (hr_authority r))) now
    (hr_method r) (hr_path r) (default EmptyString (from_utf8 (hr_body r))) peers fs.

(** The responses sent, how the task ended, and the state left behind. *)
Fixpoint handle_h3_connection (ctx : BootstrapContext) (evs : list h3_event)
    (peers : option WireGuardPeerRegistry) (fs : FS)
  : list (Z * string) * outcome H3Error unit * option WireGuardPeerRegistry * FS :=
  match evs with
  | [] | H3Closed :: _ => ([], Ok tt, peers, fs)
  | H3Failed e :: _ => ([], Err e, peers, fs)
  | H3Got now r :: evs =>
      match h3_respond ctx now r peers fs with
      | (Ok response, peers, fs) =>
          if hr_sent r then
            let '(responses, res, peers, fs) := handle_h3_connection ctx evs peers fs in
            (response :: responses, res, peers, fs)
          else ([], Err H3Send, peers, fs)
      | (_, peers, fs) => ([], Panic, peers, fs)
      end
  end.
End h3.

(** ** Pairing *)

(** [PairingPayload] of the server, as serde_json writes it *)
Definition pairing_payload (address invite key : string) : json :=
  flat [("server_public_address", address); ("invite_token", invite); ("server_public_key", key)].

Definition build_pairing_payload_json `{JsonText} (public_address : string) (invite : InviteToken)
    (server_public_key : string) : option string :=
  if is_empty (trim public_address) then None
  else Some (json_print (pairing_payload public_address (token invite) server_public_key)).

(** [qr]: whether the payload can be drawn as a QR code *)
Definition emit_pairing_qr `{JsonText} (qr : string -> bool) (public_address : string) (invite : InviteToken)
    (server_public_key : string) : option string :=
  payload_json ← build_pairing_payload_json public_address invite server_public_key;
  if qr payload_json then Some payload_json else None.

(** * Lemmas *)

Section provisioning.
Context `{Crypto} `{JsonLaws} `{TomlLaws WireGuardPeersFile} `{!Authority} `{!Sha256}.

(** What the client reads out of the server's capabilities. *)
Lemma read_capabilities ctx endpoints key :
  wireguard_keypair ctx = Some key -> in_u 64 (wireguard_peer_lease_secs ctx) ->
  from_str capabilities_of_json (capabilities_response ctx (Some endpoints)).2 =
    Some (Some {| wc_endpoint := default (ad_public_address endpoints) (ad_wireguard_addr endpoints);
                  wc_server_public_key := key; wc_lease := wireguard_peer_lease_secs ctx |}).
Proof.
  intros Hk Hl. unfold capabilities_response, wireguard_enabled, from_str. rewrite Hk. cbn [snd from_option id].
  assert (Hnum : as_uint 64 (JNum (wireguard_peer_lease_secs ctx)) = Some (wireguard_peer_lease_secs ctx))
    by (cbn [as_uint]; by rewrite decide_True).
  assert (Hnd : forall l : list string, bool_decide (NoDup l) = true -> NoDup l)
    by (intros l Hd; by apply bool_decide_eq_true in Hd).
  rewrite json_round.
  - transitivity (Some <$> (l ← as_uint 64 (JNum (wireguard_peer_lease_secs ctx));
      Some {| wc_endpoint := default (ad_public_address endpoints) (ad_wireguard_addr endpoints);
              wc_server_public_key := key; wc_lease := l |})).
    + destruct (quic_enabled ctx); reflexivity.
    + by rewrite Hnum.
  - unfold in_u in Hl. destruct (quic_enabled ctx); cbn; split_and!; try done; try lia; by apply Hnd.
Qed.

(** And out of the answer to its registration. *)
Lemma read_provision expires peer_ip key :
  in_u 64 expires ->
  from_str provision_of_json (json_print (JObj [("lease_expires_at", JNum expires); ("peer_ip", JStr peer_ip);
    ("server_wg_public_key", JStr key)])) = Some (key, expires).
Proof.
  intros He. unfold from_str. rewrite json_round.
  - transitivity (l ← as_uint 64 (JNum expires); Some (key, l)); [reflexivity|].
    cbn [as_uint]. by rewrite decide_True.
  - cbn. unfold in_u in He. split_and!; try done; try lia.
    apply (bool_decide_unpack (NoDup _)). reflexivity.
Qed.
End provisioning.

(** The bytes of an answer, if there is one *)
Definition answer_of (r : reading served * option WireGuardPeerRegistry * FS) : option (list Z) :=
  match r.1.1 with Finished (Ok (Answered response)) => Some response | _ => None end.

(** A request that arrives in one piece, answered with a document *)
Lemma plain_document `{Crypto} `{JsonLaws} `{Toml WireGuardPeersFile} `{!Authority} `{!Sha256}
    ctx now method host path body peers fs j peers' fs' :
  let bytes := string_bytes (build_http_request method host path body) in
  request_ok method host path body -> Z.of_nat (length bytes) <= MAX_HEADER_BYTES -> utf8_ok (json_print j) ->
  route_bootstrap_request ctx (Some (advertised_endpoints_for_request ctx (Some host))) now method path
    (default EmptyString body) peers fs = (Ok (200, json_print j), peers', fs') ->
  exists raw, handle_plain_connection ctx now [Some bytes] peers fs = (Finished (Ok (Answered raw)), peers', fs') /\
    extract_http_json_body raw = Ok (json_print j).
Proof.
  intros bytes Hok Hsize Hu Hroute.
  destruct (request_answered ctx now method host path body [bytes] peers fs 200 (json_print j) peers' fs')
    as [Hp Hx]; [done | apply app_nil_r | | fold bytes; lia | | done |].
  - repeat constructor. unfold bytes, build_http_request.
    intros Hnil. apply (f_equal length) in Hnil. revert Hnil.
    rewrite length_string_bytes. destruct body; rewrite !string_length_app; cbn; lia.
  - unfold MAX_HEADER_BYTES in Hsize. fold bytes. lia.
  - eexists. split; [exact Hp|]. rewrite Hx by done. cbn. by rewrite json_trim.
Qed.

(** Plain HTTP comes first for a WebSocket without TLS. *)
Lemma http_comes_first `{Crypto} `{JsonText} `{!Sha256} `{!ServerNames} c (e : env) w device wg info :
  let address := trim (cc_server_public_address (client c)) in
  is_empty address = false ->
  starts_with "ws://" (to_ascii_lowercase (trim (cc_server_websocket_address (client c)))) = true ->
  succeeds e [] (bootstrap_over c address device wg Http) w (fun r _ _ => r = Some info) ->
  (exec e [] (bootstrap_wireguard_peer c device wg w)).1.2 = Ok info.
Proof.
  intros address Hne Hws Hh. unfold bootstrap_wireguard_peer, bootstrap_scheme_candidates. fold address.
  rewrite Hne. cbn [peer_settings ps_server_websocket_address]. rewrite Hws.
  assert (Hs : succeeds e [] (bootstrap_schemes c address device wg [Http; Https]) w (fun r _ _ => r = info)).
  { cbn [bootstrap_schemes]. eapply ends_bind; [exact Hh|]. intros ? t1 w1 _ ->. by apply succeeds_ret. }
  unfold succeeds, ends in Hs. destruct (exec e [] _) as [[t r] w']. destruct Hs as (_ & a & -> & ->). done.
Qed.

(** What the device reads in the payload *)
Lemma pairing_read `{JsonLaws} address invite key paired :
  apply_pairing_payload (json_print (pairing_payload address invite key)) paired =
    Ok {| server_public_address := address; server_websocket_address := address;
          paired_server_key := key; invite_token := invite |}.
Proof.
  unfold apply_pairing_payload, from_str. rewrite json_round; [reflexivity|].
  cbn. split_and!; try done. apply (bool_decide_unpack (NoDup _)). reflexivity.
Qed.

(** Which invite a start comes up with *)
Lemma invite_token_cases `{Toml InviteTokensFile} {HO : HashOrder} path value now m fs t fs' :
  load_manager path fs = Ok m -> manager_ok m ->
  ensure_startup_invite path value now fs = (Ok t, fs') -> m !! token t = Some t \/ token t = value.
Proof.
  intros Hl Hm. unfold ensure_startup_invite. rewrite Hl.
  destruct (List.find is_usable (all_tokens m)) as [u|] eqn:Hf.
  - intros [= -> _]. left. apply find_usable in Hf as [_ [k Hk]]. by destruct (Hm _ _ Hk) as [-> _].
  - destruct (unix_timestamp_after _ _); [|done..]. cbn.
    destruct (persist_manager _ _ _) as [[] ?]; [|done..]. intros [= <- _]. by right.
Qed.

(** A device with the invite of the start gets in. *)
Lemma startup_admits `{CryptoLaws} `{JsonLaws} `{TomlLaws InviteTokensFile} {HO : HashOrder} `{TomlLaws AuthorizedKeysFile}
    invites keys_file value now fs fs' t m m' keys sk random :
  path_ok invites fs -> path_ok keys_file fs -> invites <> keys_file ->
  load_manager invites fs = Ok m -> manager_ok m ->
  ensure_startup_invite invites value now fs = (Ok t, fs') ->
  manager_ok m' -> load_manager invites fs' = Ok m' -> m' !! token t = Some t -> 0 < uses_remaining t ->
  is_empty (trim (token t)) = false -> keys_load keys_file fs = Ok keys ->
  bytes_ok sk -> length sk = 32%nat -> bytes_ok random ->
  let device := from_signing_key sk in
  exists st, is_authorized (public_key_b64 device) st.2 = true /\
    link 9 [] [] (client_perform_websocket_auth_handshake device (token t))
      (server_perform_websocket_auth_handshake invites random (fs', keys)) =
      Some (Ok tt, Ok (public_key_b64 device), st).
Proof.
  intros Hpi Hpk Hne Hl Hm He Hm' Hl' Ht Hu Htok Hkeys Hsk Hlen Hr device.
  destruct (invite_ready invites value now fs t fs' Hpi) as [(Hrf & Hwf & Hf) _]; [|done..|].
  { intros m0 Hm0. rewrite Hl in Hm0. by apply Ok_inj in Hm0 as <-. }
  assert (Hsame : same_file keys_file fs fs') by (split; [done|]; apply Hf; set_solver).
  assert (Hstore : store_path keys = keys_file /\ exists doc, load_devices_file keys_file fs' = Ok doc).
  { rewrite <- (keys_load_same _ _ _ Hsame) in Hkeys. unfold keys_load, load_devices_map in Hkeys.
    destruct (load_devices_file keys_file fs') as [doc| |]; [|done..]. cbn in Hkeys.
    apply Ok_inj in Hkeys as <-. eauto. }
  destruct Hstore as [Hpath Hdoc].
  destruct (admissible_authorizes invites (public_key_b64 device) (token t) (fs', keys)) as (st & Ha & Hauth).
  { right. cbn [fst snd]. rewrite Hpath. unfold path_ok in *. rewrite Hrf, Hwf. split_and!; try done; try tauto.
    exists m', t. auto. }
  exists st. split; [done|]. apply exchange_completes; try done; intros; apply ws_carries.
Qed.

(** * Properties *)

(** C25: the two ways to the bootstrap endpoint agree.  A request of the client over HTTP/3 is answered as
    the same request over HTTP/1.1, in whatever pieces that is read: the same changes to the peers and
    the files, and the client reads the same text out of the two responses, or none out of either. *)
Theorem h3_answers_as_http `{Crypto} `{JsonText} `{Toml WireGuardPeersFile} `{!Authority} `{!Sha256}
    (ctx : BootstrapContext) (now : option Z) (method host path : string) (body : option string)
    (chunks : list (list Z)) (sent : bool) (peers : option WireGuardPeerRegistry) (fs : FS) :
  let bytes := string_bytes (build_http_request method host path body) in
  let request := {| hr_method := method; hr_path := path; hr_authority := Some host;
                    hr_body := string_bytes (default EmptyString body); hr_sent := sent |} in
  request_ok method host path body ->
  concat chunks = bytes -> Forall (fun d => d <> []) chunks ->
  Z.of_nat (length bytes - String.length (default EmptyString body)) <= MAX_HEADER_BYTES ->
  Z.of_nat (length bytes) < 2 ^ 64 ->
  match h3_respond ctx now request peers fs with
  | (Ok (status, answer), peers', fs') =>
      exists response,
        handle_plain_connection ctx now (Some <$> chunks) peers fs =
          (Finished (Ok (Answered response)), peers', fs') /\
        (utf8_ok answer -> ok_option (extract_http_json_body response) =
           ok_option (h3_body status (string_bytes answer)))
  | (_, peers', fs') =>
      handle_plain_connection ctx now (Some <$> chunks) peers fs = (Finished Panic, peers', fs')
  end.
Proof.
  intros bytes request Hok Hc Hne Hmax Hsize. unfold h3_respond, request.
  cbn [hr_method hr_path hr_authority hr_body]. rewrite from_utf8_ok by apply Hok. cbn [from_option id].
  destruct (route_bootstrap_request _ _ _ _ _ _ _ _) as [[[[status answer]|e|] peers'] fs'] eqn:Hroute; [|done|].
  - destruct (request_answered _ _ _ _ _ _ _ _ _ _ _ _ _ Hok Hc Hne Hmax Hsize Hroute) as [Hp Hx].
    eexists. split; [exact Hp|]. intros Hu. rewrite Hx by done. unfold h3_body. rewrite from_utf8_ok by done.
    cbn [ok_or mbind outcome_bind]. by destruct (status =? 200).
  - destruct (request_received _ _ _ _ _ Hok Hc Hne Hmax Hsize) as (Hr & Hp & Hh).
    unfold handle_plain_connection. rewrite Hr, Hp, Hh. by rewrite Hroute.
Qed.

(** Provisioning of a WireGuard peer, from end to end.  A client that asks over plain HTTP, of a
    server with WireGuard whose registry has an address for the device, gets the endpoint the server
    advertises to it and the server's WireGuard key; the server has registered the client's key for the
    device, and the expiry the client is told is the one in the registry. *)
Theorem wireguard_bootstrap_end_to_end `{Crypto} `{JsonLaws} `{TomlLaws WireGuardPeersFile} `{!Authority} `{!Sha256}
    `{!ServerNames} (c : ClientConfig) (e : env) (w : World) (ctx : BootstrapContext) (now : Z)
    (r : WireGuardPeerRegistry) (fs : FS) (host : string) (port : Z) (device wg key : string) :
  let address := trim (cc_server_public_address (client c)) in
  let body := Some (json_print (provision_request device wg)) in
  let get := build_http_request "GET" host "/v1/bootstrap/capabilities" None in
  let post := build_http_request "POST" host "/v1/bootstrap/wireguard/peer" body in
  let serve request := handle_plain_connection ctx (Some now) [Some (string_bytes request)] (Some r) fs in
  let endpoints := advertised_endpoints_for_request ctx (Some host) in
  obliging e -> (forall t s request, request = get \/ request = post ->
    e t (HttpExchange s request) = answer_of (serve request)) ->
  (forall j, utf8_ok (json_print j)) ->
  starts_with "ws://" (to_ascii_lowercase (trim (cc_server_websocket_address (client c)))) = true ->
  is_empty address = false -> split_host_port address = Ok (host, port) ->
  request_ok "GET" host "/v1/bootstrap/capabilities" None ->
  request_ok "POST" host "/v1/bootstrap/wireguard/peer" body ->
  Z.of_nat (length (string_bytes get)) <= MAX_HEADER_BYTES ->
  Z.of_nat (length (string_bytes post)) <= MAX_HEADER_BYTES ->
  wireguard_keypair ctx = Some key -> nonempty key = true -> in_u 64 (wireguard_peer_lease_secs ctx) ->
  registry_wf r -> poisoned r = false -> file_ok (wg_path r) fs -> 0 <= now < 2 ^ 64 -> 0 <= peer_lease r ->
  is_empty device = false -> is_empty wg = false -> can_lease (prune now (wg_peers r)) device ->
  exists r' fs' response p, serve post = (Finished (Ok (Answered response)), Some r', fs') /\
    wg_peers r' !! device = Some p /\ wp_wg_public_key p = wg /\
    (exec e [] (bootstrap_wireguard_peer c device wg w)).1.2 =
      Ok {| wb_endpoint := default (ad_public_address endpoints) (ad_wireguard_addr endpoints); wb_key := key;
            wb_lease := wireguard_peer_lease_secs ctx; wb_expires := wp_lease_expires_at p |}.
Proof.
  intros address body get post serve endpoints He Hserve Hutf Hws Hne Hsp Hok1 Hok2 Hs1 Hs2 Hk Hkne Hlease
    Hr Hp Hf Hnow Hpl Hd Hw Hcan.
  destruct (plain_document ctx (Some now) "GET" host "/v1/bootstrap/capabilities" None (Some r) fs _ (Some r) fs
    Hok1 Hs1 (Hutf _) eq_refl) as (raw1 & Hp1 & Hx1).
  destruct (provisioned key device wg now r fs (default EmptyString body)) as (a & r' & fs' & Hl & Hresp);
    try done; [lia| |].
  { unfold body. cbn [from_option id]. rewrite json_trim. apply json_round. cbn. split_and!; try done.
    apply (bool_decide_unpack (NoDup _)). reflexivity. }
  destruct (plain_document ctx (Some now) "POST" host "/v1/bootstrap/wireguard/peer" body (Some r) fs
    (JObj [("lease_expires_at", JNum (rg_lease_expires_at a)); ("peer_ip", JStr (rg_peer_ip a));
           ("server_wg_public_key", JStr key)]) (Some r') fs' Hok2 Hs2 (Hutf _)) as (raw2 & Hp2 & Hx2).
  { rewrite <- Hresp, <- Hk. reflexivity. }
  destruct Hl as (p & Hlook & Hwg & Hexp & -> & _). cbn [rg_lease_expires_at rg_peer_ip] in *.
  exists r', fs', raw2, p. split_and!; [done..|]. apply http_comes_first; [done..|].
  apply (http_bootstrap c e He address host port Hsp [] w device wg raw1 raw2 _ _
    {| wc_endpoint := default (ad_public_address endpoints) (ad_wireguard_addr endpoints);
       wc_server_public_key := key; wc_lease := wireguard_peer_lease_secs ctx |} key
    (wp_lease_expires_at p)) with (3 := Hx1) (5 := Hx2).
  - intros t s. fold get. rewrite Hserve by auto. exact (f_equal answer_of Hp1).
  - intros t s. fold post. rewrite Hserve by auto. exact (f_equal answer_of Hp2).
  - by apply read_capabilities.
  - apply read_provision. rewrite Hexp. unfold saturating_add, in_u. lia.
  - done.
Qed.

(** C27: pairing, from the start of the server to a new device's first session.  The start takes or
    creates an invite; the payload emitted for it, if it can be drawn, gives the device that reads it the
    server's address, its identity key and the invite, whatever was configured before; and with this
    invite a device the server does not know completes the handshake and is authorized from then on. *)
Theorem pairing_end_to_end `{CryptoLaws} `{JsonLaws} `{TomlLaws InviteTokensFile} {HO : HashOrder} `{TomlLaws AuthorizedKeysFile}
    (qr : string -> bool) (c : ServerSection) (value : string) (now : Z) (server_key : string) (fs : FS)
    (m : InviteTokenManager) (keys : AuthorizedKeysStore) (paired : PairedServer) (sk random : list Z) :
  path_ok (invite_tokens_file c) fs -> path_ok (authorized_keys_file c) fs ->
  invite_tokens_file c <> authorized_keys_file c ->
  manager_ok m -> load_manager (invite_tokens_file c) fs = Ok m ->
  (forall t, m !! token t = Some t -> is_empty (trim (token t)) = false) -> is_empty (trim value) = false ->
  keys_load (authorized_keys_file c) fs = Ok keys ->
  bytes_ok sk -> length sk = 32%nat -> bytes_ok random ->
  exists t fs', ensure_startup_invite (invite_tokens_file c) value (Some now) fs = (Ok t, fs') /\
    forall payload, emit_pairing_qr qr (https_public_addr c) t server_key = Some payload ->
    exists paired', apply_pairing_payload payload paired = Ok paired' /\
      server_public_address paired' = https_public_addr c /\ paired_server_key paired' = server_key /\
      let device := from_signing_key sk in
      exists st, is_authorized (public_key_b64 device) st.2 = true /\
        link 9 [] [] (client_perform_websocket_auth_handshake device (invite_token paired'))
          (server_perform_websocket_auth_handshake (invite_tokens_file c) random (fs', keys)) =
          Some (Ok tt, Ok (public_key_b64 device), st).
Proof.
  intros Hpi Hpk Hne Hm Hl Htok Hval Hkeys Hsk Hlen Hr.
  destruct (startup_invite_redeems (invite_tokens_file c) value now m fs Hpi Hm Hl)
    as (t & fs' & He & Hu & (m' & Hm' & Hl' & Ht) & _ & _).
  exists t, fs'. split; [done|]. intros payload Hqr. unfold emit_pairing_qr, build_pairing_payload_json in Hqr.
  destruct (is_empty (trim (https_public_addr c))); [done|]. cbn [mbind option_bind] in Hqr.
  destruct (qr _); [|done]. injection Hqr as <-.
  eexists. split; [by apply pairing_read|]. split; [done|]. split; [done|]. cbn [invite_token].
  eapply startup_admits with (fs := fs); try done.
  destruct (invite_token_cases _ _ _ _ _ _ _ Hl Hm He) as [Hold | Hnew]; [by apply Htok | by rewrite Hnew].
Qed.

(** ** Witnesses *)

Module Sample.
#[local] Existing Instances AuthHandshake.Sample.crypto Json.Sample.json_text Json.Sample.json_laws
  WgServer.Sample.toml_peers WgServer.Sample.toml_peers_laws Bootstrap.Sample.digest Dial.Sample.names.
#[local] Instance authority : Authority := fun s =>
  match split_host_port s with Ok (host, port) => Some (host, Some port) | _ => Some (s, None) end.

(** A server with WireGuard, whose registry is the one of WgServer.v *)
Definition ctx : BootstrapContext :=
  {| server_identity := from_signing_key Bootstrap.Sample.sk; tls_cert_der := Some [1; 2; 3];
     ctx_public_address := "vpn.example"; wireguard_keypair := Some "server-key";
     wireguard_public_addr := Some "vpn.example:51820"; wireguard_peer_lease_secs := 100;
     ctx_authorized_keys := AuthHandshake.Sample.keys |}.
Definition reg : WireGuardPeerRegistry := WgServer.Sample.reg.
Definition fs : FS := WgServer.Sample.no_files.
Definition get : string := build_http_request "GET" "vpn.example" "/v1/bootstrap/capabilities" None.

Lemma h3_answers_as_http_witness :
  exists response,
    handle_plain_connection ctx (Some 100) (Some <$> Bootstrap.Sample.cut (string_bytes get)) (Some reg) fs =
      (Finished (Ok (Answered response)), Some reg, fs) /\
    ok_option (extract_http_json_body response) =
      ok_option (h3_body 200 (string_bytes (capabilities_response ctx
        (Some (advertised_endpoints_for_request ctx (Some "vpn.example")))).2)).
Proof.
  destruct (h3_answers_as_http ctx (Some 100) "GET" "vpn.example" "/v1/bootstrap/capabilities" None
    (Bootstrap.Sample.cut (string_bytes get)) true (Some reg) fs) as (response & Hp & Hx).
  - apply Bootstrap.Sample.sample_ok; [by left|reflexivity..].
  - vm_compute. reflexivity.
  - repeat constructor; vm_compute; discriminate.
  - vm_compute. discriminate.
  - vm_compute. reflexivity.
  - exists response. split; [exact Hp|]. apply Hx. vm_compute. reflexivity.
Defined.

(** A client of a WebSocket without TLS, on the network where this server answers *)
Definition section : ClientSection := {|
  cc_device_name := "phone"; cc_tun_name := ""; cc_server_public_address := "vpn.example:80";
  cc_server_resolved_address := ""; cc_server_websocket_address := "ws://vpn.example:80"; cc_path_bind_addresses := [];
  cc_server_public_key := "key"; cc_invite_token := "invite"; cc_preferred_protocols := ["wireguard"];
  cc_allow_insecure_debug_transports := true; cc_private_key_path := "~/k"; cc_public_key_path := "~/p";
  cc_tls_cert_fingerprint := ""; cc_wireguard_server_public_key := "";
  cc_peer_share_enabled := false; cc_peer_share_bind_address := ""; cc_peer_share_advertise_ip := ""
|}.
Definition config : ClientConfig := {| client := section; socket_protect := true; socket_network_bind := false |}.

Definition serving : env := fun t op =>
  match op as o return answer o with
  | Random => Dial.Sample.sk
  | RandomIndex => 7
  | TimeLimit => 50%nat
  | LookupHost _ => Some [Dial.Sample.server]
  | TlsConnect _ _ _ | QuicConnect _ _ _ _ _ => None
  | HttpExchange _ r => answer_of (handle_plain_connection ctx (Some 100) [Some (string_bytes r)] (Some reg) fs)
  | H3Request _ _ _ _ => None
  | RecvText _ => None
  | _ => true
  end.

Lemma wireguard_bootstrap_end_to_end_witness :
  exists r' p, wg_peers r' !! "c" = Some p /\ wp_wg_public_key p = "w" /\
    (exec serving [] (bootstrap_wireguard_peer config "c" "w" Dial.Sample.world)).1.2 =
      Ok {| wb_endpoint := "vpn.example:51820"; wb_key := "server-key"; wb_lease := 100;
            wb_expires := wp_lease_expires_at p |}.
Proof.
  destruct (wireguard_bootstrap_end_to_end config serving Dial.Sample.world ctx 100 reg fs "vpn.example" 80
    "c" "w" "server-key") as (r' & fs' & response & p & _ & Hl & Hw & Hx).
  - split; intros; try reflexivity. exists Dial.Sample.server, []. reflexivity.
  - reflexivity.
  - exact Bootstrap.Sample.json_utf8.
  - vm_compute. reflexivity.
  - vm_compute. reflexivity.
  - vm_compute. reflexivity.
  - apply Bootstrap.Sample.sample_ok; [by left|reflexivity..].
  - destruct (Bootstrap.Sample.sample_ok "POST" "/v1/bootstrap/wireguard/peer") as [? ? ? _];
      [by right|reflexivity..|]. split; [done..|]. split; [apply Bootstrap.Sample.json_utf8 | vm_compute; reflexivity].
  - vm_compute. discriminate.
  - vm_compute. discriminate.
  - reflexivity.
  - reflexivity.
  - split; [discriminate|reflexivity].
  - apply WgServer.Sample.reg_wf.
  - reflexivity.
  - apply WgServer.Sample.no_files_ok.
  - lia.
  - discriminate.
  - reflexivity.
  - reflexivity.
  - right. exists 7. split; [lia|]. vm_compute. reflexivity.
  - exists r', p. split; [exact Hl|]. split; [exact Hw|]. exact Hx.
Defined.

(** Pairing: the server's tokens file has an invite, its keys file is not there yet. *)
#[local] Existing Instances AuthHandshake.Sample.crypto_laws Stores.Sample.listing Stores.Sample.toml_invites Stores.Sample.toml_keys
  Stores.Sample.toml_invites_laws Stores.Sample.toml_keys_laws.

Definition server_config : ServerSection :=
  apply_env_overrides (fun key =>
    if bool_decide (key = "BONDED_HOSTNAME") then Some "vpn.example"
    else if bool_decide (key = "BONDED_INVITE_TOKENS_FILE") then Some "t"
    else if bool_decide (key = "BONDED_AUTHORIZED_KEYS_FILE") then Some "k" else None) default_section.
Definition unpaired : PairedServer :=
  {| server_public_address := ""; server_websocket_address := ""; paired_server_key := ""; invite_token := "" |}.

Lemma pairing_end_to_end_witness :
  exists t fs', ensure_startup_invite "t" "new" (Some 0) AuthHandshake.Sample.fs = (Ok t, fs') /\
    forall payload, emit_pairing_qr (fun _ => true) "vpn.example:443" t "server" = Some payload ->
    exists paired', apply_pairing_payload payload unpaired = Ok paired' /\
      server_public_address paired' = "vpn.example:443".
Proof.
  destruct (pairing_end_to_end (fun _ => true) server_config "new" 0 "server" AuthHandshake.Sample.fs
    {[ "abc" := Stores.Sample.sample_token ]} {| store_path := "k"; devices := ∅ |} unpaired
    AuthHandshake.Sample.sk AuthHandshake.Sample.random) as (t & fs' & He & Hp).
  - split; apply not_elem_of_empty.
  - split; apply not_elem_of_empty.
  - discriminate.
  - apply Stores.Sample.sample_manager_ok.
  - vm_compute. reflexivity.
  - intros t Ht. apply lookup_singleton_Some in Ht as [_ <-]. vm_compute. reflexivity.
  - reflexivity.
  - vm_compute. reflexivity.
  - apply (bool_decide_unpack _). vm_compute. exact I.
  - reflexivity.
  - apply (bool_decide_unpack _). vm_compute. exact I.
  - exists t, fs'. split; [exact He|]. intros payload Hq. destruct (Hp payload Hq) as (paired' & Ha & Hs & _).
    exists paired'. split; [exact Ha | exact Hs].
Defined.

(** A server without a host name is not "not configured": the payload has the address ":443". *)
Example pairing_without_hostname :
  build_pairing_payload_json (https_public_addr default_section) Stores.Sample.sample_token "key" =
    Some (json_print (pairing_payload ":443" "abc" "key")).
Proof. vm_compute. reflexivity. Qed.
End Sample.
