(* ===== verification/Accept.v ===== *)
(** The listeners of the server: the accept loops of [run_server] in [src/crates/bonded-server/src/main.rs],
    [run_bootstrap_websocket_server] in [src/crates/bonded-server/src/bootstrap.rs] with its slot for the TLS
    acceptor, and [run_quic_server] in [src/crates/bonded-server/src/quic.rs] with the handler of a QUIC
    connection.  A loop only accepts: every connection gets a task of its own, which is spawned and goes on when
    its client does.  What is shown: whatever arrives, the server moves by steps of the gateway of Admission.v,
    and no connection, however it hangs or fails, keeps the loops from serving the next. *)

From stdpp Require Import base tactics list gmap strings.
From Stdlib Require Import ZArith Lia Ascii.
From S2P Require Import Prelude Words Text Json Auth Stores AuthHandshake WgServer Startup Session PeerShare Routing Bootstrap NetAddr Dial Admission Acme EndToEnd.
Open Scope Z_scope.

(** * Definitions *)

(** ** TLS *)

(** What [TlsAcceptor::accept] makes of the bytes a client sends: it waits for more, gives up, or has a
    stream; in each case with the bytes it has written in return. *)
Inductive tls_result :=
  | TlsWaiting (out : list Z)
  | TlsRefused (out : list Z)
  | TlsAccepted (out : list Z) (rs : reads).
Class TlsLib := tls_accept : CertifiedKey -> reads -> tls_result.

(** ** The QUIC endpoint *)

Inductive QuicError := QuicKey | QuicTls | QuicBindAddress | QuicBind | QuicNoStream.

(** The server configuration of quinn as far as the program sets it *)
Record QuicServerConfig := {
  qs_cert : list Z;
  qs_key : list Z;
  alpn_protocols : list string;
  max_concurrent_bidi_streams : Z
}.

(** External: whether the bytes are a private key, and whether rustls and quinn take the pair. *)
Class QuicLib := {
  private_key_ok : list Z -> bool;
  quic_pair_ok : list Z -> list Z -> bool
}.

Definition build_quic_server_config `{QuicLib} (cert_der key_der : list Z) : outcome QuicError QuicServerConfig :=
  if negb (private_key_ok key_der) then Err QuicKey
  else if negb (quic_pair_ok cert_der key_der) then Err QuicTls
  else Ok {| qs_cert := cert_der; qs_key := key_der; alpn_protocols := [RAW_QUIC_ALPN; H3_ALPN];
             max_concurrent_bidi_streams := 4 |}.

(** The part of [run_quic_server] before its loop; [bound]: whether the address could be bound *)
Definition quic_endpoint `{QuicLib} (bind : string) (cert_der key_der : list Z) (bound : bool)
  : outcome QuicError QuicServerConfig :=
  server_config ← build_quic_server_config cert_der key_der;
  _ ← ok_or QuicBindAddress (parse_socket_addr bind);
  if bound then Ok server_config else Err QuicBind.

(** ** What arrives *)

(** A TCP connection to the bootstrap listener, by its number: what its reads have given so far, the clock when its
    request is routed, and whether a WebSocket could be made of it *)
Record BootstrapIncoming := {
  bi_reads : reads;
  bi_now : option Z;
  bi_upgraded : bool;
  bi_path : path_id
}.

(** What the task of a QUIC connection waits for: that it is established ([None]: that fails), with the protocol it
    negotiated; the next request of an HTTP/3 connection; the first stream of another one *)
Inductive quic_event :=
  | QuicConnected (alpn : option (option string))
  | QuicRequest (e : h3_event)
  | QuicStream (opened : bool).
Inductive quic_stage := QuicConnecting | QuicH3 | QuicOpening.

(** An [accept] that fails or gives a new connection; a new acceptor in the slot; the task of a connection to the
    bootstrap listener or to the QUIC endpoint goes on; something else happens to the server behind *)
Inductive listen_event :=
  | TcpAccept (r : option path_id)
  | BootstrapAccept (r : option path_id)
  | QuicAccept (r : option path_id)
  | SlotSet (acceptor : option CertifiedKey)
  | HttpRun (i : BootstrapIncoming)
  | QuicRun (p : path_id) (e : quic_event)
  | Inner (e : gw_event).

(** How a turn of a loop, or the run of a task, ended *)
Inductive conn_result :=
  | NotAccepted
  | Spawned
  | TlsHandshake
  | TlsFailed
  | ReadingRequest
  | RequestFailed (e : HttpError)
  | RequestAnswered (response : list Z)
  | TaskPanicked
  | UpgradeFailed
  | SessionTask
  | H3Answered (responses : list (Z * string)) (r : outcome H3Error unit)
  | QuicHandler (stage : quic_stage)
  | QuicHandshakeFailed
  | QuicStreamFailed.

(** The listeners: the server behind them, the slot of the bootstrap listener, the QUIC endpoint while its loop
    runs, and the tasks that were spawned: of the bootstrap listener, each with the acceptor it was given, and of
    the QUIC endpoint.  The task of a TCP connection is one of the gateway's from the start, the others become
    one with an upgrade or with the first stream. *)
Record Listening := {
  ls_gateway : Gateway;
  ls_slot : option CertifiedKey;
  ls_quic : option QuicServerConfig;
  ls_http : gmap path_id (option CertifiedKey);
  ls_quic_tasks : gmap path_id quic_stage
}.

Definition idle (gw : Gateway) (slot : option CertifiedKey) (quic : option QuicServerConfig) : Listening :=
  {| ls_gateway := gw; ls_slot := slot; ls_quic := quic; ls_http := ∅; ls_quic_tasks := ∅ |}.

Section listeners.
Context `{Crypto} `{JsonText} `{Toml InviteTokensFile} `{Toml AuthorizedKeysFile} `{Toml WireGuardPeersFile}
  `{!Authority} `{!Sha256} `{!TlsLib}.
Variables (ctx : BootstrapContext) (invites : string).

Definition with_peers (peers : option WireGuardPeerRegistry) (fs : FS) (gw : Gateway) : Gateway :=
  {| gw_store := (fs, (gw_store gw).2); gw_peers := peers; gw_waiting := gw_waiting gw; gw_server := gw_server gw |}.

(** The task begins the handshake. *)
Definition begin_handshake (p : path_id) (k : Carrier) (gw : Gateway) : Gateway := set_task p k (Some AwaitsHello) gw.

(** ** The tasks *)

(** The request of a connection and what it becomes; [handle_websocket_session] begins with the handshake. *)
Definition bootstrap_stream (rs : reads) (i : BootstrapIncoming) (gw : Gateway) : conn_result * Gateway :=
  match handle_plain_connection (current_ctx ctx gw) (bi_now i) rs (gw_peers gw) (gw_store gw).1 with
  | (Waiting, _, _) => (ReadingRequest, gw)
  | (Finished (Err e), _, _) => (RequestFailed e, gw)
  | (Finished (Ok (Upgraded _)), _, _) =>
      if bi_upgraded i then (SessionTask, begin_handshake (bi_path i) OverWebSocket gw) else (UpgradeFailed, gw)
  | (Finished (Ok (Answered response)), peers, fs) => (RequestAnswered response, with_peers peers fs gw)
  | (Finished Panic, peers, fs) => (TaskPanicked, with_peers peers fs gw)
  end.

(** The task the bootstrap listener spawns, with the acceptor it was given; and what the client of a TLS
    handshake is sent *)
Definition bootstrap_task (tls_acceptor : option CertifiedKey) (i : BootstrapIncoming) (gw : Gateway)
  : list Z * conn_result * Gateway :=
  match tls_acceptor with
  | Some acceptor =>
      match tls_accept acceptor (bi_reads i) with
      | TlsWaiting out => (out, TlsHandshake, gw)
      | TlsRefused out => (out, TlsFailed, gw)
      | TlsAccepted out rs => let (r, gw) := bootstrap_stream rs i gw in (out, r, gw)
      end
  | None => let (r, gw) := bootstrap_stream (bi_reads i) i gw in ([], r, gw)
  end.

(** The task the QUIC loop spawns, up to the handshake of a session: how far it is now, [None] when it is over *)
Definition quic_task (p : path_id) (stage : quic_stage) (e : quic_event) (gw : Gateway)
  : option (conn_result * option quic_stage * Gateway) :=
  match stage, e with
  | QuicConnecting, QuicConnected None => Some (QuicHandshakeFailed, None, gw)
  | QuicConnecting, QuicConnected (Some alpn) =>
      let stage := match quic_handler_of alpn with HandleH3 => QuicH3 | HandleSession => QuicOpening end in
      Some (QuicHandler stage, Some stage, gw)
  | QuicH3, QuicRequest e =>
      let '(responses, r, peers, fs) :=
        handle_h3_connection (current_ctx ctx gw) [e] (gw_peers gw) (gw_store gw).1 in
      Some (H3Answered responses r, match e, r with H3Got _ _, Ok _ => Some QuicH3 | _, _ => None end,
            with_peers peers fs gw)
  | QuicOpening, QuicStream true => Some (SessionTask, None, begin_handshake p OverQuic gw)
  | QuicOpening, QuicStream false => Some (QuicStreamFailed, None, gw)
  | _, _ => None
  end.

(** ** The loops *)

Definition with_gateway (gw : Gateway) (s : Listening) : Listening :=
  {| ls_gateway := gw; ls_slot := ls_slot s; ls_quic := ls_quic s; ls_http := ls_http s;
     ls_quic_tasks := ls_quic_tasks s |}.
Definition with_http (tasks : gmap path_id (option CertifiedKey)) (s : Listening) : Listening :=
  {| ls_gateway := ls_gateway s; ls_slot := ls_slot s; ls_quic := ls_quic s; ls_http := tasks;
     ls_quic_tasks := ls_quic_tasks s |}.
Definition with_quic_tasks (tasks : gmap path_id quic_stage) (s : Listening) : Listening :=
  {| ls_gateway := ls_gateway s; ls_slot := ls_slot s; ls_quic := ls_quic s; ls_http := ls_http s;
     ls_quic_tasks := tasks |}.

(** One turn of each loop, with what its [accept] gave: it spawns a task and goes on.  The loops of the two TCP
    listeners have no end. *)
Definition tcp_turn (r : option path_id) (s : Listening) : conn_result * Listening :=
  match r with
  | None => (NotAccepted, s)
  | Some p => (Spawned, with_gateway (begin_handshake p OverTcp (ls_gateway s)) s)
  end.

(** The acceptor is read from the slot when the connection is accepted. *)
Definition bootstrap_turn (r : option path_id) (s : Listening) : conn_result * Listening :=
  match r with
  | None => (NotAccepted, s)
  | Some p => (Spawned, with_http (<[p := ls_slot s]> (ls_http s)) s)
  end.

(** The QUIC loop ends when its endpoint is closed. *)
Definition quic_turn (r : option path_id) (s : Listening) : conn_result * Listening :=
  match ls_quic s, r with
  | None, _ => (NotAccepted, s)
  | Some _, None =>
      (NotAccepted, {| ls_gateway := ls_gateway s; ls_slot := ls_slot s; ls_quic := None; ls_http := ls_http s;
                       ls_quic_tasks := ls_quic_tasks s |})
  | Some _, Some p => (Spawned, with_quic_tasks (<[p := QuicConnecting]> (ls_quic_tasks s)) s)
  end.

(** The task waits for its client. *)
Definition hangs (r : conn_result) : bool :=
  match r with TlsHandshake | ReadingRequest => true | _ => false end.

Definition http_run (i : BootstrapIncoming) (s : Listening) : conn_result * Listening :=
  match ls_http s !! bi_path i with
  | None => (NotAccepted, s)
  | Some acceptor =>
      let '(_, r, gw) := bootstrap_task acceptor i (ls_gateway s) in
      (r, if hangs r then s else with_gateway gw (with_http (delete (bi_path i) (ls_http s)) s))
  end.

Definition quic_run (p : path_id) (e : quic_event) (s : Listening) : conn_result * Listening :=
  match ls_quic_tasks s !! p ≫= (fun stage => quic_task p stage e (ls_gateway s)) with
  | None => (NotAccepted, s)
  | Some (r, stage, gw) =>
      (r, with_gateway gw (with_quic_tasks (partial_alter (fun _ => stage) p (ls_quic_tasks s)) s))
  end.

Definition listen (e : listen_event) (s : Listening) : conn_result * Listening :=
  match e with
  | TcpAccept r => tcp_turn r s
  | BootstrapAccept r => bootstrap_turn r s
  | QuicAccept r => quic_turn r s
  | SlotSet acceptor =>
      (NotAccepted, {| ls_gateway := ls_gateway s; ls_slot := acceptor; ls_quic := ls_quic s; ls_http := ls_http s;
                       ls_quic_tasks := ls_quic_tasks s |})
  | HttpRun i => http_run i s
  | QuicRun p e => quic_run p e s
  | Inner _ => (NotAccepted, s)
  end.





End listeners.

(** * Lemmas *)

Section runs.
Context `{Crypto} `{JsonText} `{Toml InviteTokensFile} `{Toml AuthorizedKeysFile} `{Toml WireGuardPeersFile}
  `{!Authority} `{!Sha256} `{!TlsLib}.
Variables (ctx : BootstrapContext) (invites : string).

(** From one state of the gateway to another by events of [P] *)
Definition moves (P : gw_event -> Prop) (gw gw' : Gateway) : Prop :=
  exists h, gw_runs ctx invites gw h gw' /\ Forall (fun eg => P eg.1) h.

Lemma gw_runs_app gw h gw1 h' gw' :
  gw_runs ctx invites gw h gw1 -> gw_runs ctx invites gw1 h' gw' -> gw_runs ctx invites gw (h ++ h') gw'.
Proof. induction 1; [done|]. intros. simpl. eapply RunsCons; eauto. Qed.

#[global] Instance moves_preorder P : PreOrder (moves P).
Proof.
  split.
  - intros gw. exists []. split; constructor.
  - intros a b c (h & Hh & Ho) (h' & Hh' & Ho'). exists (h ++ h').
    split; [by eapply gw_runs_app | by apply Forall_app].
Qed.










(** ** Numbers *)







(** ** One step of the listeners *)















(** ** What a step leaves alone *)








End runs.

(** * Properties *)




Module Sample.
#[local] Existing Instances AuthHandshake.Sample.crypto Json.Sample.json_text Stores.Sample.toml_invites
  Stores.Sample.toml_keys WgServer.Sample.toml_peers Bootstrap.Sample.authority Bootstrap.Sample.digest.
(** A TLS library that takes a connection whose first read is a handshake record *)
#[local] Instance tls_lib : TlsLib := fun _ rs =>
  match rs with
  | Some (22 :: _) :: rs => TlsAccepted [22] rs
  | Some (_ :: _) :: _ => TlsRefused [21; 3; 3; 0; 2; 2; 10]
  | _ => TlsWaiting []
  end.
#[local] Instance quic_lib : QuicLib := {| private_key_ok k := true; quic_pair_ok c k := true |}.

Definition ctx : BootstrapContext := Admission.Sample.ctx.
Definition quic : option QuicServerConfig := ok_option (quic_endpoint "0.0.0.0:443" [1; 2; 3] [9] true).
Definition certificate : option CertifiedKey := Some {| ck_leaf := [1; 2; 3]; ck_key := [9] |}.
Definition first : Listening := idle Admission.Sample.first_state certificate quic.
Definition speaks (p : path_id) (rs : reads) : BootstrapIncoming :=
  {| bi_reads := rs; bi_now := Some 1000; bi_upgraded := true; bi_path := p |}.

(** Events that are not those of the server behind, one after the other *)
Definition checked (e : listen_event) (s : Listening) : bool :=
  match e with
  | TcpAccept (Some p) | BootstrapAccept (Some p) | QuicAccept (Some p) =>
      bool_decide (paths (gw_server (ls_gateway s)) !! p = None) && bool_decide (gw_waiting (ls_gateway s) !! p = None) &&
      bool_decide (ls_http s !! p = None) && bool_decide (ls_quic_tasks s !! p = None)
  | Inner _ => false
  | _ => true
  end.
Fixpoint take_turns (l : list listen_event) (s : Listening) : list conn_result * bool * Listening :=
  match l with
  | [] => ([], true, s)
  | e :: l => let '(rs, b, s') := take_turns l (listen ctx e s).2 in ((listen ctx e s).1 :: rs, checked e s && b, s')
  end.



(** A failed accept, garbage, a client that says nothing, a TCP connection, a QUIC client that gives up, a new
    certificate *)
Definition events : list listen_event :=
  [TcpAccept None; BootstrapAccept (Some 7%nat); HttpRun (speaks 7 [Some [123; 34]]); BootstrapAccept (Some 8%nat);
   HttpRun (speaks 8 []); TcpAccept (Some 1%nat); QuicAccept (Some 9%nat); QuicRun 9 (QuicConnected None);
   SlotSet (Some {| ck_leaf := [4]; ck_key := [9] |})].

Example events_end : (take_turns events first).1.1 =
  [NotAccepted; Spawned; TlsFailed; Spawned; TlsHandshake; Spawned; Spawned; QuicHandshakeFailed; NotAccepted].
Proof. vm_compute. reflexivity. Qed.


End Sample.
