(* ===== verification/Native.v ===== *)
(** The entry points of the Android library ([src/crates/bonded-ffi/src/lib.rs]): what the Java side calls,
    the globals behind it (the virtual machine, the reference to the VPN service, the last error), the two
    callbacks into Java that sockets are protected and bound with, and the redemption of an invite.  The
    sessions are those of Android.v, the dialling is that of Dial.v.  Java is external: what it answers is an
    argument of each call. *)

From stdpp Require Import base tactics list gmap strings pretty.
From Stdlib Require Import ZArith Lia Ascii.
From S2P Require Import Prelude Words Text Json Auth Stores AuthHandshake Session Transport Client Android NetAddr Bootstrap PeerRuntime Dial.
Open Scope Z_scope.

(** * Definitions *)

(** ** The globals *)

(** [ANDROID_JVM], [ANDROID_VPN_SERVICE], [LAST_NATIVE_ERROR], and the slots of Android.v; the virtual machine
    and the references to services are numbered.  With each session goes the number of paths it was started
    with.  No code panics while it holds one of the locks, so none of them is poisoned. *)
Record Native := {
  jvm : option nat;
  vpn_service : option nat;
  last_native_error : option string;
  android : Android ClientPath;
  path_counts : list Z
}.

Definition native_new : Native :=
  {| jvm := None; vpn_service := None; last_native_error := None; android := android_new; path_counts := [] |}.

Definition JNI_VERSION_1_6 : Z := 0x00010006.

(** [OnceLock::set] keeps the first value. *)
Definition JNI_OnLoad (vm : nat) (n : Native) : Z * Native :=
  (JNI_VERSION_1_6,
   {| jvm := Some (default vm (jvm n)); vpn_service := vpn_service n; last_native_error := last_native_error n;
      android := android n; path_counts := path_counts n |}).

Definition set_service (r : option nat) (n : Native) : Native :=
  {| jvm := jvm n; vpn_service := r; last_native_error := last_native_error n; android := android n;
     path_counts := path_counts n |}.
Definition set_last_error (e : option string) (n : Native) : Native :=
  {| jvm := jvm n; vpn_service := vpn_service n; last_native_error := e; android := android n;
     path_counts := path_counts n |}.
Definition set_android (a : Android ClientPath) (n : Native) : Native :=
  {| jvm := jvm n; vpn_service := vpn_service n; last_native_error := last_native_error n; android := a;
     path_counts := path_counts n |}.

(** ** Callbacks into Java *)

Inductive jvalue := JInt (z : Z) | JText (s : string).

(** What Java does when it is called back: whether the thread can be attached, whether a string can be
    made, and the result of a method of a service, if it returns a boolean *)
Record Java := {
  attaches : bool;
  makes_strings : bool;
  call_method : nat -> string -> list jvalue -> option bool
}.

Definition protect_fd (j : Java) (fd : Z) (n : Native) : bool :=
  match jvm n with
  | None => false
  | Some _ =>
      if negb (attaches j) then false
      else match vpn_service n with
        | None => false
        | Some service =>
            match call_method j service "protectSocketForNative" [JInt fd] with
            | Some value => value
            | None => default false (call_method j service "protect" [JInt fd])
            end
        end
  end.

Definition bind_socket_to_network (j : Java) (fd : Z) (bind_address : string) (n : Native) : bool :=
  match jvm n with
  | None => false
  | Some _ =>
      if negb (attaches j) then false
      else match vpn_service n with
        | None => false
        | Some service =>
            if negb (makes_strings j) then false
            else default false (call_method j service "bindSocketToNetworkForNative" [JInt fd; JText bind_address])
        end
  end.

(** ** Configurations *)

(** The configuration of a session as the dialler gets it: over the defaults of the client, with both
    callbacks *)
Definition client_section (c : AndroidConfig) (invite : string) : ClientSection :=
  {| cc_device_name := "android-client"; cc_tun_name := cc_tun_name default_client_section;
     cc_server_public_address := cfg_public_address c; cc_server_resolved_address := cfg_resolved_address c;
     cc_server_websocket_address := cfg_websocket_address c; cc_path_bind_addresses := path_bind_addresses c;
     cc_server_public_key := cfg_server_key c; cc_invite_token := invite;
     cc_preferred_protocols := preferred_protocols c;
     cc_allow_insecure_debug_transports := allow_insecure_debug_transports c;
     cc_private_key_path := private_key_path c; cc_public_key_path := public_key_path c;
     cc_tls_cert_fingerprint := cc_tls_cert_fingerprint default_client_section;
     cc_wireguard_server_public_key := cc_wireguard_server_public_key default_client_section;
     cc_peer_share_enabled := peer_share_enabled c; cc_peer_share_bind_address := peer_share_bind_address c;
     cc_peer_share_advertise_ip := peer_share_advertise_ip c |}.

Definition session_client_config (c : AndroidConfig) : ClientConfig :=
  {| client := client_section c (cc_invite_token default_client_section); socket_protect := true;
     socket_network_bind := true |}.

(** The configuration of a redemption, which has no callbacks *)
Definition redeem_config (server_address server_public_key invite_token storage_dir : string) : ClientConfig :=
  {| client := client_section (android_client_config server_address EmptyString server_public_key storage_dir)
                 invite_token;
     socket_protect := false; socket_network_bind := false |}.

(** ** The calls *)

Definition bonded_ffi_api_version : Z := 1.
Definition nativeApiVersion : Z := bonded_ffi_api_version.

(** The arguments as the library gets them; [None]: the string of Java cannot be read. *)
Record RedeemArgs := {
  ra_server_address : option string;
  ra_server_public_key : option string;
  ra_invite_token : option string;
  ra_storage_dir : option string
}.
Record StartArgs := {
  sa_service : option nat;
  sa_server_address : option string;
  sa_resolved_server_address : option string;
  sa_server_public_key : option string;
  sa_protocol_csv : option string;
  sa_path_count : Z;
  sa_bind_addresses_json : option string;
  sa_peer_share_enabled : Z;
  sa_peer_share_bind_address : option string;
  sa_peer_share_advertise_ip : option string;
  sa_storage_dir : option string
}.

Section calls.
Context `{Crypto} `{JsonText}.
Variable home : option string.
(** How an error is displayed *)
Variable show : DialError -> string.

Definition redeem_invite_token (server_address server_public_key invite_token storage_dir : string) : dial unit :=
  _ ← establish_naive_tcp_session home (redeem_config server_address server_public_key invite_token storage_dir);
  mret tt.

Definition redeem_failed_message (err server_address invite_token : string) : string :=
  "nativeRedeemInviteToken failed: " +:+ err +:+ "; server_address=" +:+ server_address +:+
  "; token_len=" +:+ pretty (Z.of_nat (String.length invite_token)).

(** In the environment [e]; [runtime]: the error if no runtime can be made.  What happened on the network,
    the result ([None]: the process is aborted by a panic) and what is left *)
Definition nativeRedeemInviteToken (a : RedeemArgs) (runtime : option string) (e : env) (w : World) (n : Native)
  : list event * option Z * Native * World :=
  match ra_server_address a, ra_server_public_key a, ra_invite_token a, ra_storage_dir a with
  | Some server_address, Some server_public_key, Some invite_token, Some storage_dir =>
      match runtime with
      | Some err => ([], Some 0, set_last_error (Some (redeem_failed_message err server_address invite_token)) n, w)
      | None =>
          let '(t, r, w) := exec e [] (redeem_invite_token server_address server_public_key invite_token storage_dir w) in
          match r with
          | Ok _ => (t, Some 1, set_last_error None n, w)
          | Err err =>
              (t, Some 0, set_last_error (Some (redeem_failed_message (show err) server_address invite_token)) n, w)
          | Panic => (t, None, n, w)
          end
      end
  | _, _, _, _ => ([], Some 0, n, w)
  end.

(** [makes]: whether the string for Java can be made; [None] is the null pointer. *)
Definition nativeLastError (makes : bool) (n : Native) : option string :=
  let message := default "unknown native error" (last_native_error n) in
  if makes then Some message else None.

Definition nativeStartSession (a : StartArgs) (n : Native) : Z * Native :=
  let n := match sa_service a with Some r => set_service (Some r) n | None => n end in
  let parsed :=
    server_address ← sa_server_address a;
    resolved ← sa_resolved_server_address a;
    key ← sa_server_public_key a;
    protocols ← sa_protocol_csv a;
    binds ← sa_bind_addresses_json a;
    share_bind ← sa_peer_share_bind_address a;
    share_ip ← sa_peer_share_advertise_ip a;
    dir ← sa_storage_dir a;
    Some (session_config (android_client_config server_address resolved key dir) protocols binds
            (negb (sa_peer_share_enabled a =? 0)) share_bind share_ip) in
  match parsed with
  | Some c =>
      (1, {| jvm := jvm n; vpn_service := vpn_service n; last_native_error := last_native_error n;
             android := start_android_session c (android n);
             path_counts := path_counts n ++ [Z.max (sa_path_count a) 1] |})
  | None => (0, n)
  end.

Definition nativeStopSession (n : Native) : Native :=
  set_service None (set_android (stop_android_session (android n)) n).

(** [None]: the array of Java cannot be read. *)
Definition nativeHandleTunOutbound (packet : option (list Z)) (n : Native) : Z * Native :=
  match packet with
  | Some packet =>
      let (ok, a) := queue_outbound_packet packet (android n) in ((if ok then 1 else 0), set_android a n)
  | None => (0, n)
  end.

Definition nativeSetTunFd (fd : Z) (dup_ok : bool) (n : Native) : Z * Native :=
  let (ok, a) := set_android_tun_fd fd dup_ok (android n) in ((if ok then 1 else 0), set_android a n).

(** [makes]: whether the array for Java can be made; the packet is taken from the queue in any case. *)
Definition nativePollTunInbound (makes : bool) (n : Native) : option (list Z) * Native :=
  let (packet, a) := poll_inbound_packet (android n) in
  (match packet with Some p => if makes then Some p else None | None => None end, set_android a n).

Definition nativeGetSessionSnapshot (makes : bool) (n : Native) : option string :=
  match get_session_snapshot_json (android n) with
  | Some snapshot => if makes then Some snapshot else None
  | None => None
  end.
End calls.

(** ** Histories *)

Definition transport_of (p : string * ClientPath) : ClientTransport ClientPath :=
  match p.2 with
  | NaiveTcpPath _ => CNaiveTcp p.2
  | WebSocketPath _ => CWebSocket p.2
  | QuicPath _ => CQuic p.2
  | WireGuardPath _ _ _ _ _ => CWireGuard p.2
  end.

(** The calls of the application, the end of a worker's dialling in an environment ([in_time]: within its
    limit), and its other steps *)
Inductive native_call :=
  | CLoad (vm : nat)
  | CRedeem (a : RedeemArgs) (runtime : option string) (e : env) (w : World)
  | CLastError
  | CStart (a : StartArgs)
  | CStop
  | COutbound (packet : option (list Z))
  | CSetFd (fd : Z) (dup_ok : bool)
  | CPoll (makes : bool)
  | CSnapshot
  | CDialled (i : nat) (e : env) (w : World) (in_time : bool) (now_ms : Z) (panic : string)
  | CWorker (i : nat) (e : worker_event ClientPath) (panic : string).

Section history.
Context `{Crypto} `{JsonText} `{!Sha256} `{!X25519} `{!ServerNames} `{!WsUri}.
Variable home : option string.
Variable show : DialError -> string.

(** The dialling of a session's worker *)
Definition session_dial (c : AndroidConfig) (count : Z) : dial (list (string * ClientPath)) :=
  dial_transport_paths home (session_client_config c) (Z.to_nat count).

Definition dial_event (e : env) (w : World) (in_time : bool) (now_ms : Z) (panic : string) (c : AndroidConfig) (count : Z)
  : worker_event ClientPath :=
  if in_time then
    Established (Some (match (exec e [] (session_dial c count w)).1.2 with
                       | Ok l => Ok (transport_of <$> l)
                       | Err err => Err (show err)
                       | Panic => Panic
                       end)) now_ms panic
  else Established None now_ms panic.

(** A step of the worker of session [i] *)
Definition native_worker (panic : string) (i : nat) (e : AndroidSession ClientPath -> worker_event ClientPath) (n : Native)
  : option Native :=
  s ← sessions (android n) !! i;
  '(s', t') ← worker_step_caught panic (e s) s (tun (android n));
  Some (set_android {| sessions := <[i := s']> (sessions (android n)); slot := slot (android n); tun := t' |} n).

Definition native_exec (c : native_call) (n : Native) : option Native :=
  match c with
  | CLoad vm => Some (JNI_OnLoad vm n).2
  | CRedeem a runtime e w => let '(_, r, n, _) := nativeRedeemInviteToken home show a runtime e w n in _ ← r; Some n
  | CLastError | CSnapshot => Some n
  | CStart a => Some (nativeStartSession a n).2
  | CStop => Some (nativeStopSession n)
  | COutbound packet => Some (nativeHandleTunOutbound packet n).2
  | CSetFd fd dup_ok => Some (nativeSetTunFd fd dup_ok n).2
  | CPoll makes => Some (nativePollTunInbound makes n).2
  | CDialled i e w in_time now_ms panic =>
      count ← path_counts n !! i;
      native_worker panic i (fun s => dial_event e w in_time now_ms panic (config s) count) n
  | CWorker i (Established _ _ _) _ => None
  | CWorker i e panic => native_worker panic i (fun _ => e) n
  end.

Fixpoint native_run (l : list native_call) (n : Native) : option Native :=
  match l with
  | [] => Some n
  | c :: l => n ← native_exec c n; native_run l n
  end.

(** The answers of the platform to a dialling worker: those of the callbacks, in the state the library is in
    when they are asked *)
Definition platform (java : list event -> Java) (state_at : list event -> Native) (e : env) : Prop :=
  forall t s,
    e t (Protect s) = protect_fd (java t) (Z.of_nat s) (state_at t) /\
    forall a, e t (NetworkBind s a) = bind_socket_to_network (java t) (Z.of_nat s) a (state_at t).

(** The service agrees to protect the socket. *)
Definition agrees (j : Java) (service s : nat) : Prop :=
  call_method j service "protectSocketForNative" [JInt (Z.of_nat s)] = Some true \/
  (call_method j service "protectSocketForNative" [JInt (Z.of_nat s)] = None /\
   call_method j service "protect" [JInt (Z.of_nat s)] = Some true).

(** After these calls the library was loaded, and a start that gave it the reference to the service was not
    followed by a stop or by another start that gave one. *)
Definition holds_service (l : list native_call) (service : nat) : Prop :=
  (exists vm, CLoad vm ∈ l) /\
  exists before a after, l = before ++ CStart a :: after /\ sa_service a = Some service /\
    Forall (fun c => match c with CStop => False | CStart a => sa_service a = None | _ => True end) after.
End history.

(** * Lemmas *)

(** ** The globals *)

Section globals.
Context `{Crypto} `{JsonText} `{!Sha256} `{!X25519} `{!ServerNames} `{!WsUri}.
Variable home : option string.
Variable show : DialError -> string.

Lemma native_worker_globals panic i e n n' :
  native_worker panic i e n = Some n' ->
  jvm n' = jvm n /\ vpn_service n' = vpn_service n /\ path_counts n' = path_counts n.
Proof.
  unfold native_worker. destruct (sessions (android n) !! i) as [s|]; [|done]. cbn.
  destruct (worker_step_caught _ _ _ _) as [[s' t']|]; [|done]. cbn. by intros [= <-].
Qed.

(** Only the loading of the library sets the virtual machine; only a start and a stop change the service. *)
Lemma native_exec_globals c n n' :
  native_exec home show c n = Some n' ->
  jvm n' = match c with CLoad vm => Some (default vm (jvm n)) | _ => jvm n end /\
  vpn_service n' =
    match c with
    | CStop => None
    | CStart a => match sa_service a with Some r => Some r | None => vpn_service n end
    | _ => vpn_service n
    end.
Proof.
  destruct c as [vm|a rt e w| |a| |packet|fd ok|makes| |i e w in_time now|i e]; cbn [native_exec].
  - by intros [= <-].
  - unfold nativeRedeemInviteToken. repeat case_match; intros Hn; simplify_eq/=; try done.
  - by intros [= <-].
  - intros [= <-]. unfold nativeStartSession.
    destruct (sa_service a), (_ ≫= _); done.
  - by intros [= <-].
  - unfold nativeHandleTunOutbound. destruct packet as [p|]; [destruct (queue_outbound_packet _ _)|]; by intros [= <-].
  - unfold nativeSetTunFd. destruct (set_android_tun_fd _ _ _). by intros [= <-].
  - unfold nativePollTunInbound. destruct (poll_inbound_packet _). by intros [= <-].
  - by intros [= <-].
  - destruct (path_counts n !! i); [|done]. cbn. by intros (-> & -> & _)%native_worker_globals.
  - destruct e; try done; by intros (-> & -> & _)%native_worker_globals.
Qed.

Lemma native_run_app l l' n :
  native_run home show (l ++ l') n = native_run home show l n ≫= native_run home show l'.
Proof.
  revert n. induction l as [|c l IH]; intros n; [done|]. cbn [native_run app].
  destruct (native_exec home show c n); [|done]. cbn. apply IH.
Qed.

Lemma native_run_globals l n :
  native_run home show l native_new = Some n ->
  (jvm n <> None -> exists vm, CLoad vm ∈ l) /\
  (forall r, vpn_service n = Some r -> exists before a after, l = before ++ CStart a :: after /\ sa_service a = Some r /\
     Forall (fun c => match c with CStop => False | CStart a => sa_service a = None | _ => True end) after).
Proof.
  revert n. induction l as [|c l IH] using rev_ind; intros n.
  - intros [= <-]. done.
  - rewrite native_run_app. destruct (native_run home show l native_new) as [n1|]; [|done]. cbn.
    destruct (native_exec home show c n1) as [n2|] eqn:He; [|done]. cbn. intros [= <-].
    destruct (native_exec_globals _ _ _ He) as [Hj Hs]. destruct (IH n1 eq_refl) as [IHj IHs]. split.
    + rewrite Hj. destruct c; try (intros Hn; destruct (IHj Hn) as [vm Hvm]; exists vm; set_solver).
      intros _. exists vm. set_solver.
    + intros r. rewrite Hs.
      assert (Hkeep : forall r, vpn_service n1 = Some r -> match c with CStop => False | CStart a => sa_service a = None | _ => True end ->
        exists before a after, l ++ [c] = before ++ CStart a :: after /\ sa_service a = Some r /\
          Forall (fun c => match c with CStop => False | CStart a => sa_service a = None | _ => True end) after).
      { intros r0 Hr Hc. destruct (IHs r0 Hr) as (before & a & after & -> & Ha & Hf).
        exists before, a, (after ++ [c]). rewrite <- app_assoc. split; [done|]. split; [done|].
        apply Forall_app. split; [done|]. by repeat constructor. }
      destruct c; try (intros Hr; by apply Hkeep).
      destruct (sa_service a) as [r0|] eqn:Ha; [|intros Hr; by apply Hkeep].
      intros [= <-]. exists l, a, []. split; [done|]. split; [done | constructor].
Qed.
End globals.

(** ** Dialling *)

Lemma exec_prefix {A} (e : env) (p : prog A) t : t `prefix_of` (exec e t p).1.1.
Proof.
  revert t. induction p as [a w|op w k IH]; intros t; cbn [exec]; [done|].
  etransitivity; [|apply IH]. by apply prefix_app_r.
Qed.

(** Each event of an execution is answered by the environment. *)
Lemma exec_answers {A} (e : env) (p : prog A) t t1 ev t2 :
  (exec e t p).1.1 = t1 ++ ev :: t2 -> (length t <= length t1)%nat ->
  match ev with Ev op x => x = e t1 op end.
Proof.
  revert t. induction p as [a w|op w k IH]; intros t; cbn [exec].
  - cbn. intros -> Hl. rewrite length_app in Hl. simpl in Hl. lia.
  - intros Ht Hl. destruct (decide (length t1 = length t)) as [He|Hne].
    + destruct (exec_prefix e (k (e t op)) (t ++ [Ev op (e t op)])) as [u Hu]. rewrite Ht, <- app_assoc in Hu.
      apply app_inj_1 in Hu as [-> Hu]; [|done]. simpl in Hu. by injection Hu as -> _.
    + eapply IH; [exact Ht|]. rewrite length_app. simpl. lia.
Qed.

(** Programs run whatever is permitted. *)
Abbreviation anything := (fun (_ : list event) (_ : net) => True).

Lemma wp_anything {A} (p : prog A) t : wp anything p t (fun t' _ _ => t `prefix_of` t').
Proof.
  revert t. induction p as [a w|op w k IH]; intros t; cbn [wp]; [done|]. split; [done|]. intros x.
  eapply wp_mono; [|apply IH]. cbn. intros t' _ _ Hp. etransitivity; [|exact Hp]. by apply prefix_app_r.
Qed.

Lemma holds_anything {A} t (m : dial A) w : holds anything t m w (fun _ _ => True).
Proof. eapply wp_mono; [|apply wp_anything]. cbn. done. Qed.

Section dialling_lemmas.
Context `{Crypto} `{JsonText} `{!Sha256} `{!X25519} `{!ServerNames} `{!WsUri}.
Variable home : option string.
Variable show : DialError -> string.

Lemma dial_paths_some c protocols n index paths t w :
  holds anything t (dial_paths home c protocols n index paths) w
    (fun l _ => paths <> [] \/ (n <> 0 /\ index = 0)%nat -> l <> []).
Proof.
  revert index paths t w. induction n as [|n IH]; intros index paths t w; cbn [dial_paths].
  - apply holds_ret. intros [Hp|[]]; [by apply Hp|done].
  - eapply holds_bind; [apply holds_anything|]. intros [p|] t1 w1 _ _.
    + eapply holds_mono; [apply IH|]. cbn. intros l t2 _ Hl _. apply Hl. left. by destruct paths.
    + destruct (Nat.eqb_spec index 0); [apply holds_fail|]. apply holds_ret. intros [Hp|[]]; [by apply Hp|done].
Qed.

(** A worker that has dialled has a path. *)
Lemma session_dial_some c count e w l :
  (exec e [] (session_dial home c count w)).1.2 = Ok l -> l <> [].
Proof.
  intros Hl. unfold session_dial, dial_transport_paths in Hl.
  pose proof (wp_exec anything e _ [] _ (dial_paths_some (session_client_config c)
    (sanitize_preferred_protocols (cc_preferred_protocols (client (session_client_config c)))
       (cc_allow_insecure_debug_transports (client (session_client_config c)))) (Nat.max (Z.to_nat count) 1) 0 [] [] w)) as Hw.
  destruct (exec e [] _) as [[t r] w']. destruct Hw as ((_ & Hr) & _). cbn in Hl. apply (Hr l Hl). lia.
Qed.

Lemma native_worker_step panic i e n n' :
  (forall s ts now text, e s = Established (Some (Ok ts)) now text -> ts <> []) ->
  native_worker panic i e n = Some n' -> android_step (android n) (android n').
Proof.
  intros He. unfold native_worker. destruct (sessions (android n) !! i) as [s|] eqn:Hs; [|done]. cbn.
  destruct (worker_step_caught _ _ _ _) as [[s' t']|] eqn:Hw; [|done]. cbn. intros [= <-]. cbn [android set_android].
  apply (step_worker panic i s (e s)); [done..|]. specialize (He s). destruct (e s) as [|[[]|]| | | | | | |]; eauto.
Qed.

(** The sessions move by the steps of Android.v. *)
Lemma native_exec_android c n n' :
  native_exec home show c n = Some n' -> android n' = android n \/ android_step (android n) (android n').
Proof.
  destruct c as [vm|a rt e w| |a| |packet|fd ok|makes| |i e w in_time now|i e]; cbn [native_exec].
  - intros [= <-]. by left.
  - unfold nativeRedeemInviteToken. repeat case_match; intros Hn; simplify_eq/=; by left.
  - intros [= <-]. by left.
  - intros [= <-]. unfold nativeStartSession.
    destruct (sa_service a), (_ ≫= _); cbn; auto; right; apply step_start.
  - intros [= <-]. right. apply step_stop.
  - unfold nativeHandleTunOutbound. destruct packet as [p|]; [|intros [= <-]; by left].
    pose proof (step_queue p (android n)) as Hs. destruct (queue_outbound_packet _ _). intros [= <-]. by right.
  - unfold nativeSetTunFd. pose proof (step_fd fd ok (android n)) as Hs. destruct (set_android_tun_fd _ _ _).
    intros [= <-]. by right.
  - unfold nativePollTunInbound. pose proof (step_poll (android n)) as Hs. destruct (poll_inbound_packet _).
    intros [= <-]. by right.
  - intros [= <-]. by left.
  - destruct (path_counts n !! i) as [count|]; [|done]. cbn. intros Hw. right. eapply native_worker_step; [|exact Hw].
    intros s ts now0 text. cbn. unfold dial_event. destruct in_time; [|done].
    destruct (exec e [] _).1.2 as [l|err|] eqn:Hl; [|done..]. intros [= <- _].
    apply session_dial_some in Hl. by destruct l.
  - intros Hw. right.
    destruct e; try done; (eapply native_worker_step; [|exact Hw]); done.
Qed.

Lemma native_run_android l n :
  native_run home show l native_new = Some n -> android_reachable (android n).
Proof.
  revert n. induction l as [|c l IH] using rev_ind; intros n.
  - intros [= <-]. apply reach_new.
  - rewrite native_run_app. destruct (native_run home show l native_new) as [n1|]; [|done]. cbn.
    destruct (native_exec home show c n1) as [n2|] eqn:He; [|done]. cbn. intros [= <-].
    specialize (IH n1 eq_refl). destruct (native_exec_android _ _ _ He) as [->|Hs]; [done|].
    by eapply reach_step.
Qed.

(** A socket that a worker connects was protected before. *)
Lemma session_dial_protected c count e w t1 op x t2 :
  (exec e [] (session_dial home c count w)).1.1 = t1 ++ Ev op x :: t2 ->
  match op with Connect s _ | QuicConnect s _ _ _ _ => Ev (Protect s) true ∈ t1 | _ => True end.
Proof.
  intros Ht. pose proof (wp_exec (permitted (session_client_config c)) e _ [] _
    (dials_all home (session_client_config c) [] w (Z.to_nat count))) as Hwp.
  unfold session_dial in Ht. destruct (exec e [] _) as [[t r] w']. destruct Hwp as (_ & _ & Hall).
  specialize (Hall t1 op x t2 Ht (Nat.le_0_l _)). destruct op; try done; by apply Hall.
Qed.

Lemma protect_fd_true j s n :
  protect_fd j (Z.of_nat s) n = true -> jvm n <> None /\ exists r, vpn_service n = Some r /\ agrees j r s.
Proof.
  unfold protect_fd, agrees. destruct (jvm n); [|done]. destruct (negb _); [done|].
  destruct (vpn_service n) as [r|]; [|done]. intros Hp. split; [done|]. exists r. split; [done|].
  destruct (call_method j r "protectSocketForNative" _) as [[]|]; [by left|done|]. right. split; [done|].
  destruct (call_method j r "protect" _) as [[]|]; done.
Qed.
End dialling_lemmas.

(** ** Redeeming *)

(** What a redemption does on the network: it looks up the address of the pairing and nothing else, no
    socket is protected and no channel encrypted. *)
Definition redeem_operation (server_address : string) (op : net) : Prop :=
  match op with
  | TlsConnect _ _ _ | QuicConnect _ _ _ _ _ | Protect _ => False
  | LookupHost target => target = server_address
  | _ => True
  end.

Definition unsent (ev : event) : Prop := match ev with Ev (SendText _ _) _ => False | _ => True end.

Section redeeming.
Context `{Crypto} `{JsonText}.
Variable home : option string.
Variables (server_address server_public_key invite_token storage_dir : string).

Abbreviation redeems := (holds (fun _ => redeem_operation server_address)).
Abbreviation config := (redeem_config server_address server_public_key invite_token storage_dir).

(** One operation that sends nothing *)
Ltac silent := eapply holds_mono;
  [first [apply holds_ask, holds_perform | apply holds_need, holds_perform | apply holds_perform]; cbn; done
  |cbn; intros ? ? _ ->; apply Forall_app; split; [assumption | by repeat constructor]].

Lemma redeems_address t w :
  Forall unsent t -> redeems t (lookup_server_address (naive_dial_address config) None) w (fun _ => Forall unsent).
Proof.
  intros Ht. unfold lookup_server_address. eapply holds_bind with (Q := fun _ => Forall unsent); [silent|].
  intros. by apply holds_lift.
Qed.

Lemma redeems_socket t w a : Forall unsent t -> redeems t (tcp_socket a) w (fun _ => Forall unsent).
Proof.
  intros Ht. unfold tcp_socket. eapply holds_bind with (Q := fun _ => Forall unsent); [by split; [|intros ? _]|].
  intros s t1 w1 _ Ht1. eapply holds_bind with (Q := fun _ => Forall unsent); [silent|]. intros. by apply holds_ret.
Qed.

Lemma redeems_keypair t w : Forall unsent t -> redeems t (device_keypair home config) w (fun _ => Forall unsent).
Proof.
  intros Ht. unfold device_keypair. eapply holds_bind with (Q := fun _ => Forall unsent); [silent|].
  intros random t1 w1 _ Ht1. unfold holds, load_device_keypair.
  match goal with |- context [load_or_create_device_keypair ?a ?b ?c ?d] => destruct (load_or_create_device_keypair a b c d) end.
  by split; [|intros ? _].
Qed.

(** A redemption that succeeds has sent the invite as the first thing and has then read a challenge. *)
Definition redeemed (t : list event) : Prop :=
  exists t1 s kp line sig rest,
    t = t1 ++ Ev (SendText s (json_print (hello_msg (public_key_b64 kp) invite_token) +:+ newline)) true ::
          Ev (RecvText s) (Some line) :: rest /\
    Forall unsent t1 /\ answer_challenge tcp_line kp line = Ok sig.

Lemma redeemed_prefix t t' : t `prefix_of` t' -> redeemed t -> redeemed t'.
Proof.
  intros [u ->] (t1 & s & kp & line & sig & rest & -> & Ht & Ha). exists t1, s, kp, line, sig, (rest ++ u).
  split; [|done]. by rewrite <- app_assoc.
Qed.

Lemma redeems_exchange t s kp w :
  Forall unsent t ->
  redeems t (exchange s (client_perform_auth_handshake kp invite_token)) w (fun _ => redeemed).
Proof.
  intros Ht. unfold client_perform_auth_handshake, client_exchange. cbn [exchange].
  eapply holds_bind; [apply holds_ask, holds_perform; done|]. cbn. intros _ t1 w1 _ ->.
  eapply holds_bind; [apply holds_need, holds_perform; done|]. cbn. intros line t2 w2 _ ->.
  unfold client_challenge. destruct (answer_challenge tcp_line kp line) as [sig|err|] eqn:Ha; cbn [exchange].
  - eapply holds_mono with (Q := fun _ _ => True).
    + eapply holds_bind; [apply holds_ask, holds_perform; done|]. cbn. intros _ t3 w3 _ _.
      eapply holds_bind; [apply holds_need, holds_perform; done|]. cbn. intros line2 t4 w4 _ _.
      unfold client_result. destruct (_ ≫= _) as [[]| |]; by apply holds_lift.
    + intros _ t' Hp _. eapply redeemed_prefix; [exact Hp|]. exists t, s, kp, line, sig, [].
      split; [by rewrite <- app_assoc | done].
  - by apply holds_lift.
  - by apply holds_lift.
Qed.

Lemma redeems_all w :
  redeems [] (redeem_invite_token home server_address server_public_key invite_token storage_dir) w (fun _ => redeemed).
Proof.
  unfold redeem_invite_token, establish_naive_tcp_session.
  eapply holds_bind with (Q := fun _ => redeemed); [|intros; by apply holds_ret].
  eapply holds_bind with (Q := fun _ => Forall unsent).
  { unfold address_required. destruct (is_empty _); [apply holds_fail | by apply holds_ret]. }
  intros _ t1 w1 _ Ht1. eapply holds_bind; [by apply redeems_address|].
  intros addr t2 w2 _ Ht2. eapply holds_bind; [by apply redeems_socket|].
  intros s t3 w3 _ Ht3. eapply holds_bind with (Q := fun _ => Forall unsent); [silent|].
  intros _ t4 w4 _ Ht4. eapply holds_bind with (Q := fun _ => Forall unsent); [by apply holds_ret|].
  intros _ t5 w5 _ Ht5. eapply holds_bind with (Q := fun _ => Forall unsent); [silent|].
  intros _ t6 w6 _ Ht6. unfold authenticate_naive_tcp_stream. eapply holds_bind; [by apply redeems_keypair|].
  intros kp t7 w7 _ Ht7. eapply holds_bind; [by apply redeems_exchange|]. intros. by apply holds_ret.
Qed.
End redeeming.

(** * Properties *)

Section properties.
Context `{Crypto} `{JsonText} `{!Sha256} `{!X25519} `{!ServerNames} `{!WsUri}.
Variable home : option string.
Variable show : DialError -> string.

(** C21: the sockets of a session stay out of the tunnel.  While a worker dials, the application may make any
    calls; whatever the network and Java do, a socket is connected only after a moment at which the library
    was loaded and held the reference to a service, from a start that no stop and no other reference had
    followed, and that service agreed to protect this socket (through its wrapper, or through the older method
    if the wrapper failed).  So from a stop to the next start no socket of a late worker gets permission. *)
Theorem session_sockets_protected (calls : list event -> list native_call) (state_at : list event -> Native)
    (java : list event -> Java) (e : env) (c : AndroidConfig) (count : Z) (w : World)
    (t1 t2 : list event) (op : net) (x : answer op) :
  (forall t, native_run home show (calls t) native_new = Some (state_at t)) ->
  platform java state_at e ->
  (exec e [] (session_dial home c count w)).1.1 = t1 ++ Ev op x :: t2 ->
  match op with
  | Connect s _ | QuicConnect s _ _ _ _ =>
      exists t0 service, t0 `prefix_of` t1 /\ holds_service (calls t0) service /\ agrees (java t0) service s
  | _ => True
  end.
Proof.
  intros Hrun Hp Ht.
  assert (Hkey : forall s, Ev (Protect s) true ∈ t1 ->
    exists t0 service, t0 `prefix_of` t1 /\ holds_service (calls t0) service /\ agrees (java t0) service s).
  { intros s (t0 & u & ->)%list_elem_of_split. rewrite <- app_assoc in Ht.
    pose proof (exec_answers e _ [] t0 (Ev (Protect s) true) _ Ht (Nat.le_0_l _)) as Ha. cbn in Ha.
    rewrite (proj1 (Hp t0 s)) in Ha. destruct (protect_fd_true _ _ _ (eq_sym Ha)) as (Hj & r & Hr & Hag).
    destruct (native_run_globals home show _ _ (Hrun t0)) as [Hvm Hserv].
    exists t0, r. split; [by apply prefix_app_r|]. split; [|done]. split; [by apply Hvm | by apply Hserv]. }
  pose proof (session_dial_protected home c count e w t1 op x t2 Ht) as Hprot. destruct op; auto.
Qed.

(** The library implements the session of Android.v: whatever the application calls and whatever the
    networks answer to dialling workers, the sessions are in a state their model reaches (so that the reported
    status is the worker's and packets keep their order), the service held is the one of the last start since
    the last stop, and a snapshot is that of the current session. *)
Theorem native_refines_android (l : list native_call) (n : Native) :
  native_run home show l native_new = Some n ->
  android_reachable (android n) /\
  (forall r, vpn_service n = Some r -> jvm n <> None -> holds_service l r) /\
  (nativeGetSessionSnapshot true n = (fun s => snapshot_json (snapshot s)) <$> current (android n)).
Proof.
  intros Hn. split; [by eapply native_run_android|].
  destruct (native_run_globals home show _ _ Hn) as [Hvm Hserv]. split.
  - intros r Hr Hj. split; [by apply Hvm | by apply Hserv].
  - unfold nativeGetSessionSnapshot, get_session_snapshot_json. by destruct (current (android n)).
Qed.

(** The redemption of an invite uses the transport without encryption, which the configuration it makes
    does not allow: on every network no channel is encrypted, no certificate is looked at and no socket is
    protected; only the address of the pairing is looked up; and a redemption that succeeds has sent the
    invite and the device key as the first text, to whoever answered.  The error it leaves is the last one. *)
Theorem redeem_in_clear (a : RedeemArgs) (server_address key invite dir : string) (e : env) (w : World) (n : Native) :
  ra_server_address a = Some server_address -> ra_server_public_key a = Some key ->
  ra_invite_token a = Some invite -> ra_storage_dir a = Some dir ->
  let '(t, r, n', _) := nativeRedeemInviteToken home show a None e w n in
  cc_allow_insecure_debug_transports (client (redeem_config server_address key invite dir)) = false /\
  (forall t1 op x t2, t = t1 ++ Ev op x :: t2 -> redeem_operation server_address op) /\
  (r = Some 1 -> redeemed invite t /\ nativeLastError true n' = Some "unknown native error") /\
  (r = Some 0 -> exists err, nativeLastError true n' = Some (redeem_failed_message (show err) server_address invite)).
Proof.
  intros Ha Hk Hi Hd. unfold nativeRedeemInviteToken. rewrite Ha, Hk, Hi, Hd.
  pose proof (wp_exec _ e _ [] _ (redeems_all home server_address key invite dir w)) as Hw.
  destruct (exec e [] _) as [[t r] w']. destruct Hw as ((_ & Hr) & _ & Hall).
  assert (Hops : forall t1 op x t2, t = t1 ++ Ev op x :: t2 -> redeem_operation server_address op).
  { intros t1 op x t2 Ht. apply (Hall t1 op x t2 Ht). simpl. lia. }
  destruct r as [[]|err|]; (split_and!; [done|exact Hops|..]); try done.
  - intros _. split; [by apply (Hr tt) | done].
  - intros _. by exists err.
Qed.
End properties.

(** ** Witnesses *)

Module Sample.
#[local] Existing Instances AuthHandshake.Sample.crypto Json.Sample.json_text Dial.Sample.names Bootstrap.Sample.digest.
#[local] Instance x25519 : X25519 := fun l => l.
#[local] Instance ws_uri : WsUri := fun _ => None.

Definition start_args : StartArgs :=
  {| sa_service := Some 5%nat; sa_server_address := Some "vpn.example:443"; sa_resolved_server_address := Some "";
     sa_server_public_key := Some "key"; sa_protocol_csv := Some "naive_tcp"; sa_path_count := 0;
     sa_bind_addresses_json := Some ""; sa_peer_share_enabled := 0; sa_peer_share_bind_address := Some "";
     sa_peer_share_advertise_ip := Some ""; sa_storage_dir := Some "/data" |}.
Definition show (e : DialError) : string := match e with DHandshake _ => "handshake" | _ => "network" end.
Definition calls : list native_call := [CLoad 1; CStart start_args].
Definition started : Native := default native_new (native_run None show calls native_new).
(** A Java side without the wrapper *)
Definition java : Java :=
  {| attaches := true; makes_strings := true;
     call_method service method args := if bool_decide (method = "protect") then Some true else None |}.
Definition server : SocketAddr := {| ip := V4 (192, 0, 2, 1); port := 443 |}.
(** A network where everything works, and a server that lets the device in *)
Definition network : env := fun t op =>
  match op as o return answer o with
  | Random => replicate 32 7
  | RandomIndex => 0
  | TimeLimit => 50%nat
  | LookupHost _ => Some [server]
  | Protect s => protect_fd java (Z.of_nat s) started
  | NetworkBind s a => bind_socket_to_network java (Z.of_nat s) a started
  | TlsConnect _ _ _ => None
  | QuicConnect _ _ _ _ _ => None
  | HttpExchange _ _ => None
  | H3Request _ _ _ _ => None
  | RecvText _ =>
      if Nat.eqb (recvs t) 0 then Some (json_print (challenge_msg (create_auth_challenge [1; 2; 3])) +:+ newline)
      else Some (json_print (status_msg "ok") +:+ newline)
  | _ => true
  end.
Definition world : World := {| fs := {| files := ∅; read_fails := ∅; write_fails := ∅ |}; sockets := 0 |}.
Definition dialled_config : AndroidConfig :=
  match current (android started) with Some s => config s | None => android_client_config "" "" "" "" end.
Definition trace : list event := (exec network [] (session_dial None dialled_config 1 world)).1.1.

Lemma session_sockets_protected_witness :
  exists t1 x t2, trace = t1 ++ Ev (Connect 0 server) x :: t2 /\
  exists t0 service, t0 `prefix_of` t1 /\ holds_service calls service /\ agrees java service 0.
Proof.
  exists (take 5 trace), true, (drop 6 trace). split; [vm_compute; reflexivity|].
  apply (session_sockets_protected None show (fun _ => calls) (fun _ => started) (fun _ => java) network
    dialled_config 1 world (take 5 trace) (drop 6 trace) (Connect 0 server) true).
  - intros t. vm_compute. reflexivity.
  - intros t s. split; [reflexivity | intros a; reflexivity].
  - vm_compute. reflexivity.
Defined.

(** The worker has dialled, packets are queued. *)
Definition connected_calls : list native_call :=
  calls ++ [CDialled 0 network world true 1000 EmptyString; COutbound (Some [1; 2]); COutbound None; CPoll true].
Definition online : Native := default native_new (native_run None show connected_calls native_new).

Lemma native_refines_android_witness :
  android_reachable (android online) /\ holds_service connected_calls 5 /\
  exists text, nativeGetSessionSnapshot true online = Some text.
Proof.
  destruct (native_refines_android None show connected_calls online) as (Hr & Hs & Hj).
  - vm_compute. reflexivity.
  - split; [exact Hr|]. split; [apply Hs; vm_compute; [reflexivity | discriminate]|]. rewrite Hj. vm_compute. by eexists.
Defined.

Example online_over_tcp : nativeGetSessionSnapshot true (default native_new (native_exec None show CStop online)) = None /\
  active_transport (from_option snapshot (new_snapshot "") (current (android online))) = "NaiveTCP".
Proof. vm_compute. done. Qed.

Definition redeem_args : RedeemArgs :=
  {| ra_server_address := Some "vpn.example:443"; ra_server_public_key := Some "key"; ra_invite_token := Some "invite";
     ra_storage_dir := Some "/data" |}.
Definition redeeming : list event * option Z * Native * World :=
  nativeRedeemInviteToken None show redeem_args None network world started.

Lemma redeem_in_clear_witness :
  redeeming.1.1.2 = Some 1 /\ redeemed "invite" redeeming.1.1.1.
Proof.
  assert (H1 : redeeming.1.1.2 = Some 1) by (vm_compute; reflexivity). split; [exact H1|].
  pose proof (redeem_in_clear None show redeem_args "vpn.example:443" "key" "invite" "/data" network world started
    eq_refl eq_refl eq_refl eq_refl) as Hr. fold redeeming in Hr.
  destruct redeeming as [[[t r] n'] w']. destruct Hr as (_ & _ & Hr & _). exact (proj1 (Hr H1)).
Defined.
End Sample.
