(* ===== verification/Pairing.v ===== *)
(** Pairing a phone with the code of the server: the payload of [src/crates/bonded-server/src/pairing_qr.rs]
    (EndToEnd.v), its redemption by the Android library (Native.v), and the bootstrap listener that answers at
    the payload's address (Accept.v), put together. *)

From stdpp Require Import base tactics list gmap strings pretty.
From Stdlib Require Import ZArith Lia Ascii.
From S2P Require Import Prelude Words Text Json Auth Stores AuthHandshake WgServer Startup Session PeerShare Routing Bootstrap NetAddr Client PeerRuntime Dial Admission Acme EndToEnd Accept Native.
Open Scope Z_scope.

(** * Definitions *)

(** What has been sent on a socket *)
Definition sent_bytes (s : nat) (ev : event) : list Z :=
  match ev with
  | Ev op x =>
      match op as o return answer o -> list Z with
      | SendText s' m => fun ok : bool => if ok && Nat.eqb s' s then string_bytes m else []
      | _ => fun _ => []
      end x
  end.
Definition heard (s : nat) (t : list event) : list Z := concat (sent_bytes s <$> t).

(** Documented behaviour of TLS (RFC 8446, 5.1) and of JSON (RFC 8259): a connection that does not begin with a
    handshake record is not accepted and gets at most an alert; an object begins with a brace; a text that
    begins with the first byte of an alert is not JSON. *)
Class TlsLaws `{!TlsLib} := tls_needs_record : forall k chunks b rest,
  concat chunks = b :: rest -> b <> 22 ->
  match tls_accept k (Some <$> chunks) with
  | TlsAccepted _ _ => False
  | TlsWaiting out | TlsRefused out => out = [] \/ exists o, out = 21 :: o
  end.
Class JsonBraces `{JsonText} := {
  object_brace : forall fields, exists s, json_print (JObj fields) = String "{" s;
  alert_not_json : forall s, json_parse (String "021" s) = None
}.

Section listening.
Context `{Crypto} `{JsonText} `{Toml WireGuardPeersFile}
  `{!Authority} `{!Sha256} `{!TlsLib}.
Variables (ctx : BootstrapContext) (slot : option CertifiedKey).

(** The bytes the client of a connection can read: the answer to a request, what a TLS handshake says; an
    encrypted or upgraded connection may say anything. *)
Definition on_the_wire (i : BootstrapIncoming) (gw : Gateway) (bytes : list Z) : Prop :=
  match bootstrap_task ctx slot i gw with
  | (out, TlsHandshake, _) | (out, TlsFailed, _) => bytes = out
  | (out, r, _) =>
      match slot with
      | Some _ => True
      | None =>
          match r with
          | ReadingRequest | RequestFailed _ => bytes = []
          | RequestAnswered response => bytes = response
          | _ => True
          end
      end
  end.

(** The bootstrap listener answers on every socket, in whatever state it is and however it reads what was sent:
    a text that is received begins what the listener has written by then.  The client waits, so that no
    end of the stream is read. *)
Definition answered_by_listener (e : env) : Prop :=
  forall t s line, e t (RecvText s) = Some line ->
  exists i gw chunks bytes, bi_reads i = Some <$> chunks /\ concat chunks = heard s t /\ Forall (fun d => d <> []) chunks /\
    on_the_wire i gw bytes /\ string_bytes line `prefix_of` bytes.
End listening.

(** * Lemmas *)

Lemma no_terminator buf : 13 ∉ buf -> find_header_terminator buf = None.
Proof.
  induction buf as [|b buf IH]; intros Hb; [done|]. cbn [find_header_terminator strip_list].
  destruct (Z.eqb_spec 13 b) as [<-|]; [set_solver|]. rewrite IH by set_solver. done.
Qed.

(** Reading something without a carriage return never completes a request. *)
Lemma read_headers_waits buf chunks :
  13 ∉ buf ++ concat chunks -> Forall (fun d => d <> []) chunks ->
  read_headers buf (Some <$> chunks) = Waiting \/ read_headers buf (Some <$> chunks) = Finished (Err HeadersTooLong).
Proof.
  revert buf. induction chunks as [|d chunks IH]; intros buf Hn Hne; cbn [read_headers fmap list_fmap].
  - case_match; auto.
  - case_match; [auto|]. apply Forall_cons in Hne as [Hd Hne]. destruct d as [|b d]; [done|].
    cbn [concat] in Hn. rewrite no_terminator by set_solver. apply IH; [|done]. set_solver.
Qed.

Lemma no_char_bytes s : no_char "013" s = true -> 13 ∉ string_bytes s.
Proof.
  induction s as [|a s IH]; [set_solver|]. cbn [no_char string_bytes]. intros [Ha Hs]%andb_prop.
  apply negb_true_iff, bool_decide_eq_false in Ha. apply not_elem_of_cons. split; [|auto].
  intros Heq. apply Ha. rewrite <- (ascii_N_embedding a), <- (N2Z.id (N_of_ascii a)), <- Heq. reflexivity.
Qed.

(** Trimming keeps the first character of a text that begins with an alert. *)
Lemma strip_list_keeps p l b l' :
  b ∉ p -> strip_list p (l ++ [b]) = Some l' -> exists l1, l' = l1 ++ [b].
Proof.
  revert l. induction p as [|a p IH]; intros l Hb; cbn [strip_list].
  - intros [= <-]. by exists l.
  - destruct l as [|x l]; cbn [app].
    + destruct (Z.eqb_spec a b) as [->|]; [set_solver | done].
    + destruct (a =? x); [|done]. apply IH. set_solver.
Qed.

Lemma strip_any_keeps ps l b l' :
  Forall (fun p => b ∉ p) ps -> strip_any ps (l ++ [b]) = Some l' -> exists l1, l' = l1 ++ [b].
Proof.
  induction 1 as [|p ps Hp _ IH]; [done|]. cbn [strip_any]. destruct (strip_list p (l ++ [b])) as [l1|] eqn:Hs; [|done].
  intros [= <-]. by eapply strip_list_keeps.
Qed.

Lemma strip_all_keeps n ps l b :
  Forall (fun p => b ∉ p) ps -> exists l1, strip_all n ps (l ++ [b]) = l1 ++ [b].
Proof.
  intros Hps. revert l. induction n as [|n IH]; intros l; cbn [strip_all]; [eauto|].
  destruct (strip_any ps (l ++ [b])) as [l'|] eqn:Hs; [|eauto].
  destruct (strip_any_keeps _ _ _ _ Hps Hs) as [l1 ->]. apply IH.
Qed.

Lemma trim_end_alert s : exists s', trim_end (String "021" s) = String "021" s'.
Proof.
  unfold trim_end, trim_end_bytes. change (string_bytes (String "021" s)) with (21 :: string_bytes s). cbn [rev].
  destruct (strip_all_keeps (length (21 :: string_bytes s)) (@rev Z <$> white_space) (rev (string_bytes s)) 21) as [l1 ->].
  - repeat (apply List.Forall_cons; [intros Hin; repeat (apply elem_of_cons in Hin as [Hin|Hin]; [discriminate Hin|]); by apply elem_of_nil in Hin|]).
    apply List.Forall_nil.
  - rewrite rev_app_distr. cbn. by eexists.
Qed.

(** A line is made of what was read. *)
Lemma read_line_begins buf evs line :
  (read_line_from_stream buf evs).1 = Ok line -> exists u, line = bytes_string (buf ++ u).
Proof.
  revert buf. induction evs as [|[b| |] evs IH]; intros buf; cbn [read_line_from_stream]; try done.
  - destruct (b =? 10).
    + cbn. destruct (utf8_valid _); [|done]. intros [= <-]. eauto.
    + destruct (_ <=? _)%nat; [done|]. intros (u & ->)%IH. exists (b :: u). by rewrite <- app_assoc.
  - by destruct buf.
Qed.

Lemma tcp_line_alert line :
  tcp_line (String "021" line) = (read_line_from_stream [21] (ReadByte <$> string_bytes line)).1.
Proof.
  unfold tcp_line. change (string_bytes (String "021" line)) with (21 :: string_bytes line).
  cbn [fmap list_fmap read_line_from_stream app]. change (21 =? 10) with false. cbn iota.
  assert (Hl : (MAX_AUTH_LINE_BYTES <=? length [21%Z])%nat = false) by reflexivity. by rewrite Hl.
Qed.

Section alerts.
Context `{Crypto} `{JsonBraces}.

Lemma alert_refused kp line sig : answer_challenge tcp_line kp (String "021" line) <> Ok sig.
Proof.
  unfold answer_challenge. rewrite tcp_line_alert.
  destruct (read_line_from_stream _ _).1 as [l| |] eqn:Hl; [|done..]. cbn.
  apply (read_line_begins [21] (ReadByte <$> string_bytes line)) in Hl as [u ->].
  change (bytes_string ([21] ++ u)) with (String "021" (bytes_string u)).
  destruct (trim_end_alert (bytes_string u)) as [s' ->]. by rewrite alert_not_json.
Qed.

Lemma nothing_refused kp sig : answer_challenge tcp_line kp EmptyString <> Ok sig.
Proof. done. Qed.
End alerts.

(** ** The hello at the listener *)

Section hello.
Context `{Crypto} `{JsonLaws} `{Toml WireGuardPeersFile}
  `{!Authority} `{!Sha256} `{TlsLaws} `{!JsonBraces}.
Variables (ctx : BootstrapContext) (slot : option CertifiedKey).

Lemma hello_begins key invite :
  exists rest, string_bytes (json_print (hello_msg key invite) +:+ newline) = 123 :: rest.
Proof. destruct (object_brace _ : exists s, json_print (hello_msg key invite) = String "{" s) as [s ->]. by eexists. Qed.

Lemma hello_has_no_cr key invite : 13 ∉ string_bytes (json_print (hello_msg key invite) +:+ newline).
Proof.
  apply no_char_bytes. rewrite no_char_app. by rewrite (proj2 (json_one_line (hello_msg key invite))).
Qed.

Lemma hello_not_a_request key invite i chunks gw :
  concat chunks = string_bytes (json_print (hello_msg key invite) +:+ newline) -> Forall (fun d => d <> []) chunks ->
  bootstrap_stream ctx (Some <$> chunks) i gw = (ReadingRequest, gw) \/
  bootstrap_stream ctx (Some <$> chunks) i gw = (RequestFailed HeadersTooLong, gw).
Proof.
  intros Hc Hne. unfold bootstrap_stream, handle_plain_connection, read_until_end_of_headers.
  destruct (read_headers_waits [] chunks) as [-> | ->]; auto.
  cbn [app]. rewrite Hc. apply hello_has_no_cr.
Qed.

(** The listener makes nothing of a hello, and all it may say is an alert. *)
Lemma hello_at_listener key invite i chunks gw bytes :
  bi_reads i = Some <$> chunks ->
  concat chunks = string_bytes (json_print (hello_msg key invite) +:+ newline) -> Forall (fun d => d <> []) chunks ->
  (bootstrap_task ctx slot i gw).2 = gw /\
  (on_the_wire ctx slot i gw bytes -> bytes = [] \/ exists o, bytes = 21 :: o).
Proof.
  intros Hi Hc Hne. unfold on_the_wire, bootstrap_task. rewrite Hi. destruct slot as [k|].
  - destruct (hello_begins key invite) as [rest Hr]. rewrite Hr in Hc.
    pose proof (tls_needs_record k chunks 123 rest Hc ltac:(lia)) as Ht.
    destruct (tls_accept k (Some <$> chunks)) as [out|out|]; [| |done]; (split; [done|]); by intros ->.
  - destruct (hello_not_a_request key invite i chunks gw Hc Hne) as [-> | ->]; (split; [done|]); by left.
Qed.
End hello.

Lemma heard_unsent s t : Forall unsent t -> heard s t = [].
Proof.
  induction 1 as [|[op x] t Hop _ IH]; [done|]. unfold heard in *. cbn [fmap list_fmap concat]. rewrite IH.
  by destruct op.
Qed.

Lemma bytes_string_inv line l : string_bytes line = l -> line = bytes_string l.
Proof. intros <-. by rewrite bytes_string_bytes. Qed.

Lemma payload_address x y z : json_get "server_public_address" (pairing_payload x y z) ≫= as_str = Some x.
Proof. reflexivity. Qed.
Lemma payload_invite x y z : json_get "invite_token" (pairing_payload x y z) ≫= as_str = Some y.
Proof. reflexivity. Qed.
Lemma payload_key x y z : json_get "server_public_key" (pairing_payload x y z) ≫= as_str = Some z.
Proof. reflexivity. Qed.

(** A text that begins an empty answer or an alert is no challenge. *)
Lemma no_challenge `{Crypto} `{JsonBraces} kp line sig bytes :
  string_bytes line `prefix_of` bytes -> bytes = [] \/ (exists o, bytes = 21 :: o) ->
  answer_challenge tcp_line kp line <> Ok sig.
Proof.
  intros [u Hu] Hb. destruct (string_bytes line) as [|b l] eqn:Hl; apply bytes_string_inv in Hl as ->.
  - apply nothing_refused.
  - destruct Hb as [->|[o ->]]; [done|]. injection Hu as <- _. apply alert_refused.
Qed.

(** A redemption that succeeded read a challenge, which the listener does not send. *)
Lemma listener_never_redeems `{Crypto} `{JsonLaws} `{Toml WireGuardPeersFile} `{!Authority} `{!Sha256} `{TlsLaws} `{!JsonBraces} ctx slot e {A} (p : prog A) invite :
  answered_by_listener ctx slot e -> ~ redeemed invite (exec e [] p).1.1.
Proof.
  intros Hl (t1 & s & kp & line & sig & rest & Ht & Hu & Hans).
  pose proof (exec_answers e p [] (t1 ++ [Ev (SendText s (json_print (hello_msg (public_key_b64 kp) invite) +:+ newline)) true])
    (Ev (RecvText s) (Some line)) rest) as Hrecv.
  rewrite <- app_assoc in Hrecv. specialize (Hrecv Ht (Nat.le_0_l _)). cbn in Hrecv.
  destruct (Hl _ _ _ (eq_sym Hrecv)) as (i & gw & chunks & bytes & Hi & Hc & Hne & Hw & Hp).
  unfold heard in Hc. rewrite fmap_app, concat_app in Hc. change (concat (sent_bytes s <$> t1)) with (heard s t1) in Hc.
  rewrite heard_unsent in Hc by done. cbn [fmap list_fmap concat app sent_bytes] in Hc.
  rewrite Nat.eqb_refl, app_nil_r in Hc. cbn [andb] in Hc.
  destruct (hello_at_listener ctx slot _ _ i chunks gw bytes Hi Hc Hne) as [_ Hb].
  by eapply no_challenge; [exact Hp|apply Hb|].
Qed.

(** * Properties *)

(** C40: pairing by the server's code fails.  The code carries the address of the HTTPS listener; the Android
    library redeems the invite there over the transport without encryption, which only the separate debug
    listener speaks.  Whatever the state of the server, with or without TLS, however the bytes arrive: if the
    bootstrap listener answers at the address of the code, no redemption succeeds, and the listener is left as
    it was, with no invite used. *)
Theorem qr_pairing_fails `{Crypto} `{JsonLaws} `{Toml WireGuardPeersFile} `{!Authority} `{!Sha256} `{TlsLaws} `{!JsonBraces}
    (home : option string) (show : DialError -> string) (qr : string -> bool) (c : ServerSection)
    (invite : InviteToken) (server_key payload : string) (j : json) (a : RedeemArgs)
    (ctx : BootstrapContext) (slot : option CertifiedKey) (e : env) (w : World) (n : Native) :
  emit_pairing_qr qr (https_public_addr c) invite server_key = Some payload ->
  json_parse payload = Some j ->
  ra_server_address a = json_get "server_public_address" j ≫= as_str ->
  ra_server_public_key a = json_get "server_public_key" j ≫= as_str ->
  ra_invite_token a = json_get "invite_token" j ≫= as_str ->
  answered_by_listener ctx slot e ->
  let '(t, r, _, _) := nativeRedeemInviteToken home show a None e w n in
  r <> Some 1 /\
  (forall t1 target x t2, t = t1 ++ Ev (LookupHost target) x :: t2 -> target = https_public_addr c) /\
  (forall key i chunks gw, bi_reads i = Some <$> chunks ->
     concat chunks = string_bytes (json_print (hello_msg key (token invite)) +:+ newline) ->
     Forall (fun d => d <> []) chunks -> (bootstrap_task ctx slot i gw).2 = gw).
Proof.
  intros Hqr Hj Ha Hk Hi Hl.
  assert (Hj' : j = pairing_payload (https_public_addr c) (token invite) server_key).
  { unfold emit_pairing_qr, build_pairing_payload_json in Hqr. destruct (is_empty _); [done|]. cbn in Hqr.
    destruct (qr _); [|done]. injection Hqr as <-. rewrite json_round in Hj; [by injection Hj|].
    apply flat_wf. apply (bool_decide_unpack _). vm_compute. exact I. }
  subst j. rewrite payload_address in Ha. rewrite payload_key in Hk. rewrite payload_invite in Hi.
  assert (Hhello : forall key i chunks gw, bi_reads i = Some <$> chunks ->
     concat chunks = string_bytes (json_print (hello_msg key (token invite)) +:+ newline) ->
     Forall (fun d => d <> []) chunks -> (bootstrap_task ctx slot i gw).2 = gw).
  { intros key i chunks gw Hi1 Hc1 Hn1. apply (hello_at_listener ctx slot key (token invite) i chunks gw [] Hi1 Hc1 Hn1). }
  unfold nativeRedeemInviteToken. rewrite Ha, Hk, Hi. destruct (ra_storage_dir a) as [dir|].
  - pose proof (listener_never_redeems ctx slot e
      (Native.redeem_invite_token home (https_public_addr c) server_key (token invite) dir w) (token invite) Hl) as Hno.
    pose proof (wp_exec _ e _ [] _ (redeems_all home (https_public_addr c) server_key (token invite) dir w)) as Hw.
    destruct (exec e [] _) as [[t r] w']. destruct Hw as ((_ & Hr) & _ & Hall).
    assert (Hops : forall t1 target x t2, t = t1 ++ Ev (LookupHost target) x :: t2 -> target = https_public_addr c).
    { intros t1 target x t2 Ht. apply (Hall t1 (LookupHost target) x t2 Ht). simpl. lia. }
    destruct r as [[]|err|]; (split_and!; [|exact Hops|exact Hhello]); try done.
    destruct Hno. by apply (Hr tt).
  - split_and!; [done| |exact Hhello]. intros t1 target x t2 Ht. by destruct t1.
Qed.

Module Sample.
#[local] Existing Instances AuthHandshake.Sample.crypto Json.Sample.json_text Json.Sample.json_laws
  WgServer.Sample.toml_peers Bootstrap.Sample.authority
  Bootstrap.Sample.digest Accept.Sample.tls_lib.

#[local] Instance tls_laws : TlsLaws.
Proof.
  intros k chunks b rest Hc Hb. destruct chunks as [|[|x d] chunks]; [done|by left|]. injection Hc as -> _.
  unfold tls_accept, Accept.Sample.tls_lib. cbn [fmap list_fmap].
  repeat case_match; simplify_eq; try (right; by eexists); try by left.
Qed.

#[local] Instance json_braces : JsonBraces.
Proof.
  split.
  - intros fields. by eexists.
  - intros s. cbn [json_parse Json.Sample.json_text]. unfold Json.Sample.parse_text.
    destruct (trim_end_alert s) as [s' ->]. reflexivity.
Qed.

Definition slot : option CertifiedKey := Some {| ck_leaf := [1; 2; 3]; ck_key := [9] |}.
Definition invite : InviteToken := {| token := "welcome"; expires_at := "never"; uses_remaining := 1 |}.
Definition cfg : ServerSection := EndToEnd.Sample.server_config.
Definition payload : string := json_print (pairing_payload (https_public_addr cfg) "welcome" "key").
Definition args : RedeemArgs :=
  {| ra_server_address := Some (https_public_addr cfg); ra_server_public_key := Some "key";
     ra_invite_token := Some "welcome"; ra_storage_dir := Some "/data" |}.

(** The TLS listener at the other end: an alert for whoever does not begin a handshake *)
Definition alert : string := bytes_string [21; 3; 3; 0; 2; 2; 10].
Definition network : env := fun t op =>
  match op as o return answer o with
  | RecvText s => match heard s t with [] => None | b :: _ => if b =? 123 then Some alert else None end
  | op => Native.Sample.network t op
  end.
Definition pairing : list event * option Z * Native * World :=
  nativeRedeemInviteToken None Native.Sample.show args None network Native.Sample.world native_new.

Lemma network_is_listener : answered_by_listener Admission.Sample.ctx slot network.
Proof.
  intros t s line Hr. cbn in Hr. destruct (heard s t) as [|b l] eqn:Hh; [done|].
  destruct (Z.eqb_spec b 123) as [->|]; [|done]. injection Hr as <-.
  exists (Accept.Sample.speaks 7 [Some (123 :: l)]), Admission.Sample.first_state, [123 :: l], [21; 3; 3; 0; 2; 2; 10].
  split_and!; [done|cbn [concat]; by rewrite app_nil_r|by repeat constructor|reflexivity|reflexivity].
Qed.

Lemma qr_pairing_fails_witness :
  emit_pairing_qr (fun _ => true) (https_public_addr cfg) invite "key" = Some payload /\
  pairing.1.1.2 <> Some 1 /\
  nativeLastError true pairing.1.2 = Some "nativeRedeemInviteToken failed: handshake; server_address=vpn.example:443; token_len=7".
Proof.
  split; [vm_compute; reflexivity|]. split; [|vm_compute; reflexivity].
  pose proof (qr_pairing_fails None Native.Sample.show (fun _ => true) cfg invite "key" payload
    (pairing_payload (https_public_addr cfg) "welcome" "key") args Admission.Sample.ctx slot network
    Native.Sample.world native_new) as Hf. fold pairing in Hf.
  destruct pairing as [[[t r] n] w]. refine (proj1 (Hf _ _ _ _ _ network_is_listener)); vm_compute; reflexivity.
Defined.
End Sample.
